(* ===== verification/_CoqProject ===== *)
-Q . S2P
Prelude.v
GoText.v
LspMessage.v
LspWindow.v
LspClient.v
LspServer.v
LspSystem.v
LspDelivery.v
LspWrites.v
LspLiveness.v
LspFailures.v
Transport.v
LspTransport.v
LspEcho.v
Utf8.v
Json.v
LspIO.v
LspTypes.v
LspNet.v
LspNetwork.v
MapReduce.v
MapReduceSpec.v
MapReduceSplit.v
WordCount.v
MapReduceMaster.v
MapReduceRun.v
MapReduceCluster.v
MapReduceProgress.v
WordCountMain.v
BufChan.v
Midterm.v
KvServer.v
BitcoinHash.v
BitcoinMiner.v
BitcoinCodec.v
BitcoinServer.v
BitcoinPairing.v
BitcoinSystem.v
BitcoinEnd.v
Interfaces.v
Programs.v
