(* ===== verification/Prelude.v ===== *)
(** * Verification of the Dsystem homework

    The repository holds the programs of a course on distributed systems.  This
    library models the Go code of its three projects and of its two single files,
    and proves what each part owes to the others.  Definitions carry the names of the
    functions they translate.  Unless said otherwise, a definition of a stateful
    part is one atomic move of one goroutine: [None] is a move that blocks or that
    its program does not take.  A run is [exec step s evs], the schedule [evs] is
    any list of moves, and a theorem about [reachable step s0 s], or about every
    [evs], is about every interleaving.

    ** The parts

    - Prelude.v, GoText.v, Utf8.v: integers with their wrap-around, buffered
      channels, runs of a step function, [strconv], UTF-8; the class [Codec] of an
      encoder with a decoder that inverts it.
    - Project 2, src/project-2/src/example.com/lsp: the LSP library.  LspMessage.v
      (message.go, params.go, status.go), LspWindow.v (the sliding window, written
      twice in the program, once in client_impl.go and once in server_impl.go),
      LspClient.v (client_impl.go: the application's calls, [receiver], [handler]),
      LspServer.v (server_impl.go: the calls, [receiver], [handle], one
      [handleClient] per connection), LspIO.v (io.go: the JSON packet and its
      buffer).  LspSystem.v puts one server, any number of clients and an
      adversarial network together; it delivers packets in any order, any number of
      times, late, never or with a shorter payload.  LspDelivery.v, LspWrites.v
      (against the calls of [Write], read off the schedule), LspLiveness.v, LspFailures.v
      and LspTypes.v are the theorems about that system.  LspNet.v is
      the fault injector of ../lspnet (addr.go, staff.go, net.go, conn.go) around
      Go's package [net].  LspNetwork.v is the system again, with its packets as
      texts that go through io.go and the fault injector, and its refinement to
      LspSystem.v.
    - Transport.v states what an application may ask of a transport, as the class
      [Transport], and composes applications with one.  LspTransport.v is the
      instance: the whole of LspSystem.v.  The applications are proved against the
      class and then instantiated: LspEcho.v (srunner, crunner) and the Bitcoin
      programs.
    - Project 2, src/project-2/src/example.com/bitcoin: BitcoinHash.v (hash.go,
      message.go; SHA-256 is written out), BitcoinCodec.v (the JSON of a message),
      BitcoinMiner.v (miner.go), BitcoinServer.v (the scheduler of server.go),
      BitcoinPairing.v (which result belongs to which request), BitcoinSystem.v (the
      server's two goroutines and four channels, the miners, client.go),
      BitcoinEnd.v (all of them over LSP).
    - Interfaces.v: the Go interfaces (lsp: client_api.go, server_api.go; p1:
      interface.go) as classes, the implementations as their instances, and what the
      comments of the interfaces ask of them.  Programs.v: the mains of both projects,
      from a command line to the service that runs or the lines printed.
    - Project 3, src/project-3/src/mapreduce: MapReduce.v (the sequential library of
      mapreduce.go over a file system of named files), Json.v (the intermediate
      files), MapReduceSpec.v and MapReduceSplit.v (what it computes),
      MapReduceMaster.v (master.go, and the loop of worker.go), MapReduceRun.v (the
      master with workers that share the files), MapReduceCluster.v (the same with
      the connections: the registration server, [call], the worker processes and the
      end of [Run]), MapReduceProgress.v (that such a run ends), WordCount.v (main/wc.go),
      WordCountMain.v (that program in each of its modes).
    - Project 1, src/project-1/src/example.com: KvServer.v (p1: server.go, kv.go,
      request.go, client.go; clist: the list of clients with its mutex).
    - BufChan.v (src/bufchan/buffchan.go) and Midterm.v (src/midterm.go).

    ** What is shown

    - LSP.  What the server reads is a prefix of what the client wrote, for every
      network and every schedule ([server_reads_prefix]); what a client reads is a
      prefix of what was passed to the server's [Write] for it, when that was called for
      connections that exist ([client_reads_prefix]).  A client that stops to close has
      delivered everything ([client_close_delivers]); of what the server's application
      wrote, the messages that its handler had not taken over yet are lost then, and no
      others while the connection is in the table ([server_close_delivers]).  Whatever has been
      lost, what a client has written can still arrive and be acknowledged, in a
      number of moves that the windows and the queue bound ([client_data_arrives]).  Every
      run over the fault-injecting network is one of these runs, while it does not
      lengthen payloads, and shortens only those it can shorten ([lspnet_refinement]).
      Identifiers are positive, unique and never reused ([connection_ids]); the number of
      unacknowledged messages and the range of their numbers stay within the window, and
      what has left it has been received ([window_bound]); the epoch
      limit ends a silent connection exactly when its comment says
      ([client_epoch_limit], [server_epoch_limit]); numbers stay in Go's [int] and
      the packet codec carries every message the system sends, as long as it fits the
      reader's buffer ([packets_typed], [lsp_io_roundtrip]).  Where the code does not do what its comments promise, a
      theorem says what it does: [duplicate_blocks_close],
      [closeconn_never_flushes], [newclient_never_fails],
      [server_close_never_returns], [write_after_loss].
    - End to end over LSP.  Every line of the echo client is the token it sent
      ([echo_replies]); a Bitcoin client is told the least hash of all the nonces
      that were tried for it ([bitcoin_answer]), from its command line to the line it
      prints ([bitcoin_command_line]).  Below that: the scheduler never loses
      a range while miners die ([scheduler_accounts]), answers a client once, with
      the best of its results ([scheduler_answers]), what a miner returns
      ([miner_answer]) and where ranges are lost ([chunks_cover],
      [scheduler_stalls]).
    - MapReduce.  [Split] keeps every line while no line is too long for its scanner
      ([split_correct]); [RunSingle] writes the specified report ([run_single_correct]); the
      word count counts words ([word_count_correct]), also when it is distributed, from
      its command line ([wc_correct]); a distributed run computes the
      report of the sequential one whatever workers fail ([distributed_correct]),
      also when every connection, the registrations and the end of the master are
      modelled ([cluster_correct]), and while no process dies it ends
      ([cluster_completes]); no job is lost or done early
      ([master_jobs]); the master always moves and ends ([master_completes],
      [master_terminates]), except when the last goroutine of a
      worker has failed: then the job it had waits for ever ([master_stranded]); registrations are answered exactly while it runs
      ([late_registration]).
    - Key/value server: every schedule is equivalent to executing the requests one by
      one, each connection's in their order, and what is queued for a connection that has
      left is never executed ([kv_linearizable]); a get returns the
      last set ([kv_read_last_write]); all connections are told the same answers in
      the same order ([kv_broadcast_order]).
    - bufchan is a FIFO that loses no wake-up ([bufchan_fifo],
      [bufchan_no_lost_wakeup]).

    ** Bounds and fuel

    - Runs are bounded by 2^62 moves where a counter of type [int] grows with each
      move; an [int] counter would wrap after 2^63 of them.
    - A recursion that is not structural takes the length of its input as fuel, and
      the round trip lemmas show that it is enough ([requests], the JSON decoders,
      [strings.FieldsFunc]).  The loop of a miner's goroutine has the number of
      nonces as fuel, a schedule chooses it, and the loop does not end with less.
    - [client_data_arrives] asks for a run below 2^57 moves; the schedule it gives has
      at most ten moves for each message in the windows and the queue, and one more.
    - [lspnet_refinement] is for runs with lengthening switched off, and, when shortening
      is ever switched on, for payloads of at least two bytes unless they are integers in
      decimal: a lengthened payload is delivered ([lengthened_is_read]), and a single other
      character is not shortened but replaced ([replaced_is_read]).  A packet that does not
      fit the reader's buffer arrives as an error of [ReadMessage].
    - [trigger] of the Bitcoin server holds 1024 values; [schedule] waits for ever at the
      next one ([trigger_deadlock]).
    - Inputs of the map-reduce library are below 2^61 bytes, jobs below 2^62, reduce
      jobs below 2^32 (the hash that selects one is a [uint32]).

    ** Hypotheses

    - [floorLog10], [ceilDiv] of the Bitcoin server and [floorLog] of the miner are
      Go's floating-point functions; the theorems ask that the first is between 0
      and 2^62 when its argument is above 10000, which it is ([floor_log10] is an
      instance).
    - [letter_table] is Go's table of letters beyond Latin-1; the replacement
      character is not one of them.
    - Go's package [net], the opening of a log file and the texts of the errors of
      [net] and [strconv] are parameters of LspNet.v and Programs.v.
    - Arguments of the programs are UTF-8 texts and integers of their Go types.

    ** Not modelled

    - The package lsp-ref, which is empty.
    - [flag.Parse] (the flags arrive with their values), the content of log files, and
      console output other than the lines of Programs.v and of lspnet's debug log.  A
      key/value server is started once.
    - The sockets: the network of LspSystem.v and the wire of LspNetwork.v
      stand for UDP, the connections of
      MapReduceCluster.v for Unix sockets with net/rpc on them, the byte streams of
      KvServer.v for TCP.
    - Reads of a split above 1 GB, which Go does in parts; the exit of the word count's
      process after the run.
    - JSON texts in another layout than the one the encoder writes: the decoders
      reject them.  No program of the repository writes one.
    - Time: an epoch, a timeout or the turn of a timer is an event that may come
      at any moment. *)
From Stdlib Require Export ZArith Lia.
From stdpp Require Export base option list gmap strings sets relations sorting.

#[global] Open Scope Z_scope.
#[global] Set Default Goal Selector "!".

(** ** Machine integers

    Go's [int] and [int64] are 64-bit two's complement on the platforms the
    program targets, [uint64] and [uint32] are unsigned.  A value of such a type
    is a [Z]; every operation that can leave the range is followed by the
    wrap-around written out below. *)

Definition int64 (z : Z) : Z := (z + 2 ^ 63) mod 2 ^ 64 - 2 ^ 63.
Definition uint64 (z : Z) : Z := z mod 2 ^ 64.
Definition uint32 (z : Z) : Z := z mod 2 ^ 32.

Definition int64_ok (z : Z) : Prop := - 2 ^ 63 <= z < 2 ^ 63.
Definition uint64_ok (z : Z) : Prop := 0 <= z < 2 ^ 64.

#[export] Instance int64_ok_dec z : Decision (int64_ok z).
Proof. unfold int64_ok. apply _. Defined.

Lemma int64_id z : int64_ok z -> int64 z = z.
Proof. unfold int64, int64_ok. intros H. rewrite Z.mod_small; lia. Qed.

Lemma int64_range z : int64_ok (int64 z).
Proof.
  unfold int64, int64_ok.
  pose proof (Z.mod_pos_bound (z + 2 ^ 63) (2 ^ 64)). lia.
Qed.

Lemma uint64_id z : uint64_ok z -> uint64 z = z.
Proof. unfold uint64, uint64_ok. intros H. by rewrite Z.mod_small. Qed.

Lemma uint64_range z : uint64_ok (uint64 z).
Proof. unfold uint64, uint64_ok. apply Z.mod_pos_bound. lia. Qed.

Lemma uint32_range z : 0 <= uint32 z < 2 ^ 32.
Proof. unfold uint32. apply Z.mod_pos_bound. lia. Qed.

Create HintDb go.
Create Rewrite HintDb go.
#[export] Hint Constants Opaque : go.
#[export] Hint Resolve int64_range uint64_range uint32_range : go.
#[export] Hint Rewrite int64_id uint64_id using (unfold int64_ok, uint64_ok; lia) : go.

(** Decides a closed goal by computation. *)
Ltac vm_refl := vm_compute; reflexivity.

(** ** Channels

    A buffered channel is the list of the values it holds, oldest first; its
    capacity is a constant of the program.  A send on a full channel and a
    receive on an empty one block. *)

Definition send {A} (cap : Z) (q : list A) (x : A) : option (list A) :=
  if Z.of_nat (length q) <? cap then Some (q ++ [x]) else None.

Lemma send_Some {A} cap (q q' : list A) x :
  send cap q x = Some q' <-> Z.of_nat (length q) < cap /\ q' = q ++ [x].
Proof.
  unfold send. destruct (_ <? _) eqn:E; split; try done.
  - intros [= <-]. split; [lia|done].
  - intros [_ ->]. done.
  - intros [? _]. lia.
Qed.

(** ** Finite maps *)

Lemma omap_snoc {A B} (f : A -> option B) l x : omap f (l ++ [x]) = omap f l ++ option_list (f x).
Proof. rewrite omap_app. simpl. by destruct (f x). Qed.

(** A map whose keys are in a range is no larger than the range. *)
Lemma map_size_range {A} (m : gmap Z A) lo hi :
  (forall k x, m !! k = Some x -> lo <= k < hi) -> Z.of_nat (size m) <= Z.max 0 (hi - lo).
Proof.
  intros H. assert (dom m ⊆ list_to_set (C := gset Z) (seqZ lo (hi - lo))) as Hsub.
  { intros k [x Hx]%elem_of_dom. apply elem_of_list_to_set, elem_of_seqZ. specialize (H _ _ Hx). lia. }
  apply subseteq_size in Hsub. rewrite size_dom, size_list_to_set in Hsub by apply NoDup_seqZ.
  rewrite length_seqZ in Hsub. lia.
Qed.

(** ** Loops that may fail

    [for x := range l { ... }] over a state, stopped by the first [None]. *)

Fixpoint foldM {A S} (f : S -> A -> option S) (s : S) (l : list A) : option S :=
  match l with
  | [] => Some s
  | x :: l => match f s x with
              | Some s => foldM f s l
              | None => None
              end
  end.

Lemma foldM_app {A S} (f : S -> A -> option S) s l1 l2 :
  foldM f s (l1 ++ l2) = foldM f s l1 ≫= fun s => foldM f s l2.
Proof. revert s. induction l1 as [|x l1 IH]; intros s; simpl; [done|]. by destruct (f s x). Qed.

(** An invariant of the elements done so far. *)
Lemma foldM_inv {A S} (f : S -> A -> option S) (I : list A -> S -> Prop) l s :
  I [] s ->
  (forall l1 x l2 s, l = l1 ++ x :: l2 -> I l1 s ->
     exists s', f s x = Some s' /\ I (l1 ++ [x]) s') ->
  exists s', foldM f s l = Some s' /\ I l s'.
Proof.
  intros H0 Hstep. assert (forall l2 l1 s, l = l1 ++ l2 -> I l1 s ->
    exists s', foldM f s l2 = Some s' /\ I l s') as H; [|by apply (H l [])].
  induction l2 as [|x l2 IH]; intros l1 s1 El Hi; simpl.
  - rewrite app_nil_r in El. subst. eauto.
  - destruct (Hstep l1 x l2 s1 El Hi) as (s2 & -> & H2). apply (IH (l1 ++ [x])); [|done].
    by rewrite <- app_assoc.
Qed.

(** ** Executable transition systems

    A component that runs concurrently with others is a partial function
    [step : St -> Ev -> option St]: the event says which goroutine moves and
    which branch of its [select] is taken, and [None] says that the move is
    blocked or not enabled.  [exec] runs a schedule; [reachable] is its
    closure; invariants are proved once, with [reachable_inv]. *)

Section Transition.
Context {St Ev : Type} (step : St -> Ev -> option St).

Fixpoint exec (s : St) (evs : list Ev) : option St :=
  match evs with
  | [] => Some s
  | ev :: evs =>
      match step s ev with
      | Some s' => exec s' evs
      | None => None
      end
  end.

Inductive reachable (s0 : St) : St -> Prop :=
| reachable_refl : reachable s0 s0
| reachable_step s s' ev :
    reachable s0 s -> step s ev = Some s' -> reachable s0 s'.

Lemma reachable_inv (I : St -> Prop) s0 :
  I s0 -> (forall s s' ev, I s -> step s ev = Some s' -> I s') ->
  forall s, reachable s0 s -> I s.
Proof. intros Hi Hs s Hr. induction Hr; eauto. Qed.

Lemma reachable_trans s0 s1 s2 :
  reachable s0 s1 -> reachable s1 s2 -> reachable s0 s2.
Proof. intros H1 H2. induction H2; eauto using reachable_step. Qed.

Lemma exec_reachable evs : forall s s', exec s evs = Some s' -> reachable s s'.
Proof.
  induction evs as [|ev evs IH]; intros s s'; simpl; [intros [= ->]; constructor|].
  destruct (step s ev) as [s1|] eqn:E; [|done]. intros H.
  eapply reachable_trans; [eapply reachable_step; [constructor|exact E]|by apply IH].
Qed.

Lemma exec_app evs1 : forall s evs2,
  exec s (evs1 ++ evs2) = exec s evs1 ≫= fun s' => exec s' evs2.
Proof.
  induction evs1 as [|ev evs1 IH]; intros s evs2; simpl; [done|].
  destruct (step s ev); [apply IH|done].
Qed.

(** The state a schedule ends in, when all its moves are enabled. *)
Definition run (s : St) (evs : list Ev) : St := default s (exec s evs).
Definition runs (s : St) (evs : list Ev) : bool := bool_decide (is_Some (exec s evs)).

Lemma exec_run s evs : runs s evs = true -> exec s evs = Some (run s evs).
Proof. unfold runs, run. by intros [s' ->]%bool_decide_eq_true. Qed.
End Transition.

#[export] Hint Constructors reachable : go.

(** ** Codecs

    What a component promises of a value it writes as text: values that are
    [codec_ok] come back. *)
Class Codec (M : Type) := {
  codec_ok : M -> Prop;
  encode : M -> string;
  decode_text : string -> option M;
  decode_encode : forall m, codec_ok m -> decode_text (encode m) = Some m
}.

Lemma decode_encode_list `{Codec M} ms :
  Forall codec_ok ms -> decode_text <$> (encode <$> ms) = Some <$> ms.
Proof.
  induction 1 as [|m ms Hm Hms IH]; [done|]. rewrite !fmap_cons, IH. by rewrite decode_encode.
Qed.

(** The codec is injective where it promises anything. *)
Lemma encode_inj `{Codec M} m m' : codec_ok m -> codec_ok m' -> encode m = encode m' -> m = m'.
Proof. intros H1 H2 E. pose proof (decode_encode m H1) as E1. rewrite E, decode_encode in E1; congruence. Qed.
