(* ===== verification/GoText.v ===== *)
(** The parts of Go's [strconv] and string type the program relies on.

    A Go string, and a [[]byte] that is only read, is a Stdlib [string]: one
    [ascii] per byte.  [Itoa] and [Atoi] are decimal printing and parsing of an
    [int]; their round trip is used for the file names of the map-reduce library
    and for the counts of the word-count program. *)
From S2P Require Import Prelude.
From Stdlib Require Import DecimalString DecimalZ DecimalFacts DecimalPos DecimalN Ascii.

#[global] Arguments String.append !_ _ / : simpl nomatch.

(** The concatenation of Go's [+] on strings. *)
Fixpoint concat_all (l : list string) : string :=
  match l with
  | [] => EmptyString
  | s :: l => (s ++ concat_all l)%string
  end.

Definition newline : string := String (Ascii.ascii_of_nat 10) EmptyString.

(** [strconv.Itoa] *)
Definition Itoa (z : Z) : string := NilZero.string_of_int (Z.to_int z).

(** The number a decimal string denotes: an optional sign, then at least one
    digit. *)
Definition parse_int (s : string) : option Z :=
  match s with
  | String "+"%char (String "-"%char _) => None
  | String "+"%char rest => Z.of_int <$> NilZero.int_of_string rest
  | _ => Z.of_int <$> NilZero.int_of_string s
  end.

(** [strconv.Atoi]; [None] is the error of a string that is not a number or whose
    value does not fit. *)
Definition Atoi (s : string) : option Z :=
  z ← parse_int s; if bool_decide (int64_ok z) then Some z else None.

(** The value [Atoi] returns, with or without an error: a number that does not fit
    is cut to the range. *)
Definition Atoi_value (s : string) : Z :=
  match parse_int s with
  | Some z => Z.max (- 2 ^ 63) (Z.min z (2 ^ 63 - 1))
  | None => 0
  end.

Definition is_digit (a : ascii) : bool :=
  let n := nat_of_ascii a in Nat.leb 48 n && Nat.leb n 57.

Fixpoint all_chars (p : ascii -> bool) (s : string) : bool :=
  match s with
  | EmptyString => true
  | String a s => p a && all_chars p s
  end.

(** ** Strings *)

Lemma string_app_assoc (s1 s2 s3 : string) :
  ((s1 ++ s2) ++ s3 = s1 ++ (s2 ++ s3))%string.
Proof. induction s1 as [|a s1 IH]; simpl; [done|by rewrite IH]. Qed.

Lemma string_app_nil_r (s : string) : (s ++ EmptyString = s)%string.
Proof. induction s as [|a s IH]; simpl; [done|by rewrite IH]. Qed.

Lemma string_length_app (s1 s2 : string) :
  String.length (s1 ++ s2) = (String.length s1 + String.length s2)%nat.
Proof. induction s1 as [|a s1 IH]; simpl; [done|by rewrite IH]. Qed.

Lemma string_app_inj_l (p s1 s2 : string) : (p ++ s1 = p ++ s2)%string -> s1 = s2.
Proof. induction p as [|a p IH]; simpl; [done|]. intros [=]. auto. Qed.

Lemma concat_all_app l1 l2 :
  concat_all (l1 ++ l2) = (concat_all l1 ++ concat_all l2)%string.
Proof. induction l1 as [|s l1 IH]; simpl; [done|]. by rewrite IH, string_app_assoc. Qed.

Lemma all_chars_app p s1 s2 :
  all_chars p (s1 ++ s2) = all_chars p s1 && all_chars p s2.
Proof. induction s1 as [|a s1 IH]; simpl; [done|]. by rewrite IH, andb_assoc. Qed.

(** A separator that does not occur in two strings delimits them. *)
Lemma split_at_sep p sep s1 s2 r1 r2 :
  p sep = false -> all_chars p s1 -> all_chars p s2 ->
  (s1 ++ String sep r1 = s2 ++ String sep r2)%string -> s1 = s2 /\ r1 = r2.
Proof.
  intros Hsep. revert s2. induction s1 as [|a s1 IH]; intros [|b s2]; simpl; intros H1 H2.
  - by intros [= ->].
  - intros [= <- _]. by rewrite Hsep in H2.
  - intros [= -> _]. by rewrite Hsep in H1.
  - intros [= -> H]. apply andb_prop_elim in H1 as [_ H1], H2 as [_ H2].
    destruct (IH s2 H1 H2 H) as [-> ->]. done.
Qed.

(** ** Decimal numbers *)

Lemma string_of_uint_digits d : all_chars is_digit (NilEmpty.string_of_uint d).
Proof. induction d; simpl; done. Qed.

Lemma Itoa_digits z : 0 <= z -> all_chars is_digit (Itoa z).
Proof.
  intros Hz. unfold Itoa. destruct z as [|p|p]; [done| |lia]. simpl.
  unfold NilZero.string_of_uint. destruct (Pos.to_uint p) eqn:E; [done|..];
    rewrite <- E; apply string_of_uint_digits.
Qed.

Lemma int_of_string_Itoa z : NilZero.int_of_string (Itoa z) = Some (Z.to_int z).
Proof.
  unfold Itoa. destruct (decide (z = 0)) as [->|Hz]; [done|].
  rewrite NilZero.isi; [done| |].
  - intros E. pose proof (DecimalZ.of_to z) as H. rewrite E in H. cbv in H. congruence.
  - intros E. pose proof (DecimalZ.of_to z) as H. rewrite E in H. cbv in H. congruence.
Qed.

(** Printing is injective, and parsing gives the number back. *)
Lemma Itoa_inj z1 z2 : Itoa z1 = Itoa z2 -> z1 = z2.
Proof.
  intros H. pose proof (int_of_string_Itoa z1) as E1. pose proof (int_of_string_Itoa z2) as E2.
  rewrite H, E2 in E1. injection E1 as E1.
  rewrite <- (DecimalZ.of_to z1), <- (DecimalZ.of_to z2). congruence.
Qed.

Lemma Itoa_no_plus z a s : Itoa z = String a s -> a <> "+"%char.
Proof.
  unfold Itoa. destruct z as [|p|p]; simpl.
  - by intros [= <- _].
  - unfold NilZero.string_of_uint. destruct (Pos.to_uint p); simpl; intros [= <- _]; done.
  - intros [= <- _]. done.
Qed.

Lemma parse_int_Itoa z : parse_int (Itoa z) = Some z.
Proof.
  assert (Z.of_int <$> NilZero.int_of_string (Itoa z) = Some z) as H
    by (by rewrite int_of_string_Itoa; simpl; rewrite DecimalZ.of_to).
  unfold parse_int. destruct (Itoa z) as [|a s] eqn:E; [done|].
  pose proof (Itoa_no_plus z a s E) as Ha.
  destruct a as [[] [] [] [] [] [] [] []]; try exact H. done.
Qed.

Lemma Atoi_Itoa z : int64_ok z -> Atoi (Itoa z) = Some z.
Proof. intros Hz. unfold Atoi. rewrite parse_int_Itoa. simpl. by rewrite bool_decide_eq_true_2. Qed.

(** ** The length of a printed number *)

Lemma of_uint_acc_bound d : forall acc,
  Z.pos acc * 10 ^ Z.of_nat (Decimal.nb_digits d) <= Z.pos (Pos.of_uint_acc d acc).
Proof.
  induction d; intros acc; cbn [Decimal.nb_digits Pos.of_uint_acc]; [lia|..];
    rewrite Nat2Z.inj_succ, Z.pow_succ_r by lia;
    (etrans; [|apply IHd]); rewrite Z.mul_assoc; apply Z.mul_le_mono_nonneg_r; lia.
Qed.

Lemma to_uint_no_zero p u : Pos.to_uint p <> Decimal.D0 u.
Proof.
  intros E. pose proof (DecimalPos.Unsigned.of_to p) as H.
  assert (Pos.to_uint p = Decimal.unorm (Pos.to_uint p)) as Hn.
  { rewrite <- (DecimalN.Unsigned.to_of (Pos.to_uint p)). unfold N.of_uint. by rewrite H. }
  rewrite E in Hn, H. unfold Decimal.unorm in Hn.
  destruct (Decimal.nzhead (Decimal.D0 u)) eqn:Ez; try discriminate.
  - injection Hn as ->. done.
  - by eapply nzhead_nonzero.
Qed.

Lemma nb_digits_bound p k : (0 < k)%nat -> Z.pos p < 10 ^ Z.of_nat k -> (Decimal.nb_digits (Pos.to_uint p) <= k)%nat.
Proof.
  intros Hk Hp. pose proof (DecimalPos.Unsigned.of_to p) as H.
  pose proof (to_uint_no_zero p) as Hz.
  assert (forall d acc, Pos.of_uint_acc d acc = p -> (S (Decimal.nb_digits d) <= k)%nat) as Hd.
  { intros d acc Hacc. pose proof (of_uint_acc_bound d acc) as Hb. rewrite Hacc in Hb.
    apply Nat.le_succ_l, Nat2Z.inj_lt, (Z.pow_lt_mono_r_iff 10); nia. }
  destruct (Pos.to_uint p) as [|d|d|d|d|d|d|d|d|d|d]; cbn [Pos.of_uint Decimal.nb_digits] in *;
    [lia|by destruct (Hz d)|..]; injection H as H; by eapply Hd.
Qed.

Lemma string_of_uint_length d : String.length (NilEmpty.string_of_uint d) = Decimal.nb_digits d.
Proof. induction d; simpl; congruence. Qed.

(** A number of at most [k] digits, and its sign. *)
Lemma Itoa_length z k :
  (0 < k)%nat -> - 10 ^ Z.of_nat k < z < 10 ^ Z.of_nat k ->
  (String.length (Itoa z) <= k + if Z.ltb z 0 then 1 else 0)%nat.
Proof.
  intros Hk Hz. assert (forall p, Z.pos p < 10 ^ Z.of_nat k ->
    (String.length (NilZero.string_of_uint (Pos.to_uint p)) <= k)%nat) as H.
  { intros p Hp. apply (nb_digits_bound p k Hk) in Hp. unfold NilZero.string_of_uint.
    destruct (Pos.to_uint p) eqn:E; [simpl; lia|..]; by rewrite string_of_uint_length. }
  unfold Itoa. destruct z as [|p|p]; simpl Z.to_int; cbn [NilZero.string_of_int String.length].
  - simpl; lia.
  - pose proof (H p). simpl. lia.
  - pose proof (H p). simpl. lia.
Qed.
