(* ===== verification/LspMessage.v ===== *)
(** The LSP message, the parameters and the connection status
    (src/project-2/src/example.com/lsp: message.go, params.go, status.go).

    [MsgType] is Go's [int] with three named constants: a message decoded from
    the wire may carry any other value, which every [switch] of the protocol
    ignores, so the type stays [Z] here. *)
From S2P Require Import Prelude GoText.

(** ** message.go *)

Definition MsgConnect : Z := 0.
Definition MsgData : Z := 1.
Definition MsgAck : Z := 2.

(** The field [Type] of the Go struct is [MType] here. *)
Record Message := mkMessage {
  MType : Z;
  ConnID : Z;
  SeqNum : Z;
  Size : Z;
  Payload : string
}.

#[export] Instance Message_eq_dec : EqDecision Message.
Proof. solve_decision. Defined.

Definition NewConnect : Message := mkMessage MsgConnect 0 0 0 EmptyString.

Definition NewData (connID seqNum size : Z) (payload : string) : Message :=
  mkMessage MsgData connID seqNum size payload.

Definition NewAck (connID seqNum : Z) : Message := mkMessage MsgAck connID seqNum 0 EmptyString.

(** [m.SeqNum = sq] on the message [m] points to. *)
Definition set_SeqNum (m : Message) (sq : Z) : Message :=
  mkMessage (MType m) (ConnID m) sq (Size m) (Payload m).

Definition Message_String (m : Message) : string :=
  let name := if MType m =? MsgConnect then "Connect"
              else if MType m =? MsgData then "Data"
              else if MType m =? MsgAck then "Ack" else EmptyString in
  let payload := if MType m =? MsgData then (" " ++ Payload m)%string else EmptyString in
  ("[" ++ name ++ " " ++ Itoa (ConnID m) ++ " " ++ Itoa (SeqNum m) ++ payload ++ "]")%string.

(** [len(m.Payload)] *)
Definition payload_len (m : Message) : Z := Z.of_nat (String.length (Payload m)).

(** The test [len(m.Payload) < m.Size] of both receivers. *)
Definition is_short (m : Message) : bool := payload_len m <? Size m.

(** ** params.go *)

Definition DefaultEpochLimit : Z := 5.
Definition DefaultEpochMillis : Z := 2000.
Definition DefaultWindowSize : Z := 1.

Record Params := mkParams {
  EpochLimit : Z;
  EpochMillis : Z;
  WindowSize : Z
}.

Definition NewParams : Params :=
  mkParams DefaultEpochLimit DefaultEpochMillis DefaultWindowSize.

Definition Params_String (p : Params) : string :=
  ("[EpochLimit: " ++ Itoa (EpochLimit p) ++ ", EpochMillis: " ++ Itoa (EpochMillis p)
   ++ ", WindowSize: " ++ Itoa (WindowSize p) ++ "]")%string.

(** ** status.go

    The lock makes [get] and [set] atomic, so a status is a plain field of the
    object that owns it and each access is one step. *)

Inductive Status :=
| notClosing
| startClosing
| handlerClosed
| connectionClosed
| closed.

#[export] Instance Status_eq_dec : EqDecision Status.
Proof. solve_decision. Defined.

Definition newStatus : Status := notClosing.

(** ** Facts shared by the client and the server *)

Lemma is_short_NewData cid sq p :
  is_short (NewData cid sq (Z.of_nat (String.length p)) p) = false.
Proof. unfold is_short, payload_len. simpl. lia. Qed.

Lemma set_SeqNum_same m : set_SeqNum m (SeqNum m) = m.
Proof. by destruct m. Qed.
