(* ===== verification/LspWindow.v ===== *)
(** The sliding window of an LSP connection.

    [client] (lsp/client_impl.go) and [clientInfo] (lsp/server_impl.go) declare
    the same six fields and their handlers contain the same fragments, written
    twice; both handlers of the model use the definitions of this file, and the
    properties of the window are proved once. *)
From S2P Require Import Prelude GoText LspMessage.

Record window := mkWindow {
  tbuffer : gmap Z Message;     (* sent, not acknowledged *)
  tmsg : list Message;          (* channel of messages to send *)
  tsq : Z;                      (* next sequence number to send *)
  rbuffer : gmap Z string;      (* received, not delivered *)
  rsq : Z;                      (* next sequence number to deliver *)
  windows : Z
}.

Definition set_tbuffer w tb := mkWindow tb (tmsg w) (tsq w) (rbuffer w) (rsq w) (windows w).
Definition set_tmsg w q := mkWindow (tbuffer w) q (tsq w) (rbuffer w) (rsq w) (windows w).
Definition set_rbuffer w rb := mkWindow (tbuffer w) (tmsg w) (tsq w) rb (rsq w) (windows w).

(** [minUnAcked := c.tsq; for sq := range c.tbuffer { if minUnAcked > sq ... }] *)
Definition min_unacked (w : window) : Z :=
  map_fold (fun sq _ acc => if acc >? sq then sq else acc) (tsq w) (tbuffer w).

(** The [default] branch: take a message of [tmsg] when the window is open,
    number it, buffer it and hand it to the network. *)
Definition transmit (w : window) : window * list Message :=
  if int64 (tsq w - min_unacked w) <? windows w then
    match tmsg w with
    | [] => (w, [])
    | m :: q =>
        let m := set_SeqNum m (tsq w) in
        (mkWindow (<[tsq w := m]> (tbuffer w)) q (int64 (tsq w + 1))
           (rbuffer w) (rsq w) (windows w), [m])
    end
  else (w, []).

(** [if _, ok := c.rbuffer[m.SeqNum]; !ok { c.rbuffer[m.SeqNum] = m.Payload }] *)
Definition store (w : window) (m : Message) : window :=
  match rbuffer w !! SeqNum m with
  | Some _ => w
  | None => set_rbuffer w (<[SeqNum m := Payload m]> (rbuffer w))
  end.

(** One turn of the delivery loop: the data numbered [i], if it is there, leaves
    the buffer for the reader. *)
Definition drain_one (w : window) (i : Z) : option (string * window) :=
  match rbuffer w !! i with
  | Some data =>
      Some (data, mkWindow (tbuffer w) (tmsg w) (tsq w) (delete i (rbuffer w))
                    (int64 (rsq w + 1)) (windows w))
  | None => None
  end.

(** [delete(c.tbuffer, m.SeqNum)] *)
Definition ack (w : window) (sq : Z) : window := set_tbuffer w (delete sq (tbuffer w)).

(** The condition under which a closing handler stops. *)
Definition flushed (w : window) : bool :=
  bool_decide (tbuffer w = ∅) && bool_decide (rbuffer w = ∅) && bool_decide (tmsg w = []).

(** The messages a tick sends again. *)
Definition unacked (w : window) : list Message := (map_to_list (tbuffer w)).*2.

(** ** The stream a window carries

    [stream] is the list of payloads the application wrote, in order; the
    payload of index [n] travels with sequence number [n + 1]. *)

Definition stream_at (stream : list string) (sq : Z) : option string :=
  if 1 <=? sq then stream !! Z.to_nat (sq - 1) else None.

(** What a sender puts on the network. *)
Definition sent_ok (stream : list string) (m : Message) : Prop :=
  MType m = MsgData ->
  Size m = payload_len m /\ stream_at stream (SeqNum m) = Some (Payload m).

(** What the receiver may believe about the payload numbered [k]; for a receiver
    fed by one sender that wrote [stream] it is [source stream]. *)
Definition source (stream : list string) (k : Z) (p : string) : Prop :=
  stream_at stream k = Some p.

(** What a receiver may get: a message of its source, or one whose payload became
    shorter on the way. *)
Definition recv_ok (src : Z -> string -> Prop) (m : Message) : Prop :=
  MType m = MsgData -> is_short m = true \/ src (SeqNum m) (Payload m).

Record send_inv (written : list string) (w : window) : Prop := {
  si_tsq : 1 <= tsq w <= Z.of_nat (length written) + 1;
  si_queue : drop (Z.to_nat (tsq w - 1)) written = Payload <$> tmsg w;
  si_fresh : Forall (fun m => MType m = MsgData /\ Size m = payload_len m) (tmsg w);
  si_buf : forall k m, tbuffer w !! k = Some m ->
             SeqNum m = k /\ 0 <= k < tsq w /\ sent_ok written m /\ MType m <> MsgAck
}.

Record recv_inv (src : Z -> string -> Prop) (delivered : list string) (w : window) : Prop := {
  ri_rsq : rsq w = Z.of_nat (length delivered) + 1;
  ri_delivered : forall k p, stream_at delivered k = Some p -> src k p;
  ri_buf : forall k p, rbuffer w !! k = Some p -> src k p
}.

(** No sequence number in flight is older than [windows] behind [tsq]. *)
Definition window_inv (w : window) : Prop :=
  forall k m, tbuffer w !! k = Some m -> tsq w - k <= windows w.

(** The streams the integers of the program can number. *)
Definition small (stream : list string) : Prop := Z.of_nat (length stream) < 2 ^ 63 - 1.

(** ** The stream *)

Lemma stream_at_app stream l sq p :
  stream_at stream sq = Some p -> stream_at (stream ++ l) sq = Some p.
Proof. unfold stream_at. case_match; [|done]. apply lookup_app_l_Some. Qed.

Lemma stream_at_Some stream sq p :
  stream_at stream sq = Some p -> 1 <= sq <= Z.of_nat (length stream).
Proof.
  unfold stream_at. case_match eqn:E; [|done]. intros H%lookup_lt_Some. lia.
Qed.

Lemma sent_ok_app stream l m : sent_ok stream m -> sent_ok (stream ++ l) m.
Proof. intros H Ht. destruct (H Ht). eauto using stream_at_app. Qed.

Lemma recv_ok_mono (src src' : Z -> string -> Prop) m :
  (forall k p, src k p -> src' k p) -> recv_ok src m -> recv_ok src' m.
Proof. intros Hsrc H Ht. destruct (H Ht); auto. Qed.

Lemma sent_ok_recv_ok stream m : sent_ok stream m -> recv_ok (source stream) m.
Proof. intros H Ht. right. by destruct (H Ht). Qed.

Lemma sent_ok_NewAck stream cid sq : sent_ok stream (NewAck cid sq).
Proof. done. Qed.

Lemma sent_ok_NewConnect stream : sent_ok stream NewConnect.
Proof. done. Qed.

#[export] Hint Resolve stream_at_app sent_ok_app sent_ok_recv_ok
  sent_ok_NewAck sent_ok_NewConnect : go.

(** ** The sending half *)

Lemma min_unacked_spec w :
  min_unacked w <= tsq w /\ (forall k m, tbuffer w !! k = Some m -> min_unacked w <= k).
Proof.
  unfold min_unacked. generalize (tsq w) as t. intros t.
  apply (map_fold_weak_ind (fun acc tb => acc <= t /\
    forall k m, tb !! k = Some m -> acc <= k)).
  { split; [lia|]. intros k m. by rewrite lookup_empty. }
  intros i x tb acc Hi [H1 H2]. destruct (acc >? i) eqn:E.
  - split; [lia|]. intros k m [[<- _]|[_ Hk]]%lookup_insert_Some; [lia|].
    apply H2 in Hk. lia.
  - split; [lia|]. intros k m [[<- _]|[_ Hk]]%lookup_insert_Some; [lia|eauto].
Qed.

Lemma min_unacked_attained w :
  min_unacked w = tsq w \/ exists m, tbuffer w !! min_unacked w = Some m.
Proof.
  unfold min_unacked. generalize (tsq w) as t. intros t.
  apply (map_fold_weak_ind (fun acc tb => acc = t \/ exists m, tb !! acc = Some m)).
  { by left. }
  intros i x tb acc Hi IH. destruct (acc >? i) eqn:E.
  - right. exists x. apply lookup_insert_eq.
  - destruct IH as [->|[m Hm]]; [by left|]. right. exists m.
    rewrite lookup_insert_ne; [done|]. intros ->. congruence.
Qed.

Lemma min_unacked_nonneg written w : send_inv written w -> 0 <= min_unacked w.
Proof.
  intros [Ht _ _ Hb]. destruct (min_unacked_attained w) as [->|[m Hm]]; [lia|].
  destruct (Hb _ _ Hm) as (_ & ? & _). lia.
Qed.

Lemma send_inv_head written w m q :
  send_inv written w -> tmsg w = m :: q ->
  stream_at written (tsq w) = Some (Payload m) /\
  drop (Z.to_nat (tsq w)) written = Payload <$> q /\
  tsq w <= Z.of_nat (length written).
Proof.
  intros [Ht Hd _ _] E. rewrite E in Hd. simpl in Hd.
  assert (Hl : written !! Z.to_nat (tsq w - 1) = Some (Payload m)).
  { rewrite <- (Nat.add_0_r (Z.to_nat _)), <- lookup_drop, Hd. done. }
  repeat split.
  - unfold stream_at. rewrite (proj2 (Z.leb_le 1 _)); [done|lia].
  - replace (Z.to_nat (tsq w)) with (1 + Z.to_nat (tsq w - 1))%nat by lia.
    rewrite Nat.add_comm, <- drop_drop, Hd. done.
  - apply lookup_lt_Some in Hl. lia.
Qed.

(** The three results of [transmit]: the window is full, nothing waits, or the
    head of the queue is numbered and leaves. *)
Lemma transmit_spec written w :
  small written -> send_inv written w ->
  transmit w = (w, []) \/
  exists m q, tmsg w = m :: q /\ tsq w - min_unacked w < windows w /\
    transmit w = (mkWindow (<[tsq w := set_SeqNum m (tsq w)]> (tbuffer w)) q (tsq w + 1)
                   (rbuffer w) (rsq w) (windows w), [set_SeqNum m (tsq w)]).
Proof.
  intros Hs Hi. pose proof (min_unacked_nonneg _ _ Hi). pose proof (si_tsq _ _ Hi) as Ht.
  destruct (min_unacked_spec w) as [Hle _]. unfold small in Hs. unfold transmit.
  rewrite (int64_id (tsq w - _)) by (unfold int64_ok; lia).
  destruct (tsq w - min_unacked w <? windows w) eqn:E; [|by left].
  destruct (tmsg w) as [|m q] eqn:Hq; [by left|]. right. exists m, q.
  destruct (send_inv_head _ _ _ _ Hi Hq) as (_ & _ & Hlen).
  rewrite int64_id by (unfold int64_ok; lia). split_and!; [done|lia|done].
Qed.

Lemma transmit_inv written w w' out :
  small written -> send_inv written w -> transmit w = (w', out) ->
  send_inv written w' /\ Forall (sent_ok written) out.
Proof.
  intros Hs Hi E. destruct (transmit_spec _ _ Hs Hi) as [E'|(m & q & Hq & _ & E')];
    rewrite E' in E; injection E as <- <-; [by split; [|constructor]|].
  destruct (send_inv_head _ _ _ _ Hi Hq) as (Hat & Hd & Hlen). destruct Hi as [Ht _ Hf Hb].
  rewrite Hq in Hf. inversion Hf as [|? ? [Hmt Hms] Hf']; subst.
  assert (sent_ok written (set_SeqNum m (tsq w))) as Hm by (intros _; done).
  split; [|by constructor]. constructor; simpl; [lia| |done|].
  - by replace (Z.to_nat (tsq w + 1 - 1)) with (Z.to_nat (tsq w)) by lia.
  - intros k m' [[<- <-]|[_ Hk]]%lookup_insert_Some; [split_and!; try done; [lia..|simpl; by rewrite Hmt]|].
    destruct (Hb _ _ Hk) as (? & ? & ? & ?). split_and!; try done; lia.
Qed.

Lemma transmit_window written w :
  small written -> send_inv written w -> window_inv w -> window_inv (transmit w).1.
Proof.
  intros Hs Hi Hw. destruct (transmit_spec _ _ Hs Hi) as [->|(m & q & Hq & Hlt & ->)]; [done|].
  destruct (min_unacked_spec w) as [Hle Hmin]. intros k m'. simpl.
  intros [[<- _]|[_ Hk]]%lookup_insert_Some; [lia|]. apply Hmin in Hk. lia.
Qed.

(** Transmitting leaves the receiving half alone. *)
Lemma transmit_recv w : rbuffer (transmit w).1 = rbuffer w /\ rsq (transmit w).1 = rsq w.
Proof. unfold transmit. case_match; [|done]. by destruct (tmsg w). Qed.

Lemma ack_inv written w sq : send_inv written w -> send_inv written (ack w sq).
Proof.
  intros [Ht Hd Hf Hb]. constructor; simpl; [done..|].
  intros k m [_ Hk]%lookup_delete_Some. eauto.
Qed.

Lemma ack_window w sq : window_inv w -> window_inv (ack w sq).
Proof. intros Hw k m. simpl. intros [_ Hk]%lookup_delete_Some. eauto. Qed.

Lemma send_inv_app written w cid sq p :
  send_inv written w ->
  send_inv (written ++ [p])
    (set_tmsg w (tmsg w ++ [NewData cid sq (Z.of_nat (String.length p)) p])).
Proof.
  intros [Ht Hd Hf Hb]. constructor; simpl.
  - rewrite length_app. lia.
  - rewrite drop_app_le by lia. by rewrite Hd, fmap_app.
  - apply Forall_app. split; [done|]. by constructor.
  - intros k m Hk. destruct (Hb _ _ Hk) as (? & ? & ? & ?). eauto using sent_ok_app.
Qed.

Lemma unacked_ok written w m :
  send_inv written w -> m ∈ unacked w -> sent_ok written m /\ MType m <> MsgAck.
Proof.
  intros [_ _ _ Hb]. unfold unacked.
  intros ([k m'] & -> & Hk%elem_of_map_to_list)%list_elem_of_fmap. simpl.
  by destruct (Hb _ _ Hk) as (_ & _ & ? & ?).
Qed.

Lemma transmit_out_data written w w' out m :
  small written -> send_inv written w -> transmit w = (w', out) -> m ∈ out ->
  MType m = MsgData.
Proof.
  intros Hs Hi E. destruct (transmit_spec _ _ Hs Hi) as [E'|(m' & q & Hq & _ & E')];
    rewrite E' in E; injection E as _ <-; [by intros ?%not_elem_of_nil|].
  intros ->%list_elem_of_singleton. pose proof (si_fresh _ _ Hi) as Hf. rewrite Hq in Hf.
  by inversion Hf as [|? ? [? ?]].
Qed.

(** ** The receiving half *)

Lemma recv_inv_mono (src src' : Z -> string -> Prop) delivered w :
  (forall k p, src k p -> src' k p) -> recv_inv src delivered w -> recv_inv src' delivered w.
Proof. intros Hsrc [Hr Hd Hb]. constructor; eauto. Qed.

Lemma recv_inv_init src w : rsq w = 1 -> rbuffer w = ∅ -> recv_inv src [] w.
Proof.
  intros Hr Hb. constructor; [done| |].
  - intros k p H%stream_at_Some. simpl in H. lia.
  - intros k p. by rewrite Hb, lookup_empty.
Qed.

(** Payloads that agree with a stream position by position are a prefix of it. *)
Lemma source_prefix (stream l : list string) :
  (forall k p, stream_at l k = Some p -> source stream k p) -> l `prefix_of` stream.
Proof.
  intros H. assert (l = take (length l) stream) as -> by
  (apply list_eq; intros i; destruct (decide (i < length l)%nat) as [Hi|Hi];
    [|rewrite lookup_take_ge by lia; apply lookup_ge_None; lia];
   rewrite lookup_take_lt by done; destruct (lookup_lt_is_Some_2 _ _ Hi) as [p Hp];
   specialize (H (Z.of_nat i + 1) p); unfold source, stream_at in H;
   rewrite (proj2 (Z.leb_le 1 _)) in H by lia;
   replace (Z.to_nat (Z.of_nat i + 1 - 1)) with i in H by lia; rewrite Hp; symmetry; auto).
  apply prefix_take.
Qed.

Lemma recv_inv_prefix stream delivered w :
  recv_inv (source stream) delivered w -> delivered `prefix_of` stream.
Proof. intros [_ Hd _]. by apply source_prefix. Qed.

Lemma store_inv src delivered w m :
  recv_inv src delivered w -> MType m = MsgData -> recv_ok src m -> is_short m = false ->
  recv_inv src delivered (store w m).
Proof.
  intros [Hr Hd Hb] Ht Hok Hsh. destruct (Hok Ht) as [?|Hat]; [congruence|].
  unfold store. case_match eqn:E; [done|]. constructor; simpl; [done..|].
  intros k p [[<- <-]|[_ Hk]]%lookup_insert_Some; eauto.
Qed.

Lemma stream_at_snoc l x k p :
  stream_at (l ++ [x]) k = Some p ->
  stream_at l k = Some p \/ (k = Z.of_nat (length l) + 1 /\ p = x).
Proof.
  unfold stream_at. case_match eqn:E; [|done]. intros [H|[H1 H2]]%lookup_app_Some; [by left|].
  apply list_lookup_singleton_Some in H2 as [? <-]. right. split; [lia|done].
Qed.

Lemma drain_one_inv src delivered w w' data :
  small (delivered ++ [data]) -> recv_inv src delivered w ->
  drain_one w (rsq w) = Some (data, w') ->
  rsq w' = rsq w + 1 /\ recv_inv src (delivered ++ [data]) w'.
Proof.
  intros Hs [Hr Hd Hb]. unfold drain_one. destruct (rbuffer w !! rsq w) as [p|] eqn:E; [|done].
  intros [= -> <-]. apply Hb in E as Hat. unfold small in Hs. rewrite length_app in Hs.
  simpl in *. rewrite int64_id by (unfold int64_ok; lia).
  split; [done|]. constructor; simpl.
  - rewrite length_app. simpl. lia.
  - intros k q [Hk|[-> ->]]%stream_at_snoc; [auto|]. by rewrite <- Hr.
  - intros k q [_ Hk]%lookup_delete_Some. eauto.
Qed.

(** ** Framing

    The two halves of a window do not interfere: an operation that keeps one
    half keeps its invariant. *)

Lemma send_inv_half written w w' :
  tbuffer w' = tbuffer w -> tmsg w' = tmsg w -> tsq w' = tsq w ->
  send_inv written w -> send_inv written w'.
Proof. intros E1 E2 E3 [? ? ? ?]. constructor; rewrite ?E1, ?E2, ?E3; done. Qed.

Lemma recv_inv_half src delivered w w' :
  rbuffer w' = rbuffer w -> rsq w' = rsq w ->
  recv_inv src delivered w -> recv_inv src delivered w'.
Proof. intros E1 E2 [? ? ?]. constructor; rewrite ?E1, ?E2; done. Qed.

Lemma window_inv_half w w' :
  tbuffer w' = tbuffer w -> tsq w' = tsq w -> windows w' = windows w ->
  window_inv w -> window_inv w'.
Proof. intros E1 E2 E3 H k m. rewrite E1, E2, E3. apply H. Qed.

Lemma store_send w m :
  tbuffer (store w m) = tbuffer w /\ tmsg (store w m) = tmsg w /\ tsq (store w m) = tsq w
  /\ windows (store w m) = windows w.
Proof. unfold store. by case_match. Qed.

Lemma store_rsq w m : rsq (store w m) = rsq w.
Proof. unfold store. by case_match. Qed.

Lemma drain_one_send w i data w' :
  drain_one w i = Some (data, w') ->
  tbuffer w' = tbuffer w /\ tmsg w' = tmsg w /\ tsq w' = tsq w /\ windows w' = windows w.
Proof. unfold drain_one. destruct (rbuffer w !! i); [|done]. by intros [= _ <-]. Qed.

(** ** What a receiver has got

    A sequence number is [received] when its payload was delivered or waits in
    the buffer; an acknowledgement is sent for nothing else. *)

Definition received (w : window) (sq : Z) : Prop :=
  1 <= sq < rsq w \/ is_Some (rbuffer w !! sq).

Lemma received_store w m sq : received w sq -> received (store w m) sq.
Proof.
  intros [H|[p H]]; [left; by rewrite store_rsq|]. right. unfold store.
  destruct (rbuffer w !! SeqNum m) eqn:E; [by exists p|]. simpl. exists p.
  rewrite lookup_insert_ne; [done|]. congruence.
Qed.

Lemma received_stored w m : received (store w m) (SeqNum m).
Proof.
  right. unfold store. destruct (rbuffer w !! SeqNum m) eqn:E; [by rewrite E|].
  simpl. rewrite lookup_insert_eq. eauto.
Qed.

Lemma received_drain w data w' sq :
  1 <= rsq w -> rsq w' = rsq w + 1 -> drain_one w (rsq w) = Some (data, w') ->
  received w sq -> received w' sq.
Proof.
  intros Hr Hr'. unfold drain_one. destruct (rbuffer w !! rsq w) as [d|] eqn:E; [|done].
  intros [= _ <-]. simpl in *. intros [H|[p H]]; [left; simpl; lia|].
  destruct (decide (sq = rsq w)) as [->|Hne]; [left; simpl; lia|].
  right. simpl. rewrite lookup_delete_ne by done. eauto.
Qed.

Lemma received_half w w' sq :
  rbuffer w' = rbuffer w -> rsq w' = rsq w -> received w sq -> received w' sq.
Proof. unfold received. intros -> ->. done. Qed.

(** When everything was received and nothing deliverable is left in the buffer,
    everything was delivered. *)
Lemma all_received stream delivered w :
  recv_inv (source stream) delivered w -> rbuffer w !! rsq w = None ->
  (forall sq, 1 <= sq <= Z.of_nat (length stream) -> received w sq) ->
  delivered = stream.
Proof.
  intros Hi Hnone Hall. pose proof (recv_inv_prefix _ _ _ Hi) as [l ->].
  destruct Hi as [Hr _ _]. destruct l as [|x l]; [by rewrite app_nil_r|].
  destruct (Hall (rsq w)) as [?|[p Hp]]; [|lia|congruence].
  rewrite length_app. simpl. lia.
Qed.

(** ** Acknowledgements

    [got sq] says that the peer has received what was sent as [sq]. *)

Definition acked_inv (got : Z -> Prop) (w : window) : Prop :=
  forall sq, 1 <= sq < tsq w -> is_Some (tbuffer w !! sq) \/ got sq.

(** What one end may assume of the other: the payloads it may send, the sequence
    numbers it has received, the connection identifiers it uses. *)
Record peer := mkPeer {
  src : Z -> string -> Prop;
  got : Z -> Prop;
  known : Z -> Prop
}.

Record peer_le (P P' : peer) : Prop := {
  pl_src : forall k p, src P k p -> src P' k p;
  pl_got : forall sq, got P sq -> got P' sq;
  pl_known : forall i, known P i -> known P' i
}.

(** What may arrive: data of the source, and acknowledgements that tell the
    truth. *)
Definition in_ok (P : peer) (m : Message) : Prop :=
  recv_ok (src P) m /\
  (MType m = MsgAck -> known P (ConnID m) /\ (1 <= SeqNum m -> got P (SeqNum m))).

Lemma acked_mono (got got' : Z -> Prop) w :
  (forall sq, got sq -> got' sq) -> acked_inv got w -> acked_inv got' w.
Proof. intros H Ha sq Hsq. destruct (Ha sq Hsq); eauto. Qed.

Lemma acked_half got w w' :
  tbuffer w' = tbuffer w -> tsq w' = tsq w -> acked_inv got w -> acked_inv got w'.
Proof. unfold acked_inv. intros -> ->. done. Qed.

Lemma acked_ack got w sq : (1 <= sq -> got sq) -> acked_inv got w -> acked_inv got (ack w sq).
Proof.
  intros Hg Ha sq' Hsq'. simpl in *. destruct (decide (sq = sq')) as [->|Hne].
  - right. apply Hg. lia.
  - rewrite lookup_delete_ne by done. by apply Ha.
Qed.

Lemma acked_transmit got written w :
  small written -> send_inv written w -> acked_inv got w -> acked_inv got (transmit w).1.
Proof.
  intros Hs Hi Ha. destruct (transmit_spec _ _ Hs Hi) as [->|(m & q & Hq & Hlt & ->)]; [done|].
  intros sq. simpl. intros Hsq. destruct (decide (tsq w = sq)) as [->|Hne].
  - left. rewrite lookup_insert_eq. eauto.
  - rewrite lookup_insert_ne by done. apply Ha. lia.
Qed.

Lemma in_ok_mono P P' m : peer_le P P' -> in_ok P m -> in_ok P' m.
Proof.
  intros [Hsrc Hgot Hknown] [? Ha]. split; [by eapply recv_ok_mono|].
  intros Ht. destruct (Ha Ht). eauto.
Qed.

(** When nothing is queued and nothing is unacknowledged, the peer got it all. *)
Lemma sent_acked written got w :
  send_inv written w -> acked_inv got w -> tbuffer w = ∅ -> tmsg w = [] ->
  forall sq, 1 <= sq <= Z.of_nat (length written) -> got sq.
Proof.
  intros [Ht Hd _ _] Ha Hb Hq sq Hsq.
  rewrite Hq in Hd. simpl in Hd. apply (f_equal length) in Hd. rewrite length_drop in Hd. simpl in Hd.
  destruct (Ha sq) as [[m Hm]|?]; [lia| |done]. rewrite Hb in Hm. done.
Qed.

Lemma flushed_sent w : flushed w = true -> tbuffer w = ∅ /\ tmsg w = [].
Proof. unfold flushed. rewrite !andb_true_iff, !bool_decide_eq_true. tauto. Qed.

(** The messages of the sender all carry the connection identifier [cid]. *)
Definition owned (cid : Z) (w : window) : Prop :=
  Forall (fun m => ConnID m = cid) (tmsg w) /\
  (forall k m, tbuffer w !! k = Some m -> MType m = MsgData -> ConnID m = cid).

Lemma owned_transmit cid w : owned cid w -> owned cid (transmit w).1.
Proof.
  intros Hw. unfold transmit. case_match; [|done]. destruct (tmsg w) as [|m q] eqn:E; [done|].
  destruct Hw as [Hq Hb]. rewrite E in Hq. inversion Hq; subst. split; simpl; [done|].
  intros k m' [[<- <-]|[_ Hk]]%lookup_insert_Some; eauto.
Qed.

Lemma owned_transmit_out cid w m :
  owned cid w -> m ∈ (transmit w).2 -> ConnID m = cid.
Proof.
  intros [Hq _]. unfold transmit. case_match; [|by intros ?%not_elem_of_nil].
  destruct (tmsg w) as [|m' q]; [by intros ?%not_elem_of_nil|].
  inversion Hq; subst. simpl. intros Hm%list_elem_of_singleton. by subst m.
Qed.

Lemma owned_ack cid w sq : owned cid w -> owned cid (ack w sq).
Proof. intros [? Hb]. split; [done|]. intros k m. simpl. intros [_ ?]%lookup_delete_Some. eauto. Qed.

Lemma owned_half cid w w' :
  tbuffer w' = tbuffer w -> tmsg w' = tmsg w -> owned cid w -> owned cid w'.
Proof. unfold owned. intros -> ->. done. Qed.

Lemma owned_unacked cid w m :
  owned cid w -> m ∈ unacked w -> MType m = MsgData -> ConnID m = cid.
Proof.
  intros [_ Hb]. unfold unacked. intros ([k m'] & -> & Hk%elem_of_map_to_list)%list_elem_of_fmap.
  simpl. eauto.
Qed.

(** Before the application wrote anything there is nothing to own. *)
Lemma owned_empty cid w : send_inv [] w -> owned cid w.
Proof.
  intros [_ Hd _ Hb]. rewrite drop_nil in Hd. destruct (tmsg w) eqn:E; [|discriminate]. split.
  - rewrite E. constructor.
  - intros k m Hk Ht. destruct (Hb _ _ Hk) as (_ & _ & Hs & _). destruct (Hs Ht) as [_ Hat].
    apply stream_at_Some in Hat. simpl in Hat. lia.
Qed.

(** ** One end of a connection

    What both handlers maintain: [w] is the window, [inc] the channel of arrived
    messages, [drain] the delivery loop's counter and the data message it serves
    (if the handler is in that loop), [cid] the connection identifier. *)

Record conn_inv (written : list string) (P : peer) (delivered : list string) (cid : Z)
    (w : window) (inc : list Message) (drain : option (Z * Z)) : Prop := {
  cn_send : send_inv written w;
  cn_recv : recv_inv (src P) delivered w;
  cn_acked : acked_inv (got P) w;
  cn_in : Forall (in_ok P) inc;
  cn_drain : forall i sq, drain = Some (i, sq) -> i = rsq w /\ received w sq;
  cn_gap : drain = None -> rbuffer w !! rsq w = None;
  cn_own : owned cid w;
  cn_window : 1 <= windows w -> window_inv w
}.

(** What a handler may put on the network. *)
Record out_ok (written : list string) (cid : Z) (w : window) (m : Message) : Prop := {
  oo_sent : sent_ok written m;
  oo_own : MType m = MsgData \/ MType m = MsgAck -> ConnID m = cid;
  oo_ack : MType m = MsgAck -> 1 <= SeqNum m -> received w (SeqNum m)
}.

Lemma out_ok_ack0 written cid w : out_ok written cid w (NewAck cid 0).
Proof. constructor; simpl; [done|done|lia]. Qed.

Lemma out_ok_ack written cid w sq : received w sq -> out_ok written cid w (NewAck cid sq).
Proof. intros H. by constructor. Qed.

Lemma out_ok_connect written cid w : out_ok written cid w NewConnect.
Proof. constructor; [done|by intros [?|?]|done]. Qed.

Lemma out_ok_app written l cid w m : out_ok written cid w m -> out_ok (written ++ l) cid w m.
Proof. intros [? ? ?]. constructor; auto with go. Qed.

#[export] Hint Resolve out_ok_ack0 out_ok_ack out_ok_connect out_ok_app
  Forall_nil_2 Forall_cons_2 : go.

(** A window never forgets what it received; and what waits in the buffer although
    its turn is over waits for ever. *)
Record window_grows (w w' : window) : Prop := {
  wg_received : forall sq, received w sq -> received w' sq;
  wg_rsq : rsq w <= rsq w';
  wg_stale : forall k, k < rsq w -> is_Some (rbuffer w !! k) -> is_Some (rbuffer w' !! k)
}.

Lemma window_grows_half w w' :
  rbuffer w' = rbuffer w -> rsq w' = rsq w -> window_grows w w'.
Proof. intros E1 E2. constructor; [|lia|by rewrite E1]. intros sq. by apply received_half. Qed.

#[export] Instance window_grows_preorder : PreOrder window_grows.
Proof.
  split; [intros w; by apply window_grows_half|].
  intros w1 w2 w3 [R1 Q1 S1] [R2 Q2 S2]. constructor; [eauto|lia|].
  intros k Hk Hb. apply S2; [lia|eauto].
Qed.

Section Conn.
Context (written : list string) (P : peer) (delivered : list string) (cid : Z).
Context (Hw : small written).
#[local] Abbreviation inv := (conn_inv written P delivered cid).

Lemma conn_shrink w inc inc' drain :
  (forall m, m ∈ inc' -> m ∈ inc) -> inv w inc drain -> inv w inc' drain.
Proof.
  intros Hin [H1 H2 H3 H4 H5 Hgap H6 H7]. constructor; try done.
  rewrite Forall_forall in H4 |- *. auto.
Qed.

(** The delivery loop ends where the buffer has a gap. *)
Lemma conn_drained w inc i sq :
  inv w inc (Some (i, sq)) -> drain_one w i = None -> inv w inc None /\ received w sq.
Proof.
  intros [H1 H2 H3 H4 H5 Hgap H6 H7] E. destruct (H5 _ _ eq_refl) as [-> Hsq].
  split; [|done]. constructor; try done. intros _. unfold drain_one in E.
  by destruct (rbuffer w !! rsq w).
Qed.

Lemma conn_arrive w inc drain m :
  in_ok P m -> inv w inc drain -> inv w (inc ++ [m]) drain.
Proof.
  intros Hm [H1 H2 H3 H4 H5 Hgap H6 H7]. constructor; try done.
  by apply Forall_app_2, Forall_singleton.
Qed.

Lemma conn_store w inc m drain :
  inv w inc None -> recv_ok (src P) m -> MType m = MsgData -> is_short m = false ->
  drain = (if SeqNum m =? rsq w then Some (rsq w, SeqNum m) else None) ->
  inv (store w m) inc drain /\ window_grows w (store w m) /\ received (store w m) (SeqNum m).
Proof.
  intros [H1 H2 H3 H4 H5 Hgap H6 H7] Hr Ht Hsh Hd.
  destruct (store_send w m) as (E1 & E2 & E3 & E4). pose proof (store_rsq w m) as E5.
  pose proof (received_stored w m). split_and!; [|constructor|done].
  - constructor; try done.
    + by apply (send_inv_half _ w).
    + by apply store_inv.
    + by apply (acked_half _ w).
    + intros i sq Hi. rewrite E5. rewrite Hd in Hi. case_match; [|done]. by injection Hi as <- <-.
    + intros Hnone. rewrite E5. rewrite Hnone in Hd. case_match eqn:En; [done|].
      apply Z.eqb_neq in En. unfold store. case_match; [auto|]. simpl.
      rewrite lookup_insert_ne by done. auto.
    + by apply (owned_half _ w).
    + rewrite E4. intros Hwin. apply (window_inv_half w); auto.
  - intros sq. apply received_store.
  - by rewrite E5.
  - intros k _ Hk. unfold store. destruct (rbuffer w !! SeqNum m); [done|]. simpl.
    rewrite lookup_insert_is_Some. destruct (decide (SeqNum m = k)); auto.
Qed.

Lemma conn_ack w inc sq cid' :
  inv w inc None -> (1 <= sq -> got P sq) -> cid' = cid \/ written = [] ->
  conn_inv written P delivered cid' (ack w sq) inc None /\ window_grows w (ack w sq).
Proof.
  intros [H1 H2 H3 H4 H5 Hgap H6 H7] Hg Hc. split; [|by apply window_grows_half].
  constructor; try done.
  - by apply ack_inv.
  - by apply (recv_inv_half _ _ w).
  - by apply acked_ack.
  - apply owned_ack. destruct Hc as [->|Hc]; [done|]. rewrite Hc in H1. by apply owned_empty.
  - intros Hwin. by apply ack_window, H7.
Qed.

Lemma conn_drain w inc i sq data w' :
  small (delivered ++ [data]) -> inv w inc (Some (i, sq)) -> drain_one w i = Some (data, w') ->
  conn_inv written P (delivered ++ [data]) cid w' inc (Some (int64 (i + 1), sq)) /\
  window_grows w w'.
Proof.
  intros Hs [H1 H2 H3 H4 H5 Hgap H6 H7] E. destruct (H5 _ _ eq_refl) as [-> Hsq].
  destruct (drain_one_send _ _ _ _ E) as (E1 & E2 & E3 & E4).
  destruct (drain_one_inv _ _ _ _ _ Hs H2 E) as [Er Hr]. pose proof (ri_rsq _ _ _ H2).
  unfold small in Hs. rewrite length_app in Hs. simpl in Hs.
  assert (forall k, received w k -> received w' k) as Hmono
    by (intros k; apply (received_drain _ data); [lia|done|done]).
  assert (window_grows w w').
  { constructor; [done|lia|]. intros k Hk Hb. unfold drain_one in E. case_match; [|done].
    simplify_eq/=. by rewrite lookup_delete_ne by lia. }
  split; [|done]. constructor; try done.
  - by apply (send_inv_half _ w).
  - by apply (acked_half _ w).
  - intros i' sq' [= <- <-]. rewrite int64_id by (unfold int64_ok; lia). auto.
  - by apply (owned_half _ w).
  - rewrite E4. intros Hwin. apply (window_inv_half w); auto.
Qed.

Lemma conn_unacked w inc drain m :
  inv w inc drain -> m ∈ unacked w -> out_ok written cid w m.
Proof.
  intros [H1 _ _ _ _ _ H6 _] Hm. destruct (unacked_ok _ _ _ H1 Hm) as [Hu Hna].
  constructor; [done|intros [?|?]; [by eapply owned_unacked|done]|done].
Qed.

Lemma conn_transmit w inc drain w' out :
  inv w inc drain -> transmit w = (w', out) ->
  inv w' inc drain /\ Forall (out_ok written cid w') out /\ window_grows w w'.
Proof.
  intros [H1 H2 H3 H4 H5 Hgap H6 H7] E. destruct (transmit_inv _ _ _ _ Hw H1 E) as [Hw' Ho].
  pose proof (transmit_recv w) as [Er Eq]. rewrite E in Er, Eq. simpl in Er, Eq.
  pose proof (acked_transmit _ _ _ Hw H1 H3) as Ha. rewrite E in Ha.
  pose proof (owned_transmit _ _ H6) as Hown. rewrite E in Hown.
  split_and!; [|apply Forall_forall; intros m Hm|by apply window_grows_half].
  - constructor; try done.
    + by apply (recv_inv_half _ _ w).
    + intros i sq Hi. destruct (H5 _ _ Hi) as [-> ?]. split; [done|]. by apply (received_half w).
    + rewrite Er, Eq. done.
    + intros Hwin. assert (windows w' = windows w) as Ewin
        by (clear -E; unfold transmit in E; by repeat case_match; simplify_eq).
      pose proof (transmit_window _ _ Hw H1 (H7 ltac:(lia))) as Hwi. by rewrite E in Hwi.
  - rewrite Forall_forall in Ho. pose proof (transmit_out_data _ _ _ _ m Hw H1 E Hm) as Ht.
    constructor; [by apply Ho| |by rewrite Ht].
    intros _. apply (owned_transmit_out _ w); [done|]. by rewrite E.
Qed.

Lemma conn_write w inc drain sq p :
  inv w inc drain ->
  conn_inv (written ++ [p]) P delivered cid
    (set_tmsg w (tmsg w ++ [NewData cid sq (Z.of_nat (String.length p)) p])) inc drain.
Proof.
  intros [H1 H2 H3 H4 H5 Hgap H6 H7]. constructor; try done.
  - by apply send_inv_app.
  - by apply (recv_inv_half _ _ w).
  - destruct H6 as [Hq Hb]. split; simpl; [|done]. by apply Forall_app_2, Forall_singleton.
Qed.
End Conn.

(** The context grows: the peer wrote more and received more. *)
Lemma conn_inv_mono written P P' delivered cid w inc drain :
  peer_le P P' -> conn_inv written P delivered cid w inc drain ->
  conn_inv written P' delivered cid w inc drain.
Proof.
  intros Hle [H1 H2 H3 H4 H5 Hgap H6 H7]. constructor; try done.
  - eapply recv_inv_mono; [apply Hle|done].
  - eapply acked_mono; [apply Hle|done].
  - eapply Forall_impl; [done|]. intros m. by apply in_ok_mono.
Qed.
