(* ===== verification/LspClient.v ===== *)
(** The LSP client (src/project-2/src/example.com/lsp/client_impl.go).

    Three goroutines share a [client]: the application, which calls [Read],
    [Write] and [Close]; [receiver], which feeds [incoming] from the socket; and
    [handler], which owns the window.  Each definition below is one atomic move
    of one of them; [None] is a move that blocks.  The packets a move gives to
    [go WriteMessage] are returned with the new state. *)
From S2P Require Import Prelude GoText LspMessage LspWindow.

(** Where the handler is: at the head of its loop, in the delivery loop at data
    number [i] (for the data message numbered [sq]), or returned. *)
Inductive handler_pc :=
| AtLoop
| AtDrain (i sq : Z)
| Returned.

#[export] Instance handler_pc_eq_dec : EqDecision handler_pc.
Proof. solve_decision. Defined.

(** The channel [statusSignal], unbuffered: the values that senders offer, and
    whether it was closed. *)
Record signal := mkSignal { offered : list Z; closed_signal : bool }.

(** [<-statusSignal]; a closed channel gives the zero value. *)
Definition receive_signal (ch : signal) : option Z :=
  match offered ch with
  | v :: _ => Some v
  | [] => if closed_signal ch then Some 0 else None
  end.

Record client := mkClient {
  id : Z;
  incoming : list Message;     (* channel of capacity 1024 *)
  win : window;
  rmsg : list string;          (* channel of capacity 1000 *)
  err : list string;           (* channel of capacity 1 *)
  status : Status;
  retries : Z;
  epochCount : Z;              (* local variable of [handler] *)
  statusSignal : signal;
  pc : handler_pc;
  receiving : bool;            (* is [receiver] still running? *)
  sock : bool                  (* is the socket open? *)
}.

Definition incoming_cap : Z := 1024.
Definition tmsg_cap : Z := 1000.
Definition rmsg_cap : Z := 1000.
Definition err_cap : Z := 1.

Definition set_incoming c q :=
  mkClient (id c) q (win c) (rmsg c) (err c) (status c) (retries c) (epochCount c)
    (statusSignal c) (pc c) (receiving c) (sock c).
Definition set_win c w :=
  mkClient (id c) (incoming c) w (rmsg c) (err c) (status c) (retries c) (epochCount c)
    (statusSignal c) (pc c) (receiving c) (sock c).
Definition set_rmsg c q :=
  mkClient (id c) (incoming c) (win c) q (err c) (status c) (retries c) (epochCount c)
    (statusSignal c) (pc c) (receiving c) (sock c).
Definition set_err c e :=
  mkClient (id c) (incoming c) (win c) (rmsg c) e (status c) (retries c) (epochCount c)
    (statusSignal c) (pc c) (receiving c) (sock c).
Definition set_status c s :=
  mkClient (id c) (incoming c) (win c) (rmsg c) (err c) s (retries c) (epochCount c)
    (statusSignal c) (pc c) (receiving c) (sock c).
Definition set_epochCount c n :=
  mkClient (id c) (incoming c) (win c) (rmsg c) (err c) (status c) (retries c) n
    (statusSignal c) (pc c) (receiving c) (sock c).
Definition set_connected c i :=
  mkClient i (incoming c) (win c) (rmsg c) (err c) (status c) (retries c) (epochCount c)
    (mkSignal (offered (statusSignal c)) true) (pc c) (receiving c) (sock c).
Definition set_pc c p :=
  mkClient (id c) (incoming c) (win c) (rmsg c) (err c) (status c) (retries c) (epochCount c)
    (statusSignal c) p (receiving c) (sock c).
Definition set_receiving c b :=
  mkClient (id c) (incoming c) (win c) (rmsg c) (err c) (status c) (retries c) (epochCount c)
    (statusSignal c) (pc c) b (sock c).
Definition set_sock c b :=
  mkClient (id c) (incoming c) (win c) (rmsg c) (err c) (status c) (retries c) (epochCount c)
    (statusSignal c) (pc c) (receiving c) b.

(** ** NewClient

    The state when [receiver] and [handler] are spawned, with the connect
    message that was written; the caller then waits for [statusSignal]. *)
Definition NewClient (params : Params) : client * list Message :=
  let connectMessage := NewConnect in
  (mkClient (-1) [] (mkWindow {[0 := connectMessage]} [] (0 + 1) ∅ 1 (WindowSize params))
     [] [] newStatus (EpochLimit params) 0 (mkSignal [] false) AtLoop true true,
   [connectMessage]).

(** [status := <-statusSignal] and what follows; [None] waits, [Some None] is the
    error. *)
Definition NewClient_result (c : client) : option (option client) :=
  match receive_signal (statusSignal c) with
  | Some status => if status =? 0 then Some (Some c) else Some None
  | None => None
  end.

(** Has [NewClient] given the client to the application? *)
Definition established (c : client) : bool :=
  match NewClient_result c with Some (Some _) => true | _ => false end.

(** ** Calls of the application *)

Definition Read_data (c : client) : option (string * client) :=
  match rmsg c with
  | data :: q => Some (data, set_rmsg c q)
  | [] => None
  end.

Definition Read_err (c : client) : option (string * client) :=
  match err c with
  | e :: q => Some (e, set_err c q)
  | [] => None
  end.

Definition Write (c : client) (payload : string) : option client :=
  let message := NewData (id c) (-1) (Z.of_nat (String.length payload)) payload in
  q ← send tmsg_cap (tmsg (win c)) message;
  Some (set_win c (set_tmsg (win c) q)).

(** [Close] first asks the handler to stop, then polls the status. *)
Definition Close_begin (c : client) : client :=
  if bool_decide (status c = notClosing) then set_status c startClosing else c.

Definition Close_poll (c : client) : client * bool :=
  let c := if bool_decide (status c = handlerClosed) then set_sock c false else c in
  if bool_decide (status c = connectionClosed) then (set_status c closed, true) else (c, false).

(** ** receiver *)

(** One turn of the loop: [ReadMessage] gave a message, or an error. *)
Definition receiver (c : client) (read : option Message) : option client :=
  if receiving c then
    match read with
    | Some m => q ← send incoming_cap (incoming c) m; Some (set_incoming c q)
    | None => if id c >? 0 then Some (set_receiving (set_status c connectionClosed) false)
              else Some c
    end
  else None.

(** ** handler *)

Inductive select := CaseIncoming | CaseTimer | CaseDefault.

(** The branch [case m := <-c.incoming] up to the delivery loop. *)
Definition on_incoming (c : client) (m : Message) : client * list Message :=
  let c := set_epochCount c 0 in
  if MType m =? MsgData then
    if is_short m then (c, [])
    else
      let c := set_win c (store (win c) m) in
      if SeqNum m =? rsq (win c) then (set_pc c (AtDrain (rsq (win c)) (SeqNum m)), [])
      else (c, [NewAck (id c) (SeqNum m)])
  else if MType m =? MsgAck then
    match tbuffer (win c) !! SeqNum m with
    | Some v =>
        let c := if (MType v =? MsgConnect) && (id c <? 0)
                 then set_connected c (ConnID m) else c in
        (set_win c (ack (win c) (SeqNum m)), [])
    | None => (c, [])
    end
  else (c, []).

(** One turn of the delivery loop, and the acknowledgement after it. *)
Definition on_drain (c : client) (i sq : Z) : option (client * list Message) :=
  match drain_one (win c) i with
  | Some (data, w) =>
      q ← send rmsg_cap (rmsg c) data;
      Some (set_pc (set_rmsg (set_win c w) q) (AtDrain (int64 (i + 1)) sq), [])
  | None => Some (set_pc c AtLoop, [NewAck (id c) sq])
  end.

Definition lost_error (c : client) : string :=
  ("[c] client " ++ Itoa (id c) ++ ": Connection Lost")%string.

(** The branch [case <-c.timer]. *)
Definition on_timer (c : client) : option (client * list Message) :=
  let c := set_epochCount c (int64 (epochCount c + 1)) in
  if epochCount c =? retries c then
    e ← send err_cap (err c) (lost_error c);
    Some (set_pc (set_status (set_err c e) handlerClosed) Returned, [])
  else
    let reminder :=
      if id c <? 0 then [NewConnect]
      else if (rsq (win c) =? 1) && bool_decide (rbuffer (win c) = ∅) then [NewAck (id c) 0]
      else [] in
    Some (c, reminder ++ unacked (win c)).

Definition on_default (c : client) : client * list Message :=
  let '(w, out) := transmit (win c) in (set_win c w, out).

(** One turn of the handler: the closing test, then the chosen case.  The
    default case is taken only when nothing waits in [incoming]; the choice of
    the timer case says that a tick is there. *)
Definition handler (c : client) (sel : select) : option (client * list Message) :=
  match pc c with
  | Returned => None
  | AtDrain i sq => on_drain c i sq
  | AtLoop =>
      if bool_decide (status c = startClosing) && flushed (win c) then
        Some (set_pc (set_status c handlerClosed) Returned, [])
      else
        match sel with
        | CaseIncoming =>
            match incoming c with
            | m :: q => Some (on_incoming (set_incoming c q) m)
            | [] => None
            end
        | CaseTimer => on_timer c
        | CaseDefault =>
            match incoming c with
            | [] => Some (on_default c)
            | _ :: _ => None
            end
        end
  end.

(** ** The invariant of a client

    [written] is what the application wrote, [P] what may be
    assumed of the server, and [read] what the application has read so far. *)

Definition draining (p : handler_pc) : option (Z * Z) :=
  match p with
  | AtDrain i sq => Some (i, sq)
  | _ => None
  end.

Record client_inv (written : list string) (P : peer) (read : list string) (c : client) : Prop := {
  ci_conn : conn_inv written P (read ++ rmsg c) (id c) (win c) (incoming c)
              (draining (pc c));
  ci_sig : statusSignal c = mkSignal [] (0 <=? id c);
  ci_known : 0 <= id c -> known P (id c);
  ci_idle : id c < 0 -> written = []
}.

(** How a move changes a client: it never forgets what it received, nor its
    identifier once it has one. *)
Record client_grows (c c' : client) : Prop := {
  cg_win : window_grows (win c) (win c');
  cg_id : id c' = id c \/ id c < 0
}.

Lemma established_sig c b : statusSignal c = mkSignal [] b -> established c = b.
Proof. unfold established, NewClient_result, receive_signal. intros ->. by destruct b. Qed.

Section ClientInv.
Context (written : list string) (P : peer) (read : list string).
Context (Hknown : forall i, known P i -> 0 <= i).
Context (Hw : small written).

(** The invariant after a move that puts [out] on the network. *)
Record move_ok (c c' : client) (out : list Message) : Prop := {
  mo_inv : client_inv written P read c';
  mo_out : Forall (out_ok written (id c') (win c')) out;
  mo_grows : client_grows c c'
}.

(** A client with the same connection in other bookkeeping. *)
Lemma client_inv_frame c c' :
  win c' = win c -> rmsg c' = rmsg c -> id c' = id c -> statusSignal c' = statusSignal c ->
  (forall m, m ∈ incoming c' -> m ∈ incoming c) ->
  draining (pc c') = draining (pc c) ->
  client_inv written P read c -> client_inv written P read c'.
Proof.
  intros Ew Er Ei Es Hin Hpc [Hc H8 H9 H10].
  constructor; rewrite ?Es, ?Ei; try done. rewrite Ew, Er, Hpc. by eapply conn_shrink.
Qed.

Lemma grows_frame c c' : win c' = win c -> id c' = id c -> client_grows c c'.
Proof. intros E1 E2. constructor; [by rewrite E1|by left]. Qed.

Lemma frame_ok c c' :
  win c' = win c -> rmsg c' = rmsg c -> id c' = id c -> statusSignal c' = statusSignal c ->
  (forall m, m ∈ incoming c' -> m ∈ incoming c) ->
  draining (pc c') = draining (pc c) ->
  client_inv written P read c -> move_ok c c' [].
Proof.
  intros. constructor; [by eapply client_inv_frame|by constructor|by apply grows_frame].
Qed.

(** [c0] is the client whose handler has taken [m] from its channel. *)
Lemma client_incoming_inv c m c' out :
  client_inv written P read c -> pc c = AtLoop -> in_ok P m ->
  on_incoming c m = (c', out) -> move_ok c c' out.
Proof.
  intros Hi Hpc [Hr Ha]. unfold on_incoming.
  assert (move_ok c (set_epochCount c 0) []) as H0 by (apply frame_ok; auto).
  destruct Hi as [Hc Hsig Hkn Hidle]. rewrite Hpc in Hc. simpl in *.
  destruct (MType m =? MsgData) eqn:Ed.
  - apply Z.eqb_eq in Ed. destruct (is_short m) eqn:Esh; [by intros [= <- <-]|].
    rewrite store_rsq. set (d := if SeqNum m =? rsq (win c) then Some (rsq (win c), SeqNum m)
                               else None).
    destruct (conn_store _ _ _ _ _ _ m d Hc Hr Ed Esh eq_refl) as (Hc' & Hg & Hrec).
    unfold d in Hc'. case_match; intros [= <- <-];
      (constructor; [constructor; simpl; rewrite ?Hpc; done| |constructor; [done|by left]]);
      auto with go.
  - destruct (MType m =? MsgAck) eqn:Ea; [|by intros [= <- <-]].
    apply Z.eqb_eq in Ea. destruct (Ha Ea) as [Hid Hgot].
    destruct (tbuffer (win c) !! SeqNum m) as [v|]; [|by intros [= <- <-]].
    destruct ((MType v =? MsgConnect) && (id c <? 0)) eqn:Ec; intros [= <- <-].
    + apply andb_prop in Ec as [_ Hneg%Z.ltb_lt].
      assert (written = []) as Ew by (by apply Hidle).
      destruct (conn_ack _ _ _ _ _ _ _ (ConnID m) Hc Hgot (or_intror Ew)) as [Hc' Hg].
      constructor; [constructor; simpl; rewrite ?Hpc; try done|by constructor|
        by constructor; [|right]]. rewrite Hsig. f_equal. symmetry. by apply Z.leb_le, Hknown.
    + destruct (conn_ack _ _ _ _ _ _ _ (id c) Hc Hgot (or_introl eq_refl)) as [Hc' Hg].
      constructor; [constructor; simpl; rewrite ?Hpc; done|by constructor|by constructor; [|left]].
Qed.

Lemma on_drain_inv c i sq c' out :
  client_inv written P read c -> pc c = AtDrain i sq ->
  on_drain c i sq = Some (c', out) -> small (read ++ rmsg c') -> move_ok c c' out.
Proof.
  intros [Hc Hsig Hkn Hidle] Hpc Hout. revert Hout. rewrite Hpc in Hc. unfold on_drain.
  destruct (drain_one (win c) i) as [[data w]|] eqn:E.
  - destruct (send rmsg_cap (rmsg c) data) as [q|] eqn:Eq; simpl; [|done].
    apply send_Some in Eq as [_ ->]. intros [= <- <-]. simpl. rewrite app_assoc. intros Hs.
    destruct (conn_drain _ _ _ _ _ _ _ _ _ _ Hs Hc E) as [Hc' Hg].
    constructor; [constructor; simpl; [by rewrite app_assoc|done..]|by constructor|].
    constructor; [done|by left].
  - intros [= <- <-] _. destruct (conn_drained _ _ _ _ _ _ _ _ Hc E) as [Hc' Hsq].
    constructor; [by constructor|auto with go|by apply grows_frame].
Qed.

Lemma client_timer_inv c c' out :
  client_inv written P read c -> pc c = AtLoop -> on_timer c = Some (c', out) ->
  move_ok c c' out.
Proof.
  intros Hi Hpc. unfold on_timer. set (c0 := set_epochCount c _).
  assert (move_ok c c0 []) as [Hi0 _ Hg] by (apply frame_ok; auto).
  destruct (epochCount c0 =? retries c0).
  { destruct (send err_cap _ _) as [e|]; simpl; [|done]. intros [= <- <-].
    apply frame_ok; auto. by rewrite Hpc. }
  intros [= <- <-]. constructor; [done| |done]. apply Forall_app. split.
  - case_match; [|case_match]; auto with go.
  - apply Forall_forall. intros m Hm. by eapply conn_unacked; [apply Hi0|].
Qed.

Lemma client_default_inv c c' out :
  client_inv written P read c -> on_default c = (c', out) -> move_ok c c' out.
Proof.
  intros [Hc Hsig Hkn Hidle]. unfold on_default.
  destruct (transmit (win c)) as [w o] eqn:E. intros [= <- <-].
  destruct (conn_transmit _ _ _ _ Hw _ _ _ _ _ Hc E) as (Hc' & Ho & Hg).
  constructor; [by constructor|done|constructor; [done|by left]].
Qed.

(** Every move of the handler keeps the invariant, and what it sends is true. *)
Lemma handler_inv c sel c' out :
  client_inv written P read c -> handler c sel = Some (c', out) ->
  small (read ++ rmsg c') -> move_ok c c' out.
Proof.
  intros Hi. unfold handler. destruct (pc c) as [|i sq|] eqn:Hpc; [|by apply on_drain_inv|done].
  intros E _. revert E.
  destruct (bool_decide _ && _).
  { intros [= <- <-]. apply frame_ok; auto. by rewrite Hpc. }
  destruct sel.
  - destruct (incoming c) as [|m q] eqn:Eq; [done|]. intros [= E].
    pose proof (cn_in _ _ _ _ _ _ _ (ci_conn _ _ _ _ Hi)) as Hin. rewrite Eq in Hin.
    inversion Hin as [|? ? Hm _]; subst.
    destruct (frame_ok c (set_incoming c q)) as [Hi0 _ _]; try done.
    { intros m'. rewrite Eq. by right. }
    by destruct (client_incoming_inv _ _ _ _ Hi0 Hpc Hm E) as [? ? [? ?]].
  - by apply client_timer_inv.
  - destruct (incoming c) eqn:Eq; [|done]. intros [= E]. by apply client_default_inv.
Qed.

Lemma Write_inv c p c' :
  client_inv written P read c -> established c = true -> Write c p = Some c' ->
  client_inv (written ++ [p]) P read c' /\ client_grows c c'.
Proof.
  intros [Hc Hsig Hkn Hidle] Hon. unfold Write.
  destruct (send _ _ _) as [q|] eqn:Eq; simpl; [|done]. apply send_Some in Eq as [_ ->].
  intros [= <-]. split; [|constructor; [by apply window_grows_half|by left]].
  constructor; simpl; [by apply conn_write|done|done|].
  apply established_sig in Hsig. rewrite Hsig in Hon. lia.
Qed.

Lemma Read_data_inv c data c' :
  client_inv written P read c -> Read_data c = Some (data, c') ->
  client_inv written P (read ++ [data]) c' /\ client_grows c c'.
Proof.
  intros [Hc Hsig Hkn Hidle]. unfold Read_data. destruct (rmsg c) eqn:E; [done|].
  intros [= -> <-]. split; [|by apply grows_frame].
  constructor; simpl; [by rewrite <- app_assoc|done..].
Qed.

Lemma client_receiver_inv c r c' :
  client_inv written P read c -> (forall m, r = Some m -> in_ok P m) ->
  receiver c r = Some c' ->
  client_inv written P read c' /\ client_grows c c'.
Proof.
  intros Hi Hr. unfold receiver. destruct (receiving c); [|done]. destruct r as [m|].
  - destruct (send _ _ _) as [q|] eqn:Eq; simpl; [|done]. apply send_Some in Eq as [_ ->].
    intros [= <-]. destruct Hi as [Hc Hsig Hkn Hidle]. split; [|by apply grows_frame].
    constructor; simpl; [|done..]. apply conn_arrive; auto.
  - case_match; intros [= <-]; split; try apply grows_frame; try done.
    by apply (client_inv_frame c); auto.
Qed.
End ClientInv.

Lemma client_inv_mono written P P' read c :
  peer_le P P' -> client_inv written P read c -> client_inv written P' read c.
Proof.
  intros Hle [Hc Hsig Hkn Hidle]. constructor; [by eapply conn_inv_mono|done| |done].
  intros ?. by apply Hle, Hkn.
Qed.

(** The client [NewClient] starts with. *)
Lemma NewClient_inv params P :
  client_inv [] P [] (NewClient params).1.
Proof.
  constructor; simpl; [|done..]. constructor; simpl; try done.
  - constructor; simpl; try done. intros k m [<- <-]%lookup_singleton_Some.
    split_and!; try done; lia.
  - by apply recv_inv_init.
  - intros sq. simpl. lia.
  - split; simpl; [done|]. by intros k m [<- <-]%lookup_singleton_Some.
  - intros Hwin k m. simpl. intros [<- <-]%lookup_singleton_Some. lia.
Qed.

(** A move of the handler hands over at most one payload. *)
Lemma handler_rmsg c sel c' out :
  handler c sel = Some (c', out) -> (length (rmsg c') <= S (length (rmsg c)))%nat.
Proof.
  assert (forall c0, rmsg c0 = rmsg c -> (length (rmsg c0) <= S (length (rmsg c)))%nat) as H
    by (intros c0 ->; lia).
  unfold handler, on_drain, on_incoming, on_timer, on_default. intros E.
  repeat (case_match; simplify_eq/=; auto).
  all: match goal with E : context [send ?n ?q ?x] |- _ =>
         destruct (send n q x) as [l|] eqn:Eq; simpl in E; simplify_eq;
         apply send_Some in Eq as [_ ->]; simpl; rewrite ?length_app; simpl; lia
       | |- _ => by auto end.
Qed.

Lemma receiver_rmsg c r c' : receiver c r = Some c' -> rmsg c' = rmsg c.
Proof.
  unfold receiver. destruct (receiving c); [|done]. destruct r.
  - destruct (send _ _ _); simpl; [|done]. by intros [= <-].
  - case_match; by intros [= <-].
Qed.

Lemma Write_rmsg c p c' : Write c p = Some c' -> rmsg c' = rmsg c.
Proof. unfold Write. destruct (send _ _ _); simpl; [|done]. by intros [= <-]. Qed.

Lemma Read_data_rmsg c data c' : Read_data c = Some (data, c') -> rmsg c = data :: rmsg c'.
Proof. unfold Read_data. destruct (rmsg c); [done|]. by intros [= -> <-]. Qed.
