(* ===== verification/LspServer.v ===== *)
(** The LSP server (src/project-2/src/example.com/lsp/server_impl.go).

    The goroutines are the application ([Read], [Write], [CloseConn], [Close]),
    [receiver], [handle], which demultiplexes, and one [handleClient] per
    connection.  A [clientInfo] is shared by [handle] and its own goroutine and
    outlives its entry in the table, so the objects live in a heap [infos] and
    the Go map [clients] is the set of the identifiers it still holds (an object
    is stored under its own identifier and identifiers are never reused).  As
    for the client, each definition is one atomic move, [None] blocks, and the
    packets given to [go WriteMessage] are returned. *)
From S2P Require Import Prelude GoText LspMessage LspWindow.

(** Where [handleClient] is: at the head of its loop; in the delivery loop; about
    to report its end ([s.cls <- c.id]) after a graceful close; about to report
    [s.cls] and then [s.err] after a timeout; returned. *)
Inductive client_pc :=
| AtLoop
| AtDrain (i sq : Z)
| AtClosed
| AtLostCls
| AtLostErr
| Returned.

#[export] Instance client_pc_eq_dec : EqDecision client_pc.
Proof. solve_decision. Defined.

Record clientInfo := mkClientInfo {
  id : Z;
  addr : string;
  incoming : list Message;     (* channel of capacity 1024 *)
  win : window;
  retries : Z;
  status : Status;
  epochCount : Z;              (* local variable of [handleClient] *)
  pc : client_pc
}.

(** Where [handle] is: at its [select]; holding a packet for a client's
    [incoming] or [tmsg] channel; returned. *)
Inductive handle_pc :=
| HSelect
| HIncoming (cid : Z) (m : Message)
| HOutgoing (cid : Z) (m : Message)
| HReturned.

#[export] Instance handle_pc_eq_dec : EqDecision handle_pc.
Proof. solve_decision. Defined.

Record server := mkServer {
  clients : gset Z;
  infos : gmap Z clientInfo;
  lastConnID : Z;
  sincoming : list (Message * string);   (* [incoming], capacity 10000 *)
  outgoing : list Message;               (* capacity 10000 *)
  rmsg : list (Z * string);              (* capacity 10000 *)
  sstatus : Status;
  err : list (Z * string);               (* capacity 1024 *)
  cls : list Z;                          (* capacity 1024 *)
  bcls : bool;                           (* closed? *)
  hpc : handle_pc;
  receiving : bool;
  sock : bool;
  params : Params                        (* argument of [handle] *)
}.

Definition sincoming_cap : Z := 10000.
Definition outgoing_cap : Z := 10000.
Definition rmsg_cap : Z := 10000.
Definition err_cap : Z := 1024.
Definition cls_cap : Z := 1024.
Definition incoming_cap : Z := 1024.
Definition tmsg_cap : Z := 1024.

Definition set_incoming c q :=
  mkClientInfo (id c) (addr c) q (win c) (retries c) (status c) (epochCount c) (pc c).
Definition set_win c w :=
  mkClientInfo (id c) (addr c) (incoming c) w (retries c) (status c) (epochCount c) (pc c).
Definition set_status c s :=
  mkClientInfo (id c) (addr c) (incoming c) (win c) (retries c) s (epochCount c) (pc c).
Definition set_epochCount c n :=
  mkClientInfo (id c) (addr c) (incoming c) (win c) (retries c) (status c) n (pc c).
Definition set_pc c p :=
  mkClientInfo (id c) (addr c) (incoming c) (win c) (retries c) (status c) (epochCount c) p.

Definition set_clients s x := mkServer x (infos s) (lastConnID s) (sincoming s) (outgoing s)
  (rmsg s) (sstatus s) (err s) (cls s) (bcls s) (hpc s) (receiving s) (sock s) (params s).
Definition set_infos s x := mkServer (clients s) x (lastConnID s) (sincoming s) (outgoing s)
  (rmsg s) (sstatus s) (err s) (cls s) (bcls s) (hpc s) (receiving s) (sock s) (params s).
Definition set_lastConnID s x := mkServer (clients s) (infos s) x (sincoming s) (outgoing s)
  (rmsg s) (sstatus s) (err s) (cls s) (bcls s) (hpc s) (receiving s) (sock s) (params s).
Definition set_sincoming s x := mkServer (clients s) (infos s) (lastConnID s) x (outgoing s)
  (rmsg s) (sstatus s) (err s) (cls s) (bcls s) (hpc s) (receiving s) (sock s) (params s).
Definition set_outgoing s x := mkServer (clients s) (infos s) (lastConnID s) (sincoming s) x
  (rmsg s) (sstatus s) (err s) (cls s) (bcls s) (hpc s) (receiving s) (sock s) (params s).
Definition set_rmsg s x := mkServer (clients s) (infos s) (lastConnID s) (sincoming s) (outgoing s)
  x (sstatus s) (err s) (cls s) (bcls s) (hpc s) (receiving s) (sock s) (params s).
Definition set_sstatus s x := mkServer (clients s) (infos s) (lastConnID s) (sincoming s)
  (outgoing s) (rmsg s) x (err s) (cls s) (bcls s) (hpc s) (receiving s) (sock s) (params s).
Definition set_err s x := mkServer (clients s) (infos s) (lastConnID s) (sincoming s) (outgoing s)
  (rmsg s) (sstatus s) x (cls s) (bcls s) (hpc s) (receiving s) (sock s) (params s).
Definition set_cls s x := mkServer (clients s) (infos s) (lastConnID s) (sincoming s) (outgoing s)
  (rmsg s) (sstatus s) (err s) x (bcls s) (hpc s) (receiving s) (sock s) (params s).
Definition set_bcls s x := mkServer (clients s) (infos s) (lastConnID s) (sincoming s) (outgoing s)
  (rmsg s) (sstatus s) (err s) (cls s) x (hpc s) (receiving s) (sock s) (params s).
Definition set_hpc s x := mkServer (clients s) (infos s) (lastConnID s) (sincoming s) (outgoing s)
  (rmsg s) (sstatus s) (err s) (cls s) (bcls s) x (receiving s) (sock s) (params s).
Definition set_receiving s x := mkServer (clients s) (infos s) (lastConnID s) (sincoming s)
  (outgoing s) (rmsg s) (sstatus s) (err s) (cls s) (bcls s) (hpc s) x (sock s) (params s).
Definition set_sock s x := mkServer (clients s) (infos s) (lastConnID s) (sincoming s)
  (outgoing s) (rmsg s) (sstatus s) (err s) (cls s) (bcls s) (hpc s) (receiving s) x (params s).

Definition put_info s c := set_infos s (<[id c := c]> (infos s)).

(** ** NewServer *)

Definition NewServer (p : Params) : server :=
  mkServer ∅ ∅ 73 [] [] [] newStatus [] [] false HSelect true true p.

(** ** Calls of the application *)

Definition Read_data (s : server) : option (Z * string * server) :=
  match rmsg s with
  | element :: q => Some (element, set_rmsg s q)
  | [] => None
  end.

Definition Read_err (s : server) : option (Z * string * server) :=
  match err s with
  | lost :: q => Some (lost, set_err s q)
  | [] => None
  end.

Definition Write (s : server) (connID : Z) (payload : string) : option server :=
  let message := NewData connID (-1) (Z.of_nat (String.length payload)) payload in
  q ← send outgoing_cap (outgoing s) message;
  Some (set_outgoing s q).

Definition push_cls (s : server) (connID : Z) : option server :=
  q ← send cls_cap (cls s) connID; Some (set_cls s q).

Definition CloseConn (s : server) (connID : Z) : option server := push_cls s connID.

(** [close(s.bcls)] panics when the channel is closed already. *)
Definition Close_begin (s : server) : option server :=
  if bcls s then None else Some (set_bcls (set_sstatus s startClosing) true).

(** One turn of the polling loop of [Close]; [true] is its return. *)
Definition Close_poll (s : server) : server * bool :=
  let s := if bool_decide (sstatus s = handlerClosed) then set_sock s false else s in
  (s, bool_decide (sstatus s = connectionClosed)).

(** ** receiver *)

Definition receiver (s : server) (read : option (Message * string)) : option server :=
  if receiving s then
    match read with
    | Some am => q ← send sincoming_cap (sincoming s) am; Some (set_sincoming s q)
    | None => if bool_decide (sstatus s = handlerClosed)
              then Some (set_receiving (set_sstatus s connectionClosed) false)
              else Some s
    end
  else None.

(** ** handle *)

(** The scan of the client table for a connection request already served. *)
Definition duplicate (s : server) (a : string) : bool :=
  existsb (fun '(i, c) => bool_decide (i ∈ clients s) && String.eqb (addr c) a)
    (map_to_list (infos s)).

Definition new_clientInfo (s : server) (a : string) : clientInfo :=
  mkClientInfo (lastConnID s) a []
    (mkWindow ∅ [] 1 ∅ 1 (WindowSize (params s)))
    (EpochLimit (params s)) newStatus 0 AtLoop.

(** The branch [case am := <-s.incoming]; packets are [(destination, message)]. *)
Definition on_packet (s : server) (m : Message) (a : string) : server * list (string * Message) :=
  if MType m =? MsgConnect then
    if duplicate s a then (s, [])
    else
      let client := new_clientInfo s a in
      let s := set_clients (put_info s client) ({[lastConnID s]} ∪ clients s) in
      let s := set_lastConnID s (int64 (lastConnID s + 1)) in
      (s, [(a, NewAck (id client) 0)])
  else if bool_decide (ConnID m ∈ clients s) then (set_hpc s (HIncoming (ConnID m) m), [])
  else (s, []).

(** The branch [case m := <-s.outgoing]. *)
Definition on_outgoing (s : server) (m : Message) : server :=
  if bool_decide (ConnID m ∈ clients s) then set_hpc s (HOutgoing (ConnID m) m) else s.

(** The branch [case id := <-s.cls]. *)
Definition on_cls (s : server) (cid : Z) : server :=
  let s :=
    if bool_decide (cid ∈ clients s) then
      let s := match infos s !! cid with
               | Some c => if bool_decide (status c = notClosing)
                           then put_info s (set_status c startClosing) else s
               | None => s
               end in
      set_clients s (clients s ∖ {[cid]})
    else s in
  if bool_decide (clients s = ∅) && bool_decide (sstatus s = startClosing)
  then set_hpc (set_sstatus s handlerClosed) HReturned else s.

Inductive handle_case := CasePacket | CaseOutgoing | CaseCls.

Definition handle (s : server) (sel : handle_case) : option (server * list (string * Message)) :=
  match hpc s with
  | HReturned => None
  | HIncoming cid m =>
      c ← infos s !! cid;
      q ← send incoming_cap (incoming c) m;
      Some (set_hpc (put_info s (set_incoming c q)) HSelect, [])
  | HOutgoing cid m =>
      c ← infos s !! cid;
      q ← send tmsg_cap (tmsg (win c)) m;
      Some (set_hpc (put_info s (set_win c (set_tmsg (win c) q))) HSelect, [])
  | HSelect =>
      match sel with
      | CasePacket => match sincoming s with
                      | (m, a) :: q => Some (on_packet (set_sincoming s q) m a)
                      | [] => None
                      end
      | CaseOutgoing => match outgoing s with
                        | m :: q => Some (on_outgoing (set_outgoing s q) m, [])
                        | [] => None
                        end
      | CaseCls => match cls s with
                   | cid :: q => Some (on_cls (set_cls s q) cid, [])
                   | [] => None
                   end
      end
  end.

(** ** handleClient *)

Inductive select := CaseIncoming | CaseTimer | CaseDefault.

Definition on_incoming (c : clientInfo) (m : Message) : clientInfo * list Message :=
  let c := set_epochCount c 0 in
  if MType m =? MsgData then
    if is_short m then (c, [])
    else
      let c := set_win c (store (win c) m) in
      if SeqNum m =? rsq (win c) then (set_pc c (AtDrain (rsq (win c)) (SeqNum m)), [])
      else (c, [NewAck (id c) (SeqNum m)])
  else if MType m =? MsgAck then
    match tbuffer (win c) !! SeqNum m with
    | Some _ => (set_win c (ack (win c) (SeqNum m)), [])
    | None => (c, [])
    end
  else (c, []).

(** The branch [case <-c.timer]: at the limit the goroutine goes on to report the
    loss, otherwise everything unacknowledged is sent again. *)
Definition on_timer (c : clientInfo) : clientInfo * list Message :=
  let c := set_epochCount c (int64 (epochCount c + 1)) in
  if epochCount c =? retries c then (set_pc c AtLostCls, [])
  else
    let reminder :=
      if (rsq (win c) =? 1) && bool_decide (rbuffer (win c) = ∅) then [NewAck (id c) 0] else [] in
    (c, reminder ++ unacked (win c)).

Definition on_default (c : clientInfo) (bclosed : bool) : clientInfo * list Message :=
  let '(w, out) := transmit (win c) in
  let c := set_win c w in
  let c := if bool_decide (status c = notClosing) && bclosed
           then set_status c startClosing else c in
  (c, out).

Definition lost_error (cid : Z) : string :=
  ("[s] client " ++ Itoa cid ++ ": Connection lost")%string.

(** A move of the goroutine of [c]; the returned server has the new [c]. *)
Definition handleClient_at (s : server) (c : clientInfo) (sel : select)
    : option (server * list Message) :=
  match pc c with
  | Returned => None
  | AtClosed =>
      s ← push_cls s (id c);
      Some (put_info s (set_pc c Returned), [])
  | AtLostCls =>
      s ← push_cls s (id c);
      Some (put_info s (set_pc c AtLostErr), [])
  | AtLostErr =>
      e ← send err_cap (err s) (id c, lost_error (id c));
      Some (put_info (set_err s e) (set_pc (set_status c handlerClosed) Returned), [])
  | AtDrain i sq =>
      match drain_one (win c) i with
      | Some (data, w) =>
          q ← send rmsg_cap (rmsg s) (id c, data);
          Some (put_info (set_rmsg s q) (set_pc (set_win c w) (AtDrain (int64 (i + 1)) sq)), [])
      | None => Some (put_info s (set_pc c AtLoop), [NewAck (id c) sq])
      end
  | AtLoop =>
      if bool_decide (status c = startClosing) && flushed (win c) then
        Some (put_info s (set_pc (set_status c handlerClosed) AtClosed), [])
      else
        match sel with
        | CaseIncoming =>
            match incoming c with
            | m :: q => let '(c, out) := on_incoming (set_incoming c q) m in
                        Some (put_info s c, out)
            | [] => None
            end
        | CaseTimer => let '(c, out) := on_timer c in Some (put_info s c, out)
        | CaseDefault =>
            match incoming c with
            | [] => let '(c, out) := on_default c (bcls s) in Some (put_info s c, out)
            | _ :: _ => None
            end
        end
  end.

Definition handleClient (s : server) (cid : Z) (sel : select)
    : option (server * list (string * Message)) :=
  c ← infos s !! cid;
  match handleClient_at s c sel with
  | Some (s', out) => Some (s', (fun m => (addr c, m)) <$> out)
  | None => None
  end.

(** ** The invariant of a connection *)

Definition draining (p : client_pc) : option (Z * Z) :=
  match p with
  | AtDrain i sq => Some (i, sq)
  | _ => None
  end.

Definition info_inv (written : list string) (P : peer) (delivered : list string)
    (c : clientInfo) : Prop :=
  conn_inv written P delivered (id c) (win c) (incoming c) (draining (pc c)).

(** The data of connection [cid] that waits for [Read]. *)
Definition queued (cid : Z) (q : list (Z * string)) : list string :=
  (filter (fun e => e.1 = cid) q).*2.

(** What a move of the goroutine of [c] does to the server: only [c] and the
    three channels to the application and to [handle] change. *)
Record client_move (s s' : server) (c c' : clientInfo) (pushed : list string) : Prop := {
  cm_infos : infos s' = <[id c := c']> (infos s);
  cm_rmsg : rmsg s' = rmsg s ++ (pair (id c) <$> pushed);
  cm_id : id c' = id c;
  cm_addr : addr c' = addr c;
  cm_rest : clients s' = clients s /\ lastConnID s' = lastConnID s /\
            sincoming s' = sincoming s /\ outgoing s' = outgoing s /\ hpc s' = hpc s;
  cm_pushed : (length pushed <= 1)%nat
}.

Lemma queued_app cid q1 q2 : queued cid (q1 ++ q2) = queued cid q1 ++ queued cid q2.
Proof. unfold queued. by rewrite filter_app, fmap_app. Qed.

Lemma queued_same cid l : queued cid (pair cid <$> l) = l.
Proof.
  unfold queued. induction l as [|x l IH]; [done|].
  rewrite fmap_cons, filter_cons_True, fmap_cons, IH by done. done.
Qed.

Lemma queued_other cid cid' (l : list string) : cid <> cid' -> queued cid (pair cid' <$> l) = [].
Proof.
  intros Hne. unfold queued. induction l as [|x l IH]; [done|].
  rewrite fmap_cons, filter_cons_False by (simpl; congruence). done.
Qed.

Lemma push_cls_Some s i s' :
  push_cls s i = Some s' -> s' = set_cls s (cls s ++ [i]).
Proof.
  unfold push_cls. destruct (send _ _ _) as [q|] eqn:E; simpl; [|done].
  apply send_Some in E as [_ ->]. by intros [= <-].
Qed.

Section InfoInv.
Context (written : list string) (P : peer) (delivered : list string).
Context (Hw : small written).

Lemma info_frame delivered' c c' :
  delivered' = delivered -> id c' = id c -> win c' = win c ->
  (forall m, m ∈ incoming c' -> m ∈ incoming c) ->
  draining (pc c') = draining (pc c) ->
  info_inv written P delivered c -> info_inv written P delivered' c'.
Proof.
  intros -> Ei Ew Hin Hpc. unfold info_inv. rewrite Ei, Ew, Hpc. by apply conn_shrink.
Qed.

(** The connection after a move, and what the move put on the network. *)
Definition info_ok (c c' : clientInfo) (delivered' : list string) (out : list Message) : Prop :=
  info_inv written P delivered' c' /\
  Forall (out_ok written (id c') (win c')) out /\
  (id c' = id c /\ addr c' = addr c /\ window_grows (win c) (win c')).

Lemma info_frame_ok c c' :
  id c' = id c -> addr c' = addr c -> win c' = win c ->
  (forall m, m ∈ incoming c' -> m ∈ incoming c) ->
  draining (pc c') = draining (pc c) ->
  info_inv written P delivered c -> info_ok c c' delivered [].
Proof.
  intros E1 E2 E3 ? ? ?. split_and!; try done; [|by apply window_grows_half; rewrite E3].
  by eapply info_frame.
Qed.

Lemma info_incoming_inv c m c' out :
  info_inv written P delivered c -> pc c = AtLoop -> in_ok P m ->
  on_incoming c m = (c', out) -> info_ok c c' delivered out.
Proof.
  intros Hc Hpc [Hr Ha]. unfold on_incoming.
  assert (info_ok c (set_epochCount c 0) delivered []) as H0 by (apply info_frame_ok; auto).
  unfold info_inv in Hc. rewrite Hpc in Hc. simpl in *.
  destruct (MType m =? MsgData) eqn:Ed.
  - apply Z.eqb_eq in Ed. destruct (is_short m) eqn:Esh; [by intros [= <- <-]|].
    rewrite store_rsq. set (d := if SeqNum m =? rsq (win c) then Some (rsq (win c), SeqNum m)
                               else None).
    destruct (conn_store _ _ _ _ _ _ m d Hc Hr Ed Esh eq_refl) as (Hc' & Hg & Hrec).
    unfold d in Hc'. case_match; intros [= <- <-]; (split_and!; try done); unfold info_inv; simpl;
      rewrite ?Hpc; auto with go.
  - destruct (MType m =? MsgAck) eqn:Ea; [|by intros [= <- <-]].
    apply Z.eqb_eq in Ea. destruct (Ha Ea) as [Hid Hgot].
    destruct (tbuffer (win c) !! SeqNum m) as [v|]; [|by intros [= <- <-]].
    intros [= <- <-].
    destruct (conn_ack _ _ _ _ _ _ _ (id c) Hc Hgot (or_introl eq_refl)) as [Hc' Hg].
    split; [|by split]. unfold info_inv. simpl. by rewrite Hpc.
Qed.

Lemma info_timer_inv c c' out :
  info_inv written P delivered c -> pc c = AtLoop -> on_timer c = (c', out) ->
  info_ok c c' delivered out.
Proof.
  intros Hi Hpc. unfold on_timer. set (c0 := set_epochCount c _).
  assert (info_ok c c0 delivered []) as (Hi0 & _ & Hg) by (apply info_frame_ok; auto).
  destruct (epochCount c0 =? retries c0).
  { intros [= <- <-]. apply info_frame_ok; auto. by rewrite Hpc. }
  intros [= <- <-]. split_and!; [done| |apply Hg..]. apply Forall_app. split.
  - case_match; auto with go.
  - apply Forall_forall. intros m Hm. by eapply conn_unacked.
Qed.

Lemma info_default_inv c b c' out :
  info_inv written P delivered c -> on_default c b = (c', out) ->
  info_ok c c' delivered out.
Proof.
  intros Hc. unfold on_default. destruct (transmit (win c)) as [w o] eqn:E.
  destruct (conn_transmit _ _ _ _ Hw _ _ _ _ _ Hc E) as (Hc' & Ho & Hg).
  case_match; intros [= <- <-]; by split_and!.
Qed.

(** [s1] is [s] up to the channels to the application and to [handle]. *)
Definition same_table (s s1 : server) : Prop :=
  infos s1 = infos s /\ clients s1 = clients s /\ lastConnID s1 = lastConnID s /\
  sincoming s1 = sincoming s /\ outgoing s1 = outgoing s /\ hpc s1 = hpc s.

Lemma client_move_of s s1 c c' delivered' out pushed :
  same_table s s1 -> rmsg s1 = rmsg s ++ (pair (id c) <$> pushed) ->
  (length pushed <= 1)%nat -> info_ok c c' delivered' out -> client_move s (put_info s1 c') c c' pushed.
Proof.
  intros (E1 & E2 & E3 & E4 & E5 & E6) Er Hlen (Hi & _ & Hid & Had & Hg).
  constructor; try done; simpl. by rewrite E1, Hid.
Qed.

Lemma handleClient_at_inv s c sel s' out :
  info_inv written P delivered c -> handleClient_at s c sel = Some (s', out) ->
  exists c' pushed, client_move s s' c c' pushed /\
    (small (delivered ++ pushed) -> info_ok c c' (delivered ++ pushed) out).
Proof.
  intros Hc. unfold handleClient_at.
  assert (forall s1 c1 out1, same_table s s1 -> rmsg s1 = rmsg s ->
    info_ok c c1 delivered out1 -> exists c' pushed,
    client_move s (put_info s1 c1) c c' pushed /\
    (small (delivered ++ pushed) -> info_ok c c' (delivered ++ pushed) out1)) as Hmove.
  { intros s1 c1 out1 Hsame Er Hok. exists c1, []. rewrite app_nil_r.
    split; [|done]. eapply client_move_of; [done| |simpl; lia|done]. by rewrite Er, app_nil_r. }
  destruct (pc c) as [|i sq| | | |] eqn:Hpc.
  - destruct (bool_decide _ && _).
    { intros [= <- <-]. apply Hmove; [done..|]. apply info_frame_ok; auto. by rewrite Hpc. }
    destruct sel.
    + destruct (incoming c) as [|m q] eqn:Eq; [done|].
      destruct (on_incoming (set_incoming c q) m) as [c1 o] eqn:E. intros [= <- <-].
      pose proof (cn_in _ _ _ _ _ _ _ Hc) as Hin. rewrite Eq in Hin.
      inversion Hin as [|? ? Hm _]; subst. apply Hmove; [done..|].
      apply (info_incoming_inv (set_incoming c q) m); [|done..].
      eapply (info_frame _ c); try done. intros m'. rewrite Eq. by right.
    + destruct (on_timer c) as [c1 o] eqn:E. intros [= <- <-]. apply Hmove; [done..|]. by apply info_timer_inv.
    + destruct (incoming c) eqn:Eq; [|done].
      destruct (on_default c (bcls s)) as [c1 o] eqn:E. intros [= <- <-].
      by apply Hmove, (info_default_inv _ (bcls s)).
  - unfold info_inv in Hc. rewrite Hpc in Hc. simpl in Hc.
    destruct (drain_one (win c) i) as [[data w]|] eqn:E.
    + destruct (send rmsg_cap (rmsg s) (id c, data)) as [q|] eqn:Eq; simpl; [|done].
      apply send_Some in Eq as [_ ->]. intros [= <- <-].
      eexists _, [data]. split; [by constructor|]. intros Hs.
      { destruct (conn_drain _ _ _ _ _ _ _ _ _ _ Hs Hc E) as [Hc' Hg].
        by split_and!. }
    + intros [= <- <-]. destruct (conn_drained _ _ _ _ _ _ _ _ Hc E) as [Hc' Hsq].
      apply Hmove; [done..|]. by split_and!; auto with go.
  - destruct (push_cls s (id c)) as [s1|] eqn:E; simpl; [|done]. intros [= <- <-].
    apply push_cls_Some in E as ->. apply Hmove; [done..|]. apply info_frame_ok; auto. by rewrite Hpc.
  - destruct (push_cls s (id c)) as [s1|] eqn:E; simpl; [|done]. intros [= <- <-].
    apply push_cls_Some in E as ->. apply Hmove; [done..|]. apply info_frame_ok; auto. by rewrite Hpc.
  - destruct (send _ _ _) as [q|]; simpl; [|done]. intros [= <- <-].
    apply Hmove; [done..|]. apply info_frame_ok; auto. by rewrite Hpc.
  - done.
Qed.
End InfoInv.

Lemma info_inv_mono written P P' delivered c :
  peer_le P P' -> info_inv written P delivered c -> info_inv written P' delivered c.
Proof. apply conn_inv_mono. Qed.

(** The connection a connection request creates. *)
Lemma new_clientInfo_inv s a P : info_inv [] P [] (new_clientInfo s a).
Proof.
  unfold info_inv. constructor; simpl; try done.
  - by apply recv_inv_init.
  - intros sq. simpl. lia.
Qed.
