(* ===== verification/LspSystem.v ===== *)
(** A server, its clients and the network between them.

    The network keeps every packet ever written, with its source (to the server)
    or its destination (to a client), and may hand over any of them, any number
    of times, in any order, at any moment, also with any shorter payload: loss,
    duplication, reordering, delay, truncation and corruption that loses bytes are
    all schedules of this model.  An event names the goroutine that moves and the
    choice it makes.  [written], [cread] and [sread] record what the applications
    wrote and read, [accepted] what [handle] gave to the goroutine of a connection
    (LspWrites.v relates it to the calls of [Write]). *)
From S2P Require Import Prelude GoText LspMessage LspWindow LspClient LspServer.

Record sys := mkSys {
  ends : gmap string LspClient.client;    (* by address *)
  srv : LspServer.server;
  to_srv : list (string * Message);       (* source, packet *)
  to_cli : list (string * Message);       (* destination, packet *)
  written : gmap string (list string);    (* by the client at this address *)
  cread : gmap string (list string);      (* by the client at this address *)
  accepted : gmap Z (list string);        (* by the goroutine of this connection, from [handle] *)
  sread : gmap Z (list string)            (* from this connection, by the server's application *)
}.

Definition init (p : Params) : sys := mkSys ∅ (NewServer p) [] [] ∅ ∅ ∅ ∅.

Inductive event :=
| ENewClient (a : string) (p : Params)
| EHandler (a : string) (sel : LspClient.select)
| EReceive (a : string) (k : nat) (cut : option string)
| EReceiveErr (a : string)
| EWrite (a : string) (payload : string)
| ERead (a : string)
| EReadErr (a : string)
| EClose (a : string)
| EPoll (a : string)
| SHandle (sel : handle_case)
| SClient (cid : Z) (sel : LspServer.select)
| SReceive (k : nat) (cut : option string)
| SReceiveErr
| SWrite (cid : Z) (payload : string)
| SRead
| SReadErr
| SCloseConn (cid : Z)
| SClose
| SPoll.

(** A packet whose payload was replaced by a shorter text. *)
Definition cut_msg (cut : option string) (m : Message) : Message :=
  match cut with
  | Some p => if Nat.ltb (String.length p) (String.length (Payload m)) then
                mkMessage (MType m) (ConnID m) (SeqNum m) (Size m) p
              else m
  | None => m
  end.

(** The client at [a] becomes [c], its application has written [w] and read [r],
    and [out] goes to the server. *)
Definition put_end (s : sys) (a : string) (c : LspClient.client) (w r : list string)
    (out : list Message) : sys :=
  mkSys (<[a := c]> (ends s)) (srv s) (to_srv s ++ ((fun m => (a, m)) <$> out)) (to_cli s)
    (<[a := w]> (written s)) (<[a := r]> (cread s)) (accepted s) (sread s).

Definition put_srv (s : sys) (v : LspServer.server) (out : list (string * Message)) : sys :=
  mkSys (ends s) v (to_srv s) (to_cli s ++ out) (written s) (cread s) (accepted s) (sread s).

Definition put_accepted (s : sys) (cid : Z) (l : list string) : sys :=
  mkSys (ends s) (srv s) (to_srv s) (to_cli s) (written s) (cread s)
    (<[cid := l]> (accepted s)) (sread s).

Definition put_sread (s : sys) (cid : Z) (l : list string) : sys :=
  mkSys (ends s) (srv s) (to_srv s) (to_cli s) (written s) (cread s) (accepted s)
    (<[cid := l]> (sread s)).

(** A move of the client at [a]; its application's history does not change. *)
Definition move_end (s : sys) (a : string) (r : option (LspClient.client * list Message))
    : option sys :=
  match r with
  | Some (c, out) => Some (put_end s a c (written s !!! a) (cread s !!! a) out)
  | None => None
  end.

Definition end_step (s : sys) (a : string) (c : LspClient.client) (ev : event) : option sys :=
  match ev with
  | EHandler _ sel => move_end s a (LspClient.handler c sel)
  | EReceive _ k cut =>
      match to_cli s !! k with
      | Some (dst, m) =>
          if LspClient.sock c && String.eqb dst a
          then move_end s a ((fun c => (c, [])) <$> LspClient.receiver c (Some (cut_msg cut m)))
          else None
      | None => None
      end
  | EReceiveErr _ => move_end s a ((fun c => (c, [])) <$> LspClient.receiver c None)
  | EWrite _ payload =>
      if established c then
        c' ← LspClient.Write c payload;
        Some (put_end s a c' (written s !!! a ++ [payload]) (cread s !!! a) [])
      else None
  | ERead _ =>
      match LspClient.Read_data c with
      | Some (data, c') => Some (put_end s a c' (written s !!! a) (cread s !!! a ++ [data]) [])
      | None => None
      end
  | EReadErr _ => move_end s a ((fun r => (r.2, [])) <$> LspClient.Read_err c)
  | EClose _ => move_end s a (Some (LspClient.Close_begin c, []))
  | EPoll _ => move_end s a (Some ((LspClient.Close_poll c).1, []))
  | _ => None
  end.

Definition quiet_srv (s : sys) (r : option LspServer.server) : option sys :=
  v ← r; Some (put_srv s v []).

Definition srv_step (s : sys) (ev : event) : option sys :=
  let v := srv s in
  match ev with
  | SHandle sel =>
      match LspServer.handle v sel with
      | Some (v', out) =>
          let s' := put_srv s v' out in
          match hpc v with
          | HOutgoing cid m => Some (put_accepted s' cid (accepted s !!! cid ++ [Payload m]))
          | _ => Some s'
          end
      | None => None
      end
  | SClient cid sel =>
      match LspServer.handleClient v cid sel with
      | Some (v', out) => Some (put_srv s v' out)
      | None => None
      end
  | SReceive k cut =>
      match to_srv s !! k with
      | Some (a, m) =>
          if LspServer.sock v then quiet_srv s (LspServer.receiver v (Some (cut_msg cut m, a)))
          else None
      | None => None
      end
  | SReceiveErr => quiet_srv s (LspServer.receiver v None)
  | SWrite cid payload => quiet_srv s (LspServer.Write v cid payload)
  | SRead =>
      match LspServer.Read_data v with
      | Some (cid, data, v') => Some (put_sread (put_srv s v' []) cid (sread s !!! cid ++ [data]))
      | None => None
      end
  | SReadErr => quiet_srv s (snd <$> LspServer.Read_err v)
  | SCloseConn cid => quiet_srv s (LspServer.CloseConn v cid)
  | SClose => quiet_srv s (LspServer.Close_begin v)
  | SPoll => quiet_srv s (Some (LspServer.Close_poll v).1)
  | _ => None
  end.

Definition step (s : sys) (ev : event) : option sys :=
  match ev with
  | ENewClient a p =>
      match ends s !! a with
      | None => let '(c, out) := LspClient.NewClient p in
                Some (put_end s a c (written s !!! a) (cread s !!! a) out)
      | Some _ => None
      end
  | EHandler a _ | EReceive a _ _ | EReceiveErr a | EWrite a _ | ERead a | EReadErr a
  | EClose a | EPoll a =>
      c ← ends s !! a; end_step s a c ev
  | _ => srv_step s ev
  end.

(** The client that moves. *)
Definition mover (ev : event) : option string :=
  match ev with
  | EHandler a _ | EReceive a _ _ | EReceiveErr a | EWrite a _ | ERead a | EReadErr a
  | EClose a | EPoll a => Some a
  | _ => None
  end.

(** ** What the two ends know of each other *)

(** The connection [i] of the server belongs to the client address [a]. *)
Definition serves (s : sys) (a : string) (i : Z) (ci : clientInfo) : Prop :=
  infos (srv s) !! i = Some ci /\ addr ci = a.

(** What the connection [i], of the client at [a], may assume. *)
Definition srv_peer (s : sys) (a : string) (i : Z) : peer := {|
  src k p := 0 <= i /\ exists c, ends s !! a = Some c /\ LspClient.id c = i /\
               source (written s !!! a) k p;
  got sq := exists c, ends s !! a = Some c /\ received (LspClient.win c) sq;
  known _ := True
|}.

(** What the client at [a] may assume.  A client does not look at the connection
    identifier of the data it gets, so it can name its source only when a single
    connection, [ow a], writes to its address. *)
Definition cli_peer (o : option (string -> Z)) (s : sys) (a : string) : peer := {|
  src k p := match o with
             | None => True
             | Some ow => source (accepted s !!! ow a) k p
             end;
  got sq := exists i ci, serves s a i ci /\ received (win ci) sq;
  known i := 0 <= i /\ exists ci, serves s a i ci
|}.

(** The server's application writes to connection [ow a] only, among the
    connections of the address [a]. *)
Definition single_writer (ow : string -> Z) (s : sys) : Prop :=
  forall i ci, infos (srv s) !! i = Some ci -> i <> ow (addr ci) -> accepted s !!! i = [].

(** A packet of the client at [a]. *)
Record srv_pkt (s : sys) (a : string) (c : LspClient.client) (m : Message) : Prop := {
  sp_end : ends s !! a = Some c;
  sp_own : MType m = MsgData \/ MType m = MsgAck -> ConnID m = LspClient.id c \/ ConnID m < 0;
  sp_ack : MType m = MsgAck -> 1 <= SeqNum m -> received (LspClient.win c) (SeqNum m)
}.

(** A packet of the connection [i], to the address [a]. *)
Record cli_pkt (s : sys) (a : string) (i : Z) (ci : clientInfo) (m : Message) : Prop := {
  cp_info : serves s a i ci;
  cp_sent : sent_ok (accepted s !!! i) m;
  cp_own : MType m = MsgData \/ MType m = MsgAck -> ConnID m = i;
  cp_ack : MType m = MsgAck -> 1 <= SeqNum m -> received (win ci) (SeqNum m)
}.

(** ** The invariant *)

Definition fresh_data (m : Message) : Prop :=
  exists p, m = NewData (ConnID m) (-1) (Z.of_nat (String.length p)) p.

(** The table holds at most one connection per client address. *)
Definition one_live (v : LspServer.server) : Prop :=
  forall i j ci cj, i ∈ clients v -> j ∈ clients v ->
    infos v !! i = Some ci -> infos v !! j = Some cj -> addr ci = addr cj -> i = j.

Record sys_inv (o : option (string -> Z)) (n : nat) (s : sys) : Prop := {
  v_ends : forall a c, ends s !! a = Some c ->
    client_inv (written s !!! a) (cli_peer o s a) (cread s !!! a) c;
  v_infos : forall i ci, infos (srv s) !! i = Some ci ->
    id ci = i /\ 73 <= i < lastConnID (srv s) /\
    info_inv (accepted s !!! i) (srv_peer s (addr ci) i)
      (sread s !!! i ++ queued i (rmsg (srv s))) ci;
  v_live : forall i, i ∈ clients (srv s) -> is_Some (infos (srv s) !! i);
  v_new_end : forall a, ends s !! a = None -> written s !!! a = [] /\ cread s !!! a = [];
  v_new_info : forall i, infos (srv s) !! i = None ->
    accepted s !!! i = [] /\ sread s !!! i ++ queued i (rmsg (srv s)) = [];
  v_to_srv : forall a m, (a, m) ∈ to_srv s ->
    exists c, srv_pkt s a c m /\ sent_ok (written s !!! a) m;
  v_to_cli : forall a m, (a, m) ∈ to_cli s -> exists i ci, cli_pkt s a i ci m;
  v_sincoming : forall a m, (m, a) ∈ sincoming (srv s) ->
    exists c, srv_pkt s a c m /\ recv_ok (source (written s !!! a)) m;
  v_hincoming : forall i m, hpc (srv s) = HIncoming i m ->
    exists ci, infos (srv s) !! i = Some ci /\ in_ok (srv_peer s (addr ci) i) m;
  v_outgoing : Forall fresh_data (outgoing (srv s));
  v_houtgoing : forall i m, hpc (srv s) = HOutgoing i m ->
    is_Some (infos (srv s) !! i) /\ ConnID m = i /\ fresh_data m;
  v_ids : lastConnID (srv s) <= 73 + Z.of_nat n /\ 73 <= lastConnID (srv s);
  v_written : forall a, (length (written s !!! a) <= n)%nat;
  v_accepted : forall i, (length (accepted s !!! i) <= n)%nat;
  v_cread : forall a c, ends s !! a = Some c ->
    (length (cread s !!! a ++ LspClient.rmsg c) <= n)%nat;
  v_sread : forall i, (length (sread s !!! i ++ queued i (rmsg (srv s))) <= n)%nat;
  v_uniq : one_live (srv s)
}.

(** How a step changes the system. *)
Record sys_le (s s' : sys) : Prop := {
  le_ends : forall a c, ends s !! a = Some c ->
    exists c', ends s' !! a = Some c' /\ client_grows c c';
  le_infos : forall i ci, infos (srv s) !! i = Some ci ->
    exists ci', infos (srv s') !! i = Some ci' /\ addr ci' = addr ci /\
      window_grows (win ci) (win ci');
  le_written : forall a, written s !!! a `prefix_of` written s' !!! a;
  le_accepted : forall i, accepted s !!! i `prefix_of` accepted s' !!! i
}.

#[export] Instance sys_le_preorder : PreOrder sys_le.
Proof.
  split.
  - intros s. constructor; try done; [|intros i ci H; exists ci; by split_and!].
    intros a c H. exists c. split; [done|]. constructor; [done|by left].
  - intros s1 s2 s3 [E1 I1 W1 A1] [E2 I2 W2 A2]. constructor.
    + intros a c (c2 & H2 & [Hw2 Hi2])%E1. destruct (E2 _ _ H2) as (c3 & H3 & [Hw3 Hi3]).
      exists c3. split; [done|]. constructor; [by trans (LspClient.win c2)|].
      destruct Hi2, Hi3; lia.
    + intros i ci (c2 & H2 & Ha2 & Hw2)%I1. destruct (I2 _ _ H2) as (c3 & H3 & Ha3 & Hw3).
      exists c3. split_and!; [done|congruence|by trans (win c2)].
    + intros a. by trans (written s2 !!! a).
    + intros i. by trans (accepted s2 !!! i).
Qed.

Lemma source_mono l l' k p : l `prefix_of` l' -> source l k p -> source l' k p.
Proof. intros [x ->]. apply stream_at_app. Qed.

Lemma sent_ok_mono l l' m : l `prefix_of` l' -> sent_ok l m -> sent_ok l' m.
Proof. intros [x ->]. apply sent_ok_app. Qed.

Section Mono.
Context (s s' : sys) (Hle : sys_le s s').

Lemma serves_mono a i ci :
  serves s a i ci -> exists ci', serves s' a i ci' /\ window_grows (win ci) (win ci').
Proof.
  intros [H <-]. destruct (le_infos _ _ Hle _ _ H) as (ci' & H' & Ha & Hg).
  exists ci'. by split_and!.
Qed.

Lemma srv_peer_mono a i : peer_le (srv_peer s a i) (srv_peer s' a i).
Proof.
  constructor; simpl; [|intros sq|done].
  - intros k p (Hi & c & Hc & Hid & Hs). split; [done|].
    destruct (le_ends _ _ Hle _ _ Hc) as (c' & Hc' & Hg). exists c'. split_and!; [done| |].
    + destruct (cg_id _ _ Hg); lia.
    + eapply source_mono; [apply Hle|done].
  - intros (c & Hc & Hr). destruct (le_ends _ _ Hle _ _ Hc) as (c' & Hc' & Hg).
    exists c'. split; [done|]. by apply (cg_win _ _ Hg).
Qed.

Lemma cli_peer_mono o a : peer_le (cli_peer o s a) (cli_peer o s' a).
Proof.
  constructor; simpl.
  - intros k p. destruct o; [|done]. apply source_mono, Hle.
  - intros sq (i & ci & Hci & Hr). destruct (serves_mono _ _ _ Hci) as (ci' & Hci' & Hg).
    exists i, ci'. split; [done|]. by apply Hg.
  - intros i [Hi (ci & Hci)]. split; [done|]. destruct (serves_mono _ _ _ Hci) as (ci' & ? & _).
    by exists ci'.
Qed.

Lemma srv_pkt_mono a c m : srv_pkt s a c m -> exists c', srv_pkt s' a c' m.
Proof.
  intros [Hc Ho Ha]. destruct (le_ends _ _ Hle _ _ Hc) as (c' & Hc' & [Hw Hi]).
  exists c'. constructor; [done| |].
  - intros Ht. destruct (Ho Ht), Hi; lia.
  - intros Ht Hsq. by apply Hw, Ha.
Qed.

Lemma cli_pkt_mono a i ci m : cli_pkt s a i ci m -> exists i' ci', cli_pkt s' a i' ci' m.
Proof.
  intros [Hc Hs Ho Ha]. destruct (serves_mono _ _ _ Hc) as (ci' & Hci' & Hg).
  exists i, ci'. constructor; try done.
  - eapply sent_ok_mono; [apply Hle|done].
  - intros Ht Hsq. by apply Hg, Ha.
Qed.

Lemma single_writer_mono ow : single_writer ow s' -> single_writer ow s.
Proof.
  intros H i ci Hi Hne. destruct (le_infos _ _ Hle _ _ Hi) as (ci' & Hi' & Ha & _).
  pose proof (le_accepted _ _ Hle i) as Hp. rewrite (H i ci') in Hp by congruence.
  by apply prefix_nil_inv in Hp.
Qed.
End Mono.

Lemma small_len (l : list string) n : (length l <= S n)%nat -> Z.of_nat n < 2 ^ 62 -> small l.
Proof. unfold small. lia. Qed.

(** ** Moves of a client *)

Section PutEnd.
Context (o : option (string -> Z)) (n : nat) (s : sys) (Hv : sys_inv o n s).
Context (a : string) (c' : LspClient.client) (w' r' : list string) (out : list Message).
Context (Hgrow : forall c, ends s !! a = Some c -> client_grows c c').
Context (Hpre : written s !!! a `prefix_of` w').

#[local] Abbreviation s' := (put_end s a c' w' r' out).

Lemma put_end_written b :
  written s' !!! b = if decide (b = a) then w' else written s !!! b.
Proof.
  simpl. case_decide as E; [subst b; apply lookup_total_insert_eq|].
  by rewrite lookup_total_insert_ne.
Qed.

Lemma put_end_cread b : cread s' !!! b = if decide (b = a) then r' else cread s !!! b.
Proof.
  simpl. case_decide as E; [subst b; apply lookup_total_insert_eq|].
  by rewrite lookup_total_insert_ne.
Qed.

Lemma put_end_le : sys_le s s'.
Proof.
  constructor; try done.
  - intros b c Hc. simpl. destruct (decide (b = a)) as [->|Hne].
    + exists c'. rewrite lookup_insert_eq. auto.
    + exists c. rewrite lookup_insert_ne by done. split; [done|]. constructor; [done|by left].
  - intros i ci Hi. exists ci. by split_and!.
  - intros b. rewrite put_end_written. by case_decide; subst.
Qed.

Lemma put_end_inv :
  client_inv w' (cli_peer o s a) r' c' ->
  Forall (out_ok w' (LspClient.id c') (LspClient.win c')) out ->
  (length w' <= S n)%nat -> (length (r' ++ LspClient.rmsg c') <= S n)%nat ->
  sys_inv o (S n) s' /\ sys_le s s'.
Proof.
  intros Hc Hout Hlw Hlr. pose proof put_end_le as Hle. split; [|done].
  assert (forall b c m, srv_pkt s b c m -> exists c2, srv_pkt s' b c2 m) as Hpkt
    by (intros b c m; by apply srv_pkt_mono).
  destruct Hv as [H1 H2 H3 H4 H5 H6 H7 H8 H9 H10 H11 H12 H13 H14 H15 H16 H17].
  constructor; try done.
  - intros b c. rewrite put_end_written, put_end_cread. simpl.
    intros [[<- <-]|[Hne Hb]]%lookup_insert_Some; [by rewrite !decide_True|].
    rewrite !decide_False by done. by apply H1.
  - intros i ci Hi. destruct (H2 _ _ Hi) as (? & [? ?] & Hci). split_and!; [done..|].
    eapply info_inv_mono; [by apply (srv_peer_mono s)|done].
  - intros b. rewrite put_end_written, put_end_cread. simpl.
    intros [? ?]%lookup_insert_None. rewrite !decide_False by done. auto.
  - intros b m [Hm|Hm]%elem_of_app.
    + destruct (H6 _ _ Hm) as (c & Hp & Hs). destruct (Hpkt _ _ _ Hp) as (c2 & Hc2).
      exists c2. split; [done|]. eapply sent_ok_mono; [apply Hle|done].
    + apply list_elem_of_fmap in Hm as (m' & [= -> ->] & Hm').
      rewrite Forall_forall in Hout. destruct (Hout _ Hm') as [Ho1 Ho2 Ho3].
      exists c'. split; [|by rewrite put_end_written, decide_True].
      constructor; [apply lookup_insert_eq| |done]. intros Ht. left. auto.
  - intros b m Hm. destruct (H7 _ _ Hm) as (i & ci & Hp). by eapply cli_pkt_mono.
  - intros b m Hm. destruct (H8 _ _ Hm) as (c & Hp & Hr).
    destruct (Hpkt _ _ _ Hp) as (c2 & Hc2). exists c2. split; [done|].
    eapply recv_ok_mono; [|done]. intros k p. apply source_mono, Hle.
  - intros i m Hm. destruct (H9 _ _ Hm) as (ci & Hci & Hin). exists ci. split; [done|].
    eapply in_ok_mono; [by apply (srv_peer_mono s)|done].
  - simpl. lia.
  - intros b. rewrite put_end_written. case_decide; [done|]. specialize (H13 b). lia.
  - intros i. specialize (H14 i). simpl. lia.
  - intros b c. rewrite put_end_cread. simpl.
    intros [[<- <-]|[Hne Hb]]%lookup_insert_Some; [by rewrite !decide_True|].
    rewrite decide_False by done. specialize (H15 _ _ Hb). lia.
  - intros i. specialize (H16 i). simpl. lia.
Qed.
End PutEnd.

(** A packet with a shorter payload is recognised by its declared size. *)
Lemma cut_recv_ok (written : list string) cut m :
  sent_ok written m -> recv_ok (source written) (cut_msg cut m).
Proof.
  intros Hs. destruct cut as [p|]; [|by apply sent_ok_recv_ok]. simpl.
  destruct (Nat.ltb _ _) eqn:E; [|by apply sent_ok_recv_ok].
  intros Ht. destruct (Hs Ht) as [Hsz _]. left. unfold is_short, payload_len in *. simpl.
  apply Nat.ltb_lt in E. apply Z.ltb_lt. lia.
Qed.

Lemma cut_same cut m :
  MType (cut_msg cut m) = MType m /\ ConnID (cut_msg cut m) = ConnID m /\
  SeqNum (cut_msg cut m) = SeqNum m.
Proof. unfold cut_msg. destruct cut; [|done]. by case_match. Qed.

Lemma cli_pkt_in o s a i ci m cut n :
  sys_inv o n s -> (forall ow, o = Some ow -> single_writer ow s) ->
  cli_pkt s a i ci m -> in_ok (cli_peer o s a) (cut_msg cut m).
Proof.
  intros Hv Hsw [[Hi <-] Hs Hown Hack]. destruct (cut_same cut m) as (Et & Ec & Eq).
  pose proof (cut_recv_ok _ cut _ Hs) as Hr. split.
  - intros Ht. destruct (Hr Ht) as [?|Hp]; [by left|right]. simpl.
    destruct o as [ow|]; [|done]. destruct (decide (i = ow (addr ci))) as [<-|Hne]; [done|].
    rewrite (Hsw _ eq_refl _ _ Hi Hne) in Hp. apply stream_at_Some in Hp. simpl in Hp. lia.
  - rewrite Et, Ec, Eq. intros Ht. rewrite Hown by auto. simpl.
    destruct (v_infos _ _ _ Hv _ _ Hi) as (_ & [? _] & _). split; [split; [lia|by exists ci]|].
    intros Hsq. exists i, ci. split; [done|auto].
Qed.

Section EndStep.
Context (o : option (string -> Z)) (n : nat) (s : sys) (Hn : Z.of_nat n < 2 ^ 62).
Context (Hv : sys_inv o n s) (Hsw : forall ow, o = Some ow -> single_writer ow s).

Lemma cli_known_nonneg a i : known (cli_peer o s a) i -> 0 <= i.
Proof. by intros [? _]. Qed.

(** A move that leaves the application's history alone. *)
Lemma move_end_inv a c c' out :
  ends s !! a = Some c -> client_grows c c' ->
  (length (LspClient.rmsg c') <= S (length (LspClient.rmsg c)))%nat ->
  client_inv (written s !!! a) (cli_peer o s a) (cread s !!! a) c' ->
  Forall (out_ok (written s !!! a) (LspClient.id c') (LspClient.win c')) out ->
  sys_inv o (S n) (put_end s a c' (written s !!! a) (cread s !!! a) out) /\
  sys_le s (put_end s a c' (written s !!! a) (cread s !!! a) out).
Proof.
  intros Hc Hg Hl Hi Ho. apply put_end_inv; try done.
  - intros c0 Hc0. congruence.
  - pose proof (v_written _ _ _ Hv a). lia.
  - pose proof (v_cread _ _ _ Hv _ _ Hc) as Hl'. rewrite !length_app in *. lia.
Qed.

Lemma end_step_inv a c ev s' :
  ends s !! a = Some c -> end_step s a c ev = Some s' -> sys_inv o (S n) s' /\ sys_le s s'.
Proof.
  intros Hc. pose proof (v_ends _ _ _ Hv _ _ Hc) as Hi.
  assert (small (written s !!! a)) as Hw
    by (apply (small_len _ n); [pose proof (v_written _ _ _ Hv a); lia|done]).
  assert (forall c', LspClient.rmsg c' = LspClient.rmsg c ->
    client_inv (written s !!! a) (cli_peer o s a) (cread s !!! a) c' /\ client_grows c c' ->
    sys_inv o (S n) (put_end s a c' (written s !!! a) (cread s !!! a) []) /\
    sys_le s (put_end s a c' (written s !!! a) (cread s !!! a) [])) as Hquiet.
  { intros c' Er [Hi' Hg]. apply (move_end_inv a c); try done. rewrite Er. lia. }
  pose proof (v_written _ _ _ Hv a) as Hlw. pose proof (v_cread _ _ _ Hv _ _ Hc) as Hlr.
  rewrite length_app in Hlr.
  destruct ev; simpl; try done.
  - destruct (LspClient.handler c sel) as [[c' out]|] eqn:E; simpl; [|done]. intros [= <-].
    pose proof (handler_rmsg _ _ _ _ E) as Hlen.
    destruct (handler_inv _ _ _ (cli_known_nonneg a) Hw _ _ _ _ Hi E) as [Hi' Ho Hg].
    { apply (small_len _ n); [rewrite length_app; lia|done]. }
    by apply (move_end_inv a c).
  - destruct (to_cli s !! k) as [[dst m]|] eqn:Ek; [|done].
    destruct (LspClient.sock c); simpl; [|done].
    destruct (String.eqb_spec dst a) as [->|]; [|done].
    destruct (LspClient.receiver c _) as [c'|] eqn:E; simpl; [|done]. intros [= <-].
    destruct (v_to_cli _ _ _ Hv a m) as (i & ci & Hp); [by eapply list_elem_of_lookup_2|].
    apply Hquiet; [by eapply receiver_rmsg|]. eapply client_receiver_inv; [done| |done].
    intros m' [= <-]. by eapply cli_pkt_in.
  - destruct (LspClient.receiver c None) as [c'|] eqn:E; simpl; [|done]. intros [= <-].
    apply Hquiet; [by eapply receiver_rmsg|]. by eapply client_receiver_inv; try done.
  - destruct (established c) eqn:Esig; [|done].
    destruct (LspClient.Write c payload) as [c'|] eqn:E; simpl; [|done]. intros [= <-].
    destruct (Write_inv _ _ _ _ _ _ Hi Esig E) as [Hi' Hg].
    pose proof (Write_rmsg _ _ _ E) as Er.
    apply put_end_inv; try done; [congruence|by apply prefix_app_r|..];
      rewrite !length_app, ?Er; simpl; lia.
  - destruct (LspClient.Read_data c) as [[data c']|] eqn:E; simpl; [|done]. intros [= <-].
    destruct (Read_data_inv _ _ _ _ _ _ Hi E) as [Hi' Hg].
    pose proof (Read_data_rmsg _ _ _ E) as Er. rewrite Er in Hlr. simpl in Hlr.
    apply put_end_inv; try done; [congruence|lia|]. rewrite !length_app. simpl. lia.
  - destruct (LspClient.Read_err c) as [[e c']|] eqn:E; simpl; [|done]. intros [= <-].
    unfold LspClient.Read_err in E. destruct (LspClient.err c); [done|]. injection E as <- <-.
    apply Hquiet; [done|]. split; [by apply (client_inv_frame _ _ _ c); auto|by apply grows_frame].
  - intros [= <-]. unfold LspClient.Close_begin.
    apply Hquiet; case_match; try done; split; try (by apply grows_frame); try done;
      by apply (client_inv_frame _ _ _ c); auto.
  - intros [= <-]. unfold LspClient.Close_poll.
    apply Hquiet; repeat case_match; try done; simpl; split; try (by apply grows_frame); try done;
      by apply (client_inv_frame _ _ _ c); auto.
Qed.
End EndStep.

(** ** Moves of the server *)

Section PutSrv.
Context (o : option (string -> Z)) (n : nat) (s : sys) (Hv : sys_inv o n s).
Context (v : LspServer.server) (out : list (string * Message)).
Context (acc sr : gmap Z (list string)).

#[local] Abbreviation s' :=
  (mkSys (ends s) v (to_srv s) (to_cli s ++ out) (written s) (cread s) acc sr).

(** The obligations of a move of the server. *)
Record srv_move : Prop := {
  sm_le : forall i ci, infos (srv s) !! i = Some ci ->
    exists ci', infos v !! i = Some ci' /\ addr ci' = addr ci /\ window_grows (win ci) (win ci');
  sm_acc : forall i, accepted s !!! i `prefix_of` acc !!! i;
  sm_infos : forall i ci, infos v !! i = Some ci ->
    id ci = i /\ 73 <= i < lastConnID v /\
    info_inv (acc !!! i) (srv_peer s (addr ci) i) (sr !!! i ++ queued i (rmsg v)) ci;
  sm_live : forall i, i ∈ clients v -> is_Some (infos v !! i);
  sm_new_info : forall i, infos v !! i = None ->
    acc !!! i = [] /\ sr !!! i ++ queued i (rmsg v) = [];
  sm_out : forall a m, (a, m) ∈ out -> exists i ci, cli_pkt s' a i ci m;
  sm_sincoming : forall a m, (m, a) ∈ sincoming v -> (m, a) ∈ sincoming (srv s) \/
    exists c, srv_pkt s a c m /\ recv_ok (source (written s !!! a)) m;
  sm_hincoming : forall i m, hpc v = HIncoming i m ->
    exists ci, infos v !! i = Some ci /\ in_ok (srv_peer s (addr ci) i) m;
  sm_outgoing : Forall fresh_data (outgoing v);
  sm_houtgoing : forall i m, hpc v = HOutgoing i m ->
    is_Some (infos v !! i) /\ ConnID m = i /\ fresh_data m;
  sm_ids : lastConnID v <= 73 + Z.of_nat (S n) /\ 73 <= lastConnID v;
  sm_accepted : forall i, (length (acc !!! i) <= S n)%nat;
  sm_sread : forall i, (length (sr !!! i ++ queued i (rmsg v)) <= S n)%nat;
  sm_uniq : one_live v
}.

Lemma srv_move_inv : srv_move -> sys_inv o (S n) s' /\ sys_le s s'.
Proof.
  intros [S1 S2 S3 S4 S5 S6 S7 S8 S9 S10 S11 S12 S13 S14].
  assert (sys_le s s') as Hle.
  { constructor; try done. intros a c Hc. exists c. split; [done|]. constructor; [done|by left]. }
  split; [|done].
  destruct Hv as [H1 H2 H3 H4 H5 H6 H7 H8 H9 H10 H11 H12 H13 H14 H15 H16 H17].
  constructor; try done.
  - intros a c Hc. eapply client_inv_mono; [by apply (cli_peer_mono s)|by apply H1].
  - intros a m Hm. destruct (H6 _ _ Hm) as (c & Hp & Hs). exists c. split; [|done].
    by destruct Hp.
  - intros a m [Hm|Hm]%elem_of_app; [|auto]. destruct (H7 _ _ Hm) as (i & ci & Hp).
    by eapply cli_pkt_mono.
  - intros a m Hm. destruct (S7 _ _ Hm) as [Hm'|(c & Hp & Hr)].
    + destruct (H8 _ _ Hm') as (c & Hp & Hr). exists c. split; [by destruct Hp|done].
    + exists c. split; [by destruct Hp|done].
  - intros a. specialize (H13 a). simpl. lia.
  - intros a c Hc. specialize (H15 _ _ Hc). simpl. lia.
Qed.
End PutSrv.

Lemma one_live_same v v' :
  infos v' = infos v -> (forall i, i ∈ clients v' -> i ∈ clients v) -> one_live v -> one_live v'.
Proof. intros E Hcl H i j ci cj Hi Hj. rewrite E. apply H; auto. Qed.

(** The common case: the connections, the histories and what was handed to the
    application stay; [sincoming], [outgoing] and [hpc] may change. *)
Lemma srv_quiet_inv o n s v :
  sys_inv o n s ->
  infos v = infos (srv s) -> (forall i, i ∈ clients v -> i ∈ clients (srv s)) ->
  lastConnID v = lastConnID (srv s) -> rmsg v = rmsg (srv s) ->
  (forall a m, (m, a) ∈ sincoming v -> (m, a) ∈ sincoming (srv s) \/
    exists c, srv_pkt s a c m /\ recv_ok (source (written s !!! a)) m) ->
  (forall i m, hpc v = HIncoming i m ->
    exists ci, infos (srv s) !! i = Some ci /\ in_ok (srv_peer s (addr ci) i) m) ->
  Forall fresh_data (outgoing v) ->
  (forall i m, hpc v = HOutgoing i m ->
    is_Some (infos (srv s) !! i) /\ ConnID m = i /\ fresh_data m) ->
  sys_inv o (S n) (put_srv s v []) /\ sys_le s (put_srv s v []).
Proof.
  intros Hv E1 E2 E3 E4 Hsi Hhi Hog Hho. apply srv_move_inv; [done|].
  destruct Hv as [H1 H2 H3 H4 H5 H6 H7 H8 H9 H10 H11 H12 H13 H14 H15 H16 H17].
  constructor; rewrite ?E1, ?E3, ?E4; auto; try lia.
  - intros i ci Hi. by exists ci.
  - intros a m. by intros ?%not_elem_of_nil.
  - by eapply one_live_same.
Qed.

Lemma queued_pushed i j q (l : list string) :
  queued j (q ++ (pair i <$> l)) = queued j q ++ (if decide (j = i) then l else []).
Proof.
  rewrite queued_app. case_decide as E; [subst j; by rewrite queued_same|].
  by rewrite queued_other.
Qed.

Lemma one_live_insert v v' i ci ci' :
  infos v !! i = Some ci -> infos v' = <[i := ci']> (infos v) -> addr ci' = addr ci ->
  (forall j, j ∈ clients v' -> j ∈ clients v) -> one_live v -> one_live v'.
Proof.
  intros Hi E Ha Hcl H j k cj ck Hj%Hcl Hk%Hcl. rewrite E.
  assert (forall x cx, <[i := ci']> (infos v) !! x = Some cx ->
    exists c0, infos v !! x = Some c0 /\ addr c0 = addr cx) as Hold.
  { intros x cx [[<- <-]|[_ Hx]]%lookup_insert_Some; [by exists ci|by exists cx]. }
  intros (c1 & H1 & A1)%Hold (c2 & H2 & A2)%Hold Haddr. apply (H j k c1 c2); auto. congruence.
Qed.

(** One connection moves. *)
Section PutInfo.
Context (o : option (string -> Z)) (n : nat) (s : sys) (Hv : sys_inv o n s).
Context (v : LspServer.server) (i : Z) (ci ci' : clientInfo) (pushed : list string).
Context (acc : gmap Z (list string)) (out : list Message).
Context (Hi : infos (srv s) !! i = Some ci) (Hinfos : infos v = <[i := ci']> (infos (srv s))).
Context (Hid : id ci' = i) (Haddr : addr ci' = addr ci).
Context (Hlast : lastConnID v = lastConnID (srv s)).
Context (Hrmsg : rmsg v = rmsg (srv s) ++ (pair i <$> pushed)).
Context (Hpushed : (length pushed <= 1)%nat).
Context (Hacc : accepted s !!! i `prefix_of` acc !!! i).
Context (Hacc_ne : forall j, j <> i -> acc !!! j = accepted s !!! j).
Context (Hacc_len : (length (acc !!! i) <= S n)%nat).

Lemma info_delivered_len :
  (length (sread s !!! i ++ queued i (rmsg (srv s)) ++ pushed) <= S n)%nat.
Proof using Hv Hpushed.
  clear Hacc_len. pose proof (v_sread _ _ _ Hv i) as H. rewrite !length_app in *. lia.
Qed.

Lemma put_info_inv :
  info_inv (acc !!! i) (srv_peer s (addr ci) i)
    (sread s !!! i ++ queued i (rmsg (srv s)) ++ pushed) ci' ->
  window_grows (win ci) (win ci') ->
  Forall (out_ok (acc !!! i) i (win ci')) out ->
  (forall j, j ∈ clients v -> j ∈ clients (srv s)) ->
  (forall a m, (m, a) ∈ sincoming v -> (m, a) ∈ sincoming (srv s)) ->
  (hpc v = hpc (srv s) \/ hpc v = HSelect \/ hpc v = HReturned) ->
  outgoing v = outgoing (srv s) ->
  let s' := mkSys (ends s) v (to_srv s) (to_cli s ++ ((fun m => (addr ci, m)) <$> out))
              (written s) (cread s) acc (sread s) in
  sys_inv o (S n) s' /\ sys_le s s'.
Proof.
  intros Hinv Hgrow Hout Hcl Hsi Hpc Hog. apply srv_move_inv; [done|].
  pose proof info_delivered_len as Hdl.
  destruct Hv as [H1 H2 H3 H4 H5 H6 H7 H8 H9 H10 H11 H12 H13 H14 H15 H16 H17].
  assert (forall j, j <> i -> queued j (rmsg v) = queued j (rmsg (srv s))) as Hq
    by (intros j Hj; rewrite Hrmsg, queued_pushed, decide_False by done; apply app_nil_r).
  assert (queued i (rmsg v) = queued i (rmsg (srv s)) ++ pushed) as Hqi
    by (by rewrite Hrmsg, queued_pushed, decide_True).
  constructor; rewrite ?Hinfos, ?Hlast, ?Hog; auto; try lia.
  - intros j cj Hj. destruct (decide (j = i)) as [->|Hne].
    + exists ci'. rewrite lookup_insert_eq. split_and!; [done|congruence|].
      assert (cj = ci) as -> by congruence. done.
    + exists cj. rewrite lookup_insert_ne by done. by split_and!.
  - intros j. destruct (decide (j = i)) as [->|Hne]; [done|]. by rewrite Hacc_ne.
  - intros j cj [[<- <-]|[Hne Hj]]%lookup_insert_Some.
    + destruct (H2 _ _ Hi) as (_ & [? ?] & _). rewrite Hqi, Haddr. by split_and!.
    + rewrite Hacc_ne, Hq by done. auto.
  - intros j Hj. rewrite lookup_insert_is_Some. destruct (decide (i = j)); auto.
  - intros j [Hj Hne]%lookup_insert_None. rewrite Hacc_ne, Hq by done. auto.
  - intros a m (m' & [= -> ->] & Hm)%list_elem_of_fmap. exists i, ci'.
    rewrite Forall_forall in Hout. destruct (Hout _ Hm) as [Ho1 Ho2 Ho3].
    constructor; try done. split; [|done]. simpl. rewrite Hinfos. apply lookup_insert_eq.
  - intros j m Hm. destruct Hpc as [Hpc|[Hpc|Hpc]]; rewrite Hpc in Hm; try done.
    destruct (H9 _ _ Hm) as (cj & Hj & Hin). destruct (decide (j = i)) as [->|Hne].
    + exists ci'. rewrite lookup_insert_eq, Haddr. split; [done|].
      assert (cj = ci) as -> by congruence. done.
    + exists cj. by rewrite lookup_insert_ne.
  - intros j m Hm. destruct Hpc as [Hpc|[Hpc|Hpc]]; rewrite Hpc in Hm; try done.
    destruct (H11 _ _ Hm) as (? & ? & ?). rewrite lookup_insert_is_Some.
    destruct (decide (i = j)); auto.
  - intros j. destruct (decide (j = i)) as [->|Hne]; [done|].
    rewrite Hacc_ne by done. specialize (H14 j). lia.
  - intros j. destruct (decide (j = i)) as [->|Hne]; [by rewrite Hqi|].
    rewrite Hq by done. specialize (H16 j). lia.
  - apply (one_live_insert (srv s) v i ci ci'); auto.
Qed.
End PutInfo.

Lemma difference_in (X : gset Z) i j : j ∈ X ∖ {[i]} -> j ∈ X.
Proof. by intros [? _]%elem_of_difference. Qed.

#[local] Hint Resolve difference_in : core.

Section SrvStep.
Context (o : option (string -> Z)) (n : nat) (s : sys) (Hn : Z.of_nat n < 2 ^ 62).
Context (Hv : sys_inv o n s).

Lemma client_step_inv cid sel v out :
  LspServer.handleClient (srv s) cid sel = Some (v, out) ->
  sys_inv o (S n) (put_srv s v out) /\ sys_le s (put_srv s v out).
Proof.
  unfold LspServer.handleClient. destruct (infos (srv s) !! cid) as [ci|] eqn:Hci; simpl; [|done].
  destruct (handleClient_at (srv s) ci sel) as [[v' o']|] eqn:E; [|done]. intros [= <- <-].
  destruct (v_infos _ _ _ Hv _ _ Hci) as (Hid & _ & Hinv).
  assert (small (accepted s !!! cid)) as Hw
    by (apply (small_len _ n); [pose proof (v_accepted _ _ _ Hv cid); lia|done]).
  destruct (handleClient_at_inv _ _ _ Hw _ _ _ _ _ Hinv E)
    as (ci' & pushed & [Hm1 Hm2 Hm3 Hm4 (Hm5 & Hm6 & Hm7 & Hm8 & Hm9) Hlen] & Hok).
  rewrite Hid in *. pose proof (info_delivered_len _ _ _ Hv cid pushed Hlen) as Hdl.
  rewrite app_assoc in Hdl. destruct Hok as (Hi' & Ho & Hid' & _ & Hg); [by apply (small_len _ n)|].
  rewrite <- app_assoc in Hi'. rewrite Hm3 in Ho.
  pose proof (v_accepted _ _ _ Hv cid) as Hal.
  apply (put_info_inv _ _ _ Hv v' cid ci ci' pushed);
    try done; rewrite ?Hm5, ?Hm6, ?Hm7, ?Hm8, ?Hm9; try done; try lia; by left.
Qed.

Lemma duplicate_false v b i ci :
  duplicate v b = false -> infos v !! i = Some ci -> i ∈ clients v -> addr ci <> b.
Proof.
  intros Hd Hi Hcl Ha. enough (duplicate v b = true) by congruence.
  apply existsb_exists. exists (i, ci). split.
  - by apply list_elem_of_In, elem_of_map_to_list.
  - rewrite bool_decide_true by done. by apply String.eqb_eq.
Qed.

Lemma one_live_new v v' b i ci' :
  duplicate v b = false -> addr ci' = b -> infos v' = <[i := ci']> (infos v) ->
  clients v' = {[i]} ∪ clients v -> one_live v -> one_live v'.
Proof.
  intros Hd Ha E Ecl H j k cj ck. rewrite E, Ecl.
  rewrite !elem_of_union, !elem_of_singleton, !lookup_insert_Some.
  pose proof (duplicate_false v b) as Hnd.
  intros Hj Hk [[<- <-]|[Hnj Hcj]] [[<- <-]|[Hnk Hck]] Haddr; [done|..].
  - destruct Hk as [->|Hk]; [done|]. by destruct (Hnd k ck); subst.
  - destruct Hj as [->|Hj]; [done|]. by destruct (Hnd j cj); subst.
  - destruct Hj as [->|Hj], Hk as [->|Hk]; try done. by apply (H j k cj ck).
Qed.

(** A connection request: a new connection, which nobody wrote to yet. *)
Lemma connect_inv v m a q :
  sincoming (srv s) = (m, a) :: q -> hpc (srv s) = HSelect -> MType m = MsgConnect ->
  on_packet (set_sincoming (srv s) q) m a = v ->
  sys_inv o (S n) (put_srv s v.1 v.2) /\ sys_le s (put_srv s v.1 v.2).
Proof.
  intros Hq Hpc Ht. unfold on_packet. rewrite Ht. simpl.
  assert (forall b m', (m', b) ∈ q -> (m', b) ∈ sincoming (srv s)) as Hin
    by (intros b m'; rewrite Hq; by right).
  destruct (duplicate _ a) eqn:Hdup; intros <-; simpl.
  { apply srv_quiet_inv; simpl; try done; auto; try (by rewrite Hpc); apply Hv. }
  destruct Hv as [H1 H2 H3 H4 H5 H6 H7 H8 H9 H10 H11 H12 H13 H14 H15 H16 H17].
  set (i := lastConnID (srv s)) in *.
  assert (infos (srv s) !! i = None) as Hfresh.
  { destruct (infos (srv s) !! i) as [ci|] eqn:E; [|done].
    destruct (H2 _ _ E) as (_ & [? ?] & _). unfold i in *. lia. }
  destruct (H5 _ Hfresh) as [Ha Hs].
  assert (int64 (i + 1) = i + 1) as Ei by (apply int64_id; unfold int64_ok, i; lia).
  set (nc := new_clientInfo (set_sincoming (srv s) q) a).
  change (put_info (set_sincoming (srv s) q) nc)
    with (set_infos (set_sincoming (srv s) q) (<[i := nc]> (infos (srv s)))).
  apply srv_move_inv; [by constructor|]. constructor; simpl; rewrite ?Ei; try lia; auto.
  - intros j ci Hj. assert (i <> j) by congruence. exists ci.
    rewrite lookup_insert_ne by done. by split_and!.
  - intros j ci [[<- <-]|[Hne Hj]]%lookup_insert_Some.
    + rewrite Ha, Hs. split_and!; [done|lia|lia|]. apply new_clientInfo_inv.
    + destruct (H2 _ _ Hj) as (? & [? ?] & ?). split_and!; [done|done|unfold i; lia|done].
  - intros j Hj. rewrite lookup_insert_is_Some. destruct (decide (i = j)); [auto|].
    right. split; [done|]. apply H3.
    apply elem_of_union in Hj as [Hj%elem_of_singleton|Hj]; [by rewrite Hj in *|done].
  - intros j [Hj Hne]%lookup_insert_None. auto.
  - intros b m' Hm. apply list_elem_of_singleton in Hm. injection Hm as -> ->.
    exists i, nc.
    constructor; simpl; [|done|done|lia]. split; [|done]. apply lookup_insert_eq.
  - intros j m'. by rewrite Hpc.
  - intros j m'. by rewrite Hpc.
  - by apply (one_live_new (set_sincoming (srv s) q) _ a i nc).
Qed.

(** A packet for a connection of the table: the client that sent it is the one
    the connection belongs to. *)
Lemma route_in_ok m a :
  (m, a) ∈ sincoming (srv s) -> ConnID m ∈ clients (srv s) ->
  exists ci, infos (srv s) !! ConnID m = Some ci /\
    in_ok (srv_peer s (addr ci) (ConnID m)) m.
Proof.
  intros Hm Hcl. destruct (v_sincoming _ _ _ Hv _ _ Hm) as (c & [Hc Hown Hack] & Hr).
  destruct (v_live _ _ _ Hv _ Hcl) as [ci Hci]. exists ci. split; [done|].
  destruct (v_infos _ _ _ Hv _ _ Hci) as (_ & [Hge _] & _).
  assert (MType m = MsgData \/ MType m = MsgAck -> LspClient.id c = ConnID m /\ addr ci = a) as Hid.
  { intros Ht. destruct (Hown Ht) as [E|?]; [|lia]. split; [done|].
    destruct (ci_known _ _ _ _ (v_ends _ _ _ Hv _ _ Hc)) as [_ (ci2 & H2 & <-)]; [lia|].
    congruence. }
  split.
  - intros Ht. destruct (Hr Ht) as [?|Hsrc]; [by left|right]. destruct Hid as [E <-]; [by left|].
    simpl. split; [lia|]. by exists c.
  - intros Ht. split; [done|]. intros Hsq. destruct Hid as [E <-]; [by right|].
    simpl. exists c. auto.
Qed.

Lemma packet_inv v m a q :
  sincoming (srv s) = (m, a) :: q -> hpc (srv s) = HSelect ->
  on_packet (set_sincoming (srv s) q) m a = v ->
  sys_inv o (S n) (put_srv s v.1 v.2) /\ sys_le s (put_srv s v.1 v.2).
Proof.
  intros Hq Hpc Hon. destruct (MType m =? MsgConnect) eqn:Et.
  { apply Z.eqb_eq in Et. by eapply connect_inv. }
  unfold on_packet in Hon. rewrite Et in Hon. simpl in Hon.
  assert ((m, a) ∈ sincoming (srv s)) as Hma by (rewrite Hq; by left).
  case_bool_decide as Hcl; subst v; apply srv_quiet_inv; simpl; try done; try apply Hv;
    try (intros b m' Hin; left; rewrite Hq; by right); try (by rewrite Hpc).
  intros i m' [= <- <-]. by eapply route_in_ok.
Qed.

Lemma info_quiet_inv i ci ci' v :
  infos (srv s) !! i = Some ci -> infos v = <[i := ci']> (infos (srv s)) ->
  id ci' = id ci -> addr ci' = addr ci -> win ci' = win ci ->
  pc ci' = pc ci -> Forall (in_ok (srv_peer s (addr ci) i)) (incoming ci') ->
  lastConnID v = lastConnID (srv s) -> rmsg v = rmsg (srv s) ->
  (forall j, j ∈ clients v -> j ∈ clients (srv s)) ->
  sincoming v = sincoming (srv s) -> outgoing v = outgoing (srv s) ->
  hpc v = hpc (srv s) \/ hpc v = HSelect \/ hpc v = HReturned ->
  sys_inv o (S n) (put_srv s v []) /\ sys_le s (put_srv s v []).
Proof.
  intros Hci Hv' Hid Had Hw Hp Hin Hl Hr Hcl Hsi Hog Hh.
  destruct (v_infos _ _ _ Hv _ _ Hci) as (Hi & _ & Hinv).
  pose proof (v_accepted _ _ _ Hv i) as Hal.
  apply (put_info_inv _ _ _ Hv v i ci ci' [] (accepted s) []); try done.
  - congruence.
  - by rewrite Hr, app_nil_r.
  - simpl. lia.
  - lia.
  - rewrite app_nil_r. destruct Hinv as [I1 I2 I3 I4 I5 I6 I7 I8].
    constructor; rewrite ?Hw, ?Hid, ?Hp; done.
  - by rewrite Hw.
  - intros b m. by rewrite Hsi.
Qed.

Lemma cls_inv q i :
  hpc (srv s) = HSelect ->
  sys_inv o (S n) (put_srv s (on_cls (set_cls (srv s) q) i) []) /\
  sys_le s (put_srv s (on_cls (set_cls (srv s) q) i) []).
Proof.
  intros Hpc. unfold on_cls. simpl.
  destruct (infos (srv s) !! i) as [ci|] eqn:Hci.
  - destruct (v_infos _ _ _ Hv _ _ Hci) as (Hi & _ & Hinv).
    destruct (bool_decide (i ∈ clients (srv s))); [destruct (bool_decide (status ci = notClosing))|];
      simpl; case_match; simpl.
    1, 2: eapply (info_quiet_inv i ci (set_status ci startClosing)); simpl; auto;
      [by rewrite Hi|apply Hinv|eauto].
    all: apply srv_quiet_inv; simpl; try done; eauto; try apply Hv; by rewrite Hpc.
  - case_match; simpl; case_match; simpl.
    all: apply srv_quiet_inv; simpl; try done; eauto; try apply Hv; by rewrite Hpc.
Qed.

Lemma incoming_inv cid m v :
  hpc (srv s) = HIncoming cid m ->
  (ci ← infos (srv s) !! cid; q ← send incoming_cap (incoming ci) m;
   Some (set_hpc (put_info (srv s) (set_incoming ci q)) HSelect)) = Some v ->
  sys_inv o (S n) (put_srv s v []) /\ sys_le s (put_srv s v []).
Proof.
  intros Hpc. destruct (v_hincoming _ _ _ Hv _ _ Hpc) as (ci & Hci & Hin). rewrite Hci. simpl.
  destruct (send _ _ _) as [q|] eqn:Eq; simpl; [|done]. apply send_Some in Eq as [_ ->].
  intros [= <-]. destruct (v_infos _ _ _ Hv _ _ Hci) as (Hi & _ & Hinv).
  eapply (info_quiet_inv cid ci (set_incoming ci (incoming ci ++ [m]))); simpl; auto.
  - by rewrite Hi.
  - apply Forall_app_2, Forall_singleton; [apply Hinv|done].
Qed.

Lemma outgoing_inv cid m v :
  hpc (srv s) = HOutgoing cid m ->
  (ci ← infos (srv s) !! cid; q ← send tmsg_cap (tmsg (win ci)) m;
   Some (set_hpc (put_info (srv s) (set_win ci (set_tmsg (win ci) q))) HSelect)) = Some v ->
  sys_inv o (S n) (put_accepted (put_srv s v []) cid (accepted s !!! cid ++ [Payload m])) /\
  sys_le s (put_accepted (put_srv s v []) cid (accepted s !!! cid ++ [Payload m])).
Proof.
  intros Hpc. destruct (v_houtgoing _ _ _ Hv _ _ Hpc) as ([ci Hci] & Hcm & [p Hm]).
  rewrite Hci. simpl. destruct (send _ _ _) as [q|] eqn:Eq; simpl; [|done].
  apply send_Some in Eq as [_ ->]. intros [= <-].
  destruct (v_infos _ _ _ Hv _ _ Hci) as (Hi & _ & Hinv). rewrite Hcm in Hm.
  assert (Payload m = p) as -> by (by rewrite Hm).
  pose proof (v_accepted _ _ _ Hv cid) as Hal.
  assert (forall l, <[cid := l]> (accepted s) !!! cid = l) as Hacc
    by (intros l; apply lookup_total_insert_eq).
  apply (put_info_inv _ _ _ Hv _ cid ci
    (set_win ci (set_tmsg (win ci) (tmsg (win ci) ++ [m]))) [] (<[cid := _]> (accepted s)) []);
    rewrite ?Hacc, ?length_app; simpl; try done; auto; try lia.
  - by rewrite Hi.
  - by rewrite app_nil_r.
  - by apply prefix_app_r.
  - intros j Hj. by rewrite lookup_total_insert_ne.
  - rewrite app_nil_r, Hm. unfold info_inv. simpl. rewrite Hi. apply conn_write.
    unfold info_inv in Hinv. by rewrite Hi in Hinv.
Qed.

(** [Read] moves a payload from the channel to the application: what was
    delivered in all stays the same. *)
Lemma read_delivered i data q j :
  rmsg (srv s) = (i, data) :: q ->
  <[i := sread s !!! i ++ [data]]> (sread s) !!! j ++ queued j q =
  sread s !!! j ++ queued j (rmsg (srv s)).
Proof.
  intros ->. unfold queued at 2. destruct (decide (j = i)) as [->|Hne].
  - rewrite lookup_total_insert_eq, filter_cons_True, fmap_cons by done. by rewrite <- app_assoc.
  - rewrite lookup_total_insert_ne by done. rewrite filter_cons_False by (simpl; congruence). done.
Qed.

Lemma read_inv i data q :
  rmsg (srv s) = (i, data) :: q ->
  sys_inv o (S n) (put_sread (put_srv s (set_rmsg (srv s) q) []) i (sread s !!! i ++ [data])) /\
  sys_le s (put_sread (put_srv s (set_rmsg (srv s) q) []) i (sread s !!! i ++ [data])).
Proof.
  intros Hq. pose proof (fun j => read_delivered i data q j Hq) as Hd.
  apply (srv_move_inv _ _ _ Hv (set_rmsg (srv s) q) [] (accepted s)
    (<[i := sread s !!! i ++ [data]]> (sread s))).
  destruct Hv as [H1 H2 H3 H4 H5 H6 H7 H8 H9 H10 H11 H12 H13 H14 H15 H16 H17].
  constructor; simpl; auto; try lia.
  - intros j ci Hj. by exists ci.
  - intros j ci Hj. rewrite Hd. auto.
  - intros j Hj. rewrite Hd. auto.
  - intros a m. by intros ?%not_elem_of_nil.
  - intros j. rewrite Hd. specialize (H16 j). lia.
Qed.

Lemma srv_step_inv ev s' :
  srv_step s ev = Some s' -> sys_inv o (S n) s' /\ sys_le s s'.
Proof.
  assert (forall v, infos v = infos (srv s) -> clients v = clients (srv s) ->
    lastConnID v = lastConnID (srv s) -> rmsg v = rmsg (srv s) ->
    sincoming v = sincoming (srv s) -> hpc v = hpc (srv s) ->
    Forall fresh_data (outgoing v) ->
    sys_inv o (S n) (put_srv s v []) /\ sys_le s (put_srv s v [])) as Hq.
  { intros v E1 E2 E3 E4 E5 E6 Hf. apply srv_quiet_inv; rewrite ?E1, ?E2, ?E3, ?E4, ?E5, ?E6;
      auto; apply Hv. }
  destruct ev; simpl; try done.
  - destruct (handle (srv s) sel) as [[v out]|] eqn:E; [|done]. unfold handle in E.
    destruct (hpc (srv s)) as [|cid m|cid m|] eqn:Hpc; [|..|done].
    + intros [= <-]. destruct sel.
      * destruct (sincoming (srv s)) as [|[m a] q] eqn:Eq; [done|]. injection E as E.
        by destruct (packet_inv (v, out) m a q Eq Hpc E) as [? ?].
      * destruct (outgoing (srv s)) as [|m q] eqn:Eq; [done|]. injection E as <- <-.
        pose proof (v_outgoing _ _ _ Hv) as Hog. rewrite Eq in Hog. inversion Hog; subst.
        unfold on_outgoing. simpl. case_bool_decide as Hcl; [|by apply Hq].
        apply srv_quiet_inv; simpl; auto; try done.
        intros i m' [= <- <-]. split_and!; [by eapply v_live|done|done].
      * destruct (cls (srv s)) as [|i q] eqn:Eq; [done|]. injection E as <- <-. by apply cls_inv.
    + intros [= <-]. destruct (infos (srv s) !! cid) as [ci|] eqn:Hci; simpl in E; [|done].
      destruct (send _ _ _) as [q|] eqn:Eq; simpl in E; [|done]. injection E as <- <-.
      eapply incoming_inv; [done|]. rewrite Hci. simpl. by rewrite Eq.
    + intros [= <-]. destruct (infos (srv s) !! cid) as [ci|] eqn:Hci; simpl in E; [|done].
      destruct (send _ _ _) as [q|] eqn:Eq; simpl in E; [|done]. injection E as <- <-.
      eapply outgoing_inv; [done|]. rewrite Hci. simpl. by rewrite Eq.
  - destruct (handleClient (srv s) cid sel) as [[v out]|] eqn:E; [|done]. intros [= <-].
    by eapply client_step_inv.
  - destruct (to_srv s !! k) as [[a m]|] eqn:Ek; [|done].
    destruct (LspServer.sock (srv s)); [|done]. unfold receiver.
    destruct (receiving (srv s)); simpl; [|done].
    destruct (send _ _ _) as [q|] eqn:Eq; simpl; [|done]. apply send_Some in Eq as [_ ->].
    intros [= <-]. apply srv_quiet_inv; simpl; auto; try apply Hv.
    intros b m' [Hb|Hb]%elem_of_app; [by left|right]. apply list_elem_of_singleton in Hb.
    injection Hb as -> ->.
    destruct (v_to_srv _ _ _ Hv a m) as (c & [Hc Ho Ha] & Hs); [by eapply list_elem_of_lookup_2|].
    destruct (cut_same cut m) as (E1 & E2 & E3). exists c. split; [|by apply cut_recv_ok].
    constructor; rewrite ?E1, ?E2, ?E3; done.
  - unfold receiver. destruct (receiving (srv s)); simpl; [|done].
    case_match; intros [= <-]; apply Hq; try done; apply Hv.
  - unfold LspServer.Write. destruct (send _ _ _) as [q|] eqn:Eq; simpl; [|done].
    apply send_Some in Eq as [_ ->]. intros [= <-]. apply Hq; try done. simpl.
    apply Forall_app_2, Forall_singleton; [apply Hv|]. by exists payload.
  - unfold LspServer.Read_data. destruct (rmsg (srv s)) as [|[i data] q] eqn:Eq; [done|].
    intros [= <-]. by apply read_inv.
  - unfold LspServer.Read_err. destruct (err (srv s)); simpl; [done|].
    intros [= <-]. apply Hq; try done; apply Hv.
  - unfold CloseConn, push_cls. destruct (send _ _ _) as [q|]; simpl; [|done].
    intros [= <-]. apply Hq; try done; apply Hv.
  - unfold LspServer.Close_begin. destruct (bcls (srv s)); [done|].
    intros [= <-]. apply Hq; try done; apply Hv.
  - intros [= <-]. unfold LspServer.Close_poll. simpl. case_match; apply Hq; try done; apply Hv.
Qed.
End SrvStep.

(** A move of the server leaves the clients alone. *)
Lemma srv_step_ends s ev s' : srv_step s ev = Some s' -> ends s' = ends s.
Proof.
  unfold srv_step, quiet_srv. intros H.
  destruct ev; try done; try (by simplify_eq/=);
    repeat (case_match; simplify_eq/=; try done);
    repeat match goal with H : context [?x ≫= _] |- _ => destruct x; simplify_eq/= end; try done.
  all: repeat match goal with H : context [_ <$> ?x] |- _ => destruct x; simplify_eq/= end; done.
Qed.

(** A move of a client leaves the server alone. *)
Lemma end_step_srv s a c ev s' : end_step s a c ev = Some s' -> srv s' = srv s.
Proof.
  unfold end_step, move_end. intros H.
  repeat (case_match; simplify_eq/=; try done).
  destruct (LspClient.Write c payload); by simplify_eq/=.
Qed.

Lemma end_step_accepted s a c ev s' : end_step s a c ev = Some s' -> accepted s' = accepted s.
Proof.
  unfold end_step, move_end. intros H.
  repeat (case_match; simplify_eq/=; try done).
  destruct (LspClient.Write c payload); by simplify_eq/=.
Qed.
