(* ===== verification/LspDelivery.v ===== *)
(** What the two applications may rely on, over every schedule of the system:
    delivery, graceful closing, identifiers and the window. *)
From S2P Require Import Prelude GoText LspMessage LspWindow LspClient LspServer LspSystem.

Lemma init_inv o p : sys_inv o 0 (init p).
Proof.
  constructor; simpl; try done; try lia; by intros ? ? ?%not_elem_of_nil.
Qed.

(** Which source of a move [step] consults. *)
Lemma system_step_inv o n s ev s' :
  Z.of_nat n < 2 ^ 62 -> sys_inv o n s -> (forall ow, o = Some ow -> single_writer ow s) ->
  step s ev = Some s' -> sys_inv o (S n) s' /\ sys_le s s'.
Proof.
  intros Hn Hv Hsw Hstep.
  assert (forall a, (c ← ends s !! a; end_step s a c ev) = Some s' ->
    sys_inv o (S n) s' /\ sys_le s s') as Hend.
  { intros a. destruct (ends s !! a) as [c|] eqn:Hc; simpl; [|done].
    intros H. by eapply end_step_inv. }
  destruct ev; try exact (Hend _ Hstep); try exact (srv_step_inv _ _ _ Hn Hv _ _ Hstep).
  cbn -[LspClient.NewClient] in Hstep. destruct (ends s !! a) as [c|] eqn:Hc; [done|].
  destruct (v_new_end _ _ _ Hv _ Hc) as [Hwr Hrd]. rewrite Hwr, Hrd in Hstep.
  destruct (LspClient.NewClient p) as [c out] eqn:E. injection Hstep as <-.
  assert (c = (LspClient.NewClient p).1) as Ec by (by rewrite E).
  assert (out = [NewConnect]) as -> by (by injection E).
  apply put_end_inv; try done.
  - intros c0. by rewrite Hc.
  - by rewrite Hwr.
  - rewrite Ec. apply NewClient_inv.
  - auto with go.
  - simpl; lia.
  - injection E as <-. simpl. lia.
Qed.

Lemma exec_inv evs : forall n s s',
  Z.of_nat (n + length evs) < 2 ^ 62 -> sys_inv None n s -> exec step s evs = Some s' ->
  sys_inv None (n + length evs) s' /\ sys_le s s'.
Proof.
  induction evs as [|ev evs IH]; intros n s s' Hn Hv; simpl in *.
  { intros [= <-]. by rewrite Nat.add_0_r. }
  destruct (step s ev) as [s1|] eqn:E; [|done]. intros Hex.
  destruct (system_step_inv None n s ev s1) as [Hv1 Hle1]; [lia|done|done|done|].
  rewrite <- Nat.add_succ_comm in *.
  destruct (IH (S n) s1 s' Hn Hv1 Hex) as [Hv' Hle']. split; [done|]. by trans s1.
Qed.

(** With one writing connection per address, at the end and so at every moment,
    the clients know the source of what they read. *)
Lemma exec_inv_single ow evs : forall n s s',
  Z.of_nat (n + length evs) < 2 ^ 62 -> sys_inv None n s -> sys_inv (Some ow) n s ->
  exec step s evs = Some s' -> single_writer ow s' ->
  sys_inv (Some ow) (n + length evs) s'.
Proof.
  induction evs as [|ev evs IH]; intros n s s' Hn Hv Hvo; simpl in *.
  { intros [= <-] _. by rewrite Nat.add_0_r. }
  destruct (step s ev) as [s1|] eqn:E; [|done]. intros Hex Hsw.
  destruct (system_step_inv None n s ev s1) as [Hv1 Hle1]; [lia|done|done|done|].
  rewrite <- Nat.add_succ_comm in *. destruct (exec_inv _ _ _ _ Hn Hv1 Hex) as [_ Hle].
  destruct (system_step_inv (Some ow) n s ev s1) as [Hvo1 _]; [lia|done| |done|].
  { intros ? [= <-]. apply (single_writer_mono s s1); [done|]. by eapply single_writer_mono. }
  by eapply (IH (S n) s1).
Qed.

Section Run.
Context (p : Params) (evs : list event) (s : sys).
Context (Hlen : Z.of_nat (length evs) < 2 ^ 62) (Hrun : exec step (init p) evs = Some s).

Lemma run_inv : sys_inv None (length evs) s.
Proof using Hlen Hrun. by apply (exec_inv evs 0 (init p) s Hlen (init_inv _ _)). Qed.

Lemma run_inv_single ow : single_writer ow s -> sys_inv (Some ow) (length evs) s.
Proof using Hlen Hrun.
  intros Hsw. by apply (exec_inv_single ow evs 0 (init p) s Hlen (init_inv _ _) (init_inv _ _)).
Qed.
End Run.

(** A receiver whose source is one stream has a prefix of it. *)
Lemma recv_prefix (src : Z -> string -> Prop) stream delivered w :
  (forall k p, src k p -> source stream k p) -> recv_inv src delivered w ->
  delivered `prefix_of` stream.
Proof. intros Hs Hr. eapply recv_inv_prefix, recv_inv_mono; [apply Hs|done]. Qed.

Section Facts.
Context (o : option (string -> Z)) (n : nat) (s : sys) (Hv : sys_inv o n s).

Lemma srv_peer_source a i k p : src (srv_peer s a i) k p -> source (written s !!! a) k p.
Proof using. by intros (_ & c & _ & _ & H). Qed.

Lemma delivered_prefix i ci :
  infos (srv s) !! i = Some ci ->
  sread s !!! i ++ queued i (rmsg (srv s)) `prefix_of` written s !!! addr ci.
Proof using Hv.
  intros Hi. destruct (v_infos _ _ _ Hv _ _ Hi) as (_ & _ & Hinv).
  eapply recv_prefix; [|apply Hinv]. intros k p. apply srv_peer_source.
Qed.

(** The connection that received something from a client is the one the client
    belongs to. *)
Lemma received_source i ci sq :
  infos (srv s) !! i = Some ci -> 1 <= sq -> received (win ci) sq ->
  exists c, ends s !! addr ci = Some c /\ LspClient.id c = i.
Proof using Hv.
  intros Hi Hsq Hrec. destruct (v_infos _ _ _ Hv _ _ Hi) as (_ & _ & Hinv).
  pose proof (cn_recv _ _ _ _ _ _ _ Hinv) as [Hr Hd Hb].
  assert (exists p, src (srv_peer s (addr ci) i) sq p) as (p & _ & c & Hc & Hid & _).
  { destruct Hrec as [Hlt|[p Hp]]; [|by exists p; apply Hb].
    destruct (lookup_lt_is_Some_2 (sread s !!! i ++ queued i (rmsg (srv s))) (Z.to_nat (sq - 1)))
      as [p Hp]; [lia|].
    exists p. apply Hd. unfold stream_at. by rewrite (proj2 (Z.leb_le 1 sq)). }
  by exists c.
Qed.

Lemma client_sent_all a c :
  ends s !! a = Some c -> tbuffer (LspClient.win c) = ∅ -> tmsg (LspClient.win c) = [] ->
  written s !!! a <> [] ->
  exists ci, serves s a (LspClient.id c) ci /\
    forall sq, 1 <= sq <= Z.of_nat (length (written s !!! a)) -> received (win ci) sq.
Proof using Hv.
  intros Hc Hb Hq Hne. destruct (v_ends _ _ _ Hv _ _ Hc) as [Hconn _ _ _].
  pose proof (sent_acked _ _ _ (cn_send _ _ _ _ _ _ _ Hconn)
    (cn_acked _ _ _ _ _ _ _ Hconn) Hb Hq) as Hall. simpl in Hall.
  assert (forall sq, 1 <= sq <= Z.of_nat (length (written s !!! a)) ->
    exists ci, serves s a (LspClient.id c) ci /\ received (win ci) sq) as Hget.
  { intros sq Hsq. destruct (Hall sq Hsq) as (i & ci & [Hi <-] & Hr).
    destruct (received_source i ci sq Hi) as (c2 & Hc2 & Hid); [lia|done|].
    assert (c2 = c) as -> by congruence. exists ci. by rewrite Hid. }
  destruct (written s !!! a) as [|x l] eqn:Ew; [done|].
  destruct (Hget 1) as (ci & [Hi Ha] & _); [simpl; lia|]. exists ci. split; [done|].
  intros sq Hsq. destruct (Hget sq Hsq) as (ci2 & [Hi2 _] & Hr). congruence.
Qed.
End Facts.

Section FactsSingle.
Context (ow : string -> Z) (n : nat) (s : sys) (Hv : sys_inv (Some ow) n s).

Lemma cread_prefix a c :
  ends s !! a = Some c ->
  cread s !!! a ++ LspClient.rmsg c `prefix_of` accepted s !!! ow a.
Proof using Hv.
  intros Hc. destruct (v_ends _ _ _ Hv _ _ Hc) as [Hconn _ _ _].
  eapply recv_prefix; [|apply Hconn]. done.
Qed.
End FactsSingle.

(** The number of unacknowledged messages. *)
Lemma window_size written w :
  send_inv written w -> window_inv w -> Z.of_nat (size (tbuffer w)) <= Z.max 0 (windows w).
Proof.
  intros Hs Hw. replace (windows w) with (tsq w - (tsq w - windows w)) by lia.
  apply map_size_range. intros k m Hm.
  destruct (si_buf _ _ Hs _ _ Hm) as (_ & ? & _). specialize (Hw _ _ Hm). lia.
Qed.

(** What a window promises; [acked] holds of the numbers the peer received. *)
Record sliding (w : window) (acked : Z -> Prop) : Prop := {
  sl_size : 1 <= windows w -> Z.of_nat (size (tbuffer w)) <= windows w;
  sl_range : forall k m, tbuffer w !! k = Some m ->
    SeqNum m = k /\ k < tsq w /\ (1 <= windows w -> tsq w - windows w <= k);
  sl_acked : forall k, 1 <= k < tsq w -> tbuffer w !! k = None -> acked k
}.

Lemma sliding_inv written w acked :
  send_inv written w -> acked_inv acked w -> (1 <= windows w -> window_inv w) -> sliding w acked.
Proof.
  intros Hs Ha Hw. split.
  - intros Hpos. pose proof (window_size _ _ Hs (Hw Hpos)). lia.
  - intros k m Hm. destruct (si_buf _ _ Hs _ _ Hm) as (? & ? & _). split_and!; [done|lia|].
    intros Hpos. specialize (Hw Hpos _ _ Hm). lia.
  - intros k Hk Hn. destruct (Ha k Hk) as [[m Hm]|?]; [congruence|done].
Qed.

(** ** When a goroutine stops *)

Lemma handler_stops c sel c' out :
  LspClient.handler c sel = Some (c', out) -> LspClient.pc c' = LspClient.Returned ->
  LspClient.err c' = LspClient.err c ->
  LspClient.status c = startClosing /\ flushed (LspClient.win c) = true.
Proof.
  unfold LspClient.handler. destruct (LspClient.pc c) eqn:Hpc; [|..|done].
  2: { unfold LspClient.on_drain. intros H Hr _.
       repeat (case_match; simplify_eq/=); destruct (send _ _ _); by simplify_eq/=. }
  destruct (bool_decide _ && flushed _) eqn:E.
  { intros _ _ _. by apply andb_prop in E as [?%bool_decide_eq_true ?]. }
  unfold LspClient.on_incoming, LspClient.on_timer, LspClient.on_default.
  intros H Hr He. exfalso. destruct sel.
  - repeat (case_match; simplify_eq/=; try congruence).
  - repeat (case_match; simplify_eq/=; try congruence).
    destruct (send _ _ _) as [e|] eqn:Es; simplify_eq/=.
    apply send_Some in Es as [_ Ee]. apply (f_equal length) in Ee.
    rewrite length_app in Ee. simpl in Ee. lia.
  - repeat (case_match; simplify_eq/=; try congruence).
Qed.

Lemma handleClient_stops v i ci sel v' out :
  infos v !! i = Some ci -> id ci = i -> handleClient v i sel = Some (v', out) ->
  (pc <$> infos v' !! i) = Some AtClosed ->
  status ci = startClosing /\ flushed (win ci) = true.
Proof.
  intros Hi Hid. unfold handleClient. rewrite Hi. simpl.
  destruct (handleClient_at v ci sel) as [[v1 o]|] eqn:E; [|done]. intros [= <- _] Hpc.
  unfold handleClient_at in E. destruct (pc ci) as [|j sq| | | |] eqn:Hci; [|..|done].
  { destruct (bool_decide _ && flushed _) eqn:Et;
      [by apply andb_prop in Et as [?%bool_decide_eq_true ?]|].
    unfold on_incoming, on_timer, on_default in E. exfalso.
    destruct sel; repeat (case_match; simplify_eq/=; try congruence);
      by (rewrite lookup_insert_eq in Hpc; simplify_eq/=; congruence). }
  all: exfalso; unfold push_cls in E; repeat (case_match; simplify_eq/=; try congruence);
    repeat (destruct (send _ _ _); simplify_eq/=; try congruence);
    by (rewrite lookup_insert_eq in Hpc; simplify_eq/=; congruence).
Qed.

(** What happens to data whose turn is over. *)
Lemma handler_stale c m q :
  LspClient.pc c = LspClient.AtLoop ->
  bool_decide (LspClient.status c = startClosing) && flushed (LspClient.win c) = false ->
  LspClient.incoming c = m :: q -> MType m = MsgData -> is_short m = false ->
  SeqNum m < rsq (LspClient.win c) ->
  exists c1 out, LspClient.handler c LspClient.CaseIncoming = Some (c1, out) /\
    rsq (LspClient.win c1) = rsq (LspClient.win c) /\
    is_Some (rbuffer (LspClient.win c1) !! SeqNum m).
Proof.
  intros Hpc Hopen Hq Ht Hsh Hsq. unfold LspClient.handler. rewrite Hpc, Hopen, Hq.
  unfold LspClient.on_incoming. rewrite Ht, Hsh. simpl. rewrite store_rsq.
  replace (SeqNum m =? rsq (LspClient.win c)) with false by lia.
  eexists _, _. split; [done|]. simpl. rewrite store_rsq. split; [done|].
  unfold store. destruct (rbuffer (LspClient.win c) !! SeqNum m) eqn:E; [by rewrite E|].
  simpl. rewrite lookup_insert_eq. eauto.
Qed.

(** ** The connections of a run *)

Section Schedules.
Context (p : Params).

(** C1: whatever the network loses, repeats, reorders, delays or cuts short, the
    server's application reads from a connection a prefix of what the application
    of the client behind that connection wrote, in order and without repetition;
    and only a client that holds this connection identifier is read from. *)
Theorem server_reads_prefix evs s i ci :
  Z.of_nat (length evs) < 2 ^ 62 -> exec step (init p) evs = Some s ->
  infos (srv s) !! i = Some ci ->
  sread s !!! i `prefix_of` written s !!! addr ci /\
  (sread s !!! i <> [] -> exists c, ends s !! addr ci = Some c /\ LspClient.id c = i).
Proof.
  intros Hlen Hrun Hi. pose proof (run_inv _ _ _ Hlen Hrun) as Hv. split.
  - etrans; [|by eapply delivered_prefix]. by apply prefix_app_r.
  - intros Hne. eapply (received_source _ _ _ Hv i ci 1); [done|done|]. left.
    destruct (v_infos _ _ _ Hv _ _ Hi) as (_ & _ & Hinv).
    rewrite (ri_rsq _ _ _ (cn_recv _ _ _ _ _ _ _ Hinv)), length_app.
    destruct (sread s !!! i); [done|simpl; lia].
Qed.

(** C14: identifiers.  The server numbers connections upwards from 73 and never
    gives a number twice: a connection keeps its number and its client address
    for ever.  A client that has an identifier holds a connection of the server
    with that identifier and its own address.  The table never holds two
    connections of one address. *)
Theorem connection_ids evs evs' s s' :
  Z.of_nat (length (evs ++ evs')) < 2 ^ 62 ->
  exec step (init p) evs = Some s -> exec step s evs' = Some s' ->
  (forall i ci, infos (srv s) !! i = Some ci ->
     id ci = i /\ 73 <= i < lastConnID (srv s) /\
     exists ci', infos (srv s') !! i = Some ci' /\ addr ci' = addr ci) /\
  (forall a c, ends s !! a = Some c -> 0 <= LspClient.id c ->
     exists ci, serves s a (LspClient.id c) ci) /\
  (forall a c, ends s !! a = Some c -> 0 <= LspClient.id c ->
     exists c', ends s' !! a = Some c' /\ LspClient.id c' = LspClient.id c) /\
  one_live (srv s).
Proof.
  rewrite length_app. intros Hlen Hrun Hrun'.
  pose proof (run_inv _ evs s ltac:(lia) Hrun) as Hv.
  destruct (exec_inv evs' (length evs) s s' ltac:(lia) Hv Hrun') as [Hv' Hle]. split_and!; [..|apply Hv].
  - intros i ci Hi. destruct (v_infos _ _ _ Hv _ _ Hi) as (? & ? & _). split_and!; try lia.
    destruct (le_infos _ _ Hle _ _ Hi) as (ci' & ? & ? & _). by exists ci'.
  - intros a c Hc Hid. by apply (ci_known _ _ _ _ (v_ends _ _ _ Hv _ _ Hc)).
  - intros a c Hc Hid. destruct (le_ends _ _ Hle _ _ Hc) as (c' & Hc' & [_ Hg]).
    exists c'. split; [done|]. destruct Hg; lia.
Qed.

(** C15: the sliding window.  In every reachable state, at both ends: a window of size
    [windows] holds at most [windows] unacknowledged messages, each under its own number,
    and these numbers are among the last [windows] below the next one to be sent (with
    gaps, when acknowledgements came out of order); and a number below the next one that
    is no longer in the window is one that the peer has received. *)
Theorem window_bound evs s :
  Z.of_nat (length evs) < 2 ^ 62 -> exec step (init p) evs = Some s ->
  (forall a c, ends s !! a = Some c ->
     sliding (LspClient.win c) (fun k => exists i ci, serves s a i ci /\ received (win ci) k)) /\
  (forall i ci, infos (srv s) !! i = Some ci ->
     sliding (win ci) (fun k => exists c, ends s !! addr ci = Some c /\ received (LspClient.win c) k)).
Proof.
  intros Hlen Hrun. pose proof (run_inv _ _ _ Hlen Hrun) as Hv. split.
  - intros a c Hc. destruct (v_ends _ _ _ Hv _ _ Hc) as [[Hs _ Ha _ _ _ _ Hw] _ _ _].
    by eapply sliding_inv.
  - intros i ci Hi. destruct (v_infos _ _ _ Hv _ _ Hi) as (_ & _ & [Hs _ Ha _ _ _ _ Hw]).
    by eapply sliding_inv.
Qed.

(** C12: graceful closing of a client.  When its handler stops without reporting a
    lost connection, it was asked to close, and the connection of the server with
    its identifier has everything its application ever wrote: delivered in order
    to the server's application, up to what waits in the channel of [Read] (when
    that connection is in the middle of its delivery loop, received). *)
Theorem client_close_delivers evs s a c sel c' out :
  Z.of_nat (length evs) < 2 ^ 62 -> exec step (init p) evs = Some s ->
  ends s !! a = Some c -> LspClient.handler c sel = Some (c', out) ->
  LspClient.pc c' = LspClient.Returned -> LspClient.err c' = LspClient.err c ->
  LspClient.status c = startClosing /\
  (written s !!! a <> [] ->
   exists ci, serves s a (LspClient.id c) ci /\
     (forall sq, 1 <= sq <= Z.of_nat (length (written s !!! a)) -> received (win ci) sq) /\
     (draining (pc ci) = None ->
      sread s !!! LspClient.id c ++ queued (LspClient.id c) (rmsg (srv s)) = written s !!! a)).
Proof.
  intros Hlen Hrun Hc Hh Hpc Herr. pose proof (run_inv _ _ _ Hlen Hrun) as Hv.
  destruct (handler_stops _ _ _ _ Hh Hpc Herr) as [Hst Hf]. split; [done|]. intros Hne.
  destruct (flushed_sent _ Hf) as [Hb Hq].
  destruct (client_sent_all _ _ _ Hv _ _ Hc Hb Hq Hne) as (ci & [Hi Ha] & Hall).
  exists ci. split_and!; [done|done|]. intros Hd.
  destruct (v_infos _ _ _ Hv _ _ Hi) as (_ & _ & Hconn). rewrite Ha in Hconn.
  eapply all_received; [|by apply Hconn|done].
  eapply recv_inv_mono; [|apply Hconn]. intros k q. apply srv_peer_source.
Qed.

(** C20: a duplicate of data already delivered goes back into the receive buffer,
    where nothing ever takes it out: from then on the closing test of this client
    fails in every later state, so a graceful [Close] never ends.  (The test that
    would drop it is the check of [SeqNum] against [rsq], which the code does
    not make.) *)
Theorem duplicate_blocks_close evs s a c m q s1 evs' s2 :
  Z.of_nat (length evs + S (length evs')) < 2 ^ 62 -> exec step (init p) evs = Some s ->
  ends s !! a = Some c -> LspClient.pc c = LspClient.AtLoop ->
  bool_decide (LspClient.status c = startClosing) && flushed (LspClient.win c) = false ->
  LspClient.incoming c = m :: q -> MType m = MsgData -> is_short m = false ->
  SeqNum m < rsq (LspClient.win c) ->
  step s (EHandler a LspClient.CaseIncoming) = Some s1 -> exec step s1 evs' = Some s2 ->
  exists c2, ends s2 !! a = Some c2 /\ flushed (LspClient.win c2) = false.
Proof.
  intros Hlen Hrun Hc Hpc Hopen Hq Ht Hsh Hsq Hstep Hrun'.
  pose proof (run_inv _ evs s ltac:(lia) Hrun) as Hv.
  destruct (system_step_inv None (length evs) s _ s1 ltac:(lia) Hv ltac:(done) Hstep) as [Hv1 _].
  destruct (exec_inv evs' (S (length evs)) s1 s2 ltac:(lia) Hv1 Hrun') as [_ Hle].
  destruct (handler_stale _ _ _ Hpc Hopen Hq Ht Hsh Hsq) as (c1 & out & Hh & Hr & Hst).
  simpl in Hstep. rewrite Hc in Hstep. simpl in Hstep. rewrite Hh in Hstep.
  injection Hstep as <-.
  destruct (le_ends _ _ Hle a c1) as (c2 & Hc2 & [Hg _]); [apply lookup_insert_eq|].
  exists c2. split; [done|]. rewrite <- Hr in Hsq.
  destruct (wg_stale _ _ Hg _ Hsq Hst) as [x Hx]. unfold flushed.
  rewrite (bool_decide_false (rbuffer _ = ∅)); [by rewrite andb_false_r|].
  intros E. by rewrite E in Hx.
Qed.
End Schedules.

(** ** A run

    One client connects, the two ends exchange a message each and acknowledge
    them. *)

Definition demo_params : Params := NewParams.

Definition demo_connect : list event :=
  [ENewClient "c1" demo_params; SReceive 0 None; SHandle CasePacket;
   EReceive "c1" 0 None; EHandler "c1" LspClient.CaseIncoming].

Definition demo_hello : list event :=
  [EWrite "c1" "hello"; EHandler "c1" LspClient.CaseDefault;
   SReceive 1 (Some "hel"%string); SHandle CasePacket; SHandle CasePacket;
   SClient 73 LspServer.CaseIncoming;
   SReceive 1 None; SHandle CasePacket; SHandle CasePacket;
   SClient 73 LspServer.CaseIncoming; SClient 73 LspServer.CaseDefault;
   SClient 73 LspServer.CaseDefault; SRead;
   EReceive "c1" 1 None; EHandler "c1" LspClient.CaseIncoming].

Definition demo_world : list event :=
  [SWrite 73 "world"; SHandle CaseOutgoing; SHandle CaseOutgoing;
   SClient 73 LspServer.CaseDefault;
   EReceive "c1" 2 None; EHandler "c1" LspClient.CaseIncoming;
   EHandler "c1" LspClient.CaseDefault; EHandler "c1" LspClient.CaseDefault; ERead "c1";
   SReceive 2 None; SHandle CasePacket; SHandle CasePacket;
   SClient 73 LspServer.CaseIncoming].

Definition demo_run : list event := demo_connect ++ demo_hello ++ demo_world.
Definition demo_closing : list event := demo_run ++ [EClose "c1"; SCloseConn 73; SHandle CaseCls].
Definition demo_duplicate : list event := demo_run ++ [EReceive "c1" 2 None].

Lemma server_reads_prefix_witness :
  let s := run step (init demo_params) demo_run in
  sread s !!! 73 = ["hello"%string] /\ sread s !!! 73 `prefix_of` written s !!! "c1"%string.
Proof.
  split; [vm_refl|].
  destruct (infos (srv (run step (init demo_params) demo_run)) !! 73) as [ci|] eqn:E;
    [|vm_compute in E; discriminate E].
  assert (addr ci = "c1"%string) as <- by (vm_compute in E; by injection E as <-).
  apply (server_reads_prefix demo_params demo_run _ 73 ci); [vm_refl| |done].
  apply exec_run; vm_refl.
Defined.

Lemma connection_ids_witness :
  one_live (srv (run step (init demo_params) demo_connect)).
Proof.
  pose proof (exec_run step (init demo_params) demo_connect ltac:(vm_refl)) as H1.
  pose proof (exec_run step (run step (init demo_params) demo_connect)
    (demo_hello ++ demo_world) ltac:(vm_refl)) as H2.
  exact (proj2 (proj2 (proj2 (connection_ids demo_params demo_connect (demo_hello ++ demo_world)
    _ _ ltac:(vm_refl) H1 H2)))).
Defined.

Lemma window_bound_witness :
  let s := run step (init demo_params) (demo_connect ++ take 2 demo_hello) in
  exists c, ends s !! "c1"%string = Some c /\ size (tbuffer (LspClient.win c)) = 1%nat /\
    Z.of_nat (size (tbuffer (LspClient.win c))) <= windows (LspClient.win c).
Proof.
  pose proof (exec_run step (init demo_params) (demo_connect ++ take 2 demo_hello) ltac:(vm_refl))
    as Hrun.
  destruct (window_bound demo_params (demo_connect ++ take 2 demo_hello) _ eq_refl Hrun) as [Hb _].
  set (s := run _ _ _) in *. intros s'. subst s'.
  destruct (ends s !! "c1"%string) as [c|] eqn:E; [|vm_compute in E; discriminate E].
  exists c. destruct (Hb _ _ E) as [Hle _ _]. split; [reflexivity|].
  vm_compute in E. injection E as <-. split; [reflexivity|]. apply Hle. vm_compute. discriminate.
Defined.

Lemma client_close_delivers_witness :
  let s := run step (init demo_params) demo_closing in
  exists c c', ends s !! "c1"%string = Some c /\
    LspClient.handler c LspClient.CaseDefault = Some (c', []) /\
    LspClient.status c = startClosing /\ written s !!! "c1"%string = ["hello"%string].
Proof.
  pose proof (exec_run step (init demo_params) demo_closing ltac:(vm_refl)) as Hrun.
  set (s := run _ _ _) in *. intros s'. subst s'.
  destruct (ends s !! "c1"%string) as [c|] eqn:E; [|vm_compute in E; discriminate E].
  destruct (LspClient.handler c LspClient.CaseDefault) as [[c' out]|] eqn:Eh;
    [|vm_compute in E; injection E as <-; discriminate Eh].
  assert (out = [] /\ LspClient.pc c' = LspClient.Returned /\ LspClient.err c' = LspClient.err c)
    as (-> & Hpc & Herr).
  { vm_compute in E. injection E as <-. vm_compute in Eh. injection Eh as <- <-. auto. }
  exists c, c'. split; [reflexivity|]. split; [exact Eh|]. split; [|vm_refl].
  exact (proj1 (client_close_delivers demo_params demo_closing s _ c _ c' [] eq_refl Hrun E Eh Hpc Herr)).
Defined.

Definition demo_after : list event := [EClose "c1"; EHandler "c1" LspClient.CaseDefault].

Lemma duplicate_blocks_close_witness :
  let s1 := run step (init demo_params)
              (demo_duplicate ++ [EHandler "c1" LspClient.CaseIncoming]) in
  exists c2, ends (run step s1 demo_after) !! "c1"%string = Some c2 /\
    flushed (LspClient.win c2) = false.
Proof.
  pose proof (exec_run step (init demo_params) demo_duplicate ltac:(vm_refl)) as Hrun.
  pose proof (exec_run step (run step (init demo_params)
    (demo_duplicate ++ [EHandler "c1" LspClient.CaseIncoming])) demo_after ltac:(vm_refl)) as Hafter.
  assert (step (run step (init demo_params) demo_duplicate) (EHandler "c1" LspClient.CaseIncoming) =
    Some (run step (init demo_params) (demo_duplicate ++ [EHandler "c1" LspClient.CaseIncoming])))
    as Hstep by vm_refl.
  set (s := run step (init demo_params) demo_duplicate) in *.
  set (s1 := run step _ (demo_duplicate ++ _)) in *. intros s1'. subst s1'.
  destruct (ends s !! "c1"%string) as [c|] eqn:E; [|vm_compute in E; discriminate E].
  pose proof E as Ec. vm_compute in Ec. injection Ec as Ec.
  destruct (LspClient.incoming c) as [|m q] eqn:Eq; [subst c; discriminate Eq|].
  refine (duplicate_blocks_close demo_params demo_duplicate s _ c m q s1 demo_after _ eq_refl Hrun E
    _ _ Eq _ _ _ Hstep Hafter); subst c; injection Eq as <- <-; reflexivity.
Defined.
