(* ===== verification/LspWrites.v ===== *)
(** What the server's application wrote, and what becomes of it.

    A [Write] of the server puts a message in [outgoing]; [handle] takes it out and
    gives it to the goroutine of its connection, or drops it when the connection is
    not in the table.  [server_writes] is read off the schedule, so it is what the
    application passed to [Write], whatever [Write] made of it; [accepted] of
    LspSystem.v is the part that reached the goroutine. *)
From S2P Require Import Prelude GoText LspMessage LspWindow LspClient LspServer LspSystem LspDelivery.

(** ** The calls of [Write] *)

Definition server_write_to (i : Z) (ev : event) : option string :=
  match ev with SWrite j payload => if decide (j = i) then Some payload else None | _ => None end.

Definition server_writes (i : Z) (evs : list event) : list string := omap (server_write_to i) evs.

Lemma server_writes_snoc i evs ev :
  server_writes i (evs ++ [ev]) = server_writes i evs ++ option_list (server_write_to i ev).
Proof. unfold server_writes. rewrite omap_snoc. by destruct (server_write_to i ev). Qed.

(** The application writes to [i] only while the connection exists (it has learned
    the number from [Read], say). *)
Definition known_writes (p : Params) (i : Z) (evs : list event) : Prop :=
  forall evs1 payload evs2 s, evs = evs1 ++ SWrite i payload :: evs2 ->
    exec step (init p) evs1 = Some s -> is_Some (infos (srv s) !! i).

(** It writes to one connection of each client address. *)
Definition sole_writer (ow : string -> Z) (evs : list event) (s : sys) : Prop :=
  forall i ci, infos (srv s) !! i = Some ci -> i <> ow (addr ci) -> server_writes i evs = [].

(** ** The way of a message *)

(** The data for connection [i] that [handle] holds, and that waits for it. *)
Definition held (v : server) (i : Z) : list string :=
  match hpc v with HOutgoing j m => if decide (j = i) then [Payload m] else [] | _ => [] end.
Definition waiting (q : list Message) (i : Z) : list string :=
  omap (fun m => if decide (ConnID m = i) then Some (Payload m) else None) q.

Lemma waiting_snoc q m i :
  waiting (q ++ [m]) i = waiting q i ++ (if decide (ConnID m = i) then [Payload m] else []).
Proof. unfold waiting. rewrite omap_snoc. by case_decide. Qed.

Lemma held_select v v' i : hpc v = HSelect -> (forall j m, hpc v' <> HOutgoing j m) -> held v' i = held v i.
Proof. unfold held. intros -> H. case_match; try done. by destruct (H _ _ eq_refl). Qed.

Lemma held_same v v' i : hpc v' = hpc v -> held v' i = held v i.
Proof. unfold held. by intros ->. Qed.

Lemma on_cls_frame v i :
  outgoing (on_cls v i) = outgoing v /\ clients (on_cls v i) ⊆ clients v /\
  (hpc (on_cls v i) = hpc v \/ hpc (on_cls v i) = HReturned).
Proof.
  unfold on_cls.
  repeat first [case_bool_decide | case_match]; simpl; split_and!;
    first [done | by left | by right | by apply subseteq_difference_l].
Qed.

(** [early] was dropped before the connection existed, [lost] after it left the
    table. *)
Record pipe (s : sys) (i : Z) (ws early lost : list string) : Prop := {
  pp_eq : ws = early ++ accepted s !!! i ++ held (srv s) i ++ lost ++ waiting (outgoing (srv s)) i;
  pp_live : i ∈ clients (srv s) -> lost = [];
  pp_new : infos (srv s) !! i = None -> lost = []
}.

Definition pipe_next (s s' : sys) (i : Z) (ws' early : list string) : Prop :=
  exists early' lost', pipe s' i ws' early' lost' /\ (is_Some (infos (srv s) !! i) -> early' = early).

Section Pipe.
Context (n : nat) (s : sys) (i : Z) (ws early lost : list string).
Context (Hv : sys_inv None n s) (P : pipe s i ws early lost).

(** A move that leaves the messages where they are. *)
Lemma pipe_same s' :
  accepted s' = accepted s -> held (srv s') i = held (srv s) i -> outgoing (srv s') = outgoing (srv s) ->
  (i ∈ clients (srv s') -> i ∈ clients (srv s) \/ infos (srv s) !! i = None) ->
  (infos (srv s') !! i = None -> infos (srv s) !! i = None) ->
  pipe_next s s' i ws early.
Proof using P.
  intros E1 E2 E3 Hc Hi. destruct P as [H1 H2 H3]. exists early, lost. split; [|done].
  split; [by rewrite E1, E2, E3| |auto]. intros [?|?]%Hc; auto.
Qed.

Lemma pipe_outgoing m q out :
  hpc (srv s) = HSelect -> outgoing (srv s) = m :: q ->
  pipe_next s (put_srv s (on_outgoing (set_outgoing (srv s) q) m) out) i ws early.
Proof using Hv P.
  intros Hpc Eq. destruct P as [H1 H2 H3]. unfold pipe_next. rewrite Eq in H1. unfold held in H1.
  rewrite Hpc in H1. unfold on_outgoing. cbn [clients set_outgoing].
  unfold waiting in *. cbn [omap list_omap] in H1. destruct (decide (ConnID m = i)) as [<-|Hne].
  - case_bool_decide as Hin; cbn [srv put_srv].
    + exists early, []. split; [|done]. split; [|done..]. unfold held. cbn. rewrite decide_True by done.
      by rewrite H1, (H2 Hin).
    + destruct (infos (srv s) !! ConnID m) as [ci|] eqn:Hi.
      * exists early, (lost ++ [Payload m]). split; [|done]. split; cbn; [|by intros ?%Hin|congruence].
        unfold held. cbn. rewrite Hpc, H1. cbn. by rewrite <- !app_assoc.
      * exists (early ++ [Payload m]), []. split; [|by intros [? ?]]. split; [|done..].
        destruct (v_new_info _ _ _ Hv _ Hi) as [Ha _]. unfold held. cbn. rewrite Hpc, H1, Ha, (H3 eq_refl). cbn.
        by rewrite <- !app_assoc.
  - exists early, lost. split; [|done].
    case_bool_decide; split; unfold held; cbn; rewrite ?Hpc, ?H1; try done; by rewrite ?(decide_False (P := ConnID m = i)) by done.
Qed.

Lemma pipe_accepted j m v :
  hpc (srv s) = HOutgoing j m -> hpc v = HSelect -> outgoing v = outgoing (srv s) ->
  clients v = clients (srv s) -> (infos v !! i = None -> infos (srv s) !! i = None) ->
  pipe_next s (put_accepted (put_srv s v []) j (accepted s !!! j ++ [Payload m])) i ws early.
Proof using P.
  intros Hpc Hpc' Eo Ec Ei. destruct P as [H1 H2 H3]. exists early, lost. split; [|done].
  split; cbn; rewrite ?Ec; auto. rewrite H1, Eo. unfold held. rewrite Hpc, Hpc'.
  destruct (decide (j = i)) as [->|Hj]; [|by rewrite lookup_total_insert_ne].
  rewrite lookup_total_insert_eq. by rewrite <- !app_assoc.
Qed.

Lemma pipe_write j payload :
  pipe_next s (put_srv s (set_outgoing (srv s)
      (outgoing (srv s) ++ [NewData j (-1) (Z.of_nat (String.length payload)) payload])) []) i
    (ws ++ option_list (if decide (j = i) then Some payload else None)) early.
Proof using P.
  destruct P as [H1 H2 H3]. exists early, lost. split; [|done].
  split; cbn [srv put_srv outgoing set_outgoing accepted]; try done.
  rewrite H1, waiting_snoc. unfold held. cbn. rewrite <- !app_assoc. by destruct (decide (j = i)).
Qed.
End Pipe.

(** ** Every step *)

Lemma infos_kept n s ev s' i :
  Z.of_nat n < 2 ^ 62 -> sys_inv None n s -> step s ev = Some s' ->
  infos (srv s') !! i = None -> infos (srv s) !! i = None.
Proof.
  intros Hn Hv Hstep Hi. destruct (system_step_inv None n s ev s') as [_ Hle]; [done..|].
  destruct (infos (srv s) !! i) as [ci|] eqn:E; [|done].
  destruct (le_infos _ _ Hle _ _ E) as (ci' & ? & _). congruence.
Qed.

Section Steps.
Context (n : nat) (s : sys) (i : Z) (ws early lost : list string).
Context (Hn : Z.of_nat n < 2 ^ 62) (Hv : sys_inv None n s) (P : pipe s i ws early lost).

Lemma pipe_handle sel v out s' :
  LspServer.handle (srv s) sel = Some (v, out) ->
  (infos v !! i = None -> infos (srv s) !! i = None) ->
  s' = match hpc (srv s) with
       | HOutgoing cid m => put_accepted (put_srv s v out) cid (accepted s !!! cid ++ [Payload m])
       | _ => put_srv s v out
       end -> pipe_next s s' i ws early.
Proof using Hn Hv P.
  intros H Hi ->. revert H. unfold handle. destruct (hpc (srv s)) as [|cid m|cid m|] eqn:Hpc; [|..|done].
  - destruct sel.
    + destruct (sincoming (srv s)) as [|[m a] q]; [done|]. intros [= E]. unfold on_packet in E.
      repeat (case_match; simplify_eq/=); (eapply pipe_same; [done| | |..|done]); cbn; auto.
      * rewrite elem_of_union, elem_of_singleton. intros [->|?]; [right|by left].
        destruct (infos (srv s) !! lastConnID (srv s)) as [ci|] eqn:E; [|done].
        destruct (v_infos _ _ _ Hv _ _ E) as (_ & ? & _). lia.
      * unfold held. by rewrite Hpc.
    + destruct (outgoing (srv s)) as [|m q] eqn:Eq; [done|]. intros [= <- <-]. by eapply pipe_outgoing.
    + destruct (cls (srv s)) as [|cid q]; [done|]. intros [= <- <-].
      destruct (on_cls_frame (set_cls (srv s) q) cid) as (E1 & E2 & E3).
      eapply pipe_same; [done|done| | |..|done]; [|done|intros Hin; left; by apply E2].
      cbn [srv put_srv]. apply held_select; [done|]. intros j m. destruct E3 as [->| ->]; simpl; [by rewrite Hpc|done].
  - destruct (infos (srv s) !! cid) as [ci|]; simpl; [|done].
    destruct (send _ _ _) as [q|]; simpl; [|done]. intros [= <- <-].
    eapply pipe_same; try done; [|by left]. unfold held. by rewrite Hpc.
  - destruct (infos (srv s) !! cid) as [ci|]; simpl; [|done].
    destruct (send _ _ _) as [q|]; simpl; [|done]. intros [= <- <-]. by eapply pipe_accepted.
Qed.

Lemma pipe_srv_step ev s' :
  srv_step s ev = Some s' -> (infos (srv s') !! i = None -> infos (srv s) !! i = None) ->
  pipe_next s s' i (ws ++ option_list (server_write_to i ev)) early.
Proof using Hn Hv P.
  intros Hstep Hi.
  destruct ev; cbn [srv_step server_write_to option_list] in *; unfold quiet_srv in Hstep;
    rewrite ?app_nil_r; try done.
  - destruct (LspServer.handle (srv s) sel) as [[v out]|] eqn:E; [|done].
    eapply pipe_handle; [done| |by destruct (hpc (srv s)); injection Hstep as <-].
    by destruct (hpc (srv s)); injection Hstep as <-.
  - unfold LspServer.handleClient in Hstep. destruct (infos (srv s) !! cid) as [ci|] eqn:Hci; simpl in Hstep; [|done].
    destruct (handleClient_at _ ci sel) as [[v out]|] eqn:E; [|done]. injection Hstep as <-.
    destruct (v_infos _ _ _ Hv _ _ Hci) as (_ & _ & Hinv).
    assert (small (accepted s !!! cid)) as Hw
      by (apply (small_len _ n); [pose proof (v_accepted _ _ _ Hv cid); lia|done]).
    destruct (handleClient_at_inv _ _ _ Hw _ _ _ _ _ Hinv E) as (c' & pushed & Hmove & _).
    destruct (cm_rest _ _ _ _ _ Hmove) as (E1 & _ & _ & E4 & E5).
    eapply pipe_same; try done; [by apply held_same|cbn; rewrite E1; by left].
  - destruct (to_srv s !! k) as [[a m]|]; [|done]. destruct (LspServer.sock _); [|done].
    unfold receiver in Hstep. destruct (receiving _); simpl in Hstep; [|done].
    destruct (send _ _ _) as [q|]; simpl in Hstep; [|done]. injection Hstep as <-.
    eapply pipe_same; try done. by left.
  - unfold receiver in Hstep. destruct (receiving _); simpl in Hstep; [|done].
    case_bool_decide; injection Hstep as <-; (eapply pipe_same; try done; by left).
  - unfold LspServer.Write in Hstep. destruct (send _ _ _) as [q|] eqn:Eq; simpl in Hstep; [|done].
    apply send_Some in Eq as [_ ->]. injection Hstep as <-. by eapply pipe_write.
  - destruct (LspServer.Read_data _) as [[[j d] v]|] eqn:E; [|done]. injection Hstep as <-.
    unfold LspServer.Read_data in E. destruct (rmsg (srv s)); [done|]. injection E as _ <-.
    eapply pipe_same; try done. by left.
  - unfold LspServer.Read_err in Hstep. destruct (err (srv s)) as [|e q]; simpl in Hstep; [done|].
    injection Hstep as <-. eapply pipe_same; try done. by left.
  - unfold CloseConn, push_cls in Hstep. destruct (send _ _ _) as [q|]; simpl in Hstep; [|done].
    injection Hstep as <-. eapply pipe_same; try done. by left.
  - unfold LspServer.Close_begin in Hstep. destruct (bcls _); simpl in Hstep; [done|].
    injection Hstep as <-. eapply pipe_same; try done. by left.
  - unfold LspServer.Close_poll in Hstep. simpl in Hstep. injection Hstep as <-.
    case_bool_decide; (eapply pipe_same; try done; by left).
Qed.
End Steps.

Lemma pipe_step n s i ws early lost ev s' :
  Z.of_nat n < 2 ^ 62 -> sys_inv None n s -> pipe s i ws early lost -> step s ev = Some s' ->
  pipe_next s s' i (ws ++ option_list (server_write_to i ev)) early.
Proof.
  intros Hn Hv P Hstep. pose proof (infos_kept n s ev s' i Hn Hv Hstep) as Hi.
  assert (srv s' = srv s -> accepted s' = accepted s -> server_write_to i ev = None ->
    pipe_next s s' i (ws ++ option_list (server_write_to i ev)) early) as Hsame.
  { intros E1 E2 ->. rewrite app_nil_r. eapply pipe_same; rewrite ?E1, ?E2; try done. by left. }
  assert (forall a, mover ev = Some a -> (c ← ends s !! a; end_step s a c ev) = Some s' ->
    pipe_next s s' i (ws ++ option_list (server_write_to i ev)) early) as Hend.
  { intros a Hm. destruct (ends s !! a) as [c|]; simpl; [|done]. intros H.
    apply Hsame; [by eapply end_step_srv|by eapply end_step_accepted|by destruct ev]. }
  destruct ev; try exact (Hend _ eq_refl Hstep); try exact (pipe_srv_step _ _ _ _ _ _ Hn Hv P _ _ Hstep Hi).
  cbn -[LspClient.NewClient] in Hstep. destruct (ends s !! a); [done|].
  destruct (LspClient.NewClient p) as [c out]. injection Hstep as <-. by apply Hsame.
Qed.

Lemma known_writes_prefix p i evs ev : known_writes p i (evs ++ [ev]) -> known_writes p i evs.
Proof. intros H evs1 d evs2 s ->. apply (H evs1 d (evs2 ++ [ev]) s). by rewrite <- app_assoc. Qed.

(** Nothing was written to a connection that does not exist yet. *)
Lemma known_none p i evs s :
  Z.of_nat (length evs) < 2 ^ 62 -> exec step (init p) evs = Some s -> known_writes p i evs ->
  infos (srv s) !! i = None -> server_writes i evs = [].
Proof.
  intros Hlen Hrun Hk Hi. destruct (server_writes i evs) as [|d l] eqn:E; [done|exfalso].
  assert (d ∈ server_writes i evs) as (ev & Hev & Hd)%list_elem_of_omap by (rewrite E; by left).
  destruct ev as [| | | | | | | | | | | | |j d'| | | | |]; try done. simpl in Hd. case_decide; [|done]. simplify_eq.
  apply list_elem_of_split in Hev as (evs1 & evs2 & ->).
  rewrite length_app in Hlen. rewrite exec_app in Hrun.
  destruct (exec step (init p) evs1) as [s1|] eqn:E1; [|done]. cbn [mbind option_bind] in Hrun.
  destruct (Hk evs1 d evs2 s1 eq_refl E1) as [ci Hci].
  pose proof (run_inv p evs1 s1 ltac:(lia) E1) as Hv1.
  eapply exec_inv in Hrun as [_ Hle]; [|exact Hlen|exact Hv1].
  destruct (le_infos _ _ Hle _ _ Hci) as (ci' & ? & _). congruence.
Qed.

(** What was dropped early is the same at every moment at which [i] is in the table. *)
Definition early_is (p : Params) (i : Z) (evs : list event) (early : list string) : Prop :=
  forall evs1 evs2 s1, evs = evs1 ++ evs2 -> exec step (init p) evs1 = Some s1 ->
    i ∈ clients (srv s1) -> exists lost, pipe s1 i (server_writes i evs1) early lost.

(** What was dropped early was written before the connection came into the table. *)
Definition written_before (p : Params) (i : Z) (evs : list event) (early : list string) : Prop :=
  forall evs1 evs2 s1, evs = evs1 ++ evs2 -> exec step (init p) evs1 = Some s1 ->
    i ∈ clients (srv s1) -> early `prefix_of` server_writes i evs1.

Lemma early_before p i evs early : early_is p i evs early -> written_before p i evs early.
Proof.
  intros He evs1 evs2 s1 Hsplit Hrun Hin. destruct (He _ _ _ Hsplit Hrun Hin) as (l & [-> _ _]).
  by apply prefix_app_r.
Qed.

(** An event more: the moment is the last one, or one before. *)
Lemma split_snoc {A} (l : list A) x l1 l2 :
  l ++ [x] = l1 ++ l2 -> (l1 = l ++ [x] /\ l2 = []) \/ exists l3, l2 = l3 ++ [x] /\ l = l1 ++ l3.
Proof.
  destruct l2 as [|y l2 _] using rev_ind; [rewrite app_nil_r; by left|].
  rewrite app_assoc. intros [-> ->]%app_inj_tail. right. by exists l2.
Qed.

Lemma early_snoc p i evs ev s1 s2 early early' lost' :
  Z.of_nat (length evs) < 2 ^ 62 -> exec step (init p) evs = Some s1 -> step s1 ev = Some s2 ->
  early_is p i evs early -> pipe s2 i (server_writes i (evs ++ [ev])) early' lost' ->
  (is_Some (infos (srv s1) !! i) -> early' = early) -> early_is p i (evs ++ [ev]) early'.
Proof.
  intros Hlen E1 E2 He P' Hsame evs1 evs2 s0 [[-> ->]|(evs3 & -> & Heq)]%split_snoc Hrun Hin.
  - rewrite exec_app, E1 in Hrun. simpl in Hrun. rewrite E2 in Hrun. injection Hrun as <-. by exists lost'.
  - rewrite Hsame; [by eapply He|]. subst evs. rewrite length_app in Hlen. rewrite exec_app, Hrun in E1.
    pose proof (run_inv p evs1 s0 ltac:(lia) Hrun) as Hv0. destruct (v_live _ _ _ Hv0 _ Hin) as [ci Hci].
    eapply exec_inv in E1 as [_ Hle]; [|exact Hlen|exact Hv0].
    destruct (le_infos _ _ Hle _ _ Hci) as (ci' & ? & _). by exists ci'.
Qed.

(** Where everything is that the application wrote to [i]. *)
Lemma run_pipe p evs i : forall s,
  Z.of_nat (length evs) < 2 ^ 62 -> exec step (init p) evs = Some s ->
  exists early lost, pipe s i (server_writes i evs) early lost /\
    (known_writes p i evs -> early = []) /\ early_is p i evs early.
Proof.
  induction evs as [|ev evs IH] using rev_ind; intros s Hlen Hrun.
  { injection Hrun as <-. exists [], []. split; [by split|]. split; [done|].
    intros evs1 evs2 s1 E E1 Hin. symmetry in E. apply app_eq_nil in E as [-> ->]. injection E1 as <-.
    exists []. by split. }
  rewrite length_app in Hlen. simpl in Hlen. rewrite exec_app in Hrun.
  destruct (exec step (init p) evs) as [s1|] eqn:E1; cbn [mbind option_bind exec] in Hrun; [|done].
  destruct (step s1 ev) as [s2|] eqn:E2; [|done]. injection Hrun as <-.
  destruct (IH s1 ltac:(lia) eq_refl) as (early & lost & P & Hearly & Hmoments).
  pose proof (run_inv p evs s1 ltac:(lia) E1) as Hv.
  destruct (pipe_step (length evs) _ _ _ _ _ ev s2 ltac:(lia) Hv P E2) as (early' & lost' & P' & Hsame).
  rewrite <- server_writes_snoc in P'. exists early', lost'. split; [done|].
  split; [|apply (early_snoc p i evs ev s1 s2 early early' lost'); try done; lia]. intros Hk.
  destruct (infos (srv s1) !! i) as [ci|] eqn:Hi.
  - rewrite Hsame by eauto. by eapply Hearly, known_writes_prefix.
  - assert (server_writes i (evs ++ [ev]) = []) as Hn.
    { rewrite server_writes_snoc. rewrite (known_none p i evs s1); try done; [|lia|by eapply known_writes_prefix].
      destruct ev as [| | | | | | | | | | | | |j d'| | | | |]; try done. simpl. case_decide; [|done]. subst j.
      destruct (Hk evs d' [] s1 eq_refl E1) as [ci Hci]. congruence. }
    pose proof (pp_eq _ _ _ _ _ P') as E. rewrite Hn in E. symmetry in E. by apply app_eq_nil in E as [? _].
Qed.

Section Single.
Context (p : Params) (evs : list event) (s : sys) (ow : string -> Z).
Context (Hlen : Z.of_nat (length evs) < 2 ^ 62) (Hrun : exec step (init p) evs = Some s).
Context (Hsw : sole_writer ow evs s).

Lemma sole_single : single_writer ow s.
Proof using Hlen Hrun Hsw.
  intros i ci Hi Hne. destruct (run_pipe p evs i s Hlen Hrun) as (early & lost & [E _ _] & _ & _).
  rewrite (Hsw i ci Hi Hne) in E. symmetry in E. apply app_eq_nil in E as [_ E].
  by apply app_eq_nil in E as [? _].
Qed.

Lemma sole_inv : sys_inv (Some ow) (length evs) s.
Proof using Hlen Hrun Hsw. apply (run_inv_single p); [done..|apply sole_single]. Qed.
End Single.

(** What is not accepted now was not accepted before. *)
Lemma lost_suffix p evs s i early lost evs1 evs2 s1 :
  Z.of_nat (length evs) < 2 ^ 62 -> exec step (init p) evs = Some s -> early_is p i evs early ->
  server_writes i evs = early ++ accepted s !!! i ++ lost ->
  evs = evs1 ++ evs2 -> exec step (init p) evs1 = Some s1 -> i ∈ clients (srv s1) ->
  lost `suffix_of` held (srv s1) i ++ waiting (outgoing (srv s1)) i ++ server_writes i evs2.
Proof.
  intros Hlen Hrun He Hw Hsplit Hrun1 Hin. destruct (He _ _ _ Hsplit Hrun1 Hin) as (l & [E Hl _]).
  rewrite (Hl Hin) in E. subst evs. unfold server_writes in *. rewrite omap_app, E in Hw.
  rewrite length_app in Hlen. rewrite exec_app, Hrun1 in Hrun.
  pose proof (run_inv p evs1 s1 ltac:(lia) Hrun1) as Hv1.
  eapply exec_inv in Hrun as [_ Hle]; [|exact Hlen|exact Hv1].
  destruct (le_accepted _ _ Hle i) as [k Hk]. rewrite Hk in Hw. exists k.
  rewrite <- !app_assoc in Hw. apply app_inv_head, app_inv_head in Hw. exact Hw.
Qed.

(** A test for [known_writes] on a schedule. *)
Fixpoint writes_known (s : sys) (i : Z) (evs : list event) : bool :=
  match evs with
  | [] => true
  | ev :: evs =>
      match server_write_to i ev with
      | Some _ => bool_decide (is_Some (infos (srv s) !! i))
      | None => true
      end &&
      match step s ev with Some s' => writes_known s' i evs | None => true end
  end.

Lemma writes_known_ok p i evs : writes_known (init p) i evs = true -> known_writes p i evs.
Proof.
  intros H evs1 d evs2 s ->. revert H. generalize (init p).
  induction evs1 as [|ev evs1 IH]; intros s0; cbn [app writes_known exec].
  - simpl. rewrite decide_True by done. by intros [H%bool_decide_eq_true _]%andb_prop [= <-].
  - destruct (step s0 ev) as [s1|]; [|done]. intros [_ H]%andb_prop. by apply IH.
Qed.

(** ** Delivery to the clients *)

(** C2: what the application of a client reads is a run, without a gap, of what the
    server's application passed to [Write] for the connection of this client, in order
    and without repetition; and a prefix of it when the application wrote to the
    connection only once it existed.  What comes before the run was written before
    the connection came into the server's table.  The application must write to one
    connection per client address (a client does not look at the connection identifier
    of data). *)
Theorem client_reads_prefix p evs s ow a :
  Z.of_nat (length evs) < 2 ^ 62 -> exec step (init p) evs = Some s -> sole_writer ow evs s ->
  exists early, early ++ cread s !!! a `prefix_of` server_writes (ow a) evs /\
    (known_writes p (ow a) evs -> early = []) /\ written_before p (ow a) evs early.
Proof.
  intros Hlen Hrun Hsw. pose proof (sole_inv _ _ _ _ Hlen Hrun Hsw) as Hv.
  destruct (run_pipe p evs (ow a) s Hlen Hrun) as (early & lost & [-> _ _] & Hearly & Hmoments).
  exists early. split; [|split; [done|by apply early_before]]. apply prefix_app, prefix_app_r.
  destruct (ends s !! a) as [c|] eqn:Hc.
  - etrans; [|by eapply cread_prefix]. by apply prefix_app_r.
  - destruct (v_new_end _ _ _ Hv _ Hc) as [_ ->]. apply prefix_nil.
Qed.


(** ** Witnesses *)

Definition demo_writer (a : string) : Z := 73.

Lemma demo_sole evs s :
  forallb (fun ev => match ev with SWrite i _ => i =? 73 | _ => true end) evs = true ->
  sole_writer demo_writer evs s.
Proof.
  intros H i ci _ Hne. unfold demo_writer in Hne. induction evs as [|ev evs IH]; [done|].
  cbn [forallb] in H. apply andb_prop in H as [Hev H]. unfold server_writes in *. cbn [omap list_omap].
  destruct ev; auto. simpl. rewrite decide_False by lia. by apply IH.
Qed.

Lemma client_reads_prefix_witness :
  let s := run step (init demo_params) demo_run in
  cread s !!! "c1"%string = ["world"%string] /\
  cread s !!! "c1"%string `prefix_of` server_writes 73 demo_run.
Proof.
  split; [vm_refl|].
  destruct (client_reads_prefix demo_params demo_run (run step (init demo_params) demo_run) demo_writer "c1")
    as (early & H & Hearly & _); [vm_refl|exact (exec_run step (init demo_params) demo_run ltac:(vm_refl))|apply demo_sole; vm_refl|].
  rewrite Hearly in H; [exact H|]. apply writes_known_ok. vm_refl.
Defined.

(** [Close] has told the connection to close; what the application writes after that
    is lost. *)
Definition demo_late : list event :=
  demo_run ++ [SClose; SClient 73 LspServer.CaseDefault; SWrite 73 "late"].

