(* ===== verification/LspLiveness.v ===== *)
(** Progress of the LSP protocol: from a calm state everything the client has written
    can still reach the server's application, even when every packet written so far is
    lost, and the number of moves it takes is bounded.

    The schedule is built by rounds.  A tick makes the client write everything
    unacknowledged again; each of these packets, then each waiting message, goes
    through one exchange: the server takes the packet, delivers what it can and
    acknowledges it, and the client takes the acknowledgement. *)
From S2P Require Import Prelude GoText LspMessage LspWindow LspClient LspServer LspSystem LspDelivery.

(** ** What a connected client holds is data *)

Definition data_only (c : LspClient.client) : Prop :=
  forall k m, tbuffer (LspClient.win c) !! k = Some m ->
    (k = 0 /\ LspClient.id c < 0) \/ (1 <= k /\ MType m = MsgData).

Lemma data_only_frame c c' :
  tbuffer (LspClient.win c') = tbuffer (LspClient.win c) -> LspClient.id c' = LspClient.id c ->
  data_only c -> data_only c'.
Proof. intros E1 E2 H k m. rewrite E1, E2. apply H. Qed.

Lemma data_only_transmit written c :
  small written -> send_inv written (LspClient.win c) -> data_only c ->
  data_only (LspClient.set_win c (transmit (LspClient.win c)).1).
Proof.
  intros Hs Hi H. destruct (transmit_spec _ _ Hs Hi) as [->|(m & q & Hq & _ & ->)]; [done|].
  intros k m'. simpl. intros [[<- <-]|[_ Hk]]%lookup_insert_Some; [|by apply H].
  right. split; [apply (si_tsq _ _ Hi)|]. pose proof (si_fresh _ _ Hi) as Hf. rewrite Hq in Hf.
  by inversion Hf as [|? ? [? ?]].
Qed.

Lemma data_only_incoming c m : data_only c -> data_only (LspClient.on_incoming c m).1.
Proof.
  intros H. unfold LspClient.on_incoming. destruct (MType m =? MsgData).
  { destruct (is_short m); [done|]. destruct (store_send (LspClient.win c) m) as (E & _).
    cbn [LspClient.set_epochCount LspClient.set_win LspClient.win].
    case_match; by apply (data_only_frame c). }
  destruct (MType m =? MsgAck); [|done]. cbn [LspClient.set_epochCount LspClient.win].
  destruct (tbuffer (LspClient.win c) !! SeqNum m) as [v|] eqn:E; [|done].
  cbn [LspClient.set_epochCount LspClient.id].
  destruct ((MType v =? MsgConnect) && (LspClient.id c <? 0)) eqn:Ec;
    intros k x; simpl; intros [Hne Hk]%lookup_delete_Some.
  - destruct (H _ _ Hk) as [[-> _]|?]; [|by right]. exfalso.
    apply andb_prop in Ec as [Ec%Z.eqb_eq _]. destruct (H _ _ E) as [[? _]|[_ Hd]]; [lia|].
    rewrite Ec in Hd. done.
  - by apply H.
Qed.

Lemma data_only_handler written c sel c' out :
  small written -> send_inv written (LspClient.win c) -> data_only c ->
  LspClient.handler c sel = Some (c', out) -> data_only c'.
Proof.
  intros Hs Hi H. unfold LspClient.handler. destruct (LspClient.pc c); [|..|done].
  - destruct (_ && _); [by intros [= <- <-]|]. destruct sel.
    + destruct (LspClient.incoming c) as [|m q]; [done|]. intros [= E].
      pose proof (data_only_incoming (LspClient.set_incoming c q) m H) as H'. by rewrite E in H'.
    + unfold LspClient.on_timer. case_match; [|by intros [= <- <-]].
      destruct (send _ _ _); simpl; [|done]. by intros [= <- <-].
    + destruct (LspClient.incoming c); [|done]. unfold LspClient.on_default.
      pose proof (data_only_transmit _ _ Hs Hi H) as H'.
      destruct (transmit _) as [w o]. by intros [= <- <-].
  - unfold LspClient.on_drain. destruct (drain_one _ _) as [[d w]|] eqn:E.
    + destruct (drain_one_send _ _ _ _ E) as (E1 & _). destruct (send _ _ _); simpl; [|done].
      intros [= <- <-]. by apply (data_only_frame c).
    + by intros [= <- <-].
Qed.

Definition all_data (s : sys) : Prop := forall a c, ends s !! a = Some c -> data_only c.

Lemma all_data_put s a c w r out : all_data s -> data_only c -> all_data (put_end s a c w r out).
Proof. intros H Hc b c'. simpl. intros [[_ <-]|[_ Hb]]%lookup_insert_Some; [done|by eapply H]. Qed.

Lemma all_data_move s a r s' :
  all_data s -> (forall c out, r = Some (c, out) -> data_only c) -> move_end s a r = Some s' -> all_data s'.
Proof. intros H Hr. destruct r as [[c out]|]; [|done]. intros [= <-]. apply all_data_put; eauto. Qed.

Lemma all_data_srv s ev s' : all_data s -> srv_step s ev = Some s' -> all_data s'.
Proof. intros H Hstep a c. rewrite (srv_step_ends _ _ _ Hstep). apply H. Qed.

Lemma all_data_end n s a c ev s' :
  Z.of_nat n < 2 ^ 62 -> sys_inv None n s -> ends s !! a = Some c -> all_data s ->
  end_step s a c ev = Some s' -> all_data s'.
Proof.
  intros Hn Hv Hc H. pose proof (H _ _ Hc) as Hd.
  destruct ev; cbn [end_step]; try done.
  - apply all_data_move; [done|]. intros c' out Hh.
    eapply (data_only_handler (written s !!! a)); [|apply (v_ends _ _ _ Hv _ _ Hc)|done..].
    apply (small_len _ n); [|done]. pose proof (v_written _ _ _ Hv a). lia.
  - destruct (to_cli s !! k) as [[d m]|]; [|done]. destruct (_ && _); [|done].
    apply all_data_move; [done|]. unfold LspClient.receiver. intros c' out.
    destruct (LspClient.receiving c); [|done]. destruct (send _ _ _); [|done]. by intros [= <- _].
  - apply all_data_move; [done|]. unfold LspClient.receiver. intros c' out.
    destruct (LspClient.receiving c); [|done]. case_match; by intros [= <- _].
  - destruct (established c); [|done]. unfold LspClient.Write. destruct (send _ _ _); [|done].
    intros [= <-]. by apply all_data_put.
  - unfold LspClient.Read_data. destruct (LspClient.rmsg c); [done|]. intros [= <-]. by apply all_data_put.
  - apply all_data_move; [done|]. unfold LspClient.Read_err. intros c' out.
    destruct (LspClient.err c); [done|]. by intros [= <- _].
  - apply all_data_move; [done|]. unfold LspClient.Close_begin. intros c' out. case_match; by intros [= <- _].
  - apply all_data_move; [done|]. unfold LspClient.Close_poll. intros c' out [= <- _].
    repeat case_match; done.
Qed.

Lemma all_data_step n s ev s' :
  Z.of_nat n < 2 ^ 62 -> sys_inv None n s -> all_data s -> step s ev = Some s' -> all_data s'.
Proof.
  intros Hn Hv H Hstep.
  assert (forall a, (c ← ends s !! a; end_step s a c ev) = Some s' -> all_data s') as Hend.
  { intros a. destruct (ends s !! a) as [c|] eqn:Hc; simpl; [|done]. by eapply all_data_end. }
  destruct ev; try exact (Hend _ Hstep); try exact (all_data_srv _ _ _ H Hstep).
  cbn -[LspClient.NewClient] in Hstep. destruct (ends s !! a); [done|].
  destruct (LspClient.NewClient p) as [c out] eqn:E. injection Hstep as <-. apply all_data_put; [done|].
  injection E as <- _. intros k m. simpl. intros [<- <-]%lookup_singleton_Some. by left.
Qed.

Lemma run_all_data p evs : forall s,
  Z.of_nat (length evs) < 2 ^ 62 -> exec step (init p) evs = Some s -> all_data s.
Proof.
  induction evs as [|ev evs IH] using rev_ind; intros s Hlen.
  { intros [= <-] a c Hc. discriminate Hc. }
  rewrite length_app in Hlen. rewrite exec_app. simpl in *.
  destruct (exec step (init p) evs) as [s1|] eqn:E; cbn [mbind option_bind]; [|done].
  destruct (step s1 ev) as [s2|] eqn:E2; [|done]. intros [= <-].
  eapply (all_data_step (length evs)); [lia|apply (run_inv p); [lia|done]|by apply IH; [lia|]|done].
Qed.

(** ** Calm states and schedules *)

(** The connection [i] between the client [c] at [a] and the goroutine of [ci]: both
    ends run, nobody closes, the client and [handle] have nothing to take; [rm] waits
    for the server's application. *)
Record open_conn (s : sys) (a : string) (i : Z) (c : LspClient.client) (ci : clientInfo)
    (rm : list (Z * string)) : Prop := {
  oc_end : ends s !! a = Some c;
  oc_id : LspClient.id c = i /\ 0 <= i;
  oc_pc : LspClient.pc c = LspClient.AtLoop;
  oc_run : LspClient.receiving c = true /\ LspClient.sock c = true;
  oc_in : LspClient.incoming c = [];
  oc_open : LspClient.status c = notClosing;
  oc_info : infos (srv s) !! i = Some ci;
  oc_addr : addr ci = a /\ id ci = i;
  oc_live : i ∈ clients (srv s);
  oc_iopen : status ci = notClosing;
  oc_hpc : hpc (srv s) = HSelect;
  oc_srun : receiving (srv s) = true /\ sock (srv s) = true;
  oc_sin : sincoming (srv s) = [];
  oc_rmsg : rmsg (srv s) = rm
}.

(** Nothing waits between the goroutines of an end.  What the windows hold, and what is
    on the network, is arbitrary. *)
Record calm (s : sys) (a : string) (i : Z) (c : LspClient.client) (ci : clientInfo) : Prop := {
  ca_conn : open_conn s a i c ci [];
  ca_pc : pc ci = AtLoop;
  ca_in : incoming ci = []
}.

(** The moves of the schedule: the goroutines of the connection, the server's
    application reading, and deliveries, unaltered, of packets written after the first
    [ks] to the server and the first [kc] to the clients. *)
Definition fair (a : string) (i : Z) (ks kc : nat) (ev : event) : bool :=
  match ev with
  | EHandler b _ => String.eqb b a
  | SClient j _ => j =? i
  | SHandle _ | SRead => true
  | SReceive k None => Nat.leb ks k
  | EReceive b k None => String.eqb b a && Nat.leb kc k
  | _ => false
  end.

Definition fairs (a : string) (i : Z) (ks kc : nat) (evs : list event) : Prop :=
  Forall (fun ev => fair a i ks kc ev = true) evs.

(** A schedule leads from [s] to [s']. *)
Record leads (a : string) (i : Z) (ks kc : nat) (s : sys) (evs : list event) (s' : sys) : Prop := {
  ld_exec : exec step s evs = Some s';
  ld_fair : fairs a i ks kc evs;
  ld_srv : to_srv s `prefix_of` to_srv s';
  ld_cli : to_cli s `prefix_of` to_cli s';
  ld_written : forall b, written s' !!! b = written s !!! b
}.

Section Leads.
Context (a : string) (i : Z) (ks kc : nat).

Lemma leads_nil s : leads a i ks kc s [] s.
Proof. split; try done. apply Forall_nil_2. Qed.

Lemma leads_app s evs s1 evs' s2 :
  leads a i ks kc s evs s1 -> leads a i ks kc s1 evs' s2 -> leads a i ks kc s (evs ++ evs') s2.
Proof.
  intros [E1 F1 P1 Q1 W1] [E2 F2 P2 Q2 W2]. split.
  - rewrite exec_app, E1. done.
  - by apply Forall_app_2.
  - by trans (to_srv s1).
  - by trans (to_cli s1).
  - intros b. by rewrite W2, W1.
Qed.

(** A move of the client, and one of the server. *)
Lemma leads_end s ev c out :
  step s ev = Some (put_end s a c (written s !!! a) (cread s !!! a) out) -> fair a i ks kc ev = true ->
  leads a i ks kc s [ev] (put_end s a c (written s !!! a) (cread s !!! a) out).
Proof.
  intros Hs Hf. split; [by cbn [exec]; rewrite Hs|by apply Forall_singleton|by apply prefix_app_r|done|].
  intros b. simpl. destruct (decide (b = a)) as [->|]; [by rewrite lookup_total_insert_eq|].
  by rewrite lookup_total_insert_ne.
Qed.

Lemma leads_srv s ev v out :
  step s ev = Some (put_srv s v out) -> fair a i ks kc ev = true -> leads a i ks kc s [ev] (put_srv s v out).
Proof.
  intros Hs Hf. split; [by cbn [exec]; rewrite Hs|by apply Forall_singleton|done|by apply prefix_app_r|done].
Qed.
End Leads.

(** ** The server's half of an exchange *)

Section Exchange.
Context (a : string) (i : Z) (ks kc : nat).

#[local] Abbreviation led := (leads a i ks kc).

(** The goroutine of the connection moves to [ci']. *)
Lemma conn_moves s c ci sel ci' out :
  open_conn s a i c ci [] -> handleClient_at (srv s) ci sel = Some (put_info (srv s) ci', out) ->
  id ci' = id ci -> addr ci' = addr ci -> status ci' = status ci ->
  let s' := put_srv s (put_info (srv s) ci') ((fun m => (a, m)) <$> out) in
  led s [SClient i sel] s' /\ open_conn s' a i c ci' [].
Proof.
  intros [] Hh E1 E2 E3 s'. destruct oc_addr0 as [Ha Hid]. split.
  - apply leads_srv; [|simpl; apply Z.eqb_refl]. cbn [step srv_step]. unfold handleClient.
    rewrite oc_info0. cbn [mbind option_bind]. by rewrite Hh, Ha.
  - split; simpl; try done; try congruence; [|split; congruence]. rewrite E1, Hid. apply lookup_insert_eq.
Qed.

(** A packet goes through [receiver] and [handle] to the goroutine of its connection. *)
Lemma packet_arrives s c ci k m :
  open_conn s a i c ci [] -> incoming ci = [] -> to_srv s !! k = Some (a, m) -> (ks <= k)%nat ->
  MType m = MsgData -> ConnID m = i ->
  exists s', led s [SReceive k None; SHandle CasePacket; SHandle CasePacket] s' /\
    open_conn s' a i c (set_incoming ci [m]) [].
Proof.
  intros [] Hin Hk Hks Ht Hcid. destruct oc_addr0 as [Ha Hid], oc_srun0 as [Hrun Hsock].
  set (s1 := put_srv s (set_sincoming (srv s) [(m, a)]) []).
  set (s2 := put_srv s1 (set_hpc (set_sincoming (srv s1) []) (HIncoming i m)) []).
  set (s3 := put_srv s2 (set_hpc (put_info (srv s2) (set_incoming ci [m])) HSelect) []).
  assert (led s [SReceive k None] s1) as H1.
  { apply leads_srv; [|simpl; by apply Nat.leb_le]. cbn [step srv_step cut_msg]. rewrite Hk, Hsock.
    unfold receiver. by rewrite Hrun, oc_sin0. }
  assert (led s1 [SHandle CasePacket] s2) as H2.
  { apply leads_srv; [|done]. cbn [step srv_step]. unfold handle.
    assert (hpc (srv s1) = HSelect) as -> by done. unfold on_packet. simpl.
    rewrite Ht, Hcid. simpl. by rewrite bool_decide_eq_true_2. }
  assert (led s2 [SHandle CasePacket] s3) as H3.
  { apply leads_srv; [|done]. cbn [step srv_step]. unfold handle. simpl. rewrite oc_info0. simpl.
    by rewrite Hin. }
  exists s3. split.
  - eapply (leads_app _ _ _ _ _ [_]); [done|]. by eapply (leads_app _ _ _ _ _ [_]).
  - split; simpl; try done. rewrite Hid. apply lookup_insert_eq.
Qed.

(** The delivery loop: everything deliverable goes to the application, and the
    acknowledgement is written. *)
Lemma drains n : forall s c ci j sq,
  size (rbuffer (win ci)) = n ->
  open_conn s a i c ci [] -> pc ci = AtDrain j sq -> (kc <= length (to_cli s))%nat ->
  exists evs s' ci' k, led s evs s' /\ open_conn s' a i c ci' [] /\ pc ci' = AtLoop /\
    incoming ci' = incoming ci /\ to_cli s' !! k = Some (a, NewAck i sq) /\ (kc <= k)%nat /\
    (length evs + 2 * size (rbuffer (win ci')) <= 1 + 2 * n)%nat.
Proof.
  induction n as [n IH] using lt_wf_ind; intros s c ci j sq Hn Ho Hpc Hkc.
  pose proof (oc_addr _ _ _ _ _ _ Ho) as [Ha Hid]. pose proof (oc_rmsg _ _ _ _ _ _ Ho) as Hrm.
  destruct (drain_one (win ci) j) as [[data w]|] eqn:E.
  - set (ci1 := set_pc (set_win ci w) (AtDrain (int64 (j + 1)) sq)).
    set (s1 := put_srv s (put_info (set_rmsg (srv s) [(i, data)]) ci1) []).
    set (s2 := put_sread (put_srv s1 (set_rmsg (srv s1) []) []) i (sread s1 !!! i ++ [data])).
    assert (led s [SClient i CaseIncoming] s1) as H1.
    { apply leads_srv; [|simpl; apply Z.eqb_refl]. cbn [step srv_step]. unfold handleClient.
      rewrite (oc_info _ _ _ _ _ _ Ho). cbn [mbind option_bind]. unfold handleClient_at.
      rewrite Hpc, E, Hrm, Hid. done. }
    assert (led s1 [SRead] s2) as H2 by (split; try done; [apply Forall_singleton|apply prefix_app_r]; done).
    assert (open_conn s2 a i c ci1 []) as Ho2.
    { destruct Ho. split; simpl; try done. rewrite Hid. apply lookup_insert_eq. }
    assert (size (rbuffer w) < n)%nat as Hlt.
    { unfold drain_one in E. destruct (rbuffer (win ci) !! j) as [d|] eqn:Ej; [|done].
      injection E as _ <-. simpl. rewrite <- Hn, map_size_delete_Some by eauto.
      destruct (size (rbuffer (win ci))) eqn:Es; [|lia].
      apply map_size_empty_inv in Es. rewrite Es in Ej. done. }
    destruct (IH _ Hlt s2 c ci1 (int64 (j + 1)) sq) as (evs & s' & ci' & k & H3 & Ho' & Hpc' & Hin' & Hk & Hkc' & Hl);
      [done..| |].
    { simpl. rewrite !length_app. lia. }
    exists ([SClient i CaseIncoming] ++ [SRead] ++ evs), s', ci', k. split_and!; try done.
    + eapply leads_app; [done|]. by eapply leads_app.
    + rewrite !length_app. simpl. lia.
  - set (ci1 := set_pc ci AtLoop).
    destruct (conn_moves s c ci CaseIncoming ci1 [NewAck i sq] Ho) as [H1 Ho1]; try done.
    { unfold handleClient_at. rewrite Hpc, E, Hid. done. }
    eexists [_], _, ci1, (length (to_cli s)). split_and!; try done.
    + simpl. by rewrite lookup_app_r, Nat.sub_diag by done.
    + simpl. lia.
Qed.

(** The goroutine takes the message and acknowledges it. *)
Lemma data_taken s c ci m :
  open_conn s a i c (set_incoming ci [m]) [] -> pc ci = AtLoop -> status ci = notClosing ->
  MType m = MsgData -> is_short m = false -> (kc <= length (to_cli s))%nat ->
  exists evs s' ci' k, led s evs s' /\ open_conn s' a i c ci' [] /\ pc ci' = AtLoop /\
    incoming ci' = [] /\ to_cli s' !! k = Some (a, NewAck i (SeqNum m)) /\ (kc <= k)%nat /\
    (length evs + 2 * size (rbuffer (win ci')) <= 4 + 2 * size (rbuffer (win ci)))%nat.
Proof.
  intros Ho Hpc Hst Ht Hsh Hkc. pose proof (oc_addr _ _ _ _ _ _ Ho) as [Ha Hid]. simpl in Ha, Hid.
  set (ci0 := set_win (set_epochCount (set_incoming ci []) 0) (store (win ci) m)).
  assert (size (rbuffer (win ci0)) <= 1 + size (rbuffer (win ci)))%nat as Hsize.
  { simpl. unfold store. destruct (rbuffer (win ci) !! SeqNum m) eqn:E; simpl; [lia|].
    rewrite map_size_insert_None by done. lia. }
  set (ci1 := if SeqNum m =? rsq (win ci) then set_pc ci0 (AtDrain (rsq (win ci)) (SeqNum m)) else ci0).
  set (out := if SeqNum m =? rsq (win ci) then [] else [NewAck i (SeqNum m)]).
  assert (id ci1 = i /\ addr ci1 = a /\ status ci1 = status ci /\ incoming ci1 = [] /\
    win ci1 = win ci0) as (I1 & I2 & I3 & I4 & I5) by (unfold ci1; by case_match).
  assert (handleClient_at (srv s) (set_incoming ci [m]) CaseIncoming =
    Some (put_info (srv s) ci1, out)) as Hh.
  { unfold handleClient_at. simpl. rewrite Hpc, Hst. simpl. unfold on_incoming.
    rewrite Ht, Hsh. simpl. rewrite store_rsq. unfold ci1, out, ci0.
    destruct (SeqNum m =? rsq (win ci)); [done|]. by rewrite Hid. }
  destruct (conn_moves s c _ CaseIncoming ci1 out Ho Hh) as [H1 Ho1]; [simpl; congruence..|].
  destruct (SeqNum m =? rsq (win ci)) eqn:E.
  - destruct (drains _ _ c ci1 (rsq (win ci)) (SeqNum m) eq_refl Ho1)
      as (evs & s' & ci' & k & H2 & Ho' & Hpc' & Hin' & Hk & Hkc' & Hl); [done|simpl; rewrite length_app; lia|].
    exists ([SClient i CaseIncoming] ++ evs), s', ci', k. split_and!; try done.
    + by eapply leads_app.
    + rewrite length_app. simpl in *. lia.
  - eexists [_], _, ci1, (length (to_cli s)). split_and!; try done.
    + simpl. by rewrite lookup_app_r, Nat.sub_diag by done.
    + simpl in *. lia.
Qed.

(** ** The client's half *)

Lemma ack_taken s c ci k sq v :
  open_conn s a i c ci [] -> to_cli s !! k = Some (a, NewAck i sq) -> (kc <= k)%nat ->
  tbuffer (LspClient.win c) !! sq = Some v ->
  let c' := LspClient.set_win (LspClient.set_epochCount (LspClient.set_incoming c []) 0)
              (ack (LspClient.win c) sq) in
  exists s', led s [EReceive a k None; EHandler a LspClient.CaseIncoming] s' /\
    open_conn s' a i c' ci [].
Proof.
  intros Ho Hk Hkc Hv c'. destruct Ho. destruct oc_id0 as [Hid Hi], oc_run0 as [Hrun Hsock].
  set (c1 := LspClient.set_incoming c [NewAck i sq]).
  set (s1 := put_end s a c1 (written s !!! a) (cread s !!! a) []).
  set (s2 := put_end s1 a c' (written s1 !!! a) (cread s1 !!! a) []).
  assert (led s [EReceive a k None] s1) as H1.
  { apply leads_end; [|simpl; by rewrite String.eqb_refl, (proj2 (Nat.leb_le _ _) Hkc)].
    cbn [step]. rewrite oc_end0. cbn [mbind option_bind end_step cut_msg].
    rewrite Hk, Hsock, String.eqb_refl. unfold LspClient.receiver. by rewrite Hrun, oc_in0. }
  assert (led s1 [EHandler a LspClient.CaseIncoming] s2) as H2.
  { apply leads_end; [|simpl; apply String.eqb_refl]. cbn [step]. simpl ends. rewrite lookup_insert_eq.
    cbn [mbind option_bind end_step]. unfold LspClient.handler. simpl. rewrite oc_pc0, oc_open0. simpl.
    unfold LspClient.on_incoming. simpl. rewrite Hv.
    assert ((MType v =? MsgConnect) && (LspClient.id c <? 0) = false) as ->; [|done].
    apply andb_false_intro2, Z.ltb_ge. lia. }
  exists s2. split; [by eapply (leads_app _ _ _ _ _ [_])|].
  split; simpl; try done. apply lookup_insert_eq.
Qed.

(** ** A round trip *)

(** The client after the acknowledgement of [sq]. *)
Definition acked_end (c : LspClient.client) (sq : Z) : LspClient.client :=
  LspClient.set_win (LspClient.set_epochCount (LspClient.set_incoming c []) 0) (ack (LspClient.win c) sq).

Lemma exchange s c ci k m v :
  calm s a i c ci -> to_srv s !! k = Some (a, m) -> (ks <= k)%nat -> (kc <= length (to_cli s))%nat ->
  MType m = MsgData -> ConnID m = i -> is_short m = false ->
  tbuffer (LspClient.win c) !! SeqNum m = Some v ->
  exists evs s' ci', led s evs s' /\ calm s' a i (acked_end c (SeqNum m)) ci' /\
    (length evs + 2 * size (rbuffer (win ci')) <= 9 + 2 * size (rbuffer (win ci)))%nat.
Proof.
  intros [Ho Hpc Hin] Hk Hks Hkc Ht Hid Hsh Hv.
  destruct (packet_arrives s c ci k m Ho Hin Hk Hks Ht Hid) as (s1 & H1 & Ho1).
  assert (kc <= length (to_cli s1))%nat as Hkc1.
  { destruct (ld_cli _ _ _ _ _ _ _ H1) as [l ->]. rewrite length_app. lia. }
  destruct (data_taken s1 c ci m Ho1 Hpc (oc_iopen _ _ _ _ _ _ Ho) Ht Hsh Hkc1)
    as (evs & s2 & ci' & k' & H2 & Ho2 & Hpc' & Hin' & Hk' & Hkc' & Hl).
  destruct (ack_taken s2 c ci' k' (SeqNum m) v Ho2 Hk' Hkc' Hv) as (s3 & H3 & Ho3).
  eexists _, s3, ci'. split_and!; [|by split|].
  - eapply leads_app; [exact H1|]. eapply leads_app; [exact H2|exact H3].
  - rewrite !length_app. simpl. lia.
Qed.

(** ** Rounds *)

(** A data message of the connection, numbered [q]. *)
Record own_data (q : Z) (m : Message) : Prop := {
  od_type : MType m = MsgData;
  od_id : ConnID m = i;
  od_long : is_short m = false;
  od_num : SeqNum m = q
}.

(** Everything unacknowledged was written since. *)
Definition outstanding (s : sys) (c : LspClient.client) : Prop :=
  forall q m, tbuffer (LspClient.win c) !! q = Some m ->
    own_data q m /\ exists k, (ks <= k)%nat /\ to_srv s !! k = Some (a, m).

Lemma cli_length s evs s' : led s evs s' -> (kc <= length (to_cli s))%nat -> (kc <= length (to_cli s'))%nat.
Proof. intros H Hk. destruct (ld_cli _ _ _ _ _ _ _ H) as [l ->]. rewrite length_app. lia. Qed.

Lemma srv_length s evs s' : led s evs s' -> (ks <= length (to_srv s))%nat -> (ks <= length (to_srv s'))%nat.
Proof. intros H Hk. destruct (ld_srv _ _ _ _ _ _ _ H) as [l ->]. rewrite length_app. lia. Qed.

(** One exchange for each unacknowledged message. *)
Lemma clears n : forall s c ci,
  size (tbuffer (LspClient.win c)) = n -> calm s a i c ci -> outstanding s c ->
  (kc <= length (to_cli s))%nat ->
  exists evs s' c' ci', led s evs s' /\ calm s' a i c' ci' /\
    LspClient.win c' = set_tbuffer (LspClient.win c) ∅ /\
    (length evs + 2 * size (rbuffer (win ci')) <= 9 * n + 2 * size (rbuffer (win ci)))%nat.
Proof.
  induction n as [|n IH]; intros s c ci Hn Hcalm Hout Hkc.
  { apply map_size_empty_inv in Hn. exists [], s, c, ci.
    split_and!; [apply leads_nil|done| |simpl; lia]. rewrite <- Hn. by destruct (LspClient.win c). }
  destruct (map_choose (tbuffer (LspClient.win c))) as (q & m & Hq).
  { intros E. rewrite E, map_size_empty in Hn. lia. }
  destruct (Hout _ _ Hq) as ([Ht Hid Hsh Hsq] & k & Hks & Hk).
  destruct (exchange s c ci k m m) as (evs & s1 & ci1 & H1 & Hc1 & Hl1); try done; [by rewrite Hsq|].
  rewrite Hsq in Hc1.
  destruct (IH s1 (acked_end c q) ci1) as (evs' & s2 & c2 & ci2 & H2 & Hc2 & Hw & Hl2); [|done| |by eapply cli_length|].
  - simpl. rewrite map_size_delete_Some by eauto. lia.
  - intros q' m'. simpl. intros [_ Hq']%lookup_delete_Some.
    destruct (Hout _ _ Hq') as (Ho & k' & Hks' & Hk'). split; [done|]. exists k'. split; [done|].
    eapply prefix_lookup_Some; [done|apply H1].
  - exists (evs ++ evs'), s2, c2, ci2. split_and!; [by eapply leads_app|done| |].
    + rewrite Hw. done.
    + rewrite length_app. lia.
Qed.

Lemma min_unacked_empty w : tbuffer w = ∅ -> min_unacked w = tsq w.
Proof. intros E. unfold min_unacked. by rewrite E, map_fold_empty. Qed.

(** A message leaves when nothing is unacknowledged. *)
Lemma sends s c ci m q :
  calm s a i c ci -> tbuffer (LspClient.win c) = ∅ -> tmsg (LspClient.win c) = m :: q ->
  1 <= windows (LspClient.win c) ->
  let w := LspClient.win c in
  let m' := set_SeqNum m (tsq w) in
  let c' := LspClient.set_win c (mkWindow {[tsq w := m']} q (int64 (tsq w + 1)) (rbuffer w) (rsq w) (windows w)) in
  let s' := put_end s a c' (written s !!! a) (cread s !!! a) [m'] in
  led s [EHandler a LspClient.CaseDefault] s' /\ calm s' a i c' ci.
Proof.
  intros [Ho Hpc Hin] Hb Hq Hwin w m' c' s'. pose proof Ho as [].
  assert (transmit w = (LspClient.win c', [m'])) as Htr.
  { unfold transmit. rewrite min_unacked_empty by done. rewrite Z.sub_diag.
    replace (int64 0 <? windows w) with true by (symmetry; apply Z.ltb_lt; unfold w; rewrite int64_id; [lia|split; done]).
    unfold w in *. rewrite Hq, Hb. done. }
  split.
  - apply leads_end; [|simpl; apply String.eqb_refl]. cbn [step]. rewrite oc_end0.
    cbn [mbind option_bind end_step]. unfold LspClient.handler. rewrite oc_pc0, oc_open0, oc_in0. simpl andb.
    cbv iota. unfold LspClient.on_default. fold w. by rewrite Htr.
  - split; try done. split; simpl; try done. apply lookup_insert_eq.
Qed.

(** One exchange for each waiting message. *)
Lemma flushes l : forall s c ci,
  tmsg (LspClient.win c) = l -> tbuffer (LspClient.win c) = ∅ -> calm s a i c ci ->
  Forall (fun m => MType m = MsgData /\ ConnID m = i /\ is_short m = false) l ->
  1 <= windows (LspClient.win c) -> (kc <= length (to_cli s))%nat -> (ks <= length (to_srv s))%nat ->
  exists evs s' c' ci', led s evs s' /\ calm s' a i c' ci' /\
    tbuffer (LspClient.win c') = ∅ /\ tmsg (LspClient.win c') = [] /\
    (length evs + 2 * size (rbuffer (win ci')) <= 10 * length l + 2 * size (rbuffer (win ci)))%nat.
Proof.
  induction l as [|m l IH]; intros s c ci Hq Hb Hcalm Hl Hwin Hkc Hks.
  { exists [], s, c, ci. split_and!; [apply leads_nil|done..|simpl; lia]. }
  apply Forall_cons in Hl as [(Ht & Hid & Hsh) Hl'].
  destruct (sends s c ci m l Hcalm Hb Hq Hwin) as [H1 Hc1].
  set (m' := set_SeqNum m (tsq (LspClient.win c))) in *.
  match type of H1 with leads _ _ _ _ _ _ ?x => set (s1 := x) in * end.
  match type of Hc1 with calm _ _ _ ?x _ => set (c1 := x) in * end.
  destruct (clears 1 s1 c1 ci) as (evs & s2 & c2 & ci2 & H2 & Hc2 & Hw2 & Hl2); [|done| |by eapply cli_length|].
  - simpl. apply map_size_singleton.
  - intros q x. simpl. intros [<- <-]%lookup_singleton_Some. split; [done|].
    exists (length (to_srv s)). split; [done|]. simpl. by rewrite lookup_app_r, Nat.sub_diag by done.
  - assert (led s ([EHandler a LspClient.CaseDefault] ++ evs) s2) as H12 by (by eapply leads_app).
    destruct (IH s2 c2 ci2) as (evs' & s3 & c3 & ci3 & H3 & Hc3 & Hb3 & Hq3 & Hl3);
      [by rewrite Hw2|by rewrite Hw2|done|done|by rewrite Hw2|by eapply cli_length|by eapply srv_length|].
    exists (([EHandler a LspClient.CaseDefault] ++ evs) ++ evs'), s3, c3, ci3. split_and!; try done.
    + by eapply leads_app.
    + rewrite !length_app. simpl. lia.
Qed.

(** A tick that is not the last one writes everything unacknowledged again. *)
Lemma ticks s c ci :
  calm s a i c ci -> (int64 (LspClient.epochCount c + 1) =? LspClient.retries c) = false ->
  (ks <= length (to_srv s))%nat ->
  (forall q m, tbuffer (LspClient.win c) !! q = Some m -> own_data q m) ->
  exists s', led s [EHandler a LspClient.CaseTimer] s' /\
    let c' := LspClient.set_epochCount c (int64 (LspClient.epochCount c + 1)) in
    calm s' a i c' ci /\ outstanding s' c'.
Proof.
  intros [Ho Hpc Hin] Hret Hks Hown. pose proof Ho as [].
  destruct (LspClient.on_timer c) as [[c' out]|] eqn:E.
  2: { unfold LspClient.on_timer in E. simpl in E. by rewrite Hret in E. }
  assert (c' = LspClient.set_epochCount c (int64 (LspClient.epochCount c + 1)) /\
    forall m, m ∈ unacked (LspClient.win c) -> m ∈ out) as [-> Hout].
  { unfold LspClient.on_timer in E. simpl in E. rewrite Hret in E. injection E as <- <-. split; [done|].
    intros m Hm. apply elem_of_app. by right. }
  exists (put_end s a (LspClient.set_epochCount c (int64 (LspClient.epochCount c + 1)))
    (written s !!! a) (cread s !!! a) out). cbv zeta. split_and!.
  - apply leads_end; [|simpl; apply String.eqb_refl]. cbn [step]. rewrite oc_end0.
    cbn [mbind option_bind end_step]. unfold LspClient.handler. rewrite oc_pc0, oc_open0. simpl andb.
    cbv iota. by rewrite E.
  - split; try done. split; simpl; try done. apply lookup_insert_eq.
  - intros q m Hq. split; [by apply Hown|].
    assert ((a, m) ∈ (fun m => (a, m)) <$> out) as Hm.
    { apply list_elem_of_fmap. exists m. split; [done|]. apply Hout. unfold unacked.
      apply list_elem_of_fmap. exists (q, m). split; [done|]. by apply elem_of_map_to_list. }
    apply list_elem_of_lookup_1 in Hm as [j Hj]. exists (length (to_srv s) + j)%nat.
    split; [lia|]. simpl. rewrite lookup_app_r by lia. by replace (length (to_srv s) + j - length (to_srv s))%nat with j by lia.
Qed.
End Exchange.

(** ** Everything arrives *)

Section Arrives.
Context (n : nat) (s : sys) (Hn : Z.of_nat n < 2 ^ 57) (Hv : sys_inv None n s) (Hd : all_data s).
Context (a : string) (i : Z) (c : LspClient.client) (ci : clientInfo) (Ho : open_conn s a i c ci []).

#[local] Abbreviation w := (LspClient.win c).

Lemma calm_tbuffer q m : tbuffer w !! q = Some m -> own_data i q m.
Proof using Hv Hd Ho.
  intros Hq. destruct (oc_id _ _ _ _ _ _ Ho) as [Hid Hi].
  destruct (v_ends _ _ _ Hv _ _ (oc_end _ _ _ _ _ _ Ho)) as [Hc _ _ _].
  destruct (si_buf _ _ (cn_send _ _ _ _ _ _ _ Hc) _ _ Hq) as (Hsq & _ & Hsent & _).
  destruct (Hd _ _ (oc_end _ _ _ _ _ _ Ho) _ _ Hq) as [[_ ?]|[_ Ht]]; [lia|].
  destruct (Hsent Ht) as [Hs _]. split; try done.
  - rewrite <- Hid. by eapply (cn_own _ _ _ _ _ _ _ Hc).
  - unfold is_short. rewrite Hs. apply Z.ltb_irrefl.
Qed.

Lemma calm_tmsg : Forall (fun m => MType m = MsgData /\ ConnID m = i /\ is_short m = false) (tmsg w).
Proof using Hv Ho.
  destruct (oc_id _ _ _ _ _ _ Ho) as [Hid _].
  destruct (v_ends _ _ _ Hv _ _ (oc_end _ _ _ _ _ _ Ho)) as [Hc _ _ _].
  pose proof (si_fresh _ _ (cn_send _ _ _ _ _ _ _ Hc)) as Hf.
  destruct (cn_own _ _ _ _ _ _ _ Hc) as [Hw _]. rewrite Forall_forall in Hf, Hw |- *.
  intros m Hm. destruct (Hf _ Hm) as [Ht Hs]. split_and!; [done|by rewrite <- Hid, (Hw _ Hm)|].
  unfold is_short. rewrite Hs. apply Z.ltb_irrefl.
Qed.

(** What the two windows hold is bounded by what was written. *)
Lemma calm_sizes :
  Z.of_nat (size (tbuffer w) + length (tmsg w) + size (rbuffer (win ci))) <= 3 * Z.of_nat n + 1.
Proof using Hv Ho.
  clear Hn Hd. destruct (v_ends _ _ _ Hv _ _ (oc_end _ _ _ _ _ _ Ho)) as [Hc _ _ _].
  pose proof (cn_send _ _ _ _ _ _ _ Hc) as [Ht Hq _ Hb]. pose proof (v_written _ _ _ Hv a) as Hl.
  apply (f_equal length) in Hq. rewrite length_drop, length_fmap in Hq.
  assert (Z.of_nat (size (tbuffer w)) <= Z.max 0 (tsq w - 0)).
  { apply map_size_range. intros k m Hk. destruct (Hb _ _ Hk) as (_ & ? & _). lia. }
  destruct (v_infos _ _ _ Hv _ _ (oc_info _ _ _ _ _ _ Ho)) as (_ & _ & Hci).
  destruct (oc_addr _ _ _ _ _ _ Ho) as [Ha _]. rewrite Ha in Hci.
  assert (Z.of_nat (size (rbuffer (win ci))) <= Z.max 0 (Z.of_nat (length (written s !!! a)) + 1 - 1)).
  { apply map_size_range. intros k x Hk.
    apply (ri_buf _ _ _ (cn_recv _ _ _ _ _ _ _ Hci)), srv_peer_source, stream_at_Some in Hk. lia. }
  lia.
Qed.

(** At the end the server's application has everything. *)
Lemma calm_delivered : tbuffer w = ∅ -> tmsg w = [] -> pc ci = AtLoop -> sread s !!! i = written s !!! a.
Proof using Hv Ho.
  intros Hb Hq Hpc. pose proof (oc_info _ _ _ _ _ _ Ho) as Hi.
  destruct (oc_addr _ _ _ _ _ _ Ho) as [Ha _].
  destruct (v_infos _ _ _ Hv _ _ Hi) as (_ & _ & Hci). rewrite Ha in Hci.
  pose proof (delivered_prefix _ _ _ Hv _ _ Hi) as Hp. rewrite Ha in Hp.
  rewrite (oc_rmsg _ _ _ _ _ _ Ho) in Hci, Hp. simpl in Hci, Hp. rewrite app_nil_r in Hci, Hp.
  destruct (decide (written s !!! a = [])) as [E|Hne].
  { rewrite E in Hp |- *. by apply prefix_nil_inv in Hp. }
  destruct (client_sent_all _ _ _ Hv _ _ (oc_end _ _ _ _ _ _ Ho) Hb Hq Hne) as (ci' & [Hi' _] & Hall).
  destruct (oc_id _ _ _ _ _ _ Ho) as [Hid _]. rewrite Hid in Hi'.
  assert (ci' = ci) as -> by congruence.
  eapply all_received; [|by apply Hci; rewrite Hpc|done].
  eapply recv_inv_mono; [|apply Hci]. intros k q. apply srv_peer_source.
Qed.
End Arrives.

(** C7: the protocol makes progress.  From every reachable calm state (both ends run,
    nobody closes, and nothing waits between the goroutines of an end) whose next
    tick is not the client's last, everything the client's application has written can
    still reach the server's application and be acknowledged, even if every packet
    written so far is lost: there is a schedule of the goroutines of this connection
    and of deliveries of packets written from now on that does it, and its length is
    at most ten moves for each message in the two windows and in the queue, and the
    tick. *)
Theorem client_data_arrives p evs s a i c ci :
  Z.of_nat (length evs) < 2 ^ 57 -> exec step (init p) evs = Some s ->
  calm s a i c ci -> 1 <= windows (LspClient.win c) ->
  (int64 (LspClient.epochCount c + 1) =? LspClient.retries c) = false ->
  exists evs' s' c',
    leads a i (length (to_srv s)) (length (to_cli s)) s evs' s' /\
    ends s' !! a = Some c' /\ tbuffer (LspClient.win c') = ∅ /\ tmsg (LspClient.win c') = [] /\
    sread s' !!! i = written s !!! a /\
    (length evs' <= 1 + 10 * (size (tbuffer (LspClient.win c)) + length (tmsg (LspClient.win c)) +
                              size (rbuffer (win ci))))%nat.
Proof.
  intros Hlen Hrun Hcalm Hwin Hret. set (ks := length (to_srv s)). set (kc := length (to_cli s)).
  pose proof (run_inv p evs s ltac:(lia) Hrun) as Hv. pose proof (run_all_data p evs s ltac:(lia) Hrun) as Hd.
  pose proof (ca_conn _ _ _ _ _ Hcalm) as Ho. pose proof (calm_sizes _ _ Hv _ _ _ _ Ho) as Hsz.
  destruct (ticks a i ks kc s c ci Hcalm Hret (le_n _) (calm_tbuffer _ _ Hv Hd _ _ _ _ Ho))
    as (s1 & H1 & Hc1 & Hout).
  destruct (clears a i ks kc _ s1 _ ci eq_refl Hc1 Hout) as (evs2 & s2 & c2 & ci2 & H2 & Hc2 & Hw2 & Hl2);
    [by eapply cli_length|].
  simpl in Hw2. assert (kc <= length (to_cli s2))%nat as Hkc2 by (eapply cli_length; [done|by eapply cli_length]).
  assert (ks <= length (to_srv s2))%nat as Hks2 by (eapply srv_length; [done|by eapply srv_length]).
  destruct (flushes a i ks kc (tmsg (LspClient.win c)) s2 c2 ci2)
    as (evs3 & s3 & c3 & ci3 & H3 & Hc3 & Hb3 & Hq3 & Hl3);
    [by rewrite Hw2|by rewrite Hw2|done|by eapply calm_tmsg|by rewrite Hw2|done|done|].
  assert (leads a i ks kc s ([EHandler a LspClient.CaseTimer] ++ evs2 ++ evs3) s3) as H.
  { eapply leads_app; [done|]. by eapply leads_app. }
  eexists _, s3, c3. split; [exact H|]. split_and!; [apply Hc3|done|done| |].
  - rewrite <- (ld_written _ _ _ _ _ _ _ H).
    assert (Z.of_nat (length evs + length ([EHandler a LspClient.CaseTimer] ++ evs2 ++ evs3)) < 2 ^ 62) as Hlen'.
    { rewrite !length_app. simpl in *. lia. }
    destruct (exec_inv _ _ _ _ Hlen' Hv (ld_exec _ _ _ _ _ _ _ H)) as [Hv3 _].
    eapply calm_delivered; [done|apply Hc3|done|done|apply Hc3].
  - rewrite !length_app. simpl in *. lia.
Qed.

(** ** Witness: two messages were written, the packet of the first is lost *)

Definition demo_lost : list event :=
  demo_connect ++ [EWrite "c1" "hello"; EWrite "c1" "world"; EHandler "c1" LspClient.CaseDefault].

Lemma client_data_arrives_witness :
  let s := run step (init demo_params) demo_lost in
  exists evs' s', exec step s evs' = Some s' /\ (length evs' <= 21)%nat /\
    sread s' !!! 73 = ["hello"%string; "world"%string].
Proof.
  intros s.
  destruct (ends s !! "c1"%string) as [c|] eqn:Ec; [|vm_compute in Ec; discriminate Ec].
  destruct (infos (srv s) !! 73) as [ci|] eqn:Ei; [|vm_compute in Ei; discriminate Ei].
  pose proof Ec as Ec'. pose proof Ei as Ei'. vm_compute in Ec', Ei'.
  injection Ec' as Ec'. injection Ei' as Ei'.
  destruct (client_data_arrives demo_params demo_lost s "c1" 73 c ci) as (evs' & s' & c' & [H1 _ _ _ _] & _ & _ & _ & H2 & H3).
  - vm_refl.
  - exact (exec_run step (init demo_params) demo_lost ltac:(vm_refl)).
  - subst c ci. split; [split|..]; solve [assumption | vm_refl | (split; vm_compute; (reflexivity || discriminate))
      | (apply bool_decide_eq_true_1; vm_refl)].
  - subst c. vm_compute. discriminate.
  - subst c. vm_refl.
  - exists evs', s'. split; [exact H1|]. split; [subst c ci; exact H3|]. rewrite H2. vm_refl.
Defined.
