(* ===== verification/LspFailures.v ===== *)
(** Failure handling of LSP: the epoch limit on both ends, and the situations in
    which the calls of the application do not end as their comments say. *)
From S2P Require Import Prelude GoText LspMessage LspWindow LspClient LspServer LspSystem.
From S2P Require Import LspDelivery.

(** ** The epoch limit of the client *)

(** A tick: the timer branch of the handler, its packets aside. *)
Definition client_tick (c : LspClient.client) (_ : unit) : option LspClient.client :=
  fst <$> LspClient.handler c LspClient.CaseTimer.

Definition client_lost (c : LspClient.client) : LspClient.client :=
  LspClient.set_pc (LspClient.set_status
    (LspClient.set_err (LspClient.set_epochCount c (LspClient.retries c))
       [LspClient.lost_error c]) handlerClosed) LspClient.Returned.

Record client_waiting (c : LspClient.client) : Prop := {
  cw_loop : LspClient.pc c = LspClient.AtLoop;
  cw_open : bool_decide (LspClient.status c = startClosing) && flushed (LspClient.win c) = false;
  cw_err : LspClient.err c = [];
  cw_epoch : 0 <= LspClient.epochCount c < LspClient.retries c;
  cw_range : int64_ok (LspClient.retries c)
}.

Lemma client_tick_next c :
  client_waiting c -> LspClient.epochCount c + 1 < LspClient.retries c ->
  exists reminder,
    LspClient.handler c LspClient.CaseTimer =
      Some (LspClient.set_epochCount c (LspClient.epochCount c + 1),
            reminder ++ unacked (LspClient.win c)) /\
    (LspClient.id c < 0 -> reminder = [NewConnect]).
Proof.
  intros [Hpc Ho He Hr Hk] Hlt. unfold LspClient.handler, LspClient.on_timer. rewrite Hpc, Ho.
  unfold int64_ok in Hk. simpl. rewrite int64_id by (unfold int64_ok; lia).
  replace (_ =? _) with false by lia. eexists. split; [done|].
  intros Hn. by rewrite (proj2 (Z.ltb_lt _ _) Hn).
Qed.

Lemma client_tick_last c :
  client_waiting c -> LspClient.epochCount c + 1 = LspClient.retries c ->
  LspClient.handler c LspClient.CaseTimer = Some (client_lost c, []).
Proof.
  intros [Hpc Ho He Hr Hk] Heq. unfold LspClient.handler, LspClient.on_timer. rewrite Hpc, Ho.
  unfold int64_ok in Hk. simpl. rewrite int64_id by (unfold int64_ok; lia).
  rewrite Heq, Z.eqb_refl. simpl. by rewrite He.
Qed.

Lemma client_waiting_epoch c n :
  client_waiting c -> 0 <= n < LspClient.retries c ->
  client_waiting (LspClient.set_epochCount c n).
Proof. intros [? ? ? ? ?] ?. by constructor. Qed.

Lemma client_ticks k : forall c,
  client_waiting c -> LspClient.epochCount c + Z.of_nat k < LspClient.retries c ->
  exec client_tick c (replicate k tt) =
    Some (LspClient.set_epochCount c (LspClient.epochCount c + Z.of_nat k)).
Proof.
  induction k as [|k IH]; intros c Hc Hlt; simpl.
  { rewrite Z.add_0_r. by destruct c. }
  destruct (client_tick_next c Hc) as (r & Hh & _); [lia|].
  unfold client_tick at 1. rewrite Hh. simpl. pose proof (cw_epoch _ Hc).
  rewrite IH; [|by apply client_waiting_epoch; [|lia]|simpl; lia]. simpl.
  do 2 f_equal. lia.
Qed.

(** C16: the epoch limit of a client.  From a state in which the handler waits with
    [epochCount] ticks on its count, every tick that comes before the limit sends
    everything unacknowledged again (and the connection request while there is no
    connection) and counts one; the tick that reaches [EpochLimit] ends the
    handler with the lost-connection error for [Read].  Any message from the
    server puts the count back to 0. *)
Theorem client_epoch_limit c :
  client_waiting c ->
  (forall k, LspClient.epochCount c + Z.of_nat k < LspClient.retries c ->
     exec client_tick c (replicate k tt) =
       Some (LspClient.set_epochCount c (LspClient.epochCount c + Z.of_nat k))) /\
  (LspClient.epochCount c + 1 < LspClient.retries c -> exists c' reminder,
     LspClient.handler c LspClient.CaseTimer = Some (c', reminder ++ unacked (LspClient.win c)) /\
     (LspClient.id c < 0 -> reminder = [NewConnect])) /\
  exec client_tick c
    (replicate (Z.to_nat (LspClient.retries c - LspClient.epochCount c)) tt)
    = Some (client_lost c) /\
  (forall m, LspClient.epochCount (LspClient.on_incoming c m).1 = 0).
Proof.
  intros Hc. pose proof (cw_epoch _ Hc) as He. split_and!.
  - intros k. by apply client_ticks.
  - intros Hlt. destruct (client_tick_next c Hc Hlt) as (r & Hh & Hr). eauto.
  - set (k := Z.to_nat (LspClient.retries c - LspClient.epochCount c - 1)).
    replace (Z.to_nat _) with (k + 1)%nat by lia.
    rewrite replicate_add, exec_app, client_ticks by (done || lia). simpl.
    unfold client_tick. rewrite client_tick_last; [done| |simpl; lia].
    apply client_waiting_epoch; [done|lia].
  - intros m. unfold LspClient.on_incoming. by repeat (case_match; simpl).
Qed.

(** ** The epoch limit of the server *)

Definition info_tick (i : Z) (s : server) (_ : unit) : option server :=
  fst <$> handleClient s i CaseTimer.

Record info_waiting (s : server) (i : Z) (c : clientInfo) : Prop := {
  iw_here : infos s !! i = Some c;
  iw_id : id c = i;
  iw_loop : pc c = AtLoop;
  iw_open : bool_decide (status c = startClosing) && flushed (win c) = false;
  iw_epoch : 0 <= epochCount c < retries c;
  iw_range : int64_ok (retries c)
}.

Lemma info_tick_step s i c :
  info_waiting s i c ->
  exists out, handleClient s i CaseTimer =
    Some (put_info s (on_timer c).1, (fun m => (addr c, m)) <$> out) /\
    (epochCount c + 1 < retries c ->
       (on_timer c).1 = set_epochCount c (epochCount c + 1) /\
       exists reminder, out = reminder ++ unacked (win c)) /\
    (epochCount c + 1 = retries c ->
       (on_timer c).1 = set_pc (set_epochCount c (retries c)) AtLostCls /\ out = []).
Proof.
  intros [Hi Hid Hpc Ho Hr Hk]. unfold int64_ok in Hk.
  unfold handleClient, handleClient_at. rewrite Hi. simpl. rewrite Hpc, Ho.
  unfold on_timer. simpl. rewrite int64_id by (unfold int64_ok; lia).
  destruct (epochCount c + 1 =? retries c) eqn:E; eexists; (split; [done|]).
  - apply Z.eqb_eq in E. split; [lia|]. by rewrite E.
  - apply Z.eqb_neq in E. split; [|lia]. split; [done|]. by eexists.
Qed.

Lemma info_waiting_put s i c n :
  info_waiting s i c -> 0 <= n < retries c ->
  info_waiting (put_info s (set_epochCount c n)) i (set_epochCount c n).
Proof.
  intros [Hi Hid ? ? ? ?] ?. constructor; try done. simpl. rewrite Hid. apply lookup_insert_eq.
Qed.

Lemma put_info_twice s c c' : id c' = id c -> put_info (put_info s c) c' = put_info s c'.
Proof.
  intros E. unfold put_info, set_infos. simpl. by rewrite E, insert_insert_eq.
Qed.

Lemma put_info_id s c : infos s !! id c = Some c -> put_info s c = s.
Proof. intros H. unfold put_info, set_infos. rewrite insert_id by done. by destruct s. Qed.

Lemma info_ticks i k : forall s c,
  info_waiting s i c -> epochCount c + Z.of_nat k < retries c ->
  exec (info_tick i) s (replicate k tt) =
    Some (put_info s (set_epochCount c (epochCount c + Z.of_nat k))).
Proof.
  induction k as [|k IH]; intros s c Hc Hlt; simpl.
  { rewrite Z.add_0_r. destruct Hc as [Hi <- _ _ _ _]. destruct c. by rewrite put_info_id. }
  destruct (info_tick_step _ _ _ Hc) as (o & Hh & Hn & _). destruct Hn as [En _]; [lia|].
  unfold info_tick at 1. rewrite Hh, En. simpl. pose proof (iw_epoch _ _ _ Hc).
  rewrite (IH _ (set_epochCount c (epochCount c + 1)));
    [|by apply info_waiting_put; [|lia]|simpl; lia].
  rewrite put_info_twice by done. simpl. do 3 f_equal. lia.
Qed.

(** C17: the epoch limit of a connection of the server.  [EpochLimit] silent ticks
    in a row, no fewer, end its goroutine: it asks [handle] to drop the
    connection, then gives [Read] the lost-connection error with the connection's
    identifier, and stops. *)
Theorem server_epoch_limit s i c :
  info_waiting s i c -> Z.of_nat (length (cls s)) < cls_cap ->
  Z.of_nat (length (err s)) < err_cap ->
  (forall k, epochCount c + Z.of_nat k < retries c ->
     exec (info_tick i) s (replicate k tt) =
       Some (put_info s (set_epochCount c (epochCount c + Z.of_nat k)))) /\
  exists s', exec (info_tick i) s (replicate (Z.to_nat (retries c - epochCount c) + 2) tt) = Some s' /\
    cls s' = cls s ++ [i] /\ err s' = err s ++ [(i, lost_error i)] /\
    infos s' !! i =
      Some (set_pc (set_status (set_epochCount c (retries c)) handlerClosed) Returned) /\
    (forall sel, handleClient s' i sel = None).
Proof.
  intros Hc Hcls Herr. pose proof (iw_epoch _ _ _ Hc) as He.
  split; [intros k; by apply info_ticks|].
  set (k := Z.to_nat (retries c - epochCount c - 1)).
  replace (Z.to_nat (retries c - epochCount c) + 2)%nat with (k + 3)%nat by lia.
  rewrite replicate_add, exec_app, (info_ticks i k s c) by (done || lia). cbn [mbind option_bind].
  set (n := epochCount c + Z.of_nat k).
  assert (info_waiting (put_info s (set_epochCount c n)) i (set_epochCount c n)) as Hc1
    by (apply info_waiting_put; [done|lia]).
  destruct (info_tick_step _ _ _ Hc1) as (o & Hh & _ & Hl). destruct Hl as [El ->]; [simpl; lia|].
  simpl. unfold info_tick at 1. rewrite Hh, El. simpl. rewrite put_info_twice by done.
  pose proof (iw_id _ _ _ Hc) as Hid.
  unfold info_tick, handleClient, handleClient_at, push_cls, send.
  simpl. rewrite Hid, lookup_insert_eq. simpl.
  rewrite (proj2 (Z.ltb_lt _ _) Hcls). simpl. rewrite Hid, lookup_insert_eq. simpl.
  rewrite (proj2 (Z.ltb_lt _ _) Herr). simpl. rewrite Hid.
  eexists. split; [done|]. simpl. split_and!; try done; [by rewrite Hid, lookup_insert_eq|].
  intros sel. by rewrite Hid, lookup_insert_eq.
Qed.

(** ** CloseConn on a connection with unacknowledged data *)

(** Connection [i] has left the table while [k] is unacknowledged, and no packet
    for it is on its way from [handle]. *)
Record cut_off (v : server) (i k : Z) : Prop := {
  co_out : i ∉ clients v;
  co_used : i < lastConnID v;
  co_route : forall m, hpc v <> HIncoming i m;
  co_info : exists ci, infos v !! i = Some ci /\ incoming ci = [] /\
              is_Some (tbuffer (win ci) !! k)
}.

Lemma cut_off_flushed v i k :
  cut_off v i k -> exists ci, infos v !! i = Some ci /\ flushed (win ci) = false.
Proof.
  intros [_ _ _ (ci & Hi & _ & [m Hm])]. exists ci. split; [done|]. unfold flushed.
  rewrite bool_decide_false; [done|]. intros E. by rewrite E in Hm.
Qed.

(** What keeps a connection cut off. *)
Lemma cut_off_keep v v' i k :
  cut_off v i k -> (i ∈ clients v' -> i ∈ clients v) -> lastConnID v <= lastConnID v' ->
  (forall m, hpc v' <> HIncoming i m) ->
  (forall ci, infos v !! i = Some ci -> incoming ci = [] -> is_Some (tbuffer (win ci) !! k) ->
     exists ci', infos v' !! i = Some ci' /\ incoming ci' = [] /\
       is_Some (tbuffer (win ci') !! k)) ->
  cut_off v' i k.
Proof.
  intros [Ho Hu Hr (ci & Hi & Hin & Hm)] Hcl Hl Hpc Hci.
  constructor; [tauto|lia|done|eauto].
Qed.

Lemma transmit_keeps w k :
  is_Some (tbuffer w !! k) -> is_Some (tbuffer (transmit w).1 !! k).
Proof.
  intros H. unfold transmit. case_match; [|done]. destruct (tmsg w); [done|]. simpl.
  rewrite lookup_insert_is_Some. destruct (decide (tsq w = k)); auto.
Qed.

(** Its goroutine takes nothing out of the send buffer. *)
Lemma handleClient_keeps v ci k sel v' out :
  handleClient_at v ci sel = Some (v', out) -> incoming ci = [] ->
  is_Some (tbuffer (win ci) !! k) ->
  exists ci', infos v' !! id ci = Some ci' /\ incoming ci' = [] /\
    is_Some (tbuffer (win ci') !! k).
Proof.
  intros H Hin Hk. unfold handleClient_at, on_timer, on_default, drain_one, push_cls in H.
  pose proof (transmit_keeps _ _ Hk) as Ht.
  destruct (transmit (win ci)) as [w o]. simpl in Ht.
  repeat (case_match; simplify_eq/=);
    repeat (destruct (send _ _ _); simplify_eq/=);
    rewrite lookup_insert_eq; eexists; (split; [done|by split]).
Qed.

Lemma handleClient_frame v ci sel v' out :
  handleClient_at v ci sel = Some (v', out) ->
  exists c', id c' = id ci /\ infos v' = <[id ci := c']> (infos v) /\
    clients v' = clients v /\ lastConnID v' = lastConnID v /\ hpc v' = hpc v.
Proof.
  intros H. unfold handleClient_at, on_incoming, on_timer, on_default, drain_one, push_cls in H.
  destruct (transmit (win ci)) as [w o].
  repeat (case_match; simplify_eq/=);
    repeat (destruct (send _ _ _); simplify_eq/=);
    eexists; (split; [|split; [reflexivity|done]]); done.
Qed.

Lemma on_cls_cut_off v i ci k q :
  infos v !! i = Some ci -> id ci = i -> i < lastConnID v -> hpc v = HSelect ->
  incoming ci = [] -> is_Some (tbuffer (win ci) !! k) ->
  cut_off (on_cls (set_cls v q) i) i k.
Proof.
  intros Hi Hid Hlt Hpc Hin Hk. unfold on_cls. cbn [clients set_cls infos]. rewrite Hi.
  assert (forall v1, i ∉ clients v1 -> lastConnID v1 = lastConnID v -> hpc v1 = HSelect ->
    (exists c1, infos v1 !! i = Some c1 /\ incoming c1 = [] /\ is_Some (tbuffer (win c1) !! k)) ->
    cut_off (if bool_decide (clients v1 = ∅) && bool_decide (sstatus v1 = startClosing)
             then set_hpc (set_sstatus v1 handlerClosed) HReturned else v1) i k) as H.
  { intros v1 H1 H2 H3 H4. destruct (_ && _); constructor; simpl; try done; try lia; by rewrite H3. }
  apply H.
  - case_bool_decide; [|done]. simpl. intros [_ Hx]%elem_of_difference.
    by apply Hx, elem_of_singleton.
  - destruct (bool_decide (i ∈ _)); [|done]. by destruct (bool_decide _).
  - destruct (bool_decide (i ∈ _)); [|done]. by destruct (bool_decide _).
  - destruct (bool_decide (i ∈ _)); [|by exists ci]. destruct (bool_decide _); [|by exists ci].
    exists (set_status ci startClosing). simpl. by rewrite Hid, lookup_insert_eq.
Qed.

Section CutOff.
Context (n : nat) (s : sys) (Hv : sys_inv None n s) (Hn : Z.of_nat n < 2 ^ 62).
Context (i k : Z) (Hco : cut_off (srv s) i k).

(** A move that changes another connection, or the bookkeeping of this one. *)
Lemma cut_off_insert v j cj :
  infos v = <[j := cj]> (infos (srv s)) ->
  (forall ci, i = j -> infos (srv s) !! i = Some ci ->
     incoming cj = incoming ci /\ tbuffer (win cj) = tbuffer (win ci)) ->
  (i ∈ clients v -> i ∈ clients (srv s)) -> lastConnID (srv s) <= lastConnID v ->
  (forall m, hpc v <> HIncoming i m) -> cut_off v i k.
Proof using Hco.
  intros E Hj Hcl Hl Hpc. apply (cut_off_keep (srv s)); try done.
  intros ci Hi Hin Hk. rewrite E. destruct (decide (j = i)) as [->|Hne].
  - exists cj. rewrite lookup_insert_eq. destruct (Hj _ eq_refl Hi) as [-> ->]. done.
  - exists ci. by rewrite lookup_insert_ne.
Qed.

Lemma cut_off_same v :
  infos v = infos (srv s) -> (i ∈ clients v -> i ∈ clients (srv s)) ->
  lastConnID (srv s) <= lastConnID v -> (forall m, hpc v <> HIncoming i m) -> cut_off v i k.
Proof using Hco.
  intros E Hcl Hl Hpc. apply (cut_off_keep (srv s)); try done. rewrite E. eauto.
Qed.

Lemma handle_cut_off sel v out : handle (srv s) sel = Some (v, out) -> cut_off v i k.
Proof using Hco Hv Hn.
  destruct Hco as [Ho Hu Hr _]. pose proof (v_infos _ _ _ Hv) as Hinfos.
  unfold handle. destruct (hpc (srv s)) as [|cid m|cid m|] eqn:Hpc; [|..|done].
  - destruct sel.
    + destruct (sincoming (srv s)) as [|[m a] q]; [done|]. unfold on_packet.
      case_match; [case_match|case_bool_decide as Hcl]; intros [= <- <-].
      * apply cut_off_same; simpl; try done; by rewrite Hpc.
      * destruct (v_ids _ _ _ Hv).
        apply (cut_off_insert _ (lastConnID (srv s)) (new_clientInfo (set_sincoming (srv s) q) a));
          simpl; try done; [lia| | |by rewrite Hpc].
        -- intros [Hx%elem_of_singleton|?]%elem_of_union; [lia|done].
        -- rewrite int64_id by (unfold int64_ok; lia). lia.
      * apply cut_off_same; simpl; try done. intros m' [= E _]. by rewrite E in Hcl.
      * apply cut_off_same; simpl; try done; by rewrite Hpc.
    + destruct (outgoing (srv s)) as [|m q]; [done|]. intros [= <- <-]. unfold on_outgoing.
      case_match; apply cut_off_same; simpl; try done; by rewrite Hpc.
    + destruct (cls (srv s)) as [|cid q]; [done|]. intros [= <- <-]. unfold on_cls.
      destruct (infos (srv s) !! cid) as [cj|] eqn:Hcj;
        repeat case_match; simplify_eq/=; rewrite ?Hcj in *; simplify_eq/=;
        try (apply cut_off_same; simpl; [done|eauto using difference_in|done|by rewrite ?Hpc]).
      all: destruct (Hinfos _ _ Hcj) as [Hid _];
        apply (cut_off_insert _ cid (set_status cj startClosing)); simpl;
        [by rewrite Hid| |eauto using difference_in|done|by rewrite ?Hpc].
      all: intros ci -> Hi; by simplify_eq.
  - destruct (infos (srv s) !! cid) as [cj|] eqn:Hcj; simpl; [|done].
    destruct (send _ _ _) as [q|]; simpl; [|done]. intros [= <- <-].
    destruct (Hinfos _ _ Hcj) as [Hid _].
    apply (cut_off_insert _ cid (set_incoming cj q)); simpl; try done; [by rewrite Hid|].
    intros ci -> _. by destruct (Hr m).
  - destruct (infos (srv s) !! cid) as [cj|] eqn:Hcj; simpl; [|done].
    destruct (send _ _ _) as [q|]; simpl; [|done]. intros [= <- <-].
    destruct (Hinfos _ _ Hcj) as [Hid _].
    apply (cut_off_insert _ cid (set_win cj (set_tmsg (win cj) q))); simpl; try done;
      [by rewrite Hid|].
    intros ci -> Hi. by simplify_eq.
Qed.

Lemma client_cut_off cid sel v out : handleClient (srv s) cid sel = Some (v, out) -> cut_off v i k.
Proof using Hco Hv.
  unfold handleClient. destruct (infos (srv s) !! cid) as [cj|] eqn:Hcj; simpl; [|done].
  destruct (handleClient_at (srv s) cj sel) as [[v' o]|] eqn:E; [|done]. intros [= <- _].
  destruct (v_infos _ _ _ Hv _ _ Hcj) as [<- _].
  destruct (handleClient_frame _ _ _ _ _ E) as (c' & Hid & Ei & Ec & El & Eh).
  apply (cut_off_keep (srv s)); rewrite ?Ec, ?El, ?Eh; try done; [apply Hco|].
  intros ci Hi Hin Hk. destruct (decide (i = id cj)) as [->|Hne].
  - simplify_eq. by eapply handleClient_keeps.
  - exists ci. by rewrite Ei, lookup_insert_ne.
Qed.

Lemma srv_step_cut_off ev s' : srv_step s ev = Some s' -> cut_off (srv s') i k.
Proof using Hco Hv Hn.
  assert (forall v, infos v = infos (srv s) -> clients v = clients (srv s) ->
    lastConnID v = lastConnID (srv s) -> hpc v = hpc (srv s) -> cut_off v i k) as Hq.
  { intros v E1 E2 E3 E4. apply cut_off_same; rewrite ?E2, ?E3, ?E4; try done. apply Hco. }
  unfold srv_step, quiet_srv, LspServer.receiver, LspServer.Write, CloseConn, push_cls,
    LspServer.Read_data, LspServer.Read_err, LspServer.Close_begin.
  intros H. destruct ev; try done.
  - destruct (handle (srv s) sel) as [[v out]|] eqn:E; [|done].
    apply handle_cut_off in E. by case_match; simplify_eq/=.
  - destruct (handleClient (srv s) cid sel) as [[v out]|] eqn:E; [|done].
    apply client_cut_off in E. by simplify_eq/=.
  - repeat (case_match; simplify_eq/=). destruct (send _ _ _); simplify_eq/=. by apply Hq.
  - repeat (case_match; simplify_eq/=); by apply Hq.
  - destruct (send _ _ _); simplify_eq/=. by apply Hq.
  - repeat (case_match; simplify_eq/=). by apply Hq.
  - repeat (case_match; simplify_eq/=). by apply Hq.
  - destruct (send _ _ _); simplify_eq/=. by apply Hq.
  - case_match; simplify_eq/=. by apply Hq.
  - simplify_eq/=. case_match; by apply Hq.
Qed.

Lemma step_cut_off ev s' : step s ev = Some s' -> cut_off (srv s') i k.
Proof using Hco Hv Hn.
  intros Hs. assert (forall a, (c ← ends s !! a; end_step s a c ev) = Some s' ->
    cut_off (srv s') i k) as Hend.
  { intros a. destruct (ends s !! a) as [c|]; simpl; [|done]. by intros ->%end_step_srv. }
  destruct ev; try exact (Hend _ Hs); try exact (srv_step_cut_off _ _ Hs).
  cbn -[LspClient.NewClient] in Hs. destruct (ends s !! a); [done|].
  destruct (LspClient.NewClient p). by simplify_eq/=.
Qed.
End CutOff.

Lemma exec_cut_off i k evs : forall n s s',
  Z.of_nat (n + length evs) < 2 ^ 62 -> sys_inv None n s -> cut_off (srv s) i k ->
  exec step s evs = Some s' -> cut_off (srv s') i k.
Proof.
  induction evs as [|ev evs IH]; intros n s s' Hn Hv Hco; simpl in *; [by intros [= <-]|].
  destruct (step s ev) as [s1|] eqn:E; [|done].
  destruct (system_step_inv None n s ev s1 ltac:(lia) Hv ltac:(done) E) as [Hv1 _].
  apply (IH (S n)); [lia|done|]. eapply (step_cut_off n); eauto; lia.
Qed.

(** C21: [CloseConn] drops the connection from the table at once, so from then on
    [handle] throws away the acknowledgements for it: a message still
    unacknowledged when nothing else waits for the connection stays so in every
    later state, the closing test never succeeds, and only the epoch limit ends
    its goroutine. *)
Theorem closeconn_never_flushes p evs s i ci k q s1 evs' s2 :
  Z.of_nat (length evs + S (length evs')) < 2 ^ 62 -> exec step (init p) evs = Some s ->
  hpc (srv s) = HSelect -> cls (srv s) = i :: q -> infos (srv s) !! i = Some ci ->
  incoming ci = [] -> is_Some (tbuffer (win ci) !! k) ->
  step s (SHandle CaseCls) = Some s1 -> exec step s1 evs' = Some s2 ->
  (i ∉ clients (srv s2)) /\
  exists ci2, infos (srv s2) !! i = Some ci2 /\ is_Some (tbuffer (win ci2) !! k) /\
    flushed (win ci2) = false.
Proof.
  intros Hlen Hrun Hpc Hq Hi Hin Hk Hstep Hrun'.
  pose proof (run_inv _ evs s ltac:(lia) Hrun) as Hv.
  destruct (system_step_inv None (length evs) s _ s1 ltac:(lia) Hv ltac:(done) Hstep) as [Hv1 _].
  assert (cut_off (srv s1) i k) as Hco.
  { cbn -[on_cls] in Hstep. unfold handle in Hstep. rewrite Hpc, Hq in Hstep.
    injection Hstep as <-. cbn [srv put_srv].
    destruct (v_infos _ _ _ Hv _ _ Hi) as (Hid & [_ Hlt] & _). by apply (on_cls_cut_off _ _ ci). }
  pose proof (exec_cut_off i k evs' (S (length evs)) s1 s2 ltac:(lia) Hv1 Hco Hrun') as Hco2.
  split; [apply Hco2|]. destruct (cut_off_flushed _ _ _ Hco2) as (ci2 & Hi2 & Hf).
  exists ci2. split_and!; [done| |done]. destruct Hco2 as [_ _ _ (ci3 & Hi3 & _ & Hk3)]. congruence.
Qed.

(** ** NewClient without a server *)

(** What a move does to the client it belongs to; [r] is the packet of an arrival. *)
Definition client_next (c : LspClient.client) (r : option Message) (ev : event)
    : option LspClient.client :=
  match ev with
  | EHandler _ sel => fst <$> LspClient.handler c sel
  | EReceive _ _ _ => LspClient.receiver c r
  | EReceiveErr _ => LspClient.receiver c None
  | EWrite _ payload => LspClient.Write c payload
  | ERead _ => snd <$> LspClient.Read_data c
  | EReadErr _ => snd <$> LspClient.Read_err c
  | EClose _ => Some (LspClient.Close_begin c)
  | EPoll _ => Some (LspClient.Close_poll c).1
  | _ => None
  end.

Definition arrives_at (a : string) (ev : event) : bool :=
  match ev with EReceive b _ _ => String.eqb b a | _ => false end.

Lemma end_step_client s a c ev s' :
  end_step s a c ev = Some s' ->
  exists r c' w rd out, client_next c r ev = Some c' /\ s' = put_end s a c' w rd out.
Proof.
  unfold end_step, move_end. intros H. destruct ev; try done; cbn [client_next].
  - destruct (LspClient.handler c sel) as [[c' out]|]; [|done]. injection H as <-. by exists None; do 4 eexists.
  - destruct (to_cli s !! k) as [[dst m]|]; [|done]. destruct (_ && _); [|done].
    destruct (LspClient.receiver c _) as [c'|] eqn:E; [|done].
    injection H as <-. by exists (Some (cut_msg cut m)); do 4 eexists.
  - destruct (LspClient.receiver c None) as [c'|]; [|done]. injection H as <-. by exists None; do 4 eexists.
  - destruct (established c); [|done]. destruct (LspClient.Write c payload) as [c'|]; [|done].
    injection H as <-. by exists None; do 4 eexists.
  - destruct (LspClient.Read_data c) as [[d c']|]; [|done]. injection H as <-. by exists None; do 4 eexists.
  - destruct (LspClient.Read_err c) as [[d c']|]; [|done]. injection H as <-. by exists None; do 4 eexists.
  - injection H as <-. by exists None; do 4 eexists.
  - injection H as <-. by exists None; do 4 eexists.
Qed.

(** A property of one client that its moves keep is kept by every step. *)
Lemma step_client_kept (Q : LspClient.client -> Prop) (ok : event -> bool) b :
  (forall c r ev c', mover ev = Some b -> ok ev = true -> client_next c r ev = Some c' -> Q c -> Q c') ->
  forall s ev s', step s ev = Some s' -> ok ev = true ->
    (exists c, ends s !! b = Some c /\ Q c) -> exists c, ends s' !! b = Some c /\ Q c.
Proof.
  intros HQ s ev s' Hs Hok (cb & Hb & Hq).
  assert (forall a, mover ev = Some a -> (c ← ends s !! a; end_step s a c ev) = Some s' ->
    exists c, ends s' !! b = Some c /\ Q c) as Hend.
  { intros a Hmv. destruct (ends s !! a) as [c|] eqn:Hc; simpl; [|done].
    intros (r & c' & w & rd & out & Hn & ->)%end_step_client. simpl.
    destruct (decide (a = b)) as [->|Hne].
    - exists c'. rewrite lookup_insert_eq. split; [done|]. simplify_eq. by eapply HQ.
    - exists cb. by rewrite lookup_insert_ne. }
  assert (srv_step s ev = Some s' -> exists c, ends s' !! b = Some c /\ Q c) as Hsrv.
  { intros E%srv_step_ends. rewrite E. eauto. }
  destruct ev; try exact (Hend _ eq_refl Hs); try exact (Hsrv Hs).
  cbn -[LspClient.NewClient] in Hs. destruct (ends s !! a) eqn:Ha; [done|].
  destruct (LspClient.NewClient p) as [c out]. simplify_eq. exists cb. cbn -[LspClient.NewClient].
  rewrite lookup_insert_ne by congruence. done.
Qed.

(** The handler stopped before a connection was made. *)
Definition gave_up (c : LspClient.client) : Prop :=
  LspClient.pc c = LspClient.Returned /\ statusSignal c = mkSignal [] false.

Lemma gave_up_next c r ev c' : client_next c r ev = Some c' -> gave_up c -> gave_up c'.
Proof.
  intros Hn [Hpc Hsig]. revert Hn. unfold gave_up.
  destruct ev; simpl; try done; unfold LspClient.handler, LspClient.receiver, LspClient.Write,
    LspClient.Read_data, LspClient.Read_err, LspClient.Close_begin, LspClient.Close_poll;
    rewrite ?Hpc; try done; intros H;
    repeat (case_match; simplify_eq/=; try done);
    repeat match goal with H : context [send ?a ?b ?c] |- _ => destruct (send a b c); simplify_eq/= end;
    done.
Qed.

Lemma exec_gave_up b evs : forall s s',
  exec step s evs = Some s' -> (exists c, ends s !! b = Some c /\ gave_up c) ->
  exists c, ends s' !! b = Some c /\ gave_up c.
Proof.
  induction evs as [|ev evs IH]; intros s s'; simpl; [by intros [= <-]|].
  destruct (step s ev) as [s1|] eqn:E; [|done]. intros H Hg. eapply IH; [done|].
  eapply (step_client_kept gave_up (fun _ => true)); eauto using gave_up_next.
Qed.

(** No packet has arrived at the client. *)
Definition unheard (c : LspClient.client) : Prop :=
  LspClient.incoming c = [] /\ statusSignal c = mkSignal [] false.

Lemma unheard_next a c r ev c' :
  mover ev = Some a -> negb (arrives_at a ev) = true -> client_next c r ev = Some c' ->
  unheard c -> unheard c'.
Proof.
  intros Hown Hev Hn [Hin Hsig]. revert Hn. unfold unheard.
  destruct ev; simpl; try done; unfold LspClient.handler, LspClient.on_drain, LspClient.on_timer,
    LspClient.on_default, LspClient.receiver, LspClient.Write,
    LspClient.Read_data, LspClient.Read_err, LspClient.Close_begin, LspClient.Close_poll;
    rewrite ?Hin; intros H;
    repeat (case_match; simplify_eq/=; try done);
    repeat match goal with H : context [send ?a ?b ?c] |- _ => destruct (send a b c); simplify_eq/= end;
    try done.
  all: simpl in *; simplify_eq; by rewrite String.eqb_refl in Hev.
Qed.

Lemma exec_unheard p b evs : forall s c,
  exec step (init p) evs = Some s -> (forall k cut, EReceive b k cut ∉ evs) ->
  ends s !! b = Some c -> unheard c.
Proof.
  induction evs as [|ev evs IH] using rev_ind; intros s c.
  { intros [= <-] _. simpl. by rewrite lookup_empty. }
  rewrite exec_app. destruct (exec step (init p) evs) as [s1|] eqn:E1; [|done].
  cbn [mbind option_bind exec]. destruct (step s1 ev) as [s2|] eqn:E2; [|done]. intros [= <-] Hev Hc.
  assert (forall k cut, EReceive b k cut ∉ evs) as Hevs.
  { intros k cut Hin. apply (Hev k cut), elem_of_app. by left. }
  destruct (ends s1 !! b) as [c1|] eqn:Hc1.
  - destruct (step_client_kept unheard (fun ev => negb (arrives_at b ev)) b) with (s := s1) (ev := ev) (s' := s2)
      as (c2 & Hc2 & Hu); [|done| |by eauto|congruence].
    + intros c0 r ev0 c0' Hm. by apply unheard_next.
    + destruct ev; try done. simpl. destruct (String.eqb_spec a b) as [->|]; [|done].
      exfalso. apply (Hev k cut), elem_of_app. right. by left.
  - assert (forall a, (c ← ends s1 !! a; end_step s1 a c ev) = Some s2 -> unheard c) as Hend.
    { intros a. destruct (ends s1 !! a) as [ca|] eqn:Ha; simpl; [|done].
      intros (r & c' & w & rd & out & _ & ->)%end_step_client. simpl in Hc.
      rewrite lookup_insert_ne in Hc by congruence. congruence. }
    assert (srv_step s1 ev = Some s2 -> unheard c) as Hsrv
      by (intros E%srv_step_ends; rewrite E in Hc; congruence).
    destruct ev; try exact (Hend _ E2); try exact (Hsrv E2).
    cbn -[LspClient.NewClient] in E2. destruct (ends s1 !! a) eqn:Ha; [done|].
    injection E2 as <-. simpl in Hc. apply lookup_insert_Some in Hc as [[_ <-]|[_ Hc]]; [done|congruence].
Qed.

(** C26: [NewClient] never returns an error.  In every run, its call has returned
    exactly when the client has an identifier, and then with the client; as long as no
    packet has arrived at the client it waits; and when the handler has stopped
    without an identifier, at the epoch limit or because of [Close], the call waits
    for ever, in every later state. *)
Theorem newclient_never_fails p evs s a c :
  Z.of_nat (length evs) < 2 ^ 62 -> exec step (init p) evs = Some s -> ends s !! a = Some c ->
  NewClient_result c = (if 0 <=? LspClient.id c then Some (Some c) else None) /\
  ((forall k cut, EReceive a k cut ∉ evs) -> NewClient_result c = None) /\
  (LspClient.pc c = LspClient.Returned -> LspClient.id c < 0 ->
   forall evs' s', exec step s evs' = Some s' ->
     exists c', ends s' !! a = Some c' /\ NewClient_result c' = None).
Proof.
  intros Hlen Hrun Hc. pose proof (v_ends _ _ _ (run_inv _ _ _ Hlen Hrun) _ _ Hc) as [_ Hsig _ _].
  assert (forall c, statusSignal c = mkSignal [] false -> NewClient_result c = None) as Hnone.
  { intros c0 E. unfold NewClient_result. by rewrite E. }
  split_and!.
  - unfold NewClient_result. rewrite Hsig. by destruct (0 <=? _).
  - intros Hev. apply Hnone. by eapply exec_unheard.
  - intros Hpc Hid evs' s' Hrun'.
    destruct (exec_gave_up a _ _ _ Hrun') as (c' & Hc' & _ & E); [|eauto].
    exists c. split; [done|]. split; [done|]. rewrite Hsig. f_equal. by apply Z.leb_gt.
Qed.

(** ** Closing a server without clients *)

(** The application does not call [CloseConn]. *)
Definition no_close_conn (ev : event) : bool :=
  match ev with SCloseConn _ => false | _ => true end.

Record unused (v : server) : Prop := {
  un_infos : infos v = ∅;
  un_cls : cls v = [];
  un_status : sstatus v <> handlerClosed /\ sstatus v <> connectionClosed
}.

Lemma srv_step_unused s ev s' :
  srv_step s ev = Some s' -> no_close_conn ev = true -> infos (srv s') = ∅ ->
  unused (srv s) -> unused (srv s').
Proof.
  intros H Hev Hinfos [Hi Hc [Hs1 Hs2]]. constructor; [done|..]; revert H Hev;
    unfold srv_step, quiet_srv, handle, handleClient, LspServer.receiver, LspServer.Write, push_cls,
      LspServer.Read_data, LspServer.Read_err, LspServer.Close_begin, on_outgoing, on_packet.
  all: rewrite ?Hi; intros H Hev.
  all: destruct ev; try done; repeat (case_match; simplify_eq/=; try done);
    repeat match goal with H : context [send ?a ?b ?c] |- _ => destruct (send a b c); simplify_eq/= end;
    try done.
  2: { by match goal with E : bool_decide _ = true |- _ => apply bool_decide_eq_true in E end. }
  all: cbn in H; injection H as <-; unfold Close_poll; cbn; by case_match.
Qed.

Lemma step_unused s ev s' :
  step s ev = Some s' -> no_close_conn ev = true -> infos (srv s') = ∅ ->
  unused (srv s) -> unused (srv s').
Proof.
  intros Hs Hev Hi Hu. assert (forall a, (c ← ends s !! a; end_step s a c ev) = Some s' ->
    unused (srv s')) as Hend.
  { intros a. destruct (ends s !! a) as [c|]; simpl; [|done]. by intros ->%end_step_srv. }
  destruct ev; try exact (Hend _ Hs); try exact (srv_step_unused _ _ _ Hs Hev Hi Hu).
  cbn -[LspClient.NewClient] in Hs. destruct (ends s !! a); [done|].
  destruct (LspClient.NewClient p). by simplify_eq/=.
Qed.

Lemma exec_unused evs : forall n s s',
  Z.of_nat (n + length evs) < 2 ^ 62 -> sys_inv None n s -> exec step s evs = Some s' ->
  forallb no_close_conn evs = true -> infos (srv s') = ∅ ->
  unused (srv s) -> unused (srv s').
Proof.
  induction evs as [|ev evs IH]; intros n s s' Hn Hv; simpl in *; [by intros [= <-]|].
  destruct (step s ev) as [s1|] eqn:E; [|done]. intros Hrun [Hev Hevs]%andb_prop Hi Hu.
  destruct (system_step_inv None n s ev s1 ltac:(lia) Hv ltac:(done) E) as [Hv1 _].
  destruct (exec_inv evs (S n) s1 s' ltac:(lia) Hv1 Hrun) as [_ Hle].
  assert (infos (srv s1) = ∅) as Hi1.
  { apply map_empty. intros i. destruct (infos (srv s1) !! i) as [ci|] eqn:Ei; [|done].
    destruct (le_infos _ _ Hle _ _ Ei) as (ci' & H & _). by rewrite Hi in H. }
  apply (IH (S n) s1); try done; [lia|]. by eapply step_unused.
Qed.

(** C27: closing a server that has had no connection never returns: as long as
    nobody connects and [CloseConn] is not called, [Close] polls a status that
    never becomes [handlerClosed], since [handle] looks at the closing condition
    only after it received from [cls]. *)
Theorem server_close_never_returns p evs s :
  Z.of_nat (length evs) < 2 ^ 62 -> exec step (init p) evs = Some s ->
  forallb no_close_conn evs = true -> infos (srv s) = ∅ ->
  (Close_poll (srv s)).2 = false.
Proof.
  intros Hlen Hrun Hev Hi.
  assert (unused (srv s)) as [_ _ [H1 H2]].
  { apply (exec_unused evs 0 (init p) s Hlen (init_inv _ _) Hrun Hev Hi). by constructor. }
  unfold Close_poll. simpl. rewrite (bool_decide_false (sstatus (srv s) = handlerClosed)) by done.
  by rewrite bool_decide_false.
Qed.

(** ** Witnesses *)

Lemma client_epoch_limit_witness :
  let c := (LspClient.NewClient demo_params).1 in
  exec client_tick c (replicate 5 tt) = Some (client_lost c).
Proof.
  exact (proj1 (proj2 (proj2 (client_epoch_limit (LspClient.NewClient demo_params).1
    ltac:(constructor; vm_compute; repeat split; congruence))))).
Defined.

Lemma server_epoch_limit_witness :
  let s := srv (run step (init demo_params) demo_connect) in
  exists s', exec (info_tick 73) s (replicate 7 tt) = Some s' /\ err s' = [(73, lost_error 73)].
Proof.
  set (s := srv _). intros s0. subst s0.
  destruct (infos s !! 73) as [c|] eqn:E; [|vm_compute in E; discriminate E].
  pose proof E as Ec. vm_compute in Ec. injection Ec as Ec.
  assert (info_waiting s 73 c) as Hw.
  { constructor; [exact E|subst c; vm_compute; repeat split; congruence..]. }
  destruct (server_epoch_limit s 73 c Hw ltac:(vm_refl) ltac:(vm_refl))
    as [_ (s' & H & _ & He & _)].
  exists s'. split; [|exact He]. subst c. exact H.
Defined.

Definition demo_cutoff : list event :=
  demo_connect ++ [SWrite 73 "world"; SHandle CaseOutgoing; SHandle CaseOutgoing;
    SClient 73 LspServer.CaseDefault; SCloseConn 73].
Definition demo_ack : list event :=
  [EReceive "c1" 1 None; EHandler "c1" LspClient.CaseIncoming;
   EHandler "c1" LspClient.CaseDefault; EHandler "c1" LspClient.CaseDefault;
   SReceive 1 None; SHandle CasePacket; SClient 73 LspServer.CaseDefault].

Lemma closeconn_never_flushes_witness :
  let s1 := run step (init demo_params) (demo_cutoff ++ [SHandle CaseCls]) in
  exists ci2, infos (srv (run step s1 demo_ack)) !! 73 = Some ci2 /\ flushed (win ci2) = false.
Proof.
  pose proof (exec_run step (init demo_params) demo_cutoff ltac:(vm_refl)) as Hrun.
  pose proof (exec_run step (run step (init demo_params) (demo_cutoff ++ [SHandle CaseCls]))
    demo_ack ltac:(vm_refl)) as Hafter.
  assert (step (run step (init demo_params) demo_cutoff) (SHandle CaseCls) =
    Some (run step (init demo_params) (demo_cutoff ++ [SHandle CaseCls]))) as Hstep by vm_refl.
  set (s := run step (init demo_params) demo_cutoff) in *.
  set (s1 := run step _ (demo_cutoff ++ _)) in *. intros s1'. subst s1'.
  destruct (infos (srv s) !! 73) as [ci|] eqn:E; [|vm_compute in E; discriminate E].
  pose proof E as Ec. vm_compute in Ec. injection Ec as Ec.
  destruct (closeconn_never_flushes demo_params demo_cutoff s 73 ci 1 [] s1 demo_ack _ eq_refl Hrun
    ltac:(vm_refl) ltac:(vm_refl) E ltac:(subst ci; vm_refl)
    ltac:(subst ci; vm_compute; eexists; reflexivity) Hstep Hafter)
    as [_ (ci2 & H2 & _ & Hf)].
  exists ci2. split; [exact H2|exact Hf].
Defined.

Definition demo_alone : list event :=
  ENewClient "c1" demo_params :: replicate 5 (EHandler "c1" LspClient.CaseTimer).

Lemma newclient_never_fails_witness :
  exists c, ends (run step (run step (init demo_params) demo_alone) [EReceiveErr "c1"])
              !! "c1"%string = Some c /\ NewClient_result c = None.
Proof.
  pose proof (exec_run step (init demo_params) demo_alone ltac:(vm_refl)) as Hrun.
  pose proof (exec_run step (run step (init demo_params) demo_alone) [EReceiveErr "c1"] ltac:(vm_refl)) as Hrun'.
  set (s := run step (init demo_params) demo_alone) in *.
  destruct (ends s !! "c1"%string) as [c|] eqn:E; [|vm_compute in E; discriminate E].
  refine (proj2 (proj2 (newclient_never_fails demo_params demo_alone s _ c eq_refl Hrun E)) _ _ _ _ Hrun').
  - vm_compute in E. injection E as <-. reflexivity.
  - vm_compute in E. injection E as <-. reflexivity.
Defined.

Lemma server_close_never_returns_witness :
  let s := run step (init demo_params) [SClose; SReceiveErr; SPoll; SPoll] in
  (Close_poll (srv s)).2 = false.
Proof.
  exact (server_close_never_returns demo_params [SClose; SReceiveErr; SPoll; SPoll] _ eq_refl
    (exec_run step (init demo_params) [SClose; SReceiveErr; SPoll; SPoll] ltac:(vm_refl))
    eq_refl eq_refl).
Defined.
