(* ===== verification/Transport.v ===== *)
(** What an application may ask of a transport between one server and many
    clients, as an interface.

    The moves of a transport are labelled with what the applications see of them.
    [Transport] is the promise: each direction of a connection is a FIFO stream, as
    long as the application of the server writes only to connections it has read
    from.  [compose] runs applications on top of a transport; a theorem about them
    is proved against the interface. *)
From S2P Require Import Prelude.

Inductive action :=
| ServerRead (i : Z) (data : string)
| ServerLost (i : Z)                   (* the error of [Read] *)
| ServerWrite (i : Z) (data : string)
| ServerClose
| ClientRead (a : string) (data : string)
| ClientLost (a : string)
| ClientWrite (a : string) (data : string)
| ClientClose (a : string)
| Silent.

(** ** The streams of a trace *)

Definition server_read (i : Z) (x : action) : option string :=
  match x with ServerRead j d => if decide (j = i) then Some d else None | _ => None end.
Definition server_write (i : Z) (x : action) : option string :=
  match x with ServerWrite j d => if decide (j = i) then Some d else None | _ => None end.
Definition client_read (a : string) (x : action) : option string :=
  match x with ClientRead b d => if decide (b = a) then Some d else None | _ => None end.
Definition client_write (a : string) (x : action) : option string :=
  match x with ClientWrite b d => if decide (b = a) then Some d else None | _ => None end.

Definition up_sent (tr : list action) (a : string) : list string := omap (client_write a) tr.
Definition up_got (tr : list action) (i : Z) : list string := omap (server_read i) tr.
Definition down_sent (tr : list action) (i : Z) : list string := omap (server_write i) tr.
Definition down_got (tr : list action) (a : string) : list string := omap (client_read a) tr.

(** The server's application answers only connections it has read from. *)
Definition replying (tr : list action) : Prop :=
  forall tr1 i d tr2, tr = tr1 ++ ServerWrite i d :: tr2 -> up_got tr1 i <> [].

Lemma up_sent_snoc tr x a : up_sent (tr ++ [x]) a = up_sent tr a ++ option_list (client_write a x).
Proof. apply omap_snoc. Qed.
Lemma up_got_snoc tr x i : up_got (tr ++ [x]) i = up_got tr i ++ option_list (server_read i x).
Proof. apply omap_snoc. Qed.
Lemma down_sent_snoc tr x i : down_sent (tr ++ [x]) i = down_sent tr i ++ option_list (server_write i x).
Proof. apply omap_snoc. Qed.
Lemma down_got_snoc tr x a : down_got (tr ++ [x]) a = down_got tr a ++ option_list (client_read a x).
Proof. apply omap_snoc. Qed.

Create Rewrite HintDb streams.
#[export] Hint Rewrite up_sent_snoc up_got_snoc down_sent_snoc down_got_snoc : streams.

Lemma replying_nil : replying [].
Proof. intros [|? tr1] i d tr2; discriminate. Qed.

Lemma replying_snoc tr x :
  replying (tr ++ [x]) <->
  replying tr /\ (forall i d, x = ServerWrite i d -> up_got tr i <> []).
Proof.
  split.
  - intros H. split.
    + intros tr1 i d tr2 ->. apply (H tr1 i d (tr2 ++ [x])). by rewrite <- app_assoc.
    + intros i d ->. by apply (H tr i d []).
  - intros [H Hx] tr1 i d tr2 E. destruct tr2 as [|y tr2] using rev_ind.
    + apply app_inj_tail in E as [-> ->]. by eapply Hx.
    + rewrite app_comm_cons, app_assoc in E. apply app_inj_tail in E as [-> _]. by eapply H.
Qed.

(** ** The interface *)

Section Observe.
Context {St Ev : Type} (t_step : St -> Ev -> option St) (t_act : St -> Ev -> action).

(** A move and what the applications see of it. *)
Definition observe (p : St * list action) (ev : Ev) : option (St * list action) :=
  match t_step p.1 ev with
  | Some s => Some (s, p.2 ++ [t_act p.1 ev])
  | None => None
  end.

Lemma observed_extends evs : forall s tr s' tr',
  exec observe (s, tr) evs = Some (s', tr') -> exists tr2, tr' = tr ++ tr2.
Proof.
  induction evs as [|ev evs IH]; intros s tr s' tr'; cbn [exec].
  { intros [= _ <-]. exists []. by rewrite app_nil_r. }
  unfold observe at 1. cbn [fst snd]. destruct (t_step s ev) as [s1|]; [|done].
  intros [tr2 ->]%IH. exists (t_act s ev :: tr2). by rewrite <- app_assoc.
Qed.
End Observe.

(** [t_conn s a i]: the client at the address [a] has the connection [i]. *)
Class Transport (St Ev : Type) := {
  t_init : St;
  t_step : St -> Ev -> option St;
  t_act : St -> Ev -> action;
  t_conn : St -> string -> Z -> Prop;
  t_fifo : forall evs s tr, Z.of_nat (length evs) < 2 ^ 62 ->
    exec (observe t_step t_act) (t_init, []) evs = Some (s, tr) -> replying tr ->
    (forall a i, t_conn s a i ->
       up_got tr i `prefix_of` up_sent tr a /\ down_got tr a `prefix_of` down_sent tr i);
  t_conn_id : forall evs s tr a i, Z.of_nat (length evs) < 2 ^ 62 ->
    exec (observe t_step t_act) (t_init, []) evs = Some (s, tr) ->
    t_conn s a i -> 0 < i /\ (forall j, t_conn s a j -> j = i) /\ (forall b, t_conn s b i -> b = a);
  t_up_conn : forall evs s tr i, Z.of_nat (length evs) < 2 ^ 62 ->
    exec (observe t_step t_act) (t_init, []) evs = Some (s, tr) -> replying tr ->
    up_got tr i <> [] -> exists a, t_conn s a i;
  t_down_conn : forall evs s tr a, Z.of_nat (length evs) < 2 ^ 62 ->
    exec (observe t_step t_act) (t_init, []) evs = Some (s, tr) -> replying tr ->
    down_got tr a <> [] -> exists i, t_conn s a i
}.

(** ** Applications on a transport

    [app a x act] is the applications' state after the action [act], at which their
    program counters stand at [x]; [None] is an action their programs do not take
    then.  An event is a move of the transport, or of the applications alone. *)
Section Compose.
Context {St Ev A X : Type} `{Transport St Ev} (app : A -> X -> action -> option A) (a0 : A).

Record composed := mkComposed { net : St; seen : list action; apps : A }.

Definition compose (c : composed) (ev : X * option Ev) : option composed :=
  match ev.2 with
  | Some e =>
      match observe t_step t_act (net c, seen c) e, app (apps c) ev.1 (t_act (net c) e) with
      | Some (s, tr), Some a => Some (mkComposed s tr a)
      | _, _ => None
      end
  | None =>
      match app (apps c) ev.1 Silent with
      | Some a => Some (mkComposed (net c) (seen c) a)
      | None => None
      end
  end.

Definition composed_init : composed := mkComposed t_init [] a0.

(** A move of the applications alone leaves the trace as it is; every other move
    adds what was seen. *)
Lemma compose_seen c x oe c' :
  compose c (x, oe) = Some c' ->
  exists act, app (apps c) x act = Some (apps c') /\
    ((oe = None /\ act = Silent /\ seen c' = seen c) \/
     (exists e, oe = Some e /\ act = t_act (net c) e /\ seen c' = seen c ++ [act])).
Proof.
  unfold compose. simpl. destruct oe as [e|].
  - unfold observe. destruct (t_step _ _) as [s|]; simpl; [|done].
    destruct (app _ _ _) as [a|] eqn:E; [|done]. intros [= <-]. simpl. eauto 10.
  - destruct (app _ _ _) as [a|] eqn:E; [|done]. intros [= <-]. simpl. eauto 10.
Qed.

(** A run of the composition holds a run of the transport. *)
Lemma compose_exec evs : forall c c',
  exec compose c evs = Some c' ->
  exists es, (length es <= length evs)%nat /\
    exec (observe t_step t_act) (net c, seen c) es = Some (net c', seen c').
Proof.
  induction evs as [|[x oe] evs IH]; intros c c'; simpl.
  { intros [= <-]. by exists []. }
  destruct (compose c (x, oe)) as [c1|] eqn:E; [|done].
  intros (es & Hlen & Hes)%IH. unfold compose in E. simpl in E. destruct oe as [e|].
  - destruct (observe _ _ _ e) as [[s tr]|] eqn:Eo; [|done].
    destruct (app _ _ _) as [a|]; [|done]. injection E as <-. simpl in *.
    exists (e :: es). simpl. rewrite Eo. split; [lia|done].
  - destruct (app _ _ _) as [a|]; [|done]. injection E as <-. exists es. split; [lia|done].
Qed.

Lemma composed_run evs c :
  exec compose composed_init evs = Some c ->
  exists es, (length es <= length evs)%nat /\
    exec (observe t_step t_act) (t_init, []) es = Some (net c, seen c).
Proof. apply (compose_exec evs composed_init). Qed.

(** An invariant of the applications and of what they have seen. *)
Lemma compose_inv (I : list action -> A -> Prop) evs c :
  I [] a0 ->
  (forall tr a x a', I tr a -> app a x Silent = Some a' -> I tr a') ->
  (forall tr a x act a', I tr a -> app a x act = Some a' -> I (tr ++ [act]) a') ->
  exec compose composed_init evs = Some c -> I (seen c) (apps c).
Proof.
  intros H0 Hs Ha Hrun.
  apply (reachable_inv compose (fun c => I (seen c) (apps c)) composed_init); [done| |].
  - intros c1 c2 [x oe] Hi Hstep.
    destruct (compose_seen _ _ _ _ Hstep) as (act & Hact & [(_ & -> & ->)|(e & _ & _ & ->)]); eauto.
  - by eapply exec_reachable.
Qed.
End Compose.

Arguments composed : clear implicits.
