(* ===== verification/LspTransport.v ===== *)
(** The LSP library as a transport: the interface [Transport] holds of the system of
    LspSystem.v, for every schedule of its network. *)
From S2P Require Import Prelude GoText LspMessage LspWindow LspClient LspServer LspSystem LspDelivery LspWrites Transport.

(** What the applications see of a move. *)
Definition act (s : sys) (ev : event) : action :=
  match ev with
  | SRead => match rmsg (srv s) with (i, d) :: _ => ServerRead i d | [] => Silent end
  | SReadErr => match err (srv s) with (i, _) :: _ => ServerLost i | [] => Silent end
  | SWrite i d => ServerWrite i d
  | SCloseConn _ | SClose | SPoll => ServerClose
  | ERead a => match ends s !! a with
               | Some c => match LspClient.rmsg c with d :: _ => ClientRead a d | [] => Silent end
               | None => Silent
               end
  | EReadErr a => ClientLost a
  | EWrite a d => ClientWrite a d
  | EClose a | EPoll a => ClientClose a
  | _ => Silent
  end.

(** The trace tells what the applications wrote and read. *)
Record linked (s : sys) (tr : list action) : Prop := {
  lk_written : forall a, written s !!! a = up_sent tr a;
  lk_cread : forall a, cread s !!! a = down_got tr a;
  lk_sread : forall i, sread s !!! i = up_got tr i
}.

Lemma linked_init p : linked (init p) [].
Proof. by split. Qed.

(** A move that no application reads by, and no client's application writes by. *)
Lemma linked_same s s' tr x :
  (forall a, client_write a x = None) -> (forall a, client_read a x = None) ->
  (forall i, server_read i x = None) ->
  (forall a, written s' !!! a = written s !!! a) -> (forall a, cread s' !!! a = cread s !!! a) ->
  sread s' = sread s -> linked s tr -> linked s' (tr ++ [x]).
Proof.
  intros X1 X2 X3 E1 E2 E3 [L1 L2 L3]. split.
  - intros a. by rewrite E1, L1, up_sent_snoc, X1, app_nil_r.
  - intros a. by rewrite E2, L2, down_got_snoc, X2, app_nil_r.
  - intros i. by rewrite E3, L3, up_got_snoc, X3, app_nil_r.
Qed.

(** A move of the client at [a]. *)
Lemma linked_end s a c w r out tr x :
  (forall i, server_read i x = None) ->
  (forall b, b <> a -> client_write b x = None /\ client_read b x = None) ->
  w = written s !!! a ++ option_list (client_write a x) ->
  r = cread s !!! a ++ option_list (client_read a x) ->
  linked s tr -> linked (put_end s a c w r out) (tr ++ [x]).
Proof.
  intros X1 X3 -> -> [L1 L2 L3]. split; simpl.
  - intros b. rewrite up_sent_snoc. destruct (decide (b = a)) as [->|Hne].
    + by rewrite lookup_total_insert_eq, L1.
    + rewrite lookup_total_insert_ne by done. destruct (X3 b Hne) as [-> _]. by rewrite L1, app_nil_r.
  - intros b. rewrite down_got_snoc. destruct (decide (b = a)) as [->|Hne].
    + by rewrite lookup_total_insert_eq, L2.
    + rewrite lookup_total_insert_ne by done. destruct (X3 b Hne) as [_ ->]. by rewrite L2, app_nil_r.
  - intros i. by rewrite up_got_snoc, X1, app_nil_r, L3.
Qed.

Lemma linked_move_end s a c out tr x :
  (forall i, server_read i x = None) ->
  (forall b, client_write b x = None /\ client_read b x = None) ->
  linked s tr -> linked (put_end s a c (written s !!! a) (cread s !!! a) out) (tr ++ [x]).
Proof.
  intros X1 X3. apply linked_end; auto.
  - destruct (X3 a) as [-> _]. by rewrite app_nil_r.
  - destruct (X3 a) as [_ ->]. by rewrite app_nil_r.
Qed.

#[local] Ltac solve_act :=
  intros; simpl; repeat split; repeat case_decide; first [done | congruence].

Lemma linked_end_step s a c ev s' tr :
  ends s !! a = Some c -> mover ev = Some a -> end_step s a c ev = Some s' ->
  linked s tr -> linked s' (tr ++ [act s ev]).
Proof.
  intros Hc Ha Hstep L. destruct ev; simpl in Ha; try done; injection Ha as ->;
    cbn [end_step] in Hstep; unfold move_end in Hstep; cbn [act]; rewrite ?Hc.
  - destruct (LspClient.handler _ _) as [[c' out]|]; [|done]. injection Hstep as <-.
    apply linked_move_end; solve [done | solve_act].
  - destruct (to_cli s !! k) as [[dst m]|]; [|done]. destruct (_ && _); [|done].
    destruct (LspClient.receiver _ _) as [c'|]; simpl in Hstep; [|done]. injection Hstep as <-.
    apply linked_move_end; solve [done | solve_act].
  - destruct (LspClient.receiver _ _) as [c'|]; simpl in Hstep; [|done]. injection Hstep as <-.
    apply linked_move_end; solve [done | solve_act].
  - destruct (established c); [|done]. destruct (LspClient.Write c payload) as [c'|]; simpl in Hstep; [|done].
    injection Hstep as <-. apply linked_end; try done; try solve_act.
    simpl. by rewrite app_nil_r.
  - unfold LspClient.Read_data in Hstep. destruct (LspClient.rmsg c) as [|d q]; [done|]. injection Hstep as <-.
    apply linked_end; try done; try solve_act.
    simpl. by rewrite app_nil_r.
  - destruct (LspClient.Read_err c) as [[e c']|]; simpl in Hstep; [|done]. injection Hstep as <-.
    apply linked_move_end; solve [done | solve_act].
  - injection Hstep as <-. apply linked_move_end; solve [done | solve_act].
  - injection Hstep as <-. apply linked_move_end; solve [done | solve_act].
Qed.

Lemma linked_srv_step s tr ev s' :
  linked s tr -> srv_step s ev = Some s' -> linked s' (tr ++ [act s ev]).
Proof.
  intros L Hstep.
  assert (forall x, (forall a, client_write a x = None) -> (forall a, client_read a x = None) ->
    (forall i, server_read i x = None) -> written s' = written s -> cread s' = cread s -> sread s' = sread s ->
    linked s' (tr ++ [x])) as Hsame.
  { intros x X1 X2 X3 E1 E2 E3. apply (linked_same s); rewrite ?E1, ?E2; done. }
  destruct ev; cbn [srv_step act] in *; unfold quiet_srv in Hstep; try done.
  1-5, 7-10: apply Hsame; try done; repeat (case_match; simplify_eq/=; try done);
    repeat match goal with H : ?x ≫= _ = Some _ |- _ => destruct x; simplify_eq/= end; done.
  unfold LspServer.Read_data in Hstep. destruct (rmsg (srv s)) as [|[i d] q] eqn:Eq; [done|].
  injection Hstep as <-. destruct L as [L1 L2 L3].
  split; simpl; intros; rewrite ?up_sent_snoc, ?down_got_snoc, ?app_nil_r; auto.
  rewrite up_got_snoc. simpl. destruct (decide (i = i0)) as [->|Hne].
  - by rewrite lookup_total_insert_eq, L3.
  - rewrite lookup_total_insert_ne by done. by rewrite L3, app_nil_r.
Qed.

Lemma linked_step s tr ev s' :
  linked s tr -> step s ev = Some s' -> linked s' (tr ++ [act s ev]).
Proof.
  intros L Hstep.
  assert (forall a, mover ev = Some a -> (c ← ends s !! a; end_step s a c ev) = Some s' ->
    linked s' (tr ++ [act s ev])) as Hend.
  { intros a Hm. destruct (ends s !! a) as [c|] eqn:Hc; simpl; [|done]. intros H. by eapply linked_end_step. }
  destruct ev; try exact (Hend _ eq_refl Hstep);
    try exact (linked_srv_step _ _ _ _ L Hstep).
  cbn -[LspClient.NewClient] in Hstep. destruct (ends s !! a); [done|].
  destruct (LspClient.NewClient p) as [c out]. injection Hstep as <-.
  apply linked_move_end; by intros.
Qed.

Section Observed.
Context (p : Params).

Lemma observed_run evs s tr :
  Z.of_nat (length evs) < 2 ^ 62 ->
  exec (observe step act) (init p, []) evs = Some (s, tr) ->
  exec step (init p) evs = Some s /\ sys_inv None (length evs) s /\ linked s tr /\
  (forall i, down_sent tr i = server_writes i evs).
Proof.
  intros Hlen Hrun. assert (exec step (init p) evs = Some s /\ linked s tr /\
    (forall i, down_sent tr i = server_writes i evs)) as (E & ? & ?); [|split_and!; auto; by apply (run_inv p)].
  clear Hlen. revert s tr Hrun. induction evs as [|ev evs IH] using rev_ind; intros s tr.
  { intros [= <- <-]. split_and!; [done|apply (linked_init p)|done]. }
  rewrite !exec_app. simpl. destruct (exec (observe _ _) _ evs) as [[s1 tr1]|]; simpl; [|done].
  destruct (IH _ _ eq_refl) as (-> & L & Hw). unfold observe. simpl.
  destruct (step s1 ev) as [s2|] eqn:E; [|done]. intros [= <- <-]. split_and!; [done|by eapply linked_step|].
  intros i. rewrite down_sent_snoc, server_writes_snoc, Hw. f_equal. destruct ev; try done; simpl;
    repeat (case_match; simplify_eq/=; try done).
Qed.

(** The client at [a] has the connection [i]. *)
Definition connected (s : sys) (a : string) (i : Z) : Prop :=
  exists c, ends s !! a = Some c /\ LspClient.id c = i /\ 0 <= i.

Section Run.
Context (n : nat) (s : sys) (tr : list action) (Hv : sys_inv None n s) (L : linked s tr).

Lemma connected_info a i : connected s a i -> exists ci, infos (srv s) !! i = Some ci /\ addr ci = a /\ 73 <= i.
Proof using Hv.
  intros (c & Hc & Hid & Hi). rewrite <- Hid in Hi.
  destruct (ci_known _ _ _ _ (v_ends _ _ _ Hv _ _ Hc) Hi) as (_ & ci & Hci & Ha).
  rewrite Hid in Hci. exists ci. split_and!; [done|done|].
  by destruct (v_infos _ _ _ Hv _ _ Hci) as (_ & [? _] & _).
Qed.

(** A connection that was read from has its client. *)
Lemma read_connected i : up_got tr i <> [] ->
  exists ci, infos (srv s) !! i = Some ci /\ connected s (addr ci) i.
Proof using Hv L.
  rewrite <- (lk_sread _ _ L). intros Hne.
  destruct (infos (srv s) !! i) as [ci|] eqn:Hi.
  2: { destruct (v_new_info _ _ _ Hv _ Hi) as [_ H]. by apply app_eq_nil in H as [? _]. }
  destruct (v_infos _ _ _ Hv _ _ Hi) as (_ & ? & Hinv).
  destruct (received_source _ _ _ Hv i ci 1) as (c & Hc & Hid); [done|done| |].
  - left. rewrite (ri_rsq _ _ _ (cn_recv _ _ _ _ _ _ _ Hinv)), length_app.
    destruct (sread s !!! i); [done|simpl; lia].
  - exists ci. split; [done|]. exists c. split_and!; [done|done|lia].
Qed.

End Run.

Section Replying.
Context (evs : list event) (s : sys) (tr : list action) (Hlen : Z.of_nat (length evs) < 2 ^ 62).
Context (Hrun : exec (observe step act) (init p, []) evs = Some (s, tr)) (Hrep : replying tr).

(** A replying application is the only writer of each client. *)
Lemma replying_sole : sole_writer (fun a => default (-1) (LspClient.id <$> ends s !! a)) evs s.
Proof using Hlen Hrun Hrep.
  destruct (observed_run _ _ _ Hlen Hrun) as (_ & Hv & L & Hw).
  intros i ci Hi Hne. rewrite <- Hw. destruct (down_sent tr i) as [|p0 l] eqn:Ea; [done|exfalso].
  assert (p0 ∈ down_sent tr i) as (x & Hx & Hp)%list_elem_of_omap by (rewrite Ea; left).
  destruct x as [| |j q| | | | | |]; try done. simpl in Hp. case_decide as Hj; [|done]. subst j.
  apply list_elem_of_split in Hx as (tr1 & tr2 & Etr).
  pose proof (Hrep _ _ _ _ Etr) as Hgot.
  destruct (read_connected _ _ _ Hv L i) as (ci' & Hi' & c & Hc & Hid & _).
  { unfold up_got in *. rewrite Etr, omap_app. by intros [? _]%app_eq_nil. }
  assert (ci' = ci) as -> by congruence. apply Hne. rewrite Hc. simpl. done.
Qed.

(** It writes only to connections that exist. *)
Lemma replying_known i : known_writes p i evs.
Proof using Hlen Hrun Hrep.
  intros evs1 d evs2 s1 -> Hrun1. rewrite length_app in Hlen. rewrite exec_app in Hrun.
  destruct (exec (observe step act) (init p, []) evs1) as [[s1' tr1]|] eqn:E1; cbn [mbind option_bind exec] in Hrun; [|done].
  destruct (observed_run evs1 _ _ ltac:(simpl in Hlen; lia) E1) as (Hr1 & Hv & L & _).
  assert (s1' = s1) as -> by congruence. unfold observe at 1 in Hrun. cbn [fst snd] in Hrun.
  destruct (step s1 (SWrite i d)) as [s2|]; [|done].
  assert (exists tr2, tr = tr1 ++ ServerWrite i d :: tr2) as [tr2 ->].
  { apply observed_extends in Hrun as [tr2 E]. exists tr2. by rewrite E, <- app_assoc. }
  destruct (read_connected _ _ _ Hv L i (Hrep _ _ _ _ eq_refl)) as (ci & Hi & _). by exists ci.
Qed.

Lemma replying_inv : sys_inv (Some (fun a => default (-1) (LspClient.id <$> ends s !! a))) (length evs) s.
Proof using Hlen Hrun Hrep.
  destruct (observed_run _ _ _ Hlen Hrun) as (Hr & _). by apply (sole_inv p); [..|apply replying_sole].
Qed.

Lemma replying_pipe i : accepted s !!! i `prefix_of` down_sent tr i.
Proof using Hlen Hrun Hrep.
  destruct (observed_run _ _ _ Hlen Hrun) as (Hr & _ & _ & ->).
  destruct (run_pipe p evs i s Hlen Hr) as (early & lost & [E _ _] & Hearly & _).
  rewrite E, (Hearly (replying_known i)). simpl. by apply prefix_app_r.
Qed.
End Replying.

#[export] Program Instance lsp_transport : Transport sys event := {|
  t_init := init p;
  t_step := step;
  t_act := act;
  t_conn := connected
|}.
Next Obligation.
  intros evs s tr Hlen Hrun Hrep a i Hc. destruct (observed_run _ _ _ Hlen Hrun) as (_ & Hv & L & _).
  destruct (connected_info _ _ Hv _ _ Hc) as (ci & Hi & <- & _). split.
  - rewrite <- (lk_sread _ _ L), <- (lk_written _ _ L). etrans; [|by eapply delivered_prefix].
    by apply prefix_app_r.
  - destruct Hc as (c & Hc & <- & _). rewrite <- (lk_cread _ _ L).
    pose proof (cread_prefix _ _ _ (replying_inv _ _ _ Hlen Hrun Hrep) _ _ Hc) as H.
    cbn beta in H. rewrite Hc in H. simpl in H. etrans; [|by eapply replying_pipe]. etrans; [|exact H]. by apply prefix_app_r.
Qed.
Next Obligation.
  intros evs s tr a i Hlen Hrun Hc. destruct (observed_run _ _ _ Hlen Hrun) as (_ & Hv & _ & _).
  destruct (connected_info _ _ Hv _ _ Hc) as (ci & Hi & <- & ?). split_and!; [lia| |].
  - intros j Hj. destruct Hc as (c & Hc & <- & _), Hj as (c' & Hc' & <- & _). congruence.
  - intros b Hb. destruct (connected_info _ _ Hv _ _ Hb) as (ci' & Hi' & <- & _). congruence.
Qed.
Next Obligation.
  intros evs s tr i Hlen Hrun Hrep Hne. destruct (observed_run _ _ _ Hlen Hrun) as (_ & Hv & L & _).
  destruct (read_connected _ _ _ Hv L _ Hne) as (ci & _ & H). eauto.
Qed.
Next Obligation.
  intros evs s tr a Hlen Hrun Hrep Hne. destruct (observed_run _ _ _ Hlen Hrun) as (_ & Hv & L & _).
  rewrite <- (lk_cread _ _ L) in Hne.
  destruct (ends s !! a) as [c|] eqn:Hc.
  2: { by destruct (v_new_end _ _ _ Hv _ Hc) as [_ ?]. }
  exists (LspClient.id c), c. split_and!; [done|done|].
  pose proof (cread_prefix _ _ _ (replying_inv _ _ _ Hlen Hrun Hrep) _ _ Hc) as [l H].
  cbn beta in H. rewrite Hc in H. simpl in H.
  destruct (decide (0 <= LspClient.id c)) as [|Hneg]; [done|exfalso].
  destruct (infos (srv s) !! LspClient.id c) as [ci|] eqn:Hi.
  - destruct (v_infos _ _ _ Hv _ _ Hi) as (_ & ? & _). lia.
  - destruct (v_new_info _ _ _ Hv _ Hi) as [Ha _]. rewrite Ha in H.
    symmetry in H. apply app_eq_nil in H as [H _]. by apply app_eq_nil in H as [? _].
Qed.
End Observed.
