(* ===== verification/LspEcho.v ===== *)
(** The echo server and its clients (src/project-2/src/example.com/srunner and
    crunner), on any transport, and on the LSP library.

    [runServer] is between its [Read] and its [Write] when it has something in hand;
    [runClient] is at its prompt, or waits for the reply to the token it sent, or has
    returned.  [transcript] records each token of a client with the line printed for
    it.  The [Write] of the library never returns an error, so the branches for one
    are not taken. *)
From S2P Require Import Prelude GoText LspMessage LspWindow LspClient LspServer LspSystem LspDelivery Transport LspTransport.

Inductive client_pc := AtPrompt | AtRead (s : string) | Exited.

Record session := mkSession { pc : client_pc; transcript : list (string * string) }.

#[export] Instance session_inhabited : Inhabited session := populate (mkSession AtPrompt []).

Record echo := mkEcho {
  hand : option (Z * string);          (* [id, payload] of [runServer] *)
  sessions : gmap string session       (* one [runClient] per address *)
}.

Definition session_at (e : echo) (a : string) : session :=
  default (mkSession AtPrompt []) (sessions e !! a).

(** The loop of [runServer]: which calls it makes when. *)
Definition runServer (hand : option (Z * string)) (act : action) : option (option (Z * string)) :=
  match hand, act with
  | None, ServerRead id payload => Some (Some (id, payload))
  | None, ServerLost _ => Some None
  | Some (id, payload), ServerWrite i d =>
      if (i =? id) && String.eqb d payload then Some None else None
  | _, _ => None
  end.

(** The loop of [runClient]. *)
Definition runClient (c : session) (act : action) : option session :=
  match pc c, act with
  | AtPrompt, ClientWrite _ s => Some (mkSession (AtRead s) (transcript c))
  | AtRead s, ClientRead _ payload => Some (mkSession AtPrompt (transcript c ++ [(s, payload)]))
  | AtRead _, ClientLost _ => Some (mkSession Exited (transcript c))
  | _, _ => None
  end.

(** [fmt.Scan] fails: the input has ended. *)
Definition scan_end (c : session) : option session :=
  match pc c with AtPrompt => Some (mkSession Exited (transcript c)) | _ => None end.

Definition put_session (e : echo) (a : string) (r : option session) : option echo :=
  c ← r; Some (mkEcho (hand e) (<[a := c]> (sessions e))).

(** One program counter moves; [Some a] is the end of the input of the client at
    [a]. *)
Definition echo_app (e : echo) (x : option string) (act : action) : option echo :=
  match act with
  | ServerRead _ _ | ServerLost _ | ServerWrite _ _ | ServerClose =>
      h ← runServer (hand e) act; Some (mkEcho h (sessions e))
  | ClientRead a _ | ClientLost a | ClientWrite a _ | ClientClose a =>
      put_session e a (runClient (session_at e a) act)
  | Silent => match x with
              | Some a => put_session e a (scan_end (session_at e a))
              | None => Some e
              end
  end.

Definition echo_init : echo := mkEcho None ∅.

(** ** What the programs have seen *)

Definition in_hand (e : echo) (i : Z) : list string :=
  match hand e with Some (j, d) => if decide (j = i) then [d] else [] | None => [] end.

(** The token that waits for its reply. *)
Definition session_ok (tr : list action) (a : string) (c : session) : Prop :=
  down_got tr a = (transcript c).*2 /\
  match pc c with
  | AtPrompt => up_sent tr a = (transcript c).*1
  | AtRead s => up_sent tr a = (transcript c).*1 ++ [s]
  | Exited => exists l, up_sent tr a = (transcript c).*1 ++ l
  end.

Record echo_inv (tr : list action) (e : echo) : Prop := {
  ei_hand : forall i, up_got tr i = down_sent tr i ++ in_hand e i;
  ei_session : forall a, session_ok tr a (session_at e a);
  ei_replying : replying tr
}.

Lemma echo_inv_init : echo_inv [] echo_init.
Proof. split; [done| |apply replying_nil]. by intros a. Qed.

Lemma session_at_put e a c b h :
  session_at (mkEcho h (<[a := c]> (sessions e))) b = if decide (a = b) then c else session_at e b.
Proof.
  unfold session_at. simpl. case_decide as H.
  - subst. by rewrite lookup_insert_eq.
  - by rewrite lookup_insert_ne.
Qed.

(** A step of the client at [a]. *)
Lemma echo_inv_session tr tr' e a c :
  (forall i, up_got tr' i = up_got tr i /\ down_sent tr' i = down_sent tr i) ->
  (forall b, b <> a -> up_sent tr' b = up_sent tr b /\ down_got tr' b = down_got tr b) ->
  session_ok tr' a c -> replying tr' -> echo_inv tr e ->
  echo_inv tr' (mkEcho (hand e) (<[a := c]> (sessions e))).
Proof.
  intros E1 E2 Hc Hr [H1 H2 _]. split; [|intros b|done].
  - intros i. destruct (E1 i) as [-> ->]. apply H1.
  - rewrite session_at_put. case_decide as H; [by subst|].
    unfold session_ok. destruct (E2 b) as [-> ->]; [done|]. apply H2.
Qed.

Lemma echo_inv_silent tr e x e' : echo_inv tr e -> echo_app e x Silent = Some e' -> echo_inv tr e'.
Proof.
  intros Hi. destruct x as [a|]; simpl; [|by intros [= <-]].
  unfold put_session, scan_end. pose proof (ei_session _ _ Hi a) as [Hd Hp].
  destruct (pc (session_at e a)) eqn:Hpc; simpl; try done. intros [= <-].
  apply (echo_inv_session tr); try done; [|by apply Hi]. split; [done|]. simpl.
  exists []. by rewrite app_nil_r.
Qed.

(** An action of the client at [a]. *)
Lemma echo_inv_client tr e a act e' :
  (forall i, server_read i act = None) -> (forall i, server_write i act = None) ->
  (forall b, b <> a -> client_read b act = None /\ client_write b act = None) ->
  echo_inv tr e -> put_session e a (runClient (session_at e a) act) = Some e' ->
  (forall c, runClient (session_at e a) act = Some c -> session_ok (tr ++ [act]) a c) ->
  echo_inv (tr ++ [act]) e'.
Proof.
  intros X1 X2 X3 Hi. unfold put_session. destruct (runClient _ _) as [c|]; simpl; [|done].
  intros [= <-] Hc. apply (echo_inv_session tr); auto.
  - intros i. autorewrite with streams. by rewrite X1, X2, !app_nil_r.
  - intros b Hb. autorewrite with streams. destruct (X3 b Hb) as [-> ->]. by rewrite !app_nil_r.
  - apply replying_snoc. split; [apply Hi|]. intros i d ->. specialize (X2 i). simpl in X2.
    by case_decide.
Qed.

(** An action of [runServer]. *)
Lemma echo_inv_server tr e act h :
  (forall i, in_hand e i ++ option_list (server_read i act) =
      option_list (server_write i act) ++ in_hand (mkEcho h (sessions e)) i) ->
  (forall a, client_read a act = None) -> (forall a, client_write a act = None) ->
  (forall i d, act = ServerWrite i d -> in_hand e i <> []) ->
  echo_inv tr e -> echo_inv (tr ++ [act]) (mkEcho h (sessions e)).
Proof.
  intros Hh X1 X2 Hr Hi. split.
  - intros i. autorewrite with streams. by rewrite (ei_hand _ _ Hi), <- !app_assoc, Hh.
  - intros a. unfold session_ok. autorewrite with streams. rewrite X1, X2, !app_nil_r.
    apply (ei_session _ _ Hi).
  - apply replying_snoc. split; [apply Hi|]. intros i d ->. rewrite (ei_hand _ _ Hi).
    intros [_ H]%app_eq_nil. by eapply Hr.
Qed.

Lemma echo_inv_step tr e x act e' :
  echo_inv tr e -> echo_app e x act = Some e' -> echo_inv (tr ++ [act]) e'.
Proof.
  intros Hi Happ.
  destruct act as [i d|i|i d| |a d|a|a d|a|]; cbn [echo_app] in Happ.
  - destruct (hand e) as [[]|] eqn:Eh; simpl in Happ; [done|]. injection Happ as <-.
    apply echo_inv_server; try done. intros j. unfold in_hand. rewrite Eh. simpl. by case_decide.
  - destruct (hand e) as [[]|] eqn:Eh; simpl in Happ; [done|]. injection Happ as <-.
    apply echo_inv_server; try done. intros j. unfold in_hand. by rewrite Eh.
  - destruct (hand e) as [[j p]|] eqn:Eh; simpl in Happ; [|done].
    destruct (_ && _) eqn:E; simpl in Happ; [|done]. injection Happ as <-.
    apply andb_prop in E as [->%Z.eqb_eq ->%String.eqb_eq].
    apply echo_inv_server; try done; unfold in_hand; rewrite Eh; simpl.
    + intros k. by case_decide.
    + intros ? ? [= <- <-]. by rewrite decide_True.
  - by destruct (hand e) as [[]|].
  - apply (echo_inv_client tr e a); try done.
    { intros b Hb. simpl. by rewrite decide_False. }
    intros c. pose proof (ei_session _ _ Hi a) as [Hd Hp]. unfold runClient, session_ok.
    destruct (pc _); try done. intros [= <-]. simpl. autorewrite with streams. simpl.
    rewrite decide_True by done. rewrite Hd, Hp, !fmap_app, app_nil_r. done.
  - apply (echo_inv_client tr e a); try done.
    intros c. pose proof (ei_session _ _ Hi a) as [Hd Hp]. unfold runClient, session_ok.
    destruct (pc _); try done. intros [= <-]. simpl. autorewrite with streams. simpl.
    rewrite Hd, Hp, !app_nil_r. eauto.
  - apply (echo_inv_client tr e a); try done.
    { intros b Hb. simpl. by rewrite decide_False. }
    intros c. pose proof (ei_session _ _ Hi a) as [Hd Hp]. unfold runClient, session_ok.
    destruct (pc _); try done. intros [= <-]. simpl. autorewrite with streams. simpl.
    rewrite decide_True by done. by rewrite Hd, Hp, app_nil_r.
  - simpl in Happ. unfold put_session, runClient in Happ. by destruct (pc _).
  - eapply echo_inv_silent in Happ; [|exact Hi].
    destruct Happ as [H1 H2 H3]. split; [| |by apply replying_snoc].
    + intros i. autorewrite with streams. by rewrite !app_nil_r.
    + intros a. unfold session_ok. autorewrite with streams. rewrite !app_nil_r. apply H2.
Qed.

(** ** What the clients get *)

Section OnTransport.
Context {St Ev : Type} `{Transport St Ev}.
Context (evs : list (option string * option Ev)) (c : composed St echo).
Context (Hlen : Z.of_nat (length evs) < 2 ^ 62).
Context (Hrun : exec (compose echo_app) (composed_init echo_init) evs = Some c).

Lemma echo_run_inv : echo_inv (seen c) (apps c).
Proof using Hrun.
  eapply compose_inv; eauto using echo_inv_init, echo_inv_silent, echo_inv_step.
Qed.

(** What a client got back is a prefix of what it sent. *)
Lemma echo_prefix a : down_got (seen c) a `prefix_of` up_sent (seen c) a.
Proof using Hrun Hlen.
  destruct (composed_run _ _ _ _ Hrun) as (es & Hes & Hex). pose proof echo_run_inv as Hi.
  destruct (decide (down_got (seen c) a = [])) as [->|Hne]; [apply prefix_nil|].
  destruct (t_down_conn es _ _ a ltac:(lia) Hex (ei_replying _ _ Hi) Hne) as [i Hc].
  destruct (t_fifo es _ _ ltac:(lia) Hex (ei_replying _ _ Hi) a i Hc) as [Hup Hdown].
  rewrite (ei_hand _ _ Hi) in Hup. etrans; [exact Hdown|]. etrans; [|exact Hup].
  by apply prefix_app_r.
Qed.

Lemma transcript_equal a s p : (s, p) ∈ transcript (session_at (apps c) a) -> p = s.
Proof using Hrun Hlen.
  pose proof (echo_prefix a) as Hp. destruct (ei_session _ _ echo_run_inv a) as [Hd Hu].
  rewrite Hd in Hp. set (t := transcript _) in *.
  assert (exists l, up_sent (seen c) a = t.*1 ++ l) as [l El].
  { destruct (pc _); [exists []; by rewrite app_nil_r|by eexists|done]. }
  rewrite El in Hp. intros [k Hk]%list_elem_of_lookup.
  assert (t.*2 !! k = Some p) as H2 by (by rewrite list_lookup_fmap, Hk).
  assert (t.*1 !! k = Some s) as H1 by (by rewrite list_lookup_fmap, Hk).
  pose proof (prefix_lookup_Some _ _ _ _ H2 Hp) as H3.
  rewrite (lookup_app_l_Some _ _ _ _ H1) in H3. congruence.
Qed.

Lemma prompt_equal a : pc (session_at (apps c) a) = AtPrompt -> down_got (seen c) a = up_sent (seen c) a.
Proof using Hrun Hlen.
  intros Hpc. pose proof (echo_prefix a) as Hp. destruct (ei_session _ _ echo_run_inv a) as [Hd Hu].
  rewrite Hpc in Hu. apply prefix_length_eq; [done|]. rewrite Hd, Hu, !length_fmap. done.
Qed.
End OnTransport.

Section OnLsp.
Context (p : Params).
#[local] Existing Instance lsp_transport.

(** The composed system: the LSP library below, [runServer] and the [runClient]s on
    top. *)
Definition echo_step : composed sys echo -> option string * option event -> option (composed sys echo) :=
  @compose _ _ _ _ (lsp_transport p) echo_app.
Definition echo_start : composed sys echo := @composed_init _ _ _ (lsp_transport p) echo_init.

(** C4: the echo server over LSP, end to end.  Whatever the network loses, repeats,
    reorders, delays or cuts short, and whichever clients come and go, what a client
    of the echo server reads is a prefix of what it wrote; every line [runClient]
    prints is the token it had sent; and at its prompt a client has everything it
    sent back. *)
Theorem echo_replies evs c a :
  Z.of_nat (length evs) < 2 ^ 62 -> exec echo_step echo_start evs = Some c ->
  cread (net c) !!! a `prefix_of` written (net c) !!! a /\
  (forall s d, (s, d) ∈ transcript (session_at (apps c) a) -> d = s) /\
  (pc (session_at (apps c) a) = AtPrompt -> cread (net c) !!! a = written (net c) !!! a).
Proof.
  intros Hlen Hrun. destruct (composed_run _ _ _ _ Hrun) as (es & Hes & Hex).
  destruct (observed_run p es (net c) (seen c) ltac:(lia) Hex) as (_ & _ & L & _).
  rewrite (lk_cread _ _ L), (lk_written _ _ L). split_and!.
  - by eapply echo_prefix.
  - intros s d. by eapply transcript_equal.
  - by eapply prompt_equal.
Qed.
End OnLsp.

(** ** Witness: one token and its echo over a network that first cuts the data *)

Definition demo_echo : list (option string * option event) :=
  (fun ev => (None, Some ev)) <$>
    (demo_connect ++ demo_hello ++
     [SWrite 73 "hello"; SHandle CaseOutgoing; SHandle CaseOutgoing;
      SClient 73 LspServer.CaseDefault;
      EReceive "c1" 2 None; EHandler "c1" LspClient.CaseIncoming;
      EHandler "c1" LspClient.CaseDefault; EHandler "c1" LspClient.CaseDefault; ERead "c1"]).

Lemma echo_replies_witness :
  let c := run (echo_step demo_params) (echo_start demo_params)
             (demo_echo ++ [(Some "c1"%string, None)]) in
  transcript (session_at (apps c) "c1") = [("hello", "hello")]%string /\
  cread (net c) !!! "c1"%string `prefix_of` written (net c) !!! "c1"%string.
Proof.
  split; [vm_refl|].
  apply (echo_replies demo_params (demo_echo ++ [(Some "c1"%string, None)]) _ "c1"); [vm_refl|].
  apply exec_run; vm_refl.
Defined.
