(* ===== verification/Utf8.v ===== *)
(** UTF-8 as Go's [range] over a string and [unicode/utf8] decode it, and
    [strings.FieldsFunc] on top of it. *)
From S2P Require Import Prelude GoText.
From Stdlib Require Import Ascii.

Definition byte (c : ascii) : Z := Z.of_N (N_of_ascii c).
Definition char (b : Z) : ascii := ascii_of_N (Z.to_N b).

Definition RuneError : Z := 65533.

Definition in_range (lo hi : Z) (c : ascii) : bool := (lo <=? byte c) && (byte c <=? hi).

(** The six low bits of a continuation byte. *)
Definition low6 (c : ascii) : Z := Z.land (byte c) 63.

(** [utf8.DecodeRuneInString]: the rune and the number of bytes it takes; one byte
    and [RuneError] for an invalid encoding. *)
Definition DecodeRune (s : string) : Z * nat :=
  match s with
  | EmptyString => (RuneError, 0%nat)
  | String c0 s1 =>
      let b0 := byte c0 in
      if b0 <? 128 then (b0, 1%nat)
      else if in_range 194 223 c0 then
        match s1 with
        | String c1 _ =>
            if in_range 128 191 c1
            then (Z.lor (Z.shiftl (Z.land b0 31) 6) (low6 c1), 2%nat)
            else (RuneError, 1%nat)
        | _ => (RuneError, 1%nat)
        end
      else if in_range 224 239 c0 then
        match s1 with
        | String c1 (String c2 _) =>
            if in_range (if b0 =? 224 then 160 else 128) (if b0 =? 237 then 159 else 191) c1 &&
               in_range 128 191 c2
            then (Z.lor (Z.shiftl (Z.land b0 15) 12) (Z.lor (Z.shiftl (low6 c1) 6) (low6 c2)), 3%nat)
            else (RuneError, 1%nat)
        | _ => (RuneError, 1%nat)
        end
      else if in_range 240 244 c0 then
        match s1 with
        | String c1 (String c2 (String c3 _)) =>
            if in_range (if b0 =? 240 then 144 else 128) (if b0 =? 244 then 143 else 191) c1 &&
               in_range 128 191 c2 && in_range 128 191 c3
            then (Z.lor (Z.shiftl (Z.land b0 7) 18) (Z.lor (Z.shiftl (low6 c1) 12)
                    (Z.lor (Z.shiftl (low6 c2) 6) (low6 c3))), 4%nat)
            else (RuneError, 1%nat)
        | _ => (RuneError, 1%nat)
        end
      else (RuneError, 1%nat)
  end.

Fixpoint take_str (n : nat) (s : string) : string :=
  match n, s with
  | S n, String c s => String c (take_str n s)
  | _, _ => EmptyString
  end.

Fixpoint drop_str (n : nat) (s : string) : string :=
  match n, s with
  | S n, String _ s => drop_str n s
  | _, _ => s
  end.

(** The runes [range] visits, each with its bytes.  Every turn consumes at least
    one byte, so the length of the string is enough fuel. *)
Fixpoint runes_fuel (fuel : nat) (s : string) : list (string * Z) :=
  match fuel, s with
  | S fuel, String _ _ =>
      let '(r, n) := DecodeRune s in
      (take_str n s, r) :: runes_fuel fuel (drop_str n s)
  | _, _ => []
  end.

Definition runes (s : string) : list (string * Z) := runes_fuel (String.length s) s.

Definition flush (cur : string) : list string :=
  match cur with
  | EmptyString => []
  | _ => [cur]
  end.

Fixpoint fields (sep : Z -> bool) (cur : string) (rs : list (string * Z)) : list string :=
  match rs with
  | [] => flush cur
  | (seg, r) :: rs =>
      if sep r then flush cur ++ fields sep EmptyString rs
      else fields sep (cur ++ seg)%string rs
  end.

(** [strings.FieldsFunc] *)
Definition FieldsFunc (s : string) (sep : Z -> bool) : list string :=
  fields sep EmptyString (runes s).

(** ** Facts *)

Lemma DecodeRune_size c s : (1 <= (DecodeRune (String c s)).2 <= 4)%nat.
Proof.
  simpl. repeat case_match; simpl; lia.
Qed.

Lemma take_drop_str n s : (take_str n s ++ drop_str n s)%string = s.
Proof. revert s. induction n as [|n IH]; intros [|c s]; simpl; [done..|by rewrite IH]. Qed.

Lemma length_drop_str n s :
  String.length (drop_str n s) = (String.length s - n)%nat.
Proof. revert s. induction n as [|n IH]; intros [|c s]; simpl; [done..|by rewrite IH]. Qed.

Lemma take_str_take n s : take_str n (take_str n s) = take_str n s.
Proof. revert s. induction n as [|n IH]; intros [|c s]; simpl; [done..|by rewrite IH]. Qed.

Lemma drop_str_take n s : drop_str n (take_str n s) = EmptyString.
Proof. revert s. induction n as [|n IH]; intros [|c s]; simpl; [done..|by rewrite IH]. Qed.

(** More fuel than the length changes nothing. *)
Lemma runes_fuel_enough n m s :
  (String.length s <= n)%nat -> (String.length s <= m)%nat -> runes_fuel n s = runes_fuel m s.
Proof.
  revert m s. induction n as [|n IH]; intros m s Hn Hm.
  { destruct s; [by destruct m|simpl in Hn; lia]. }
  destruct m as [|m]; [destruct s; [done|simpl in Hm; lia]|].
  destruct s as [|c s]; [done|]. cbn -[DecodeRune].
  pose proof (DecodeRune_size c s) as Hsz. destruct (DecodeRune (String c s)) as [r k].
  cbn [snd] in Hsz. simpl in Hn, Hm.
  f_equal. apply IH; rewrite length_drop_str; simpl; lia.
Qed.

Lemma runes_cons c s :
  runes (String c s) =
    (take_str (DecodeRune (String c s)).2 (String c s), (DecodeRune (String c s)).1)
    :: runes (drop_str (DecodeRune (String c s)).2 (String c s)).
Proof.
  unfold runes at 1. cbn -[DecodeRune]. pose proof (DecodeRune_size c s) as Hsz.
  destruct (DecodeRune (String c s)) as [r k]. cbn [fst snd] in *. f_equal.
  apply runes_fuel_enough; rewrite ?length_drop_str; cbn [String.length]; lia.
Qed.

(** The runes of a string make it up. *)
Lemma runes_concat s : concat_all (runes s).*1 = s.
Proof.
  induction s as [s IH] using (well_founded_induction (Wf_nat.well_founded_ltof _ String.length)).
  destruct s as [|c s]; [done|]. rewrite runes_cons, fmap_cons. cbn [fst concat_all].
  pose proof (DecodeRune_size c s) as Hsz. rewrite IH; [by rewrite take_drop_str|].
  unfold Wf_nat.ltof. rewrite length_drop_str. cbn [String.length]. lia.
Qed.

Lemma in_range_ascii lo hi c : byte c < 128 -> 128 <= lo -> in_range lo hi c = false.
Proof. intros. unfold in_range. rewrite (proj2 (Z.leb_gt lo (byte c))) by lia. done. Qed.

(** An ASCII byte after a string does not change how the string decodes. *)
Lemma DecodeRune_sep sep c s t :
  byte sep < 128 -> DecodeRune (String c s ++ String sep t) = DecodeRune (String c s).
Proof.
  intros Hs.
  assert (forall hi, in_range 128 hi sep = false) as H by (intros; by apply in_range_ascii).
  assert (forall b x (lo hi : Z), 128 <= lo -> in_range (if b =? x then lo else 128) hi sep = false)
    as H' by (intros; apply in_range_ascii; [done|case_match; lia]).
  destruct s as [|c1 [|c2 [|c3 s]]]; [..|done]; cbn -[in_range low6 byte];
    rewrite ?H, ?(fun b x hi => H' b x 160 hi ltac:(lia)),
      ?(fun b x hi => H' b x 144 hi ltac:(lia)), ?andb_false_r; try done;
    by repeat case_match.
Qed.

Lemma take_str_app n s t : (n <= String.length s)%nat -> take_str n (s ++ t) = take_str n s.
Proof.
  revert s. induction n as [|n IH]; intros [|c s]; simpl; intros H; try done; [lia|].
  by rewrite IH by lia.
Qed.

Lemma drop_str_app n s t :
  (n <= String.length s)%nat -> drop_str n (s ++ t) = (drop_str n s ++ t)%string.
Proof.
  revert s. induction n as [|n IH]; intros [|c s]; simpl; intros H; try done; [lia|].
  by rewrite IH by lia.
Qed.

Lemma DecodeRune_le s : ((DecodeRune s).2 <= String.length s)%nat.
Proof. destruct s as [|c [|c1 [|c2 [|c3 s]]]]; simpl; repeat case_match; simpl; lia. Qed.

Lemma runes_ascii sep t : byte sep < 128 ->
  runes (String sep t) = (String sep EmptyString, byte sep) :: runes t.
Proof.
  intros Hs. rewrite runes_cons. simpl. rewrite (proj2 (Z.ltb_lt _ _) Hs). simpl.
  done.
Qed.

(** An ASCII byte delimits what is before it. *)
Lemma runes_sep sep s t :
  byte sep < 128 ->
  runes (s ++ String sep t) = runes s ++ (String sep EmptyString, byte sep) :: runes t.
Proof.
  intros Hs.
  induction s as [s IH] using (well_founded_induction (Wf_nat.well_founded_ltof _ String.length)).
  destruct s as [|c s]; [by apply runes_ascii|].
  change (String c s ++ String sep t)%string with (String c (s ++ String sep t)).
  rewrite !runes_cons. change (String c (s ++ String sep t)) with (String c s ++ String sep t)%string.
  rewrite DecodeRune_sep by done. pose proof (DecodeRune_le (String c s)) as Hle.
  pose proof (DecodeRune_size c s) as Hsz.
  rewrite take_str_app, drop_str_app by done. rewrite IH; [done|].
  unfold Wf_nat.ltof. rewrite length_drop_str. cbn [String.length] in *. lia.
Qed.

Lemma fields_sep sep cur rs1 seg r rs2 :
  sep r = true ->
  fields sep cur (rs1 ++ (seg, r) :: rs2) = fields sep cur rs1 ++ fields sep EmptyString rs2.
Proof.
  intros Hr. revert cur. induction rs1 as [|[seg1 r1] rs1 IH]; intros cur; simpl; [by rewrite Hr|].
  case_match; [|by rewrite IH]. by rewrite IH, app_assoc.
Qed.

(** The words of a text are those of its two parts around a separating byte. *)
Lemma FieldsFunc_sep sep s c t :
  byte c < 128 -> sep (byte c) = true ->
  FieldsFunc (s ++ String c t) sep = FieldsFunc s sep ++ FieldsFunc t sep.
Proof.
  intros Hc Hs. unfold FieldsFunc. rewrite runes_sep by done. by apply fields_sep.
Qed.

Lemma runes_length s : (length (runes s) <= String.length s)%nat.
Proof.
  unfold runes. generalize (String.length s) as n. intros n. revert s.
  induction n as [|n IH]; intros s; [simpl; lia|]. destruct s as [|c s]; [simpl; lia|].
  cbn -[DecodeRune]. destruct (DecodeRune (String c s)) as [r k]. cbn [length].
  specialize (IH (drop_str k (String c s))). lia.
Qed.

Lemma fields_length sep cur rs :
  (length (fields sep cur rs) <= length rs + length (flush cur))%nat.
Proof.
  revert cur. induction rs as [|[seg r] rs IH]; intros cur; simpl; [lia|]. destruct (sep r).
  - rewrite length_app. specialize (IH EmptyString). simpl in IH. lia.
  - specialize (IH (cur ++ seg)%string).
    assert (length (flush (cur ++ seg)) <= 1)%nat by (destruct (cur ++ seg)%string; simpl; lia). lia.
Qed.

Lemma FieldsFunc_length s sep : (length (FieldsFunc s sep) <= String.length s)%nat.
Proof.
  unfold FieldsFunc. pose proof (fields_length sep EmptyString (runes s)).
  pose proof (runes_length s). simpl in *. lia.
Qed.
