(* ===== verification/Json.v ===== *)
(** The JSON text of the key/value pairs that the map-reduce jobs exchange in
    files: [json.Encoder.Encode] and [json.Decoder.Decode] at the type
    [KeyValue] of src/project-3/src/mapreduce/mapreduce.go.

    The encoder follows encoding/json byte by byte (HTML escaping included).  The
    decoder reads the layout the encoder writes, with any JSON string in it; a
    text of another layout is an error. *)
From S2P Require Import Prelude GoText Utf8.
From Stdlib Require Import Ascii.

Record KeyValue := mkKeyValue { Key : string; Value : string }.

#[export] Instance KeyValue_eq_dec : EqDecision KeyValue.
Proof. solve_decision. Defined.

Definition dquote : ascii := char 34.
Definition backslash : ascii := char 92.

Definition one (c : ascii) : string := String c EmptyString.

(** ** Encoding *)

Definition hex (d : Z) : ascii := if d <? 10 then char (48 + d) else char (87 + d).

Definition quote_byte (c : ascii) : string :=
  let b := byte c in
  if (b =? 34) || (b =? 92) then String backslash (one c)
  else if b =? 10 then String backslash (one "n")
  else if b =? 13 then String backslash (one "r")
  else if b =? 9 then String backslash (one "t")
  else if (b <? 32) || (b =? 38) || (b =? 60) || (b =? 62) then
    String backslash ("u00" ++ String (hex (Z.shiftr b 4)) (one (hex (Z.land b 15))))
  else one c.

(** A byte that is not part of valid UTF-8 is a segment of its own. *)
Definition invalid (seg : string) (r : Z) : bool :=
  (r =? RuneError) && (Z.of_nat (String.length seg) =? 1).

Definition quote_rune (sr : string * Z) : string :=
  let '(seg, r) := sr in
  if invalid seg r then String backslash "ufffd"
  else if (r =? 8232) || (r =? 8233) then
    String backslash ("u202" ++ one (hex (Z.land r 15)))
  else match seg with
       | String c EmptyString => quote_byte c
       | _ => seg
       end.

Definition quoted (s : string) : string := concat_all (quote_rune <$> runes s).

Definition literal (s : string) : string := String dquote (s ++ one dquote).

Definition Encode (kv : KeyValue) : string :=
  ("{" ++ literal "Key" ++ ":" ++ String dquote (quoted (Key kv) ++ one dquote) ++ "," ++
   literal "Value" ++ ":" ++ String dquote (quoted (Value kv) ++ one dquote) ++ "}" ++ newline)%string.

(** ** Decoding *)

Definition EncodeRune (r : Z) : string :=
  let cont k := char (Z.lor 128 (Z.land (Z.shiftr r k) 63)) in
  if (r <? 0) || (1114111 <? r) || ((55296 <=? r) && (r <=? 57343)) then
    String (char 239) (String (char 191) (one (char 189)))
  else if r <? 128 then one (char r)
  else if r <? 2048 then String (char (Z.lor 192 (Z.shiftr r 6))) (one (cont 0))
  else if r <? 65536 then
    String (char (Z.lor 224 (Z.shiftr r 12))) (String (cont 6) (one (cont 0)))
  else String (char (Z.lor 240 (Z.shiftr r 18))) (String (cont 12) (String (cont 6) (one (cont 0)))).

Definition unhex (c : ascii) : option Z :=
  let b := byte c in
  if in_range 48 57 c then Some (b - 48)
  else if in_range 97 102 c then Some (b - 87)
  else if in_range 65 70 c then Some (b - 55)
  else None.

Definition hex4 (s : string) : option (Z * string) :=
  match s with
  | String a (String b (String c (String d t))) =>
      a ← unhex a; b ← unhex b; c ← unhex c; d ← unhex d;
      Some (4096 * a + 256 * b + 16 * c + d, t)
  | _ => None
  end.

(** The second half of a surrogate pair. *)
Definition surrogate (r : Z) (t : string) : Z * string :=
  match t with
  | String c (String u t') =>
      if Ascii.eqb c backslash && Ascii.eqb u "u" then
        match hex4 t' with
        | Some (r2, t'') =>
            if (r <? 56320) && (56320 <=? r2) && (r2 <=? 57343)
            then (65536 + Z.lor (Z.shiftl (r - 55296) 10) (r2 - 56320), t'')
            else (RuneError, t)
        | None => (RuneError, t)
        end
      else (RuneError, t)
  | _ => (RuneError, t)
  end.

Definition unescape (e : ascii) : option ascii :=
  let b := byte e in
  if (b =? 34) || (b =? 92) || (b =? 47) then Some e
  else if b =? 98 then Some (char 8)
  else if b =? 102 then Some (char 12)
  else if b =? 110 then Some (char 10)
  else if b =? 114 then Some (char 13)
  else if b =? 116 then Some (char 9)
  else None.

Definition push (seg : string) (r : option (string * string)) : option (string * string) :=
  match r with
  | Some (s, rest) => Some ((seg ++ s)%string, rest)
  | None => None
  end.

(** The string after its opening quote, and the text after its closing one.
    Every turn consumes a byte. *)
Fixpoint unquote (fuel : nat) (s : string) : option (string * string) :=
  match fuel, s with
  | S fuel, String c t =>
      if Ascii.eqb c dquote then Some (EmptyString, t)
      else if Ascii.eqb c backslash then
        match t with
        | String e t =>
            if Ascii.eqb e "u" then
              match hex4 t with
              | Some (r, t) =>
                  let '(r, t) := if (55296 <=? r) && (r <=? 57343) then surrogate r t else (r, t) in
                  push (EncodeRune r) (unquote fuel t)
              | None => None
              end
            else match unescape e with
                 | Some e => push (one e) (unquote fuel t)
                 | None => None
                 end
        | EmptyString => None
        end
      else if byte c <? 32 then None
      else
        let '(r, n) := DecodeRune s in
        let seg := take_str n s in
        push (if invalid seg r then EncodeRune RuneError else seg) (unquote fuel (drop_str n s))
  | _, _ => None
  end.

Fixpoint strip (lit s : string) : option string :=
  match lit, s with
  | EmptyString, _ => Some s
  | String a lit, String b s => if Ascii.eqb a b then strip lit s else None
  | String _ _, EmptyString => None
  end.

Definition Decode (s : string) : option (KeyValue * string) :=
  s ← strip ("{" ++ literal "Key" ++ ":" ++ one dquote) s;
  '(k, s) ← unquote (String.length s) s;
  s ← strip ("," ++ literal "Value" ++ ":" ++ one dquote) s;
  '(v, s) ← unquote (String.length s) s;
  s ← strip ("}" ++ newline) s;
  Some (mkKeyValue k v, s).

(** The loop that decodes until an error, the end of the file included. *)
Fixpoint decode_loop (fuel : nat) (s : string) : list KeyValue :=
  match fuel with
  | S fuel =>
      match Decode s with
      | Some (kv, s) => kv :: decode_loop fuel s
      | None => []
      end
  | O => []
  end.

Definition DecodeAll (s : string) : list KeyValue := decode_loop (String.length s) s.

(** ** What a string becomes on the way *)

Definition sanitize_rune (sr : string * Z) : string :=
  let '(seg, r) := sr in if invalid seg r then EncodeRune RuneError else seg.

Definition sanitize (s : string) : string := concat_all (sanitize_rune <$> runes s).

(** Valid UTF-8. *)
Definition utf8_ok (s : string) : bool := forallb (fun sr => negb (invalid sr.1 sr.2)) (runes s).

Lemma sanitize_ok s : utf8_ok s = true -> sanitize s = s.
Proof.
  intros H. rewrite <- (runes_concat s) at 2. unfold sanitize. f_equal.
  unfold utf8_ok in H. induction (runes s) as [|[seg r] l IH]; [done|]. simpl in *.
  apply andb_prop in H as [H1%negb_true_iff H2]. rewrite H1. f_equal. auto.
Qed.

(** ** Bytes and runes *)

Lemma byte_range c : 0 <= byte c < 256.
Proof. unfold byte. pose proof (N_ascii_bounded c). lia. Qed.

Lemma char_byte c : char (byte c) = c.
Proof. unfold char, byte. by rewrite N2Z.id, ascii_N_embedding. Qed.

Lemma byte_inj c d : byte c = byte d -> c = d.
Proof. intros H. by rewrite <- (char_byte c), <- (char_byte d), H. Qed.

(** Escaping an ASCII byte and reading it back. *)
Lemma unquote_byte fuel c t :
  byte c < 128 -> unquote (S fuel) (quote_byte c ++ t) = push (one c) (unquote fuel t).
Proof. destruct c as [[] [] [] [] [] [] [] []]; intros H; try (by vm_compute in H); reflexivity. Qed.

Lemma lor_disjoint a b n : 0 <= n -> 0 <= b < 2 ^ n -> Z.lor (Z.shiftl a n) b = a * 2 ^ n + b.
Proof.
  intros Hn Hb. rewrite <- Z.shiftl_mul_pow2 by done. symmetry. apply Z.add_nocarry_lor.
  apply Z.bits_inj'. intros i Hi. rewrite Z.land_spec, Z.bits_0.
  destruct (decide (i < n)); [by rewrite Z.shiftl_spec_low|].
  rewrite <- (Z.mod_small b (2 ^ n)), Z.mod_pow2_bits_high by lia. apply andb_false_r.
Qed.

Lemma low_bits lo n c :
  0 <= n -> 0 <= lo -> lo mod 2 ^ n = 0 -> lo <= byte c < lo + 2 ^ n ->
  Z.land (byte c) (Z.ones n) = byte c - lo.
Proof.
  intros Hn Hlo Hm Hc. rewrite Z.land_ones by done.
  pose proof (Z.div_mod lo (2 ^ n)) as Hd. symmetry.
  apply (Z.mod_unique_pos _ _ (lo / 2 ^ n)); lia.
Qed.

Lemma low6_val c : in_range 128 191 c = true -> low6 c = byte c - 128 /\ 128 <= byte c <= 191.
Proof.
  unfold in_range, low6. intros [H1%Z.leb_le H2%Z.leb_le]%andb_prop. split; [|done].
  by apply (low_bits 128 6); try lia.
Qed.

Lemma in_range_cont lo hi c :
  in_range lo hi c = true -> 128 <= lo -> hi <= 191 -> in_range 128 191 c = true /\ lo <= byte c.
Proof.
  unfold in_range. intros [H1%Z.leb_le H2%Z.leb_le]%andb_prop Hl Hh.
  rewrite (proj2 (Z.leb_le _ _)), (proj2 (Z.leb_le _ _)) by lia. done.
Qed.

(** The result of a decoding that takes more than one byte. *)
Inductive multibyte : string -> Z -> nat -> Prop :=
| multi2 c0 c1 t r : r < 2048 -> multibyte (String c0 (String c1 t)) r 2
| multi3 c0 c1 c2 t :
    224 <= byte c0 -> 128 <= byte c1 <= 191 -> 128 <= byte c2 <= 191 ->
    multibyte (String c0 (String c1 (String c2 t)))
      ((byte c0 - 224) * 4096 + (byte c1 - 128) * 64 + (byte c2 - 128)) 3
| multi4 c0 c1 c2 c3 t r : 65536 <= r -> multibyte (String c0 (String c1 (String c2 (String c3 t)))) r 4.

Lemma DecodeRune_multi s r n : DecodeRune s = (r, n) -> (2 <= n)%nat -> multibyte s r n.
Proof.
  destruct s as [|c0 s]; [intros [= <- <-]; lia|]. unfold DecodeRune.
  destruct (byte c0 <? 128); [intros [= <- <-]; lia|].
  destruct (in_range 194 223 c0) eqn:E2; [|destruct (in_range 224 239 c0) eqn:E3;
    [|destruct (in_range 240 244 c0) eqn:E4; [|intros [= <- <-]; lia]]].
  - destruct s as [|c1 s]; [intros [= <- <-]; lia|].
    destruct (in_range 128 191 c1) eqn:E; [|intros [= <- <-]; lia]. intros [= <- <-] _.
    constructor. destruct (low6_val _ E) as [-> ?].
    apply andb_prop in E2 as [?%Z.leb_le ?%Z.leb_le].
    change 31 with (Z.ones 5). rewrite (low_bits 192 5), lor_disjoint by (done || lia). lia.
  - destruct s as [|c1 [|c2 s]]; try (intros [= <- <-]; lia).
    destruct (in_range _ _ c1 && _) eqn:E; [|intros [= <- <-]; lia]. intros [= <- <-] _.
    apply andb_prop in E as [E1 Ec2]. 
    destruct (in_range_cont _ _ _ E1) as [Ec1 _]; [destruct (byte c0 =? 224), (byte c0 =? 237); lia..|].
    apply andb_prop in E3 as [?%Z.leb_le ?%Z.leb_le].
    destruct (low6_val _ Ec1) as [-> ?], (low6_val _ Ec2) as [-> ?].
    change 15 with (Z.ones 4). rewrite (low_bits 224 4), (lor_disjoint (byte c1 - 128)), lor_disjoint by (done || lia).
    replace (_ + _) with ((byte c0 - 224) * 4096 + (byte c1 - 128) * 64 + (byte c2 - 128)) by lia.
    constructor; lia.
  - destruct s as [|c1 [|c2 [|c3 s]]]; try (intros [= <- <-]; lia).
    destruct (in_range _ _ c1 && _ && _) eqn:E; [|intros [= <- <-]; lia]. intros [= <- <-] _.
    apply andb_prop in E as [[E1 Ec2]%andb_prop Ec3].
    destruct (in_range_cont _ _ _ E1) as [Ec1 Hc1]; [destruct (byte c0 =? 240), (byte c0 =? 244); lia..|].
    apply andb_prop in E4 as [?%Z.leb_le ?%Z.leb_le].
    destruct (low6_val _ Ec1) as [-> ?], (low6_val _ Ec2) as [-> ?], (low6_val _ Ec3) as [-> ?].
    change 7 with (Z.ones 3). rewrite (low_bits 240 3), (lor_disjoint (byte c2 - 128)), (lor_disjoint (byte c1 - 128)),
      lor_disjoint by (done || lia).
    constructor. destruct (byte c0 =? 240) eqn:E0; lia.
Qed.

(** The line separators, the only runes of several bytes that are escaped. *)
Lemma DecodeRune_sep_bytes s r n :
  DecodeRune s = (r, n) -> (2 <= n)%nat -> r = 8232 \/ r = 8233 ->
  take_str n s = EncodeRune r.
Proof.
  intros H Hn Hr. destruct (DecodeRune_multi s r n H Hn); [lia| |lia]. simpl.
  destruct Hr as [Hr|Hr]; rewrite Hr;
    rewrite <- (char_byte c0), <- (char_byte c1), <- (char_byte c2).
  - replace (byte c0) with 226 by lia. replace (byte c1) with 128 by lia.
    by replace (byte c2) with 168 by lia.
  - replace (byte c0) with 226 by lia. replace (byte c1) with 128 by lia.
    by replace (byte c2) with 169 by lia.
Qed.

(** A rune decodes from its own bytes whatever follows. *)
Lemma DecodeRune_take s r n t :
  DecodeRune s = (r, n) -> (2 <= n)%nat -> DecodeRune (take_str n s ++ t) = (r, n).
Proof.
  intros H Hn. pose proof (DecodeRune_multi s r n H Hn) as Hm. revert H.
  destruct Hm; cbn [take_str String.append]; intros Hd;
    cbn -[in_range low6 byte Z.eqb Z.ltb] in Hd |- *;
    repeat (case_match; simplify_eq); congruence.
Qed.

(** ** The round trip *)

Lemma DecodeRune_small c s : byte c < 128 -> DecodeRune (String c s) = (byte c, 1%nat).
Proof. intros H. unfold DecodeRune. by rewrite (proj2 (Z.ltb_lt _ _) H). Qed.

(** A byte that decodes alone and is not ASCII is an error. *)
Lemma DecodeRune_one c s r :
  DecodeRune (String c s) = (r, 1%nat) -> 128 <= byte c -> r = RuneError.
Proof. intros H Hc. unfold DecodeRune in H. repeat (case_match; simplify_eq); done || lia. Qed.

Lemma quoted_cons c s :
  quoted (String c s) =
    (quote_rune (take_str (DecodeRune (String c s)).2 (String c s), (DecodeRune (String c s)).1) ++
     quoted (drop_str (DecodeRune (String c s)).2 (String c s)))%string.
Proof. unfold quoted. by rewrite runes_cons, fmap_cons. Qed.

Lemma sanitize_cons c s :
  sanitize (String c s) =
    (sanitize_rune (take_str (DecodeRune (String c s)).2 (String c s), (DecodeRune (String c s)).1) ++
     sanitize (drop_str (DecodeRune (String c s)).2 (String c s)))%string.
Proof. unfold sanitize. by rewrite runes_cons, fmap_cons. Qed.

Lemma take_str_length n s : (n <= String.length s)%nat -> String.length (take_str n s) = n.
Proof. revert s. induction n as [|n IH]; intros [|c s]; simpl; intros H; [lia..|]. by rewrite IH by lia. Qed.

(** One rune, quoted, is read back. *)
Lemma unquote_rune fuel c s t :
  let '(r, n) := DecodeRune (String c s) in
  let seg := take_str n (String c s) in
  unquote (S fuel) (quote_rune (seg, r) ++ t) = push (sanitize_rune (seg, r)) (unquote fuel t).
Proof.
  pose proof (DecodeRune_size c s) as Hsz. pose proof (DecodeRune_le (String c s)) as Hle.
  destruct (DecodeRune (String c s)) as [r n] eqn:E. cbn [fst snd] in *. cbv zeta.
  destruct (decide (byte c < 128)) as [Hc|Hc].
  { rewrite DecodeRune_small in E by done. injection E as <- <-. cbn [take_str].
    assert (invalid (one c) (byte c) = false) as Hi.
    { unfold invalid, RuneError. rewrite (proj2 (Z.eqb_neq (byte c) _)) by lia. done. }
    change (String c EmptyString) with (one c).
    unfold quote_rune, sanitize_rune. rewrite Hi.
    rewrite !(proj2 (Z.eqb_neq (byte c) _)) by lia. by apply unquote_byte. }
  destruct n as [|[|n]]; [lia| |].
  - pose proof (DecodeRune_one _ _ _ E ltac:(lia)) as ->. reflexivity.
  - set (seg := take_str _ _).
    assert (invalid seg r = false) as Hi.
    { unfold invalid, seg. rewrite take_str_length by done.
      rewrite (proj2 (Z.eqb_neq (Z.of_nat (S (S n))) 1)) by lia. apply andb_false_r. }
    unfold quote_rune, sanitize_rune. rewrite Hi.
    destruct ((r =? 8232) || (r =? 8233)) eqn:El.
    + assert (r = 8232 \/ r = 8233) as Hr by lia. unfold seg.
      rewrite (DecodeRune_sep_bytes _ _ _ E) by (done || lia). by destruct Hr as [-> | ->].
    + pose proof (DecodeRune_take _ _ _ t E ltac:(lia)) as Ed. fold seg in Ed.
      destruct s as [|c1 s]; [cbn in Hle; lia|].
      assert (exists s', seg = String c (String c1 s')) as [s' Es] by (by eexists).
      rewrite Es. change (String c (String c1 s') ++ t)%string
        with (String c (String c1 s' ++ t))%string.
      cbn [unquote]. rewrite Es in Ed, Hi.
      change (String c (String c1 s' ++ t)) with (String c (String c1 s') ++ t)%string.
      rewrite Ed.
      assert (forall d, byte d < 128 -> Ascii.eqb c d = false) as Hne.
      { intros d Hd. apply Ascii.eqb_neq. intros ->. lia. }
      rewrite !Hne by done. replace (byte c <? 32) with false by lia.
      rewrite take_str_app, drop_str_app by (rewrite <- Es; unfold seg; by rewrite take_str_length).
      assert (take_str (S (S n)) (String c (String c1 s')) = String c (String c1 s')) as ->.
      { rewrite <- Es. unfold seg. by rewrite take_str_take. }
      rewrite Hi. f_equal.
      assert (drop_str (S (S n)) (String c (String c1 s')) = EmptyString) as ->; [|done].
      rewrite <- Es. unfold seg. by rewrite drop_str_take.
Qed.

Lemma unquote_quoted s rest fuel :
  (length (runes s) < fuel)%nat ->
  unquote fuel (quoted s ++ String dquote rest) = Some (sanitize s, rest).
Proof.
  revert fuel.
  induction s as [s IH] using (well_founded_induction (Wf_nat.well_founded_ltof _ String.length)).
  intros fuel Hf. destruct fuel as [|fuel]; [lia|]. destruct s as [|c s]; [done|].
  pose proof (DecodeRune_size c s) as Hsz. rewrite runes_cons in Hf. cbn [length] in Hf.
  rewrite quoted_cons, sanitize_cons, string_app_assoc.
  pose proof (unquote_rune fuel c s (quoted (drop_str (DecodeRune (String c s)).2 (String c s)) ++
    String dquote rest)) as Hr.
  destruct (DecodeRune (String c s)) as [r n]. cbn [fst snd] in *. rewrite Hr, IH; [done| |lia].
  unfold Wf_nat.ltof. rewrite length_drop_str. cbn [String.length]. lia.
Qed.

Lemma quote_byte_length c : (1 <= String.length (quote_byte c))%nat.
Proof. unfold quote_byte. repeat case_match; simpl; lia. Qed.

Lemma quoted_length s : (length (runes s) <= String.length (quoted s))%nat.
Proof.
  induction s as [s IH] using (well_founded_induction (Wf_nat.well_founded_ltof _ String.length)).
  destruct s as [|c s]; [simpl; lia|]. rewrite runes_cons, quoted_cons, string_length_app.
  pose proof (DecodeRune_size c s) as Hsz. destruct (DecodeRune (String c s)) as [r n].
  cbn [fst snd length] in *. assert (forall a b c : nat, (a <= b -> 1 <= c -> S a <= c + b)%nat) as H by lia.
  apply H.
  - apply IH. unfold Wf_nat.ltof. rewrite length_drop_str. cbn [String.length]. lia.
  - unfold quote_rune. case_match; [simpl; lia|]. case_match; [simpl; lia|].
    destruct n as [|n]; [lia|]. cbn [take_str]. case_match; [apply quote_byte_length|simpl; lia].
Qed.

Lemma strip_app lit s : strip lit (lit ++ s) = Some s.
Proof. induction lit as [|a lit IH]; simpl; [done|]. by rewrite Ascii.eqb_refl. Qed.

Definition sanitize_kv (kv : KeyValue) : KeyValue :=
  mkKeyValue (sanitize (Key kv)) (sanitize (Value kv)).

Lemma unquote_field s rest :
  unquote (String.length (quoted s ++ String dquote rest)) (quoted s ++ String dquote rest) =
    Some (sanitize s, rest).
Proof.
  apply unquote_quoted. rewrite string_length_app. pose proof (quoted_length s). simpl. lia.
Qed.

(** What is encoded is decoded, up to the replacement of invalid bytes. *)
Lemma Decode_Encode kv rest : Decode (Encode kv ++ rest) = Some (sanitize_kv kv, rest).
Proof.
  unfold Encode, Decode.
  replace (("{" ++ literal "Key" ++ ":" ++ String dquote (quoted (Key kv) ++ one dquote) ++ "," ++
     literal "Value" ++ ":" ++ String dquote (quoted (Value kv) ++ one dquote) ++ "}" ++ newline)
     ++ rest)%string
    with (("{" ++ literal "Key" ++ ":" ++ one dquote) ++ (quoted (Key kv) ++ String dquote
      (("," ++ literal "Value" ++ ":" ++ one dquote) ++ (quoted (Value kv) ++ String dquote
        (("}" ++ newline) ++ rest)))))%string.
  2: { unfold one. repeat (rewrite !string_app_assoc; cbn [String.append]). reflexivity. }
  rewrite strip_app. cbn [mbind option_bind]. rewrite unquote_field. cbn [mbind option_bind].
  rewrite strip_app. cbn [mbind option_bind]. rewrite unquote_field. cbn [mbind option_bind].
  by rewrite strip_app.
Qed.

Lemma DecodeAll_Encode kvs :
  DecodeAll (concat_all (Encode <$> kvs)) = sanitize_kv <$> kvs.
Proof.
  unfold DecodeAll.
  assert (length kvs <= String.length (concat_all (Encode <$> kvs)))%nat as Hlen.
  { induction kvs as [|kv kvs IH]; [simpl; lia|]. rewrite fmap_cons. cbn [concat_all length].
    rewrite string_length_app. unfold Encode at 1. simpl. lia. }
  revert Hlen. generalize (String.length (concat_all (Encode <$> kvs))).
  induction kvs as [|kv kvs IH]; intros n Hn; [by destruct n|].
  destruct n as [|n]; [simpl in Hn; lia|]. rewrite !fmap_cons. cbn [concat_all decode_loop].
  rewrite Decode_Encode. f_equal. apply IH. simpl in Hn. lia.
Qed.

Definition kv_ok (kv : KeyValue) : bool := utf8_ok (Key kv) && utf8_ok (Value kv).

Lemma sanitize_kv_ok kv : kv_ok kv = true -> sanitize_kv kv = kv.
Proof.
  unfold kv_ok, sanitize_kv. intros [H1 H2]%andb_prop. rewrite !sanitize_ok by done. by destruct kv.
Qed.

(** One pair, as a codec. *)
#[export] Program Instance kv_codec : Codec KeyValue := {|
  codec_ok kv := kv_ok kv = true;
  encode := Encode;
  decode_text s := fst <$> Decode s
|}.
Next Obligation.
  intros kv Hkv. pose proof (Decode_Encode kv EmptyString) as H. rewrite string_app_nil_r in H.
  change (fst <$> Decode (Encode kv) = Some kv). rewrite H. simpl. by rewrite sanitize_kv_ok.
Qed.

(** ** Strings made of whole runes *)

(** A rune with the bytes of a valid encoding. *)
Record whole (sr : string * Z) : Prop := {
  wh_decode : forall t, DecodeRune (sr.1 ++ t) = (sr.2, String.length sr.1);
  wh_nonempty : sr.1 <> EmptyString;
  wh_valid : invalid sr.1 sr.2 = false
}.

Lemma runes_whole s sr : sr ∈ runes s -> invalid sr.1 sr.2 = false -> whole sr.
Proof.
  induction s as [s IH] using (well_founded_induction (Wf_nat.well_founded_ltof _ String.length)).
  destruct s as [|c s]; [by intros ?%not_elem_of_nil|]. rewrite runes_cons.
  pose proof (DecodeRune_size c s) as Hsz. pose proof (DecodeRune_le (String c s)) as Hle.
  destruct (DecodeRune (String c s)) as [r n] eqn:E. cbn [fst snd] in *.
  intros [->|Hin]%elem_of_cons Hv.
  2: { apply (IH (drop_str n (String c s))); [|done..]. unfold Wf_nat.ltof.
       rewrite length_drop_str. cbn [String.length]. lia. }
  cbn [fst snd] in *.
  constructor; cbn [fst snd]; [|destruct n; [lia|done]|done].
  intros t. rewrite take_str_length by done.
  destruct n as [|[|n]]; [lia| |by apply DecodeRune_take; [|lia]]. cbn [take_str String.append].
  destruct (decide (byte c < 128)) as [Hc|Hc].
  - rewrite DecodeRune_small in E |- * by done. congruence.
  - apply DecodeRune_one in E as ->; [|lia]. done.
Qed.

Lemma take_str_full s t : take_str (String.length s) (s ++ t) = s.
Proof. induction s as [|c s IH]; simpl; [by destruct t|by rewrite IH]. Qed.

Lemma drop_str_full s t : drop_str (String.length s) (s ++ t) = t.
Proof. induction s as [|c s IH]; simpl; [by destruct t|done]. Qed.

Lemma runes_of_whole rs : Forall whole rs -> runes (concat_all rs.*1) = rs.
Proof.
  induction 1 as [|[seg r] rs [Hd Hne Hv] Hrs IH]; [done|]. rewrite fmap_cons. cbn [fst concat_all].
  cbn [fst snd] in *. destruct seg as [|c seg]; [done|].
  change (String c seg ++ concat_all rs.*1)%string with (String c (seg ++ concat_all rs.*1)).
  rewrite runes_cons. change (String c (seg ++ concat_all rs.*1))
    with (String c seg ++ concat_all rs.*1)%string.
  rewrite Hd. cbn [fst snd]. by rewrite take_str_full, drop_str_full, IH.
Qed.

Lemma whole_utf8_ok rs : Forall whole rs -> utf8_ok (concat_all rs.*1) = true.
Proof.
  intros H. unfold utf8_ok. rewrite runes_of_whole by done. apply forallb_forall.
  intros sr Hsr%list_elem_of_In. rewrite Forall_forall in H. by rewrite (wh_valid _ (H _ Hsr)).
Qed.

(** A field is made of runes that do not separate. *)
Lemma fields_whole sep cur rs w :
  (forall sr, sr ∈ rs -> sep sr.2 = false -> whole sr) ->
  (exists ss, Forall whole ss /\ concat_all ss.*1 = cur) ->
  w ∈ fields sep cur rs -> exists ss, Forall whole ss /\ concat_all ss.*1 = w.
Proof.
  revert cur. induction rs as [|[seg r] rs IH]; intros cur Hrs Hcur; simpl.
  - destruct cur; [by intros ?%not_elem_of_nil|]. by intros ->%list_elem_of_singleton.
  - assert (forall sr, sr ∈ rs -> sep sr.2 = false -> whole sr) as Hrs'
      by (intros sr Hsr; apply Hrs; by right).
    destruct (sep r) eqn:Es.
    + intros [Hw|Hw]%elem_of_app; [|by apply (IH EmptyString Hrs'); [exists []|]].
      destruct cur; [by apply not_elem_of_nil in Hw|]. apply list_elem_of_singleton in Hw. by subst.
    + apply IH; [done|]. destruct Hcur as (ss & Hss & <-). exists (ss ++ [(seg, r)]). split.
      * apply Forall_app_2, Forall_singleton; [done|]. by apply Hrs; [left|].
      * rewrite fmap_app, concat_all_app. simpl. by rewrite string_app_nil_r.
Qed.

(** Fields are valid UTF-8 when the replacement character separates. *)
Lemma FieldsFunc_utf8 s sep w :
  sep RuneError = true -> w ∈ FieldsFunc s sep -> utf8_ok w = true.
Proof.
  intros Hsep Hw. unfold FieldsFunc in Hw.
  destruct (fields_whole sep EmptyString (runes s) w) as (ss & Hss & <-); [|by exists []|done|
    by apply whole_utf8_ok].
  intros sr Hsr Hs. apply (runes_whole s); [done|]. unfold invalid.
  destruct (sr.2 =? RuneError) eqn:E; [|done]. apply Z.eqb_eq in E. congruence.
Qed.

Lemma ascii_utf8_ok s : all_chars (fun c => byte c <? 128) s = true -> utf8_ok s = true.
Proof.
  unfold utf8_ok. induction s as [|c s IH]; [done|]. cbn [all_chars].
  intros [Hc%Z.ltb_lt Hs]%andb_prop. rewrite runes_ascii by done. cbn [forallb fst snd].
  rewrite IH, andb_true_r by done. unfold invalid, RuneError.
  by rewrite (proj2 (Z.eqb_neq (byte c) _)) by lia.
Qed.

(** C19: the files of key/value pairs survive the way through JSON.  Decoding until
    the first error what the encoder wrote gives the pairs back, in order, when
    keys and values are valid UTF-8; each byte that is not part of valid UTF-8
    comes back as the replacement character. *)
Theorem json_roundtrip kvs :
  DecodeAll (concat_all (Encode <$> kvs)) = sanitize_kv <$> kvs /\
  (forallb kv_ok kvs = true -> DecodeAll (concat_all (Encode <$> kvs)) = kvs).
Proof.
  split; [apply DecodeAll_Encode|]. intros H. rewrite DecodeAll_Encode.
  induction kvs as [|kv kvs IH]; [done|]. simpl in H. apply andb_prop in H as [H1 H2].
  by rewrite fmap_cons, sanitize_kv_ok, IH.
Qed.

Lemma json_roundtrip_witness :
  let kvs := [mkKeyValue "caf" "1"; mkKeyValue (one (char 34)) "<2>"] in
  DecodeAll (concat_all (Encode <$> kvs)) = kvs.
Proof. apply (proj2 (json_roundtrip _)). vm_refl. Defined.
