(* ===== verification/LspIO.v ===== *)
(** Reading and writing LSP messages (src/project-2/src/example.com/lsp/io.go).

    A message travels as the JSON text of its struct, the payload in base64, in
    one packet that is read into a buffer of 2000 bytes.  The encoder follows
    encoding/json byte by byte; the decoder reads the layout the encoder writes,
    and a text of another layout is an error. *)
From Stdlib Require Import Ascii.
From S2P Require Import Prelude GoText Utf8 Json LspMessage.

(** ** Base64 *)

Definition char64 (v : Z) : ascii :=
  if v <? 26 then char (65 + v)
  else if v <? 52 then char (71 + v)
  else if v <? 62 then char (v - 4)
  else if v =? 62 then "+"%char else "/"%char.

Definition value64 (c : ascii) : option Z :=
  let b := byte c in
  if in_range 65 90 c then Some (b - 65)
  else if in_range 97 122 c then Some (b - 71)
  else if in_range 48 57 c then Some (b + 4)
  else if b =? 43 then Some 62
  else if b =? 47 then Some 63
  else None.

Definition equals : ascii := "="%char.

Fixpoint base64 (s : string) : string :=
  match s with
  | EmptyString => EmptyString
  | String a EmptyString =>
      String (char64 (byte a / 4)) (String (char64 (byte a mod 4 * 16)) (String equals (one equals)))
  | String a (String b EmptyString) =>
      String (char64 (byte a / 4)) (String (char64 (byte a mod 4 * 16 + byte b / 16))
        (String (char64 (byte b mod 16 * 4)) (one equals)))
  | String a (String b (String c s)) =>
      String (char64 (byte a / 4)) (String (char64 (byte a mod 4 * 16 + byte b / 16))
        (String (char64 (byte b mod 16 * 4 + byte c / 64)) (String (char64 (byte c mod 64)) (base64 s))))
  end.

Fixpoint unbase64 (s : string) : option string :=
  match s with
  | EmptyString => Some EmptyString
  | String w (String x (String y (String z s))) =>
      w ← value64 w; x ← value64 x;
      let a := char (w * 4 + x / 16) in
      if Ascii.eqb y equals then
        match Ascii.eqb z equals, s with
        | true, EmptyString => Some (one a)
        | _, _ => None
        end
      else
        y ← value64 y;
        let b := char (x mod 16 * 16 + y / 4) in
        if Ascii.eqb z equals then
          match s with
          | EmptyString => Some (String a (one b))
          | _ => None
          end
        else
          z ← value64 z; s ← unbase64 s;
          Some (String a (String b (String (char (y mod 4 * 64 + z)) s)))
  | _ => None
  end.

(** ** The struct *)

(** A payload without bytes is a nil slice or an empty one. *)
Definition payload_json (nil_slice : bool) (p : string) : string :=
  match p with
  | EmptyString => if nil_slice then "null"%string else literal EmptyString
  | _ => literal (base64 p)
  end.

Definition Marshal (nil_slice : bool) (m : Message) : string :=
  ("{" ++ literal "Type" ++ ":" ++ Itoa (MType m) ++ "," ++ literal "ConnID" ++ ":" ++
   Itoa (ConnID m) ++ "," ++ literal "SeqNum" ++ ":" ++ Itoa (SeqNum m) ++ "," ++
   literal "Size" ++ ":" ++ Itoa (Size m) ++ "," ++ literal "Payload" ++ ":" ++
   payload_json nil_slice (Payload m) ++ "}")%string.

(** The text before the first [sep], and the text after it. *)
Fixpoint cut_at (sep : ascii) (s : string) : option (string * string) :=
  match s with
  | EmptyString => None
  | String c s =>
      if Ascii.eqb c sep then Some (EmptyString, s)
      else match cut_at sep s with
           | Some (a, r) => Some (String c a, r)
           | None => None
           end
  end.

Definition comma : ascii := ","%char.

(** A member of the struct: its name, an integer, a comma. *)
Definition number (name s : string) : option (Z * string) :=
  s ← strip (literal name ++ ":") s;
  '(t, s) ← cut_at comma s;
  z ← Atoi t;
  if String.eqb (Itoa z) t then Some (z, s) else None.

Definition payload_of (s : string) : option (string * string) :=
  match strip "null" s with
  | Some s => Some (EmptyString, s)
  | None =>
      match s with
      | String q s =>
          if Ascii.eqb q dquote then
            '(b, s) ← cut_at dquote s; p ← unbase64 b; Some (p, s)
          else None
      | EmptyString => None
      end
  end.

Definition Unmarshal (s : string) : option Message :=
  s ← strip "{" s;
  '(ty, s) ← number "Type" s;
  '(cid, s) ← number "ConnID" s;
  '(sq, s) ← number "SeqNum" s;
  '(size, s) ← number "Size" s;
  s ← strip (literal "Payload" ++ ":") s;
  '(p, s) ← payload_of s;
  if String.eqb s "}" then Some (mkMessage ty cid sq size p) else None.

(** ** io.go *)

Definition packet_size : nat := 2000.

(** The packet that [WriteMessage] sends. *)
Definition WriteMessage (nil_slice : bool) (m : Message) : string := Marshal nil_slice m.

(** What [ReadMessage] makes of a packet; [None] is an error.  The bytes that do not
    fit the buffer are lost. *)
Definition ReadMessage (packet : string) : option Message := Unmarshal (take_str packet_size packet).

(** ** Base64 round trip *)

Lemma char64_table :
  forallb (fun v => bool_decide (value64 (char64 v) = Some v) && negb (Ascii.eqb (char64 v) equals) &&
                    negb (Ascii.eqb (char64 v) dquote) && negb (Ascii.eqb (char64 v) "}")) (seqZ 0 64) = true.
Proof. vm_refl. Qed.

Lemma char64_spec v :
  0 <= v < 64 ->
  value64 (char64 v) = Some v /\ Ascii.eqb (char64 v) equals = false /\
  Ascii.eqb (char64 v) dquote = false /\ Ascii.eqb (char64 v) "}" = false.
Proof.
  intros Hv. pose proof char64_table as H. rewrite forallb_forall in H.
  specialize (H v). rewrite <- list_elem_of_In, elem_of_seqZ in H. specialize (H ltac:(lia)).
  rewrite !andb_true_iff, !negb_true_iff in H. destruct H as [[[H1%bool_decide_eq_true ?] ?] ?]. done.
Qed.

Lemma base64_three (P : string -> Prop) :
  P EmptyString -> (forall a, P (one a)) -> (forall a b, P (String a (one b))) ->
  (forall a b c s, P s -> P (String a (String b (String c s)))) -> forall s, P s.
Proof.
  intros H0 H1 H2 H3. assert (forall n s, (String.length s <= n)%nat -> P s) as H.
  { induction n as [|n IH]; intros s Hn; [destruct s; [done|simpl in Hn; lia]|].
    destruct s as [|a [|b [|c s]]]; [done|apply H1|apply H2|]. apply H3, IH. simpl in Hn. lia. }
  intros s. by apply (H (String.length s)).
Qed.

Lemma char_of n c : n = byte c -> char n = c.
Proof. intros ->. apply char_byte. Qed.

#[local] Ltac Zify.zify_post_hook ::= Z.div_mod_to_equations.

Lemma unbase64_base64 s : unbase64 (base64 s) = Some s.
Proof.
  induction s as [|a|a b|a b c s IH] using base64_three; [done|..]; cbn [base64 one];
    pose proof (byte_range a); try pose proof (byte_range b); try pose proof (byte_range c);
    destruct (char64_spec (byte a / 4)) as (E1 & _); try lia.
  - destruct (char64_spec (byte a mod 4 * 16)) as (E2 & _); [lia|]. cbn [unbase64].
    rewrite E1, E2. cbn [mbind option_bind]. rewrite Ascii.eqb_refl.
    unfold one. repeat f_equal; apply char_of; lia.
  - destruct (char64_spec (byte a mod 4 * 16 + byte b / 16)) as (E2 & _); [lia|].
    destruct (char64_spec (byte b mod 16 * 4)) as (E3 & N3 & _); [lia|]. cbn [unbase64].
    rewrite E1, E2, N3, E3. cbn [mbind option_bind]. rewrite ?Ascii.eqb_refl.
    unfold one. repeat f_equal; apply char_of; lia.
  - destruct (char64_spec (byte a mod 4 * 16 + byte b / 16)) as (E2 & _); [lia|].
    destruct (char64_spec (byte b mod 16 * 4 + byte c / 64)) as (E3 & N3 & _); [lia|].
    destruct (char64_spec (byte c mod 64)) as (E4 & N4 & _); [lia|]. cbn [unbase64].
    rewrite E1, E2, N3, E3, N4, E4. cbn [mbind option_bind]. rewrite IH. cbn [mbind option_bind].
    repeat f_equal; apply char_of; lia.
Qed.

Lemma base64_length s :
  Z.of_nat (String.length (base64 s)) = (Z.of_nat (String.length s) + 2) / 3 * 4.
Proof.
  induction s as [|a|a b|a b c s IH] using base64_three; [done|done|done|].
  cbn [base64 String.length]. lia.
Qed.

(** The letters of base64 are none of the delimiters. *)
Definition plain (c : ascii) : bool := negb (Ascii.eqb c dquote) && negb (Ascii.eqb c "}").

Lemma char64_plain v : 0 <= v < 64 -> plain (char64 v) = true.
Proof. intros Hv. destruct (char64_spec v Hv) as (_ & _ & H1 & H2). unfold plain. by rewrite H1, H2. Qed.

Lemma base64_plain s : all_chars plain (base64 s) = true.
Proof.
  induction s as [|a|a b|a b c s IH] using base64_three; [done|..]; cbn [base64 one all_chars];
    pose proof (byte_range a); try pose proof (byte_range b); try pose proof (byte_range c);
    rewrite !char64_plain by lia; [done..|]. exact IH.
Qed.

(** ** Round trip of the struct *)

Lemma cut_at_app sep a r :
  all_chars (fun c => negb (Ascii.eqb c sep)) a = true -> cut_at sep (a ++ String sep r) = Some (a, r).
Proof.
  induction a as [|c a IH]; cbn [all_chars String.append cut_at]; [by rewrite Ascii.eqb_refl|].
  intros [Hc Ha]%andb_prop. apply negb_true_iff in Hc. by rewrite Hc, IH.
Qed.

Lemma all_chars_impl (p q : ascii -> bool) s :
  (forall c, p c = true -> q c = true) -> all_chars p s = true -> all_chars q s = true.
Proof. intros H. induction s as [|c s IH]; simpl; [done|]. intros [Hc Hs]%andb_prop. by rewrite H, IH. Qed.

(** What an integer is printed with. *)
Definition int_char (c : ascii) : bool := is_digit c || Ascii.eqb c "-".

Lemma Itoa_chars z : all_chars int_char (Itoa z) = true.
Proof.
  assert (forall z, 0 <= z -> all_chars int_char (Itoa z) = true) as H.
  { intros x Hx. apply (all_chars_impl is_digit); [intros c Hc; unfold int_char; by rewrite Hc|].
    apply Is_true_eq_true, Itoa_digits, Hx. }
  destruct z as [|p|p]; [done|by apply H|]. specialize (H (Z.pos p) ltac:(lia)).
  unfold Itoa in *. simpl in *. exact H.
Qed.

Lemma int_char_not c d : int_char d = false -> int_char c = true -> negb (Ascii.eqb c d) = true.
Proof. intros Hd Hc. apply negb_true_iff. destruct (Ascii.eqb_spec c d); [congruence|done]. Qed.

Lemma number_app name z s :
  int64_ok z -> number name (literal name ++ ":" ++ Itoa z ++ "," ++ s) = Some (z, s).
Proof.
  intros Hz. unfold number. rewrite <- string_app_assoc, strip_app. cbn [mbind option_bind].
  change ("," ++ s)%string with (String comma s). rewrite cut_at_app.
  - cbn [mbind option_bind]. rewrite Atoi_Itoa by done. cbn [mbind option_bind]. by rewrite String.eqb_refl.
  - apply (all_chars_impl int_char); [|apply Itoa_chars]. intros c. by apply int_char_not.
Qed.

Lemma payload_app nil_slice p s :
  payload_of (payload_json nil_slice p ++ s) = Some (p, s).
Proof.
  assert (forall b, all_chars plain b = true -> unbase64 b = Some p ->
    payload_of (literal b ++ s) = Some (p, s)) as H.
  { intros b Hb Hu. unfold literal. cbn [String.append]. unfold payload_of.
    replace (strip "null" (String dquote ((b ++ one dquote) ++ s))) with (@None string) by done.
    rewrite Ascii.eqb_refl, string_app_assoc. change (one dquote ++ s)%string with (String dquote s).
    rewrite cut_at_app; [cbn [mbind option_bind]; by rewrite Hu|].
    apply (all_chars_impl plain); [|done]. by intros c [? _]%andb_prop. }
  unfold payload_json. destruct p as [|c p]; [|apply H; [apply base64_plain|apply unbase64_base64]].
  destruct nil_slice; [|by apply H]. unfold payload_of. by rewrite strip_app.
Qed.

Definition fields_ok (m : Message) : Prop :=
  int64_ok (MType m) /\ int64_ok (ConnID m) /\ int64_ok (SeqNum m) /\ int64_ok (Size m).

Lemma Unmarshal_Marshal nil_slice m : fields_ok m -> Unmarshal (Marshal nil_slice m) = Some m.
Proof.
  intros (H1 & H2 & H3 & H4). unfold Unmarshal, Marshal. rewrite strip_app. cbn [mbind option_bind].
  rewrite number_app by done. cbn [mbind option_bind]. rewrite number_app by done. cbn [mbind option_bind].
  rewrite number_app by done. cbn [mbind option_bind]. rewrite number_app by done. cbn [mbind option_bind].
  rewrite <- string_app_assoc, strip_app. cbn [mbind option_bind].
  rewrite payload_app. cbn [mbind option_bind]. by destruct m.
Qed.

(** ** Packets that are cut *)

Definition no_brace (c : ascii) : bool := negb (Ascii.eqb c "}").

Lemma strip_Some lit s r : strip lit s = Some r -> s = (lit ++ r)%string.
Proof.
  revert s. induction lit as [|a lit IH]; intros s; simpl; [by intros [= ->]|].
  destruct s as [|b s]; [done|]. destruct (Ascii.eqb_spec a b) as [->|]; [|done].
  intros H%IH. by rewrite H.
Qed.

Lemma cut_at_Some sep s a r : cut_at sep s = Some (a, r) -> s = (a ++ String sep r)%string.
Proof.
  revert a. induction s as [|c s IH]; intros a; simpl; [done|].
  destruct (Ascii.eqb_spec c sep) as [->|]; [by intros [= <- <-]|].
  destruct (cut_at sep s) as [[a' r']|]; [|done]. intros [= <- <-]. simpl. by rewrite (IH a').
Qed.

(** [r] is an end of [s]. *)
Definition suffix_of (r s : string) : Prop := exists p, s = (p ++ r)%string.

#[local] Instance suffix_of_trans : Transitive suffix_of.
Proof. intros r s t [p ->] [q ->]. exists (q ++ p)%string. by rewrite string_app_assoc. Qed.

Lemma strip_suffix lit s r : strip lit s = Some r -> suffix_of r s.
Proof. intros ->%strip_Some. by exists lit. Qed.

Lemma cut_at_suffix sep s a r : cut_at sep s = Some (a, r) -> suffix_of r s.
Proof.
  intros ->%cut_at_Some. exists (a ++ one sep)%string. by rewrite string_app_assoc.
Qed.

Lemma number_suffix name s z r : number name s = Some (z, r) -> suffix_of r s.
Proof.
  unfold number. destruct (strip _ s) as [s1|] eqn:E1; [|done]. simpl.
  destruct (cut_at comma s1) as [[t s2]|] eqn:E2; [|done]. simpl.
  destruct (Atoi t) as [x|]; [|done]. simpl. destruct (String.eqb _ _); [|done]. intros [= _ ->].
  etransitivity; [by eapply cut_at_suffix|by eapply strip_suffix].
Qed.

Lemma payload_suffix s p r : payload_of s = Some (p, r) -> suffix_of r s.
Proof.
  unfold payload_of. destruct (strip "null" s) as [s1|] eqn:E1.
  - intros [= _ <-]. by eapply strip_suffix.
  - destruct s as [|q s]; [done|]. destruct (Ascii.eqb q dquote); [|done].
    destruct (cut_at dquote s) as [[b s2]|] eqn:E2; [|done]. simpl.
    destruct (unbase64 b) as [x|]; [|done]. intros [= _ <-].
    etransitivity; [by eapply cut_at_suffix|]. by exists (one q).
Qed.

(** A text that decodes ends with the closing brace. *)
Lemma Unmarshal_brace s m : Unmarshal s = Some m -> suffix_of "}" s.
Proof.
  unfold Unmarshal. intros H.
  repeat match type of H with
  | (?x ≫= _) = Some _ => destruct x as [?|] eqn:?; cbn [mbind option_bind] in H; [|done]
  | (let '(_, _) := ?x in _) = Some _ => destruct x
  end.
  match type of H with (if String.eqb ?s1 _ then _ else _) = _ => destruct (String.eqb_spec s1 "}") end;
    [subst|done].
  repeat match goal with
  | E : strip _ _ = Some _ |- _ => apply strip_suffix in E
  | E : number _ _ = Some _ |- _ => apply number_suffix in E
  | E : payload_of _ = Some _ |- _ => apply payload_suffix in E
  end.
  repeat (etransitivity; [eassumption|]). by exists EmptyString.
Qed.

Lemma take_str_whole n s : (String.length s <= n)%nat -> take_str n s = s.
Proof.
  revert n. induction s as [|c s IH]; intros [|n]; simpl; try done; [lia|].
  intros Hn. rewrite IH by lia. done.
Qed.

Lemma all_chars_take p n s : all_chars p s = true -> all_chars p (take_str n s) = true.
Proof.
  revert n. induction s as [|c s IH]; intros [|n]; simpl; try done.
  intros [Hc Hs]%andb_prop. by rewrite Hc, IH.
Qed.

Lemma Marshal_body nil_slice m :
  exists body, Marshal nil_slice m = (body ++ "}")%string /\ all_chars no_brace body = true.
Proof.
  assert (forall z, all_chars no_brace (Itoa z) = true) as Hi.
  { intros z. apply (all_chars_impl int_char); [|apply Itoa_chars]. intros c. by apply int_char_not. }
  assert (all_chars no_brace (payload_json nil_slice (Payload m)) = true) as Hp.
  { unfold payload_json. destruct (Payload m) as [|c p]; [by destruct nil_slice|].
    unfold literal. cbn [all_chars]. rewrite all_chars_app.
    rewrite (all_chars_impl plain no_brace); [done| |apply base64_plain].
    by intros x [_ ?]%andb_prop. }
  eexists ("{" ++ literal "Type" ++ ":" ++ Itoa (MType m) ++ "," ++ literal "ConnID" ++ ":" ++
   Itoa (ConnID m) ++ "," ++ literal "SeqNum" ++ ":" ++ Itoa (SeqNum m) ++ "," ++
   literal "Size" ++ ":" ++ Itoa (Size m) ++ "," ++ literal "Payload" ++ ":" ++
   payload_json nil_slice (Payload m))%string. split; [by unfold Marshal; rewrite !string_app_assoc|].
  rewrite !all_chars_app, !Hi, Hp. done.
Qed.

Lemma Unmarshal_cut nil_slice m n :
  (n < String.length (Marshal nil_slice m))%nat -> Unmarshal (take_str n (Marshal nil_slice m)) = None.
Proof.
  destruct (Marshal_body nil_slice m) as (body & -> & Hb). rewrite string_length_app. simpl. intros Hn.
  rewrite take_str_app by lia. destruct (Unmarshal _) as [m'|] eqn:E; [|done].
  apply Unmarshal_brace in E as [p Hp]. apply (all_chars_take no_brace n) in Hb.
  rewrite Hp, all_chars_app, andb_false_r in Hb. done.
Qed.

#[export] Instance lsp_codec (nil_slice : bool) : Codec Message := {|
  codec_ok := fields_ok;
  encode := Marshal nil_slice;
  decode_text := Unmarshal;
  decode_encode := Unmarshal_Marshal nil_slice
|}.

(** The length of a packet. *)
Lemma packet_length nil_slice m :
  Z.of_nat (String.length (WriteMessage nil_slice m)) =
    50 + Z.of_nat (String.length (Itoa (MType m)) + String.length (Itoa (ConnID m)) +
                   String.length (Itoa (SeqNum m)) + String.length (Itoa (Size m))) +
    (payload_len m + 2) / 3 * 4 +
    (if bool_decide (Payload m = EmptyString) && nil_slice then 2 else 0).
Proof.
  unfold WriteMessage, Marshal, payload_json, payload_len.
  destruct (Payload m) as [|c p]; [destruct nil_slice|]; simpl bool_decide; cbn [andb];
    rewrite <- ?base64_length; unfold literal;
    repeat rewrite ?string_length_app, ?Nat2Z.inj_add; cbn [String.length];
    repeat rewrite ?string_length_app, ?Nat2Z.inj_add; simpl String.length.
  - replace ((Z.of_nat 0 + 2) / 3 * 4) with 0 by done. lia.
  - replace ((Z.of_nat 0 + 2) / 3 * 4) with 0 by done. lia.
  - lia.
Qed.

(** C40: a message survives the wire exactly when its packet fits the buffer.  What
    [WriteMessage] sends, [ReadMessage] gives back when the JSON text has at most
    2000 bytes; a longer one is cut and cannot be read.  The text takes 50 bytes,
    the digits of the four integers and four bytes for every three of the
    payload. *)
Theorem lsp_io_roundtrip nil_slice m :
  fields_ok m ->
  let packet := WriteMessage nil_slice m in
  ((String.length packet <= packet_size)%nat -> ReadMessage packet = Some m) /\
  ((packet_size < String.length packet)%nat -> ReadMessage packet = None) /\
  (Payload m <> EmptyString ->
   Z.of_nat (String.length packet) =
     50 + Z.of_nat (String.length (Itoa (MType m)) + String.length (Itoa (ConnID m)) +
                    String.length (Itoa (SeqNum m)) + String.length (Itoa (Size m))) +
     (payload_len m + 2) / 3 * 4).
Proof.
  intros Hm packet. unfold ReadMessage. split_and!.
  - intros Hl. rewrite take_str_whole by done. by apply Unmarshal_Marshal.
  - apply Unmarshal_cut.
  - intros Hp. unfold packet. rewrite packet_length, bool_decide_eq_false_2 by done. simpl. lia.
Qed.

(** ** Witnesses *)

Lemma lsp_io_roundtrip_witness :
  ReadMessage (WriteMessage false (NewData 73 2 5 "hello")) = Some (NewData 73 2 5 "hello") /\
  String.length (WriteMessage false (NewData 73 2 5 "hello")) = 63%nat.
Proof.
  destruct (lsp_io_roundtrip false (NewData 73 2 5 "hello")) as (H & _ & _).
  { repeat split; vm_compute; (reflexivity || discriminate). }
  split; [apply H; apply Nat.leb_le; vm_refl|vm_refl].
Defined.
