(* ===== verification/LspTypes.v ===== *)
(** Types of the LSP system: every number stays in the range of Go's [int], every
    message on its way has one of the three types, and what the two ends put on the
    network is what the packet codec of LspIO.v carries.  The states of
    LspSystem.v have messages where the program has packets; [packets_typed] says
    that nothing is lost by that. *)
From S2P Require Import Prelude GoText LspMessage LspWindow LspClient LspServer LspSystem LspDelivery LspIO.

Definition msg_typed (m : Message) : Prop :=
  0 <= MType m <= 2 /\ int64_ok (ConnID m) /\ int64_ok (SeqNum m) /\ 0 <= Size m < 2 ^ 63 /\
  (MType m = MsgData \/ Size m = 0 /\ Payload m = EmptyString).

Record window_typed (w : window) : Prop := {
  wt_tbuffer : forall k m, tbuffer w !! k = Some m -> msg_typed m;
  wt_tmsg : Forall msg_typed (tmsg w);
  wt_tsq : int64_ok (tsq w);
  wt_rsq : int64_ok (rsq w);
  wt_windows : int64_ok (windows w)
}.

Record end_typed (c : LspClient.client) : Prop := {
  et_id : int64_ok (LspClient.id c);
  et_incoming : Forall msg_typed (LspClient.incoming c);
  et_win : window_typed (LspClient.win c);
  et_count : int64_ok (LspClient.epochCount c);
  et_pc : forall i sq, LspClient.pc c = LspClient.AtDrain i sq -> int64_ok i /\ int64_ok sq
}.

Record info_typed (c : clientInfo) : Prop := {
  it_id : int64_ok (id c);
  it_incoming : Forall msg_typed (incoming c);
  it_win : window_typed (win c);
  it_count : int64_ok (epochCount c);
  it_pc : forall i sq, pc c = AtDrain i sq -> int64_ok i /\ int64_ok sq
}.

Record srv_typed (v : LspServer.server) : Prop := {
  vt_infos : forall i ci, infos v !! i = Some ci -> info_typed ci;
  vt_last : int64_ok (lastConnID v);
  vt_sincoming : Forall (fun p => msg_typed p.1) (sincoming v);
  vt_outgoing : Forall msg_typed (outgoing v);
  vt_hpc : forall i m, hpc v = HIncoming i m \/ hpc v = HOutgoing i m -> msg_typed m;
  vt_params : int64_ok (WindowSize (params v))
}.

Record sys_typed (s : sys) : Prop := {
  st_ends : forall a c, ends s !! a = Some c -> end_typed c;
  st_srv : srv_typed (srv s);
  st_to_srv : Forall (fun p => msg_typed p.2) (to_srv s);
  st_to_cli : Forall (fun p => msg_typed p.2) (to_cli s)
}.

(** A length of a payload, a connection number and a window size are Go [int]s. *)
Definition event_typed (ev : event) : Prop :=
  match ev with
  | ENewClient _ p => int64_ok (WindowSize p)
  | EWrite _ payload => Z.of_nat (String.length payload) < 2 ^ 63
  | SWrite cid payload => int64_ok cid /\ Z.of_nat (String.length payload) < 2 ^ 63
  | _ => True
  end.

(** ** Messages and windows *)

Lemma NewAck_typed cid sq : int64_ok cid -> int64_ok sq -> msg_typed (NewAck cid sq).
Proof. intros. unfold msg_typed. simpl. unfold MsgAck, MsgData. split_and!; try done; try lia. by right. Qed.

Lemma NewConnect_typed : msg_typed NewConnect.
Proof. unfold msg_typed, int64_ok. simpl. unfold MsgConnect. split_and!; try done; try lia. by right. Qed.

Lemma NewData_typed cid p :
  int64_ok cid -> Z.of_nat (String.length p) < 2 ^ 63 ->
  msg_typed (NewData cid (-1) (Z.of_nat (String.length p)) p).
Proof. intros. unfold msg_typed, int64_ok in *. simpl. unfold MsgData. split_and!; try done; try lia. Qed.

Lemma cut_typed cut m : msg_typed m -> msg_typed (cut_msg cut m).
Proof.
  unfold cut_msg. destruct cut; [|done]. case_match; [|done]. unfold msg_typed. simpl.
  intros (? & ? & ? & ? & [?|[_ Hp]]); [tauto|]. by rewrite Hp in *.
Qed.

#[local] Hint Resolve NewAck_typed NewConnect_typed NewData_typed cut_typed : go.

Lemma send_Forall {A} (P : A -> Prop) cap q x q' :
  send cap q x = Some q' -> P x -> Forall P q -> Forall P q'.
Proof. intros [_ ->]%send_Some Hx Hq. by apply Forall_app_2, Forall_singleton. Qed.

Lemma unacked_typed w : window_typed w -> Forall msg_typed (unacked w).
Proof.
  intros [H _ _ _ _]. apply Forall_forall. unfold unacked.
  intros m ([k m'] & -> & Hk%elem_of_map_to_list)%list_elem_of_fmap. by eapply H.
Qed.

Lemma transmit_typed w w' out :
  window_typed w -> transmit w = (w', out) -> window_typed w' /\ Forall msg_typed out.
Proof.
  intros [H1 H2 H3 H4 H5]. unfold transmit. case_match; [|by intros [= <- <-]].
  destruct (tmsg w) as [|m q] eqn:E; [by intros [= <- <-]; split; [split; rewrite ?E|]|].
  inversion H2 as [|? ? Hm Hq]; subst. intros [= <- <-].
  assert (msg_typed (set_SeqNum m (tsq w))) as Hm'.
  { unfold msg_typed in *. simpl. tauto. }
  split; [|by apply Forall_singleton]. split; simpl; auto using int64_range.
  intros k m' [[_ <-]|[_ Hk]]%lookup_insert_Some; [done|by eapply H1].
Qed.

Lemma store_typed w m : window_typed w -> window_typed (store w m).
Proof. intros [? ? ? ? ?]. unfold store. case_match; by split. Qed.

Lemma ack_typed w sq : window_typed w -> window_typed (ack w sq).
Proof.
  intros [H ? ? ? ?]. split; try done. simpl. intros k m [_ Hk]%lookup_delete_Some. by eapply H.
Qed.

Lemma drain_typed w i data w' : window_typed w -> drain_one w i = Some (data, w') -> window_typed w'.
Proof.
  intros [? ? ? ? ?]. unfold drain_one. case_match; [|done]. intros [= _ <-].
  split; simpl; auto using int64_range.
Qed.

Lemma tmsg_typed w q : window_typed w -> Forall msg_typed q -> window_typed (set_tmsg w q).
Proof. intros [? ? ? ? ?] ?. by split. Qed.

#[local] Hint Resolve store_typed ack_typed drain_typed tmsg_typed unacked_typed : go.

Lemma msg_fields_ok m : msg_typed m -> fields_ok m.
Proof. unfold msg_typed, fields_ok, int64_ok. lia. Qed.

(** ** The two ends *)

Lemma NewClient_typed p : int64_ok (WindowSize p) -> end_typed (LspClient.NewClient p).1.
Proof.
  intros Hp. split; simpl; try done; try (unfold int64_ok; lia).
  split; simpl; try done; try (unfold int64_ok; lia).
  intros k m [_ <-]%lookup_singleton_Some. apply NewConnect_typed.
Qed.

#[local] Ltac typed := simpl; repeat split; eauto with go.

(** A client after a move, and what the move put on the network. *)
Definition end_result (r : LspClient.client * list Message) : Prop := end_typed r.1 /\ Forall msg_typed r.2.

Lemma client_incoming_typed c m :
  end_typed c -> msg_typed m -> LspClient.pc c = LspClient.AtLoop ->
  end_result (LspClient.on_incoming c m).
Proof.
  intros [H1 H2 H3 H4 H5] Hm Hpc. pose proof Hm as (? & ? & ? & ? & ?).
  unfold LspClient.on_incoming. assert (int64_ok 0) by (unfold int64_ok; lia).
  destruct (_ =? MsgData); [destruct (is_short m)|].
  - split; [|done]. by split; simpl; rewrite ?Hpc.
  - cbn [LspClient.set_win LspClient.set_epochCount LspClient.win]. rewrite store_rsq. case_match.
    + split; [|done]. split; simpl; auto with go. intros i sq [= <- <-]. split; [apply H3|done].
    + split; [split; simpl; rewrite ?Hpc; auto with go; done|]. apply Forall_singleton; auto with go.
  - destruct (_ =? MsgAck); [|split; [by split; simpl; rewrite ?Hpc|done]].
    case_match; [|split; [by split; simpl; rewrite ?Hpc|done]]. split; [|done].
    case_match; split; simpl; rewrite ?Hpc; auto with go; done.
Qed.

Lemma client_handler_typed c sel r : end_typed c -> LspClient.handler c sel = Some r -> end_result r.
Proof.
  intros Hc. pose proof Hc as [H1 H2 H3 H4 H5]. unfold LspClient.handler.
  destruct (LspClient.pc c) as [|i sq|] eqn:Hpc; [|..|done].
  2: { destruct (H5 i sq eq_refl) as [Hi Hs]. unfold LspClient.on_drain.
    destruct (drain_one _ i) as [[data w]|] eqn:E.
    - destruct (send _ _ _) as [q|]; simpl; [|done]. intros [= <-]. split; [|done].
      split; simpl; eauto with go. intros ? ? [= <- <-]. split; [apply int64_range|done].
    - intros [= <-]. split; [by split|]. apply Forall_singleton; auto with go. }
  destruct (_ && _); [intros [= <-]; by split; [split|]|]. destruct sel.
  - destruct (LspClient.incoming c) as [|m q] eqn:Eq; [done|]. intros [= <-].
    inversion H2; subst. apply client_incoming_typed; [|done..]. split; simpl; rewrite ?Hpc; done.
  - unfold LspClient.on_timer. case_match.
    + destruct (send _ _ _) as [e|]; simpl; [|done]. intros [= <-]. split; [|done].
      split; simpl; auto with go. done.
    + intros [= <-]. split; [split; simpl; rewrite ?Hpc; auto with go; done|].
      apply Forall_app_2; [|simpl; auto with go]. assert (int64_ok 0) by (unfold int64_ok; lia).
      repeat case_match; try done; apply Forall_singleton; simpl; auto with go.
  - destruct (LspClient.incoming c) eqn:Eq; [|done]. intros [= <-]. unfold LspClient.on_default.
    destruct (transmit _) as [w o] eqn:E. destruct (transmit_typed _ _ _ H3 E).
    split; [|done]. split; simpl; rewrite ?Hpc, ?Eq; done.
Qed.

(** The same for the goroutine of a connection. *)
Definition info_result (r : clientInfo * list Message) : Prop := info_typed r.1 /\ Forall msg_typed r.2.

Lemma info_incoming_typed c m :
  info_typed c -> msg_typed m -> pc c = AtLoop -> info_result (on_incoming c m).
Proof.
  intros [H1 H2 H3 H4 H5] Hm Hpc. pose proof Hm as (? & ? & ? & ? & ?).
  unfold on_incoming. assert (int64_ok 0) by (unfold int64_ok; lia).
  destruct (_ =? MsgData); [destruct (is_short m)|].
  - split; [|done]. by split; simpl; rewrite ?Hpc.
  - cbn [set_win set_epochCount win]. rewrite store_rsq. case_match.
    + split; [|done]. split; simpl; auto with go. intros i sq [= <- <-]. split; [apply H3|done].
    + split; [split; simpl; rewrite ?Hpc; auto with go; done|]. apply Forall_singleton; auto with go.
  - destruct (_ =? MsgAck); [|split; [by split; simpl; rewrite ?Hpc|done]].
    case_match; split; try done; split; simpl; rewrite ?Hpc; auto with go; done.
Qed.

Lemma info_timer_typed c : info_typed c -> pc c = AtLoop -> info_result (on_timer c).
Proof.
  intros [H1 H2 H3 H4 H5] Hpc. unfold on_timer. case_match; [split; [|done]|split].
  - split; simpl; auto with go; done.
  - split; simpl; rewrite ?Hpc; auto with go; done.
  - apply Forall_app_2; [|simpl; auto with go]. assert (int64_ok 0) by (unfold int64_ok; lia).
    case_match; [|done]. apply Forall_singleton; simpl; auto with go.
Qed.

Lemma info_default_typed c b : info_typed c -> info_result (on_default c b).
Proof.
  intros [H1 H2 H3 H4 H5]. unfold on_default. destruct (transmit _) as [w o] eqn:E.
  destruct (transmit_typed _ _ _ H3 E). split; [|by case_match]. case_match; by split.
Qed.

(** ** The server *)

Definition srv_result (r : LspServer.server * list Message) : Prop := srv_typed r.1 /\ Forall msg_typed r.2.

Lemma put_info_typed v c : srv_typed v -> info_typed c -> srv_typed (put_info v c).
Proof.
  intros [H1 H2 H3 H4 H5 H6] Hc. split; simpl; try done.
  intros i ci [[_ <-]|[_ Hi]]%lookup_insert_Some; [done|by eapply H1].
Qed.

(** Moves of [handle] and of the application that leave the objects alone. *)
Lemma srv_frame v v' :
  infos v' = infos v -> lastConnID v' = lastConnID v -> sincoming v' = sincoming v ->
  outgoing v' = outgoing v -> hpc v' = hpc v -> params v' = params v ->
  srv_typed v -> srv_typed v'.
Proof. intros E1 E2 E3 E4 E5 E6 [H1 H2 H3 H4 H5 H6]. split; by rewrite ?E1, ?E2, ?E3, ?E4, ?E5, ?E6. Qed.

Lemma push_cls_typed v i v' : push_cls v i = Some v' -> srv_typed v -> srv_typed v'.
Proof. intros ->%push_cls_Some. by apply srv_frame. Qed.

Lemma set_pc_typed c p :
  info_typed c -> (forall i sq, p = AtDrain i sq -> int64_ok i /\ int64_ok sq) -> info_typed (set_pc c p).
Proof. intros [? ? ? ? ?] ?. by split. Qed.

Lemma handleClient_at_typed v c sel r :
  srv_typed v -> info_typed c -> handleClient_at v c sel = Some r -> srv_result r.
Proof.
  intros Hv Hc. pose proof Hc as [H1 H2 H3 H4 H5]. unfold handleClient_at.
  destruct (pc c) as [|i sq| | | |] eqn:Hpc; [|..|done].
  - destruct (_ && _).
    { intros [= <-]. split; [|done]. apply put_info_typed; [done|]. by split. }
    assert (forall r, info_result r -> srv_result (put_info v r.1, r.2)) as Hput.
    { intros r' [? ?]. split; [by apply put_info_typed|done]. }
    destruct sel.
    + destruct (incoming c) as [|m q] eqn:Eq; [done|]. inversion H2; subst.
      pose proof (info_incoming_typed (set_incoming c q) m) as Hr.
      destruct (on_incoming _ m) as [c' o]. intros [= <-]. apply (Hput (c', o)), Hr; [|done..].
      split; simpl; rewrite ?Hpc; done.
    + pose proof (info_timer_typed c Hc Hpc) as Hr. destruct (on_timer c) as [c' o].
      intros [= <-]. by apply (Hput (c', o)).
    + destruct (incoming c); [|done]. pose proof (info_default_typed c (bcls v) Hc) as Hr.
      destruct (on_default c _) as [c' o]. intros [= <-]. by apply (Hput (c', o)).
  - destruct (H5 i sq eq_refl). destruct (drain_one _ i) as [[data w]|] eqn:E.
    + destruct (send _ _ _) as [q|]; simpl; [|done]. intros [= <-]. split; [|done].
      apply put_info_typed; [by apply (srv_frame v)|]. split; simpl; eauto with go.
      intros ? ? [= <- <-]. split; [apply int64_range|done].
    + intros [= <-]. split; [|apply Forall_singleton; auto with go].
      apply put_info_typed; [done|]. by apply set_pc_typed.
  - destruct (push_cls v _) as [v'|] eqn:E; simpl; [|done]. intros [= <-]. split; [|done].
    apply put_info_typed; [by eapply push_cls_typed|by apply set_pc_typed].
  - destruct (push_cls v _) as [v'|] eqn:E; simpl; [|done]. intros [= <-]. split; [|done].
    apply put_info_typed; [by eapply push_cls_typed|by apply set_pc_typed].
  - destruct (send _ _ _) as [q|]; simpl; [|done]. intros [= <-]. split; [|done].
    apply put_info_typed; [by apply (srv_frame v)|]. by split.
Qed.

Definition srv_sends (r : LspServer.server * list (string * Message)) : Prop :=
  srv_typed r.1 /\ Forall (fun p => msg_typed p.2) r.2.

Lemma new_clientInfo_typed v a : srv_typed v -> info_typed (new_clientInfo v a).
Proof.
  intros [? ? ? ? ? ?]. split; simpl; try done; try (unfold int64_ok; lia).
Qed.

Lemma on_packet_typed v m a :
  srv_typed v -> hpc v = HSelect -> msg_typed m -> srv_sends (on_packet v m a).
Proof.
  intros Hv Hpc Hm. pose proof (vt_last _ Hv). unfold on_packet.
  destruct (_ =? _); [destruct (duplicate v a); [done|]|destruct (bool_decide _); [|done]].
  - split; [|apply Forall_singleton; simpl; apply NewAck_typed; [done|unfold int64_ok; lia]].
    pose proof (put_info_typed v _ Hv (new_clientInfo_typed v a Hv)) as [H1 H2 H3 H4 H5 H6].
    split; simpl; auto using int64_range.
  - split; [|done]. destruct Hv as [H1 H2 H3 H4 H5 H6]. split; simpl; try done.
    by intros i m' [[= _ <-]|?].
Qed.

Lemma on_cls_typed v i : srv_typed v -> srv_typed (on_cls v i).
Proof.
  intros Hv. unfold on_cls.
  set (v1 := if bool_decide (i ∈ clients v) then _ else v).
  assert (srv_typed v1) as [H1 H2 H3 H4 H5 H6].
  { unfold v1. case_bool_decide; [|done]. destruct (infos v !! i) as [c|] eqn:Hi; [|by apply (srv_frame v)].
    case_bool_decide; [|by apply (srv_frame v)].
    apply (srv_frame (put_info v (set_status c startClosing))); try done.
    apply put_info_typed; [done|]. by destruct (vt_infos _ Hv _ _ Hi); split. }
  case_match; split; simpl; try done. intros ? ? [?|?]; done.
Qed.

Lemma handle_typed v sel r : srv_typed v -> LspServer.handle v sel = Some r -> srv_sends r.
Proof.
  intros Hv. pose proof Hv as [H1 H2 H3 H4 H5 H6]. unfold handle.
  destruct (hpc v) as [|cid m|cid m|] eqn:Hpc; [|..|done].
  - destruct sel.
    + destruct (sincoming v) as [|[m a] q] eqn:Eq; [done|]. intros [= <-]. inversion H3; subst.
      apply on_packet_typed; [|done..]. split; simpl; try done. by rewrite Hpc.
    + destruct (outgoing v) as [|m q] eqn:Eq; [done|]. intros [= <-]. inversion H4; subst. split; [|done].
      unfold on_outgoing. case_match; split; simpl; rewrite ?Hpc; try done. by intros i m' [?|[= _ <-]].
    + destruct (cls v) as [|i q] eqn:Eq; [done|]. intros [= <-]. split; [|done].
      by apply on_cls_typed, (srv_frame v).
  - destruct (infos v !! cid) as [c|] eqn:Hi; simpl; [|done].
    destruct (send _ _ _) as [q|] eqn:Es; simpl; [|done]. intros [= <-]. split; [|done].
    assert (info_typed (set_incoming c q)) as Hc.
    { destruct (H1 _ _ Hi). split; simpl; try done. eapply send_Forall; eauto. }
    pose proof (put_info_typed v _ Hv Hc) as [I1 I2 I3 I4 I5 I6]. split; simpl; try done.
    by intros ? ? [?|?].
  - destruct (infos v !! cid) as [c|] eqn:Hi; simpl; [|done].
    destruct (send _ _ _) as [q|] eqn:Es; simpl; [|done]. intros [= <-]. split; [|done].
    assert (info_typed (set_win c (set_tmsg (win c) q))) as Hc.
    { destruct (H1 _ _ Hi) as [? ? Hw ? ?]. split; simpl; try done. apply tmsg_typed; [done|].
      eapply send_Forall; [done| |apply Hw]. apply (H5 cid). by right. }
    pose proof (put_info_typed v _ Hv Hc) as [I1 I2 I3 I4 I5 I6]. split; simpl; try done.
    by intros ? ? [?|?].
Qed.

(** ** The system *)

Lemma init_typed p : int64_ok (WindowSize p) -> sys_typed (init p).
Proof. intros Hp. split; simpl; try done. split; simpl; try done. by intros ? ? [?|?]. Qed.

Lemma move_end_typed s a c w r out :
  sys_typed s -> end_result (c, out) -> sys_typed (put_end s a c w r out).
Proof.
  intros [H1 H2 H3 H4] [Hc Ho]. split; simpl; try done.
  - intros b c' [[_ <-]|[_ Hb]]%lookup_insert_Some; [done|by eapply H1].
  - apply Forall_app_2; [done|]. by apply Forall_fmap.
Qed.

Lemma put_srv_typed s v out : sys_typed s -> srv_sends (v, out) -> sys_typed (put_srv s v out).
Proof. intros [H1 H2 H3 H4] [Hv Ho]. split; simpl; try done. by apply Forall_app_2. Qed.

Lemma end_step_typed s a c ev s' :
  sys_typed s -> ends s !! a = Some c -> event_typed ev -> end_step s a c ev = Some s' -> sys_typed s'.
Proof.
  intros Hs Hc Hev. pose proof (st_ends _ Hs _ _ Hc) as Ht. pose proof Ht as [H1 H2 H3 H4 H5].
  destruct ev; cbn [end_step]; try done; unfold move_end.
  - destruct (LspClient.handler c sel) as [[c' out]|] eqn:E; [|done]. intros [= <-].
    apply move_end_typed; [done|]. by eapply client_handler_typed.
  - destruct (to_cli s !! k) as [[d m]|] eqn:Ek; [|done]. destruct (_ && _); [|done].
    unfold LspClient.receiver. destruct (LspClient.receiving c); simpl; [|done].
    destruct (send _ _ _) as [q|] eqn:Eq; simpl; [|done]. intros [= <-].
    apply move_end_typed; [done|]. split; [|done]. split; simpl; try done.
    eapply send_Forall; [done| |done]. apply cut_typed.
    apply (Forall_lookup_1 _ _ _ _ (st_to_cli _ Hs) Ek).
  - unfold LspClient.receiver. destruct (LspClient.receiving c); simpl; [|done].
    destruct (_ >? _); simpl; intros [= <-]; (apply move_end_typed; [done|]); split; try done; by split.
  - destruct (established c); [|done]. unfold LspClient.Write.
    destruct (send _ _ _) as [q|] eqn:Eq; simpl; [|done]. intros [= <-].
    apply move_end_typed; [done|]. split; [|done]. split; simpl; try done.
    apply tmsg_typed; [done|]. eapply send_Forall; [done| |apply H3]. by apply NewData_typed.
  - unfold LspClient.Read_data. destruct (LspClient.rmsg c); [done|]. intros [= <-].
    apply move_end_typed; [done|]. split; [|done]. by split.
  - unfold LspClient.Read_err. destruct (LspClient.err c); simpl; [done|]. intros [= <-].
    apply move_end_typed; [done|]. split; [|done]. by split.
  - intros [= <-]. apply move_end_typed; [done|]. split; [|done].
    unfold LspClient.Close_begin. case_match; by split.
  - intros [= <-]. apply move_end_typed; [done|]. split; [|done].
    unfold LspClient.Close_poll. repeat case_match; by split.
Qed.

Lemma srv_step_typed s ev s' :
  sys_typed s -> event_typed ev -> srv_step s ev = Some s' -> sys_typed s'.
Proof.
  intros Hs Hev. pose proof (st_srv _ Hs) as Hv. pose proof Hv as [H1 H2 H3 H4 H5 H6].
  assert (forall v, srv_typed v -> sys_typed (put_srv s v [])) as Hq by (intros v ?; by apply put_srv_typed).
  destruct ev; cbn [srv_step]; try done; unfold quiet_srv.
  - destruct (LspServer.handle _ sel) as [[v out]|] eqn:E; [|done].
    pose proof (handle_typed _ _ _ Hv E) as Hr. pose proof (put_srv_typed _ _ _ Hs Hr) as [I1 I2 I3 I4].
    case_match; intros [= <-]; by split.
  - unfold LspServer.handleClient. destruct (infos (srv s) !! cid) as [c|] eqn:Hi; simpl; [|done].
    destruct (handleClient_at _ c sel) as [[v out]|] eqn:E; [|done]. intros [= <-].
    destruct (handleClient_at_typed _ _ _ _ Hv (H1 _ _ Hi) E). apply put_srv_typed; [done|].
    split; [done|]. by apply Forall_fmap.
  - destruct (to_srv s !! k) as [[a m]|] eqn:Ek; [|done]. destruct (LspServer.sock _); [|done].
    unfold receiver. destruct (receiving _); simpl; [|done].
    destruct (send _ _ _) as [q|] eqn:Eq; simpl; [|done]. intros [= <-]. apply Hq.
    split; simpl; try done. eapply send_Forall; [done| |done]. apply cut_typed.
    apply (Forall_lookup_1 _ _ _ _ (st_to_srv _ Hs) Ek).
  - unfold receiver. destruct (receiving _); simpl; [|done].
    case_match; intros [= <-]; apply Hq; [by apply (srv_frame (srv s))|done].
  - destruct Hev as [Hcid Hlen]. unfold LspServer.Write. destruct (send _ _ _) as [q|] eqn:Eq; simpl; [|done].
    intros [= <-]. apply Hq. split; simpl; try done. eapply send_Forall; [done| |done]. by apply NewData_typed.
  - unfold LspServer.Read_data. destruct (rmsg _) as [|[i d] q]; [done|]. intros [= <-].
    destruct (Hq (set_rmsg (srv s) q)) as [I1 I2 I3 I4]; [by apply (srv_frame (srv s))|]. by split.
  - unfold LspServer.Read_err. destruct (err _); simpl; [done|]. intros [= <-]. by apply Hq, (srv_frame (srv s)).
  - unfold CloseConn. destruct (push_cls _ _) as [v|] eqn:E; simpl; [|done]. intros [= <-].
    apply Hq. by eapply push_cls_typed.
  - unfold LspServer.Close_begin. destruct (bcls _); simpl; [done|]. intros [= <-].
    by apply Hq, (srv_frame (srv s)).
  - unfold LspServer.Close_poll. simpl. intros [= <-]. apply Hq. case_match; by apply (srv_frame (srv s)).
Qed.

Lemma step_typed s ev s' : sys_typed s -> event_typed ev -> step s ev = Some s' -> sys_typed s'.
Proof.
  intros Hs Hev Hstep.
  assert (forall a, (c ← ends s !! a; end_step s a c ev) = Some s' -> sys_typed s') as Hend.
  { intros a. destruct (ends s !! a) as [c|] eqn:Hc; simpl; [|done]. by apply end_step_typed. }
  destruct ev; try exact (Hend _ Hstep); try exact (srv_step_typed _ _ _ Hs Hev Hstep).
  cbn -[LspClient.NewClient] in Hstep. destruct (ends s !! a); [done|].
  pose proof (NewClient_typed p Hev) as Hc. destruct (LspClient.NewClient p) as [c out] eqn:E.
  injection Hstep as <-. apply move_end_typed; [done|]. split; [done|].
  injection E as _ <-. apply Forall_singleton, NewConnect_typed.
Qed.

Lemma exec_typed evs : forall s s',
  sys_typed s -> Forall event_typed evs -> exec step s evs = Some s' -> sys_typed s'.
Proof.
  induction evs as [|ev evs IH]; intros s s' Hs Hevs; simpl; [by intros [= <-]|].
  inversion Hevs; subst. destruct (step s ev) as [s1|] eqn:E; [|done]. apply IH; [|done].
  by eapply step_typed.
Qed.

(** A payload that fits the buffer of [ReadMessage] for any identifier and number. *)
Lemma typed_fits nil_slice m :
  msg_typed m -> Size m <= 1400 -> payload_len m <= 1400 ->
  ReadMessage (WriteMessage nil_slice m) = Some m.
Proof.
  intros Hm Hsize Hp. unfold ReadMessage.
  rewrite take_str_whole; [by apply Unmarshal_Marshal, msg_fields_ok|].
  pose proof (packet_length nil_slice m) as H. destruct Hm as (Ht & Hc & Hq & Hz & Hd).
  unfold int64_ok in *.
  pose proof (Itoa_length (MType m) 1 ltac:(lia) ltac:(lia)).
  pose proof (Itoa_length (ConnID m) 19 ltac:(lia) ltac:(lia)).
  pose proof (Itoa_length (SeqNum m) 19 ltac:(lia) ltac:(lia)).
  pose proof (Itoa_length (Size m) 4 ltac:(lia) ltac:(lia)).
  assert ((payload_len m + 2) / 3 <= 467) by (apply Z.lt_succ_r, Z.div_lt_upper_bound; lia).
  unfold packet_size. destruct (_ && _); repeat case_match; lia.
Qed.

(** C39: types.  In every reachable state each number of a client, of the server and of
    its connections is in the range of Go's [int]; each packet on the network is a
    connection request, a data message whose [Size] is the length of its payload, or
    an acknowledgement; the codec gives it back, and with a payload of at most 1400
    bytes it also fits the buffer of the reader, so the network of messages of this
    development is the network of packets of the program. *)
Theorem packets_typed p evs s nil_slice a m :
  Z.of_nat (length evs) < 2 ^ 62 -> int64_ok (WindowSize p) -> Forall event_typed evs ->
  exec step (init p) evs = Some s ->
  sys_typed s /\
  ((a, m) ∈ to_srv s \/ (a, m) ∈ to_cli s ->
   msg_typed m /\ (MType m = MsgData -> Size m = payload_len m) /\
   Unmarshal (Marshal nil_slice m) = Some m /\
   (payload_len m <= 1400 -> ReadMessage (WriteMessage nil_slice m) = Some m)).
Proof.
  intros Hlen Hp Hevs Hrun. pose proof (exec_typed _ _ _ (init_typed p Hp) Hevs Hrun) as Hs.
  pose proof (run_inv _ _ _ Hlen Hrun) as Hv. split; [done|]. intros Hm.
  assert (msg_typed m) as Ht.
  { destruct Hs as [_ _ H1 H2]. rewrite Forall_forall in H1, H2.
    destruct Hm as [Hm|Hm]; [by apply (H1 (a, m))|by apply (H2 (a, m))]. }
  assert (MType m = MsgData -> Size m = payload_len m) as Hz.
  { intros Hd. destruct Hm as [Hm|Hm].
    - destruct (v_to_srv _ _ _ Hv _ _ Hm) as (c & _ & Hsent). by apply Hsent.
    - destruct (v_to_cli _ _ _ Hv _ _ Hm) as (i & ci & [_ Hsent _ _]). by apply Hsent. }
  split_and!; [apply Ht..|done| |].
  - by apply Unmarshal_Marshal, msg_fields_ok.
  - intros Hp'. apply typed_fits; [done| |done].
    destruct Ht as (_ & _ & _ & _ & [Hd|[-> _]]); [by rewrite Hz|lia].
Qed.

(** ** Witness *)

Lemma packets_typed_witness :
  let s := run step (init demo_params) demo_run in
  let m := NewData 73 1 5 "hello" in
  (("c1"%string, m) ∈ to_srv s) /\ ReadMessage (WriteMessage false m) = Some m.
Proof.
  intros s m. assert (("c1"%string, m) ∈ to_srv s) as Hm.
  { apply (list_elem_of_lookup_2 _ 1%nat). vm_refl. }
  split; [exact Hm|].
  apply (packets_typed demo_params demo_run s false "c1" m); [vm_refl| | | |left; exact Hm|].
  - split; vm_compute; (reflexivity || discriminate).
  - unfold demo_run, demo_connect, demo_hello, demo_world.
    repeat apply Forall_cons_2; try apply Forall_nil_2; try exact I;
      repeat split; vm_compute; (reflexivity || discriminate).
  - exact (exec_run step (init demo_params) demo_run ltac:(vm_refl)).
  - vm_compute. discriminate.
Defined.
