(* ===== verification/LspNet.v ===== *)
(** The network wrapper that injects faults (src/project-2/src/example.com/lspnet:
    staff.go, net.go, conn.go).

    The random numbers are arguments.  A packet is the JSON text of a message, as
    in LspIO.v; the sockets below are not modelled. *)
From Stdlib Require Import Ascii.
From S2P Require Import Prelude GoText Utf8 Json LspMessage LspIO.

(** ** staff.go: the percentages, [uint32] variables *)

Record staff := mkStaff {
  clientReadDropPercent : Z;
  clientWriteDropPercent : Z;
  serverReadDropPercent : Z;
  serverWriteDropPercent : Z;
  msgShorteningPercent : Z;
  msgLengtheningPercent : Z
}.

Definition init_staff : staff := mkStaff 0 0 0 0 0 0.

Definition in_percent (p : Z) : bool := (0 <=? p) && (p <=? 100).

Definition SetClientReadDropPercent (s : staff) (p : Z) : staff :=
  if in_percent p then
    mkStaff (uint32 p) (clientWriteDropPercent s) (serverReadDropPercent s) (serverWriteDropPercent s)
      (msgShorteningPercent s) (msgLengtheningPercent s)
  else s.
Definition SetClientWriteDropPercent (s : staff) (p : Z) : staff :=
  if in_percent p then
    mkStaff (clientReadDropPercent s) (uint32 p) (serverReadDropPercent s) (serverWriteDropPercent s)
      (msgShorteningPercent s) (msgLengtheningPercent s)
  else s.
Definition SetServerReadDropPercent (s : staff) (p : Z) : staff :=
  if in_percent p then
    mkStaff (clientReadDropPercent s) (clientWriteDropPercent s) (uint32 p) (serverWriteDropPercent s)
      (msgShorteningPercent s) (msgLengtheningPercent s)
  else s.
Definition SetServerWriteDropPercent (s : staff) (p : Z) : staff :=
  if in_percent p then
    mkStaff (clientReadDropPercent s) (clientWriteDropPercent s) (serverReadDropPercent s) (uint32 p)
      (msgShorteningPercent s) (msgLengtheningPercent s)
  else s.

Definition SetReadDropPercent (s : staff) (p : Z) : staff :=
  SetServerReadDropPercent (SetClientReadDropPercent s p) p.
Definition SetWriteDropPercent (s : staff) (p : Z) : staff :=
  SetServerWriteDropPercent (SetClientWriteDropPercent s p) p.
Definition ResetDropPercent (s : staff) : staff :=
  SetWriteDropPercent (SetReadDropPercent s 0) 0.

(** The guard is written [0 <= 0 && p <= 100]. *)
Definition SetMsgShorteningPercent (s : staff) (p : Z) : staff :=
  if (0 <=? 0) && (p <=? 100) then
    mkStaff (clientReadDropPercent s) (clientWriteDropPercent s) (serverReadDropPercent s)
      (serverWriteDropPercent s) (uint32 p) (msgLengtheningPercent s)
  else s.
Definition SetMsgLengtheningPercent (s : staff) (p : Z) : staff :=
  if (0 <=? 0) && (p <=? 100) then
    mkStaff (clientReadDropPercent s) (clientWriteDropPercent s) (serverReadDropPercent s)
      (serverWriteDropPercent s) (msgShorteningPercent s) (uint32 p)
  else s.

(** ** addr.go *)

(** Go's [net.UDPAddr], and its wrapper. *)
Record NetAddr := mkNetAddr { IP : string; Port : Z; Zone : string }.
Record UDPAddr := mkUDPAddr { naddr : NetAddr }.

Definition toNet (a : UDPAddr) : NetAddr := mkNetAddr (IP (naddr a)) (Port (naddr a)) (Zone (naddr a)).

(** ** net.go: which connections were made by a server

    A [UDPConn] is the socket of Go's package [net] it wraps, a number here. *)

Abbreviation connections := (gmap Z bool).

Section Net.

(** Go's package [net]: a value or an error. *)
Variable net_ResolveUDPAddr : string -> string -> NetAddr + string.
Variable net_ListenUDP : string -> option NetAddr -> Z + string.
Variable net_DialUDP : string -> option NetAddr -> option NetAddr -> Z + string.
Variable net_Close : Z -> option string.
Variable net_String : NetAddr -> string.

Definition UDPAddr_String (a : UDPAddr) : string := net_String (naddr a).

Definition ResolveUDPAddr (ntwk addr : string) : UDPAddr + string :=
  match net_ResolveUDPAddr ntwk addr with
  | inr err => inr err
  | inl a => inl (mkUDPAddr a)
  end.

Definition ListenUDP (m : connections) (ntwk : string) (laddr : option UDPAddr)
    : (Z + string) * connections :=
  match net_ListenUDP ntwk (toNet <$> laddr) with
  | inr err => (inr err, m)
  | inl conn => (inl conn, <[conn := true]> m)
  end.

Definition DialUDP (m : connections) (ntwk : string) (laddr raddr : option UDPAddr)
    : (Z + string) * connections :=
  match net_DialUDP ntwk (toNet <$> laddr) (toNet <$> raddr) with
  | inr err => (inr err, m)
  | inl conn => (inl conn, <[conn := false]> m)
  end.

Definition CloseUDP (m : connections) (conn : Z) : option string * connections :=
  let m := if bool_decide (is_Some (m !! conn)) then delete conn m else m in
  (net_Close conn, m).
End Net.

Definition readDropPercent (s : staff) (m : connections) (conn : Z) : Z :=
  match m !! conn with
  | Some true => serverReadDropPercent s
  | Some false => clientReadDropPercent s
  | None => 0
  end.
Definition writeDropPercent (s : staff) (m : connections) (conn : Z) : Z :=
  match m !! conn with
  | Some true => serverWriteDropPercent s
  | Some false => clientWriteDropPercent s
  | None => 0
  end.

(** ** conn.go *)

(** The fields of [TemporaryMessage] are those of [Message]. *)
Definition TemporaryMessage : Type := Message.

(** The variable [enableDebugLogs], a [uint32]. *)
Definition EnableDebugLogs (enable : bool) : Z := if enable then 1 else 0.
Definition isLoggingEnabled (enableDebugLogs : Z) : bool := enableDebugLogs =? 1.

(** [rand.Intn(100) < percentage] *)
Definition sometimes (rand percentage : Z) : bool := rand <? percentage.

(** What the socket's [ReadFromUDP] returns: the bytes it was sent, their source and
    an error. *)
Record arrival := mkArrival { bytes : string; source : option NetAddr; failure : option string }.

(** [copy(dst, src)] on two slices. *)
Definition copy (dst src : string) : string :=
  (take_str (String.length dst) src ++ drop_str (String.length src) dst)%string.

(** The socket writes what arrived over the front of the buffer. *)
Definition fill (buffer data : string) : string := copy buffer (take_str (String.length buffer) data).

Fixpoint zeros (n : nat) : string :=
  match n with
  | O => EmptyString
  | S n => String (char 0) (zeros n)
  end.

Definition dropped_log (what : string) (n : Z) : string :=
  ("DROPPING " ++ what ++ " packet of length " ++ Itoa n)%string.

(** The loop of [ReadFromUDP] over what arrives, each with a random number: the first
    arrival that is not dropped is copied to [b] and returned, with what was logged
    before.  [None]: all were dropped, the loop goes on. *)
Fixpoint read_loop (percentage enableDebugLogs : Z) (buffer b : string)
    (arrivals : list (arrival * Z)) (logs : list string)
    : option (Z * string * option UDPAddr * option string * list string) :=
  match arrivals with
  | [] => None
  | (x, rand) :: arrivals =>
      let n := Z.of_nat (Nat.min (String.length buffer) (String.length (bytes x))) in
      let buffer := fill buffer (bytes x) in
      if sometimes rand percentage then
        let logs := if isLoggingEnabled enableDebugLogs
                    then logs ++ [dropped_log "read" n] else logs in
        read_loop percentage enableDebugLogs buffer b arrivals logs
      else Some (n, copy b buffer, mkUDPAddr <$> source x, failure x, logs)
  end.

Definition ReadFromUDP (s : staff) (m : connections) (conn enableDebugLogs : Z) (b : string)
    (arrivals : list (arrival * Z)) : option (Z * string * option UDPAddr * option string * list string) :=
  read_loop (readDropPercent s m conn) enableDebugLogs (zeros packet_size) b arrivals [].

(** [Read] is the same loop without the address. *)
Definition Read (s : staff) (m : connections) (conn enableDebugLogs : Z) (b : string)
    (arrivals : list (arrival * Z)) : option (Z * string * option string) :=
  '(n, b, _, err, _) ← ReadFromUDP s m conn enableDebugLogs b arrivals; Some (n, b, err).

Definition space (c : ascii) : bool :=
  let b := byte c in (b =? 32) || (b =? 9) || (b =? 10) || (b =? 13).

Fixpoint trim_left (s : string) : string :=
  match s with
  | String c t => if space c then trim_left t else s
  | EmptyString => EmptyString
  end.

Fixpoint trim_right (s : string) : string :=
  match s with
  | String c t =>
      match trim_right t with
      | EmptyString => if space c then EmptyString else one c
      | t => String c t
      end
  | EmptyString => EmptyString
  end.

(** Does [json.Unmarshal] of the payload into an [int] succeed? *)
Definition json_int (p : string) : bool :=
  let t := trim_right (trim_left p) in
  String.eqb t "null" || String.eqb t "-0" ||
  match Atoi t with Some z => String.eqb (Itoa z) t | None => false end.

(** [msg.Payload[:len(msg.Payload)/2]] *)
Definition half (p : string) : string := take_str (String.length p / 2) p.

(** The two alterations.  The number is used when the payload is {e not} one, so it
    is always 0. *)
Definition shortened (p : string) : string := if json_int p then half p else "0"%string.
Definition lengthened (p : string) : string :=
  if json_int p then (p ++ String (char 2) (String (char 3) (one (char 4))))%string else "0"%string.

Definition set_Payload (m : Message) (p : string) : Message :=
  mkMessage (MType m) (ConnID m) (SeqNum m) (Size m) p.

Definition alter (shorten lengthen : bool) (m : Message) : Message :=
  if shorten then set_Payload m (shortened (Payload m))
  else if lengthen then set_Payload m (lengthened (Payload m))
  else m.

(** [write]: the packet that is given to the socket, if it is not dropped; a text that
    is no message leaves unchanged.  The three random numbers are those of the three
    calls of [sometimes]. *)
Definition write (s : staff) (m : connections) (conn : Z) (rand1 rand2 rand3 : Z) (b : string)
    : option string :=
  if sometimes rand1 (writeDropPercent s m conn) then None
  else
    match Unmarshal b with
    | Some msg =>
        if MType msg =? MsgData then
          let shorten := sometimes rand2 (msgShorteningPercent s) in
          let lengthen := sometimes rand3 (msgLengtheningPercent s) in
          Some (if shorten || lengthen then Marshal false (alter shorten lengthen msg) else b)
        else Some b
    | None => Some b
    end.

Section Write.

(** The socket: how many bytes it wrote, or an error. *)
Variable net_Write : Z -> string -> Z + string.
Variable net_WriteToUDP : Z -> string -> NetAddr -> Z * option string.

(** What [write] returns: a dropped packet looks written, and an error of a connected
    socket is lost. *)
Definition write_result (conn : Z) (b : string) (packet : option string) (addr : option UDPAddr)
    : Z * option string :=
  match packet with
  | None => (Z.of_nat (String.length b), None)
  | Some packet =>
      match addr with
      | None =>
          match net_Write conn packet with
          | inr err => (0, None)
          | inl n => (n, None)
          end
      | Some addr => net_WriteToUDP conn packet (toNet addr)
      end
  end.

Definition Write (s : staff) (m : connections) (conn rand1 rand2 rand3 : Z) (b : string)
    : Z * option string :=
  write_result conn b (write s m conn rand1 rand2 rand3 b) None.

Definition WriteToUDP (s : staff) (m : connections) (conn rand1 rand2 rand3 : Z) (b : string)
    (addr : option UDPAddr) : Z * option string :=
  match addr with
  | None => (0, Some "addr must not be nil"%string)
  | Some addr => write_result conn b (write s m conn rand1 rand2 rand3 b) (Some addr)
  end.
End Write.

(** ** Properties *)

Inductive setter := ClientRead | ClientWrite | ServerRead | ServerWrite | Reads | Writes | Reset
  | Shortening | Lengthening.

Definition set_one (s : staff) (c : setter * Z) : staff :=
  match c.1 with
  | ClientRead => SetClientReadDropPercent s c.2
  | ClientWrite => SetClientWriteDropPercent s c.2
  | ServerRead => SetServerReadDropPercent s c.2
  | ServerWrite => SetServerWriteDropPercent s c.2
  | Reads => SetReadDropPercent s c.2
  | Writes => SetWriteDropPercent s c.2
  | Reset => ResetDropPercent s
  | Shortening => SetMsgShorteningPercent s c.2
  | Lengthening => SetMsgLengtheningPercent s c.2
  end.

(** The four drop percentages are percentages, whatever the setters are given. *)
Definition drops_ok (s : staff) : Prop :=
  (0 <= clientReadDropPercent s <= 100) /\ (0 <= clientWriteDropPercent s <= 100) /\
  (0 <= serverReadDropPercent s <= 100) /\ (0 <= serverWriteDropPercent s <= 100).

Lemma in_percent_uint32 p : in_percent p = true -> 0 <= uint32 p <= 100.
Proof. unfold in_percent, uint32. intros H. rewrite Z.mod_small; lia. Qed.

(** Each setter alone. *)
Ltac solve_drops :=
  intros ? p ?; match goal with |- drops_ok (?f _ _) => unfold f end;
  destruct (in_percent p) eqn:E; [apply in_percent_uint32 in E|assumption];
  unfold drops_ok in *; simpl; tauto.

Lemma drops_client_read : forall s p, drops_ok s -> drops_ok (SetClientReadDropPercent s p).
Proof. solve_drops. Qed.
Lemma drops_client_write : forall s p, drops_ok s -> drops_ok (SetClientWriteDropPercent s p).
Proof. solve_drops. Qed.
Lemma drops_server_read : forall s p, drops_ok s -> drops_ok (SetServerReadDropPercent s p).
Proof. solve_drops. Qed.
Lemma drops_server_write : forall s p, drops_ok s -> drops_ok (SetServerWriteDropPercent s p).
Proof. solve_drops. Qed.

#[local] Hint Resolve drops_client_read drops_client_write drops_server_read drops_server_write : go.

Lemma drops_ok_set s c : drops_ok s -> drops_ok (set_one s c).
Proof.
  intros H. destruct c as [[] p]; unfold set_one, ResetDropPercent, SetReadDropPercent, SetWriteDropPercent;
    cbn [fst snd]; auto 6 with go.
  - unfold SetMsgShorteningPercent. by destruct (_ && _).
  - unfold SetMsgLengtheningPercent. by destruct (_ && _).
Qed.

(** A negative percentage makes every data message shorter or longer. *)
Lemma negative_percent s p rand :
  - 2 ^ 31 <= p < 0 -> 0 <= rand < 100 ->
  sometimes rand (msgShorteningPercent (SetMsgShorteningPercent s p)) = true /\
  sometimes rand (msgLengtheningPercent (SetMsgLengtheningPercent s p)) = true.
Proof.
  intros Hp Hr. unfold SetMsgShorteningPercent, SetMsgLengtheningPercent, sometimes.
  rewrite (proj2 (Z.leb_le p 100)) by lia. simpl.
  assert (uint32 p = p + 2 ^ 32) as -> by (unfold uint32; symmetry; apply (Z.mod_unique _ _ (-1)); lia).
  lia.
Qed.

Lemma half_length p : Z.of_nat (String.length (half p)) = Z.of_nat (String.length p) / 2.
Proof.
  unfold half. assert (forall n s, (n <= String.length s)%nat -> String.length (take_str n s) = n) as H.
  { induction n as [|n IH]; intros [|c s]; simpl; try done; [lia|]. intros Hn. rewrite IH by lia. done. }
  rewrite H by (apply Nat.Div0.div_le_upper_bound; lia). by rewrite Nat2Z.inj_div.
Qed.

(** *** Reading *)

Lemma length_take_str n s : String.length (take_str n s) = Nat.min n (String.length s).
Proof. revert s. induction n as [|n IH]; intros [|c s]; simpl; [done..|by rewrite IH]. Qed.

Lemma take_str_app_le n s t : (n <= String.length s)%nat -> take_str n (s ++ t) = take_str n s.
Proof.
  revert s. induction n as [|n IH]; intros [|c s]; simpl; [by destruct t|done|lia|].
  intros Hn. rewrite IH by lia. done.
Qed.

Lemma drop_str_all n s : (String.length s <= n)%nat -> drop_str n s = EmptyString.
Proof.
  revert s. induction n as [|n IH]; intros [|c s]; simpl; try done; try lia. intros Hn. apply IH. lia.
Qed.

Lemma length_copy dst src : String.length (copy dst src) = String.length dst.
Proof. unfold copy. rewrite string_length_app, length_take_str, length_drop_str. lia. Qed.

Lemma copy_same dst src : String.length dst = String.length src -> copy dst src = src.
Proof.
  intros H. unfold copy. rewrite drop_str_all, string_app_nil_r by lia. apply take_str_whole. lia.
Qed.

Lemma fill_front buffer data :
  take_str (Nat.min (String.length buffer) (String.length data)) (fill buffer data) =
  take_str (String.length buffer) data.
Proof.
  unfold fill, copy. rewrite take_str_take.
  assert (Nat.min (String.length buffer) (String.length data) =
          String.length (take_str (String.length buffer) data)) as ->
    by (rewrite length_take_str; lia).
  rewrite take_str_app_le by done. by apply take_str_whole.
Qed.

Lemma zeros_length n : String.length (zeros n) = n.
Proof. induction n as [|n IH]; simpl; [done|by rewrite IH]. Qed.

(** A read that was not dropped. *)
Record reads (x : arrival) (size : nat) (n : Z) (b : string) (addr : option UDPAddr)
    (err : option string) : Prop := {
  rd_data : take_str (Z.to_nat n) b = take_str size (bytes x);
  rd_len : 0 <= n <= Z.of_nat size;
  rd_addr : addr = mkUDPAddr <$> source x;
  rd_err : err = failure x
}.

Lemma read_loop_spec percentage dbg b arrivals : forall buffer logs n b' addr err logs',
  String.length b = String.length buffer ->
  read_loop percentage dbg buffer b arrivals logs = Some (n, b', addr, err, logs') ->
  exists dropped x rand rest, arrivals = dropped ++ (x, rand) :: rest /\
    Forall (fun y => sometimes y.2 percentage = true) dropped /\ sometimes rand percentage = false /\
    reads x (String.length buffer) n b' addr err /\
    length logs' = (length logs + (if isLoggingEnabled dbg then length dropped else 0))%nat.
Proof.
  induction arrivals as [|[x rand] arrivals IH]; intros buffer logs n b' addr err logs' Hb; [done|].
  cbn [read_loop]. destruct (sometimes rand percentage) eqn:E.
  - intros H. apply IH in H as (dr & y & r & rest & -> & Hd & Hr & Hy & Hl).
    2: { unfold fill. by rewrite length_copy. }
    exists ((x, rand) :: dr), y, r, rest. split_and!; [done|by constructor|done| |].
    + unfold fill in Hy. by rewrite length_copy in Hy.
    + rewrite Hl. destruct (isLoggingEnabled dbg); rewrite ?length_app; simpl; lia.
  - intros [= <- <- <- <- <-]. exists [], x, rand, arrivals. split_and!; [done..| |].
    + split; [|lia|done|done]. rewrite copy_same by (unfold fill; by rewrite length_copy).
      rewrite Nat2Z.id. apply fill_front.
    + simpl. destruct (isLoggingEnabled dbg); lia.
Qed.

(** The caller's buffer of 2000 bytes gets the packet, whatever dropped packets left in
    the buffer of the loop. *)
Lemma ReadFromUDP_spec s m conn dbg b arrivals n b' addr err logs :
  String.length b = packet_size ->
  ReadFromUDP s m conn dbg b arrivals = Some (n, b', addr, err, logs) ->
  exists dropped x rand rest, arrivals = dropped ++ (x, rand) :: rest /\
    Forall (fun y => sometimes y.2 (readDropPercent s m conn) = true) dropped /\
    sometimes rand (readDropPercent s m conn) = false /\
    reads x packet_size n b' addr err /\
    length logs = (if isLoggingEnabled dbg then length dropped else 0)%nat.
Proof.
  intros Hb H. unfold ReadFromUDP in H. apply read_loop_spec in H; [|by rewrite zeros_length].
  by rewrite zeros_length in H.
Qed.

(** A connection that was closed is not in the table, so its reads and writes are not
    dropped any more: the loop of a reader ends with the error of the socket. *)
Lemma closed_reads net_Close s m conn dbg b x rand arrivals :
  0 <= rand < 100 ->
  ReadFromUDP s (CloseUDP net_Close m conn).2 conn dbg b ((x, rand) :: arrivals) =
    Some (Z.of_nat (Nat.min packet_size (String.length (bytes x))), copy b (fill (zeros packet_size) (bytes x)),
          mkUDPAddr <$> source x, failure x, []).
Proof.
  intros Hr. unfold ReadFromUDP, readDropPercent, CloseUDP. cbn [snd].
  assert ((if bool_decide (is_Some (m !! conn)) then delete conn m else m) !! conn = None) as ->.
  { case_bool_decide as H; [apply lookup_delete_eq|by apply eq_None_not_Some]. }
  cbn [read_loop]. unfold sometimes. replace (rand <? 0) with false by lia. by rewrite zeros_length.
Qed.

(** [Write] never fails: an error of the socket is reported as nothing written. *)
Lemma Write_no_error net_Write net_WriteToUDP s m conn r1 r2 r3 b :
  (Write net_Write net_WriteToUDP s m conn r1 r2 r3 b).2 = None.
Proof.
  unfold Write, write_result. destruct (write _ _ _ _ _ _ _); [|done]. by destruct (net_Write _ _).
Qed.

(** What the faulty network does to a message.  A packet of a message is dropped,
    sent as it is, or, for a data message only, sent with another payload; the
    header never changes.  The receivers' test, a payload shorter than [Size],
    notices the change except when a numeric payload was made longer and when a
    payload of at most one byte was replaced by a zero. *)
Theorem lspnet_write s conns conn r1 r2 r3 nil_slice m b :
  fields_ok m -> Size m = payload_len m ->
  write s conns conn r1 r2 r3 (Marshal nil_slice m) = Some b ->
  exists m', Unmarshal b = Some m' /\
    set_Payload m' (Payload m) = m /\ (MType m <> MsgData -> m' = m) /\
    (m' <> m -> is_short m' = false ->
       (Payload m' = lengthened (Payload m) /\ json_int (Payload m) = true) \/
       (Payload m' = "0"%string /\ payload_len m <= 1)).
Proof.
  intros Hm Hsize. unfold write. destruct (sometimes r1 _); [done|].
  rewrite Unmarshal_Marshal by done.
  assert (exists m', Unmarshal (Marshal nil_slice m) = Some m' /\ set_Payload m' (Payload m) = m /\
    (MType m <> MsgData -> m' = m) /\ (m' <> m -> is_short m' = false ->
       (Payload m' = lengthened (Payload m) /\ json_int (Payload m) = true) \/
       (Payload m' = "0"%string /\ payload_len m <= 1))) as Hsame.
  { exists m. rewrite Unmarshal_Marshal by done. split_and!; [done|by destruct m|done|done]. }
  destruct (Z.eqb_spec (MType m) MsgData) as [Hd|Hd]; [|by intros [= <-]].
  destruct (_ || _) eqn:Eor; [|by intros [= <-]]. intros [= <-].
  set (sh := sometimes r2 _) in *. set (le := sometimes r3 _) in *. exists (alter sh le m).
  assert (fields_ok (alter sh le m)) as Hf by (unfold alter; by destruct sh, le).
  rewrite Unmarshal_Marshal by done. split_and!; [done|unfold alter; by destruct sh, le, m|done|].
  intros _. unfold alter, is_short, payload_len. destruct sh; [|destruct le; [|done]]; simpl;
    rewrite Hsize; unfold shortened, lengthened, payload_len.
  - destruct (json_int (Payload m)) eqn:Ej; intros H.
    + rewrite half_length in H. exfalso.
      assert (String.length (Payload m) = 0%nat) as Hz by (apply Z.ltb_ge in H; pose proof (Z.div_lt_upper_bound (Z.of_nat (String.length (Payload m))) 2 (Z.of_nat (String.length (Payload m)))); lia).
      by destruct (Payload m).
    + right. split; [done|].
      apply Z.ltb_ge in H. clear -H. simpl in H. lia.
  - destruct (json_int (Payload m)) eqn:Ej; intros H; [by left|]. right. split; [done|].
      apply Z.ltb_ge in H. clear -H. simpl in H. lia.
Qed.

(** ** Witnesses *)

Lemma lspnet_write_witness :
  let s := SetMsgShorteningPercent init_staff (-1) in
  let m := NewData 73 2 5 "hello" in
  exists b m', write s ({[4 := false]}) 4 50 50 50 (Marshal false m) = Some b /\
    Unmarshal b = Some m' /\ set_Payload m' "hello" = m.
Proof.
  intros s m. destruct (write s ({[4 := false]}) 4 50 50 50 (Marshal false m)) as [b|] eqn:E;
    [|vm_compute in E; discriminate E].
  destruct (lspnet_write s ({[4 := false]}) 4 50 50 50 false m b) as (m' & H1 & H2 & _);
    [repeat split; vm_compute; (reflexivity || discriminate)|reflexivity|exact E|].
  exists b, m'. split; [reflexivity|]. split; [exact H1|exact H2].
Defined.
