(* ===== verification/LspNetwork.v ===== *)
(** LSP over the network wrapper of the course (src/project-2/src/example.com: lsp/io.go,
    lspnet).

    LspSystem.v hands messages over by itself; here they travel as packets.  A message
    is written through [write] of LspNet.v, which drops or alters its text, and what is
    left is on the wire, from where any packet may arrive, at any time, any number of
    times; it is read through [ReadFromUDP], which drops again, and decoded.  The
    random numbers are in the events.  The ends, and the histories of the
    applications, are those of LspSystem.v: [to_srv] and [to_cli] only tell which
    messages a move wrote, nothing arrives from them. *)
From S2P Require Import Prelude GoText Utf8 Json LspMessage LspIO LspNet LspWindow LspClient LspServer LspSystem LspDelivery LspTypes.

(** ** io.go over a connection *)

(** [ReadMessage]: a message or an error, and the address it came from. *)
Definition ReadMessage_from (st : staff) (cs : connections) (conn : Z) (arrivals : list (arrival * Z))
    : option (option Message * option UDPAddr) :=
  '(n, packet, addr, err, _) ← ReadFromUDP st cs conn 0 (zeros packet_size) arrivals;
  Some (match err with
        | Some _ => None
        | None => Unmarshal (take_str (Z.to_nat n) packet)
        end, addr).

(** The random numbers of a call of [write], and whether a payload without bytes is a
    nil slice. *)
Record fate := mkFate { drop_rand : Z; short_rand : Z; long_rand : Z; nil_slice : bool }.

(** [WriteMessage]: the error it returns; a [Message] always has a JSON text. *)
Definition WriteMessage_to (net_Write : Z -> string -> Z + string)
    (net_WriteToUDP : Z -> string -> NetAddr -> Z * option string)
    (st : staff) (cs : connections) (conn : Z) (addr : option UDPAddr) (m : Message) (f : fate)
    : option string :=
  let packet := Marshal (nil_slice f) m in
  match addr with
  | Some _ => (WriteToUDP net_Write net_WriteToUDP st cs conn
                 (drop_rand f) (short_rand f) (long_rand f) packet addr).2
  | None => (LspNet.Write net_Write net_WriteToUDP st cs conn
               (drop_rand f) (short_rand f) (long_rand f) packet).2
  end.

(** ** The system *)

Record network := mkNetwork {
  core : sys;
  wire_srv : list (string * string);    (* source, packet *)
  wire_cli : list (string * string);    (* destination, packet *)
  faults : staff
}.

Definition net_init (p : Params) : network := mkNetwork (init p) [] [] init_staff.

(** The sockets of the server and of the client at [a]. *)
Definition srv_conn : Z := 0.
Definition end_conn (a : string) : Z := Z.pos (countable.encode a).

(** The table of net.go: a socket is in it from [ListenUDP] or [DialUDP] to [Close]. *)
Definition open_conns (s : sys) : connections :=
  map_fold (fun a c m => if LspClient.sock c then <[end_conn a := false]> m else m)
    (if LspServer.sock (srv s) then {[srv_conn := true]} else ∅) (ends s).

(** The packets of the messages [out] that get on the wire.  [out] names each message's
    other end, [conn] the socket it leaves by. *)
Definition wire (st : staff) (cs : connections) (conn : string -> Z) (out : list (string * Message))
    (fates : list fate) : list (string * string) :=
  omap (fun x =>
    let '(a, m, f) := x in
    b ← write st cs (conn a) (drop_rand f) (short_rand f) (long_rand f) (Marshal (nil_slice f) m);
    Some (a, b)) (zip out fates).

Inductive net_event :=
| NMove (ev : event) (fates : list fate)
| NReceive (a : string) (k : nat) (rand : Z)
| NSReceive (k : nat) (rand : Z)
| NSet (c : setter * Z).

Definition is_receive (ev : event) : bool :=
  match ev with EReceive _ _ _ | SReceive _ _ => true | _ => false end.

Definition set_core (N : network) (s : sys) : network :=
  mkNetwork s (wire_srv N) (wire_cli N) (faults N).

(** What a receiver gets of the packet [b]; [None]: dropped. *)
Definition arrive (N : network) (conn : Z) (b : string) (rand : Z) : option (option Message) :=
  fst <$> ReadMessage_from (faults N) (open_conns (core N)) conn [(mkArrival b None None, rand)].

Definition nstep (N : network) (ev : net_event) : option network :=
  let s := core N in
  match ev with
  | NMove ev fates =>
      if is_receive ev then None
      else
        s' ← step s ev;
        let cs := open_conns s' in
        Some (mkNetwork s'
          (wire_srv N ++ wire (faults N) cs end_conn (drop (length (to_srv s)) (to_srv s')) fates)
          (wire_cli N ++ wire (faults N) cs (fun _ => srv_conn)
                           (drop (length (to_cli s)) (to_cli s')) fates)
          (faults N))
  | NReceive a k rand =>
      '(dst, b) ← wire_cli N !! k;
      c ← ends s !! a;
      if LspClient.sock c && String.eqb dst a then
        match arrive N (end_conn a) b rand with
        | None => Some N
        | Some r => set_core N <$> move_end s a ((fun c => (c, [])) <$> LspClient.receiver c r)
        end
      else None
  | NSReceive k rand =>
      '(a, b) ← wire_srv N !! k;
      if LspServer.sock (srv s) then
        match arrive N srv_conn b rand with
        | None => Some N
        | Some r => set_core N <$> quiet_srv s (LspServer.receiver (srv s) ((fun m => (m, a)) <$> r))
        end
      else None
  | NSet c => Some (mkNetwork s (wire_srv N) (wire_cli N) (set_one (faults N) c))
  end.

(** ** Packets *)

(** A payload that shortening makes shorter.  (A single character that is no number is
    replaced by another one.) *)
Definition fine (p : string) : bool := json_int p || Nat.leb 2 (String.length p).

Lemma shortened_shorter p : fine p = true -> (String.length (shortened p) < String.length p)%nat.
Proof.
  unfold fine, shortened. intros H. destruct (json_int p) eqn:E.
  - pose proof (half_length p) as Hh. destruct p as [|c p]; [by vm_compute in E|].
    apply Nat2Z.inj_lt. rewrite Hh. simpl String.length in *.
    apply Z.div_lt_upper_bound; lia.
  - rewrite orb_false_l in H. apply Nat.leb_le in H. simpl. lia.
Qed.

(** A packet is read as it was written, or not at all when it is too long. *)
Lemma read_or_error nil m :
  fields_ok m -> ReadMessage (Marshal nil m) = Some m \/ ReadMessage (Marshal nil m) = None.
Proof.
  intros Hm. unfold ReadMessage.
  destruct (decide (String.length (Marshal nil m) <= packet_size)%nat) as [Hl|Hl].
  - left. rewrite take_str_whole by done. by apply Unmarshal_Marshal.
  - right. apply Unmarshal_cut. lia.
Qed.

(** What is on the wire decodes to the message, maybe with a shorter payload, or does not
    decode. *)
Lemma write_cut st cs conn r1 r2 r3 nil m b :
  msg_typed m -> (MType m = MsgData -> msgShorteningPercent st <> 0 -> fine (Payload m) = true) ->
  msgLengtheningPercent st = 0 -> 0 <= r2 -> 0 <= r3 ->
  write st cs conn r1 r2 r3 (Marshal nil m) = Some b ->
  exists cut, ReadMessage b = Some (cut_msg cut m) \/ ReadMessage b = None.
Proof.
  intros Hm Hd Hl Hr2 Hr3. unfold write. destruct (sometimes r1 _); [done|].
  rewrite Unmarshal_Marshal by by apply msg_fields_ok.
  assert (exists cut, ReadMessage (Marshal nil m) = Some (cut_msg cut m) \/ ReadMessage (Marshal nil m) = None)
    as Hsame by (exists None; by apply read_or_error, msg_fields_ok).
  destruct (Z.eqb_spec (MType m) MsgData) as [Ht|Ht]; [|by intros [= <-]].
  unfold sometimes at 2. rewrite Hl. replace (r3 <? 0) with false by lia. rewrite orb_false_r.
  destruct (sometimes r2 _) eqn:Es; [|by intros [= <-]]. intros [= <-].
  assert (fine (Payload m) = true) as Hf.
  { apply Hd; [done|]. intros E. rewrite E in Es. unfold sometimes in Es. lia. }
  exists (Some (shortened (Payload m))).
  assert (set_Payload m (shortened (Payload m)) = cut_msg (Some (shortened (Payload m))) m) as ->.
  { unfold cut_msg. by rewrite (proj2 (Nat.ltb_lt _ _) (shortened_shorter _ Hf)). }
  by apply read_or_error, msg_fields_ok, cut_typed.
Qed.

(** ** Refinement *)

(** A step only adds to what was written, to the network and by the applications. *)
Record step_adds (s s' : sys) : Prop := {
  sa_srv : to_srv s `prefix_of` to_srv s';
  sa_cli : to_cli s `prefix_of` to_cli s';
  sa_written : forall a, written s !!! a `prefix_of` written s' !!! a;
  sa_accepted : forall i, accepted s !!! i `prefix_of` accepted s' !!! i
}.

Lemma adds_put_end s a c w r out :
  written s !!! a `prefix_of` w -> step_adds s (put_end s a c w r out).
Proof.
  intros Hw. split; [by apply prefix_app_r|done| |done]. intros b. simpl.
  destruct (decide (b = a)) as [->|]; [by rewrite lookup_total_insert_eq|by rewrite lookup_total_insert_ne].
Qed.

Lemma adds_put_srv s v out : step_adds s (put_srv s v out).
Proof. split; try done. by apply prefix_app_r. Qed.

Lemma adds_put_accepted s s' i l :
  step_adds s s' -> accepted s' !!! i `prefix_of` l -> step_adds s (put_accepted s' i l).
Proof.
  intros [H1 H2 H3 H4] Hl. split; try done. intros j. simpl. destruct (decide (j = i)) as [->|].
  - rewrite lookup_total_insert_eq. by trans (accepted s' !!! i).
  - by rewrite lookup_total_insert_ne.
Qed.

Lemma adds_move_end s a r s' : move_end s a r = Some s' -> step_adds s s'.
Proof. destruct r as [[c out]|]; [|done]. intros [= <-]. by apply adds_put_end. Qed.

Lemma adds_quiet s r s' : quiet_srv s r = Some s' -> step_adds s s'.
Proof. destruct r as [v|]; [|done]. intros [= <-]. apply adds_put_srv. Qed.

#[local] Hint Resolve adds_put_srv adds_move_end adds_quiet : go.

Lemma step_adds_to s ev s' : step s ev = Some s' -> step_adds s s'.
Proof.
  intros Hstep. destruct ev; cbn [step] in Hstep;
    try (destruct (ends s !! a) as [c|]; cbn [mbind option_bind end_step] in Hstep; [|discriminate Hstep]);
    cbn [srv_step] in Hstep; eauto with go.
  - destruct (ends s !! a); [done|]. destruct (LspClient.NewClient p) as [c out].
    injection Hstep as <-. by apply adds_put_end.
  - destruct (to_cli s !! k) as [[dst m]|]; [|done]. destruct (_ && _); eauto with go. done.
  - destruct (established c); [|done]. destruct (LspClient.Write c payload); [|done].
    injection Hstep as <-. by apply adds_put_end, prefix_app_r.
  - destruct (LspClient.Read_data c) as [[d c']|]; [|done]. injection Hstep as <-. by apply adds_put_end.
  - destruct (LspServer.handle (srv s) sel) as [[v out]|]; [|done].
    destruct (hpc (srv s)); injection Hstep as <-; auto with go.
    apply adds_put_accepted; [auto with go|by apply prefix_app_r].
  - destruct (LspServer.handleClient (srv s) cid sel) as [[v out]|]; [|done].
    injection Hstep as <-. auto with go.
  - destruct (to_srv s !! k) as [[a m]|]; [|done]. destruct (LspServer.sock _); eauto with go. done.
  - destruct (LspServer.Read_data (srv s)) as [[[i d] v]|]; [|done]. injection Hstep as <-.
    destruct (adds_put_srv s v []). by split.
Qed.

Lemma drop_prefix {A} (l l' : list A) x : l `prefix_of` l' -> x ∈ drop (length l) l' -> x ∈ l'.
Proof. intros [k ->]. rewrite drop_app_length. intros H. apply elem_of_app. by right. Qed.

(** Every packet on the wire decodes to a message that was written, maybe with a
    shorter payload, or does not decode. *)
Definition wire_ok (written_msgs : list (string * Message)) (packets : list (string * string)) : Prop :=
  forall a b, (a, b) ∈ packets ->
    exists m cut, (a, m) ∈ written_msgs /\ (ReadMessage b = Some (cut_msg cut m) \/ ReadMessage b = None).

Lemma wire_ok_mono l l' w : l `prefix_of` l' -> wire_ok l w -> wire_ok l' w.
Proof.
  intros [k ->] H a b Hb. destruct (H _ _ Hb) as (m & cut & Hm & Hr). exists m, cut.
  split; [|done]. apply elem_of_app. by left.
Qed.

Lemma wire_ok_new l st cs conn out fates :
  (forall a m, (a, m) ∈ out -> (a, m) ∈ l /\ msg_typed m /\
     (MType m = MsgData -> msgShorteningPercent st <> 0 -> fine (Payload m) = true)) ->
  msgLengtheningPercent st = 0 -> Forall (fun f => 0 <= short_rand f /\ 0 <= long_rand f) fates ->
  wire_ok l (wire st cs conn out fates).
Proof.
  intros Hout Hl Hf a b ([[a' m] f] & Hin & Hw)%list_elem_of_omap.
  destruct (write _ _ _ _ _ _ _) as [b'|] eqn:E; [|done]. injection Hw as -> ->.
  apply elem_of_zip_r in Hin as Hfin. apply elem_of_zip_l in Hin. destruct (Hout _ _ Hin) as (Hm & Ht & Hd).
  rewrite Forall_forall in Hf. destruct (Hf _ Hfin) as [Hf1 Hf2].
  destruct (write_cut _ _ _ _ _ _ _ _ _ Ht Hd Hl Hf1 Hf2 E) as [cut Hr]. by exists m, cut.
Qed.

(** What a receiver gets of a packet on the wire. *)
Lemma arrive_reads N conn b rand r : arrive N conn b rand = Some r -> r = ReadMessage b.
Proof.
  unfold arrive, ReadMessage_from.
  destruct (ReadFromUDP _ _ _ _ _ _) as [[[[[n b'] addr] err] logs]|] eqn:E; simpl; [|done].
  apply ReadFromUDP_spec in E as (dr & x & y & rest & Ex & _ & _ & Hr & _); [|apply zeros_length].
  assert (x = mkArrival b None None) as ->.
  { destruct dr as [|? [|? ?]]; simplify_eq/=; done. }
  destruct Hr as [Hd _ _ ->]. simpl in *. intros [= <-]. unfold ReadMessage. by rewrite Hd.
Qed.

(** The payloads the applications wrote. *)
Definition histories_fine (s : sys) : Prop :=
  (forall a, Forall (fun p => fine p = true) (written s !!! a)) /\
  (forall i, Forall (fun p => fine p = true) (accepted s !!! i)).

Lemma stream_at_fine l k p :
  Forall (fun p => fine p = true) l -> stream_at l k = Some p -> fine p = true.
Proof.
  intros Hl. unfold stream_at. destruct (1 <=? k); [|done]. intros Hp%list_elem_of_lookup_2.
  rewrite Forall_forall in Hl. by apply Hl.
Qed.

Lemma packet_fine n s a m :
  sys_inv None n s -> histories_fine s -> (a, m) ∈ to_srv s \/ (a, m) ∈ to_cli s ->
  MType m = MsgData -> fine (Payload m) = true.
Proof.
  intros Hv [Hw Ha] [Hm|Hm] Hd.
  - destruct (v_to_srv _ _ _ Hv _ _ Hm) as (c & _ & Hs). destruct (Hs Hd) as [? ?].
    by apply (stream_at_fine (written s !!! a) (SeqNum m)).
  - destruct (v_to_cli _ _ _ Hv _ _ Hm) as (i & ci & [_ Hs _ _]). destruct (Hs Hd) as [? ?].
    by apply (stream_at_fine (accepted s !!! i) (SeqNum m)).
Qed.

Lemma packet_typed s a m :
  sys_typed s -> (a, m) ∈ to_srv s \/ (a, m) ∈ to_cli s -> msg_typed m.
Proof.
  intros [_ _ H1 H2] Hm. rewrite Forall_forall in H1, H2.
  destruct Hm as [Hm|Hm]; [by apply (H1 (a, m))|by apply (H2 (a, m))].
Qed.

Lemma histories_back s s' : step_adds s s' -> histories_fine s' -> histories_fine s.
Proof.
  intros [_ _ Hw' Ha'] [Hw Ha]. split.
  - intros a. destruct (Hw' a) as [k E]. specialize (Hw a). rewrite E in Hw.
    by apply Forall_app in Hw as [? _].
  - intros i. destruct (Ha' i) as [k E]. specialize (Ha i). rewrite E in Ha.
    by apply Forall_app in Ha as [? _].
Qed.

(** So do the steps over the wire. *)
Lemma nstep_histories N ev N' :
  nstep N ev = Some N' -> histories_fine (core N') -> histories_fine (core N).
Proof.
  destruct ev as [ev fates|a k rand|k rand|c]; cbn [nstep].
  - destruct (is_receive ev); [done|]. destruct (step (core N) ev) as [s'|] eqn:E; [|done].
    intros [= <-]. by eapply histories_back, step_adds_to.
  - destruct (wire_cli N !! k) as [[dst b]|]; cbn [mbind option_bind]; [|done].
    destruct (ends (core N) !! a) as [c|]; cbn [mbind option_bind]; [|done].
    destruct (_ && _); [|done]. destruct (arrive _ _ _ _) as [r|]; [|by intros [= <-]].
    destruct (move_end _ _ _) as [s'|] eqn:E; [|done]. intros [= <-].
    by eapply histories_back, adds_move_end.
  - destruct (wire_srv N !! k) as [[a b]|]; cbn [mbind option_bind]; [|done].
    destruct (LspServer.sock _); [|done]. destruct (arrive _ _ _ _) as [r|]; [|by intros [= <-]].
    destruct (quiet_srv _ _) as [s'|] eqn:E; [|done]. intros [= <-]. by eapply histories_back, adds_quiet.
  - by intros [= <-].
Qed.

(** The numbers of an event are those of Go, and nobody asks for longer payloads. *)
Definition net_event_ok (ev : net_event) : Prop :=
  match ev with
  | NMove ev fates => event_typed ev /\ Forall (fun f => 0 <= short_rand f /\ 0 <= long_rand f) fates
  | NSet (Lengthening, p) => p = 0
  | _ => True
  end.

(** Shortening is switched on. *)
Definition shortens (ev : net_event) : bool :=
  match ev with NSet (Shortening, p) => negb (p =? 0) | _ => false end.

(** The moves of a schedule. *)
Definition moves (evs : list net_event) : list event :=
  omap (fun ev => match ev with NMove ev _ => Some ev | _ => None end) evs.

Lemma set_one_lengthening st c :
  (forall p, c = (Lengthening, p) -> p = 0) -> msgLengtheningPercent st = 0 ->
  msgLengtheningPercent (set_one st c) = 0.
Proof.
  intros Hc Hst. destruct c as [[] p]; try (by rewrite (Hc p eq_refl)); cbn;
    unfold SetReadDropPercent, SetWriteDropPercent, ResetDropPercent, SetReadDropPercent,
      SetWriteDropPercent, SetClientReadDropPercent, SetClientWriteDropPercent,
      SetServerReadDropPercent, SetServerWriteDropPercent, SetMsgShorteningPercent;
    repeat case_match; done.
Qed.

Lemma set_one_shortening st c :
  shortens (NSet c) = false -> msgShorteningPercent st = 0 -> msgShorteningPercent (set_one st c) = 0.
Proof.
  intros Hc Hst. destruct c as [[] p]; cbn in *;
    try (apply negb_false_iff, Z.eqb_eq in Hc; subst; done);
    unfold SetReadDropPercent, SetWriteDropPercent, ResetDropPercent, SetReadDropPercent,
      SetWriteDropPercent, SetClientReadDropPercent, SetClientWriteDropPercent,
      SetServerReadDropPercent, SetServerWriteDropPercent, SetMsgLengtheningPercent;
    repeat case_match; done.
Qed.

(** The moves other than the ends of [ReadMessage]. *)
Definition is_read (ev : event) : bool :=
  match ev with EReceive _ _ _ | EReceiveErr _ | SReceive _ _ | SReceiveErr => true | _ => false end.

Definition other_moves (evs : list event) : list event := List.filter (fun ev => negb (is_read ev)) evs.

Lemma other_moves_app evs evs' : other_moves (evs ++ evs') = other_moves evs ++ other_moves evs'.
Proof. apply List.filter_app. Qed.

Lemma moves_app nevs nevs' : moves (nevs ++ nevs') = moves nevs ++ moves nevs'.
Proof. apply omap_app. Qed.

Section Refinement.
Context (p : Params) (Hp : int64_ok (WindowSize p)).

(** A run over the wire, and the run of LspSystem.v that it is. *)
Record refines (nevs : list net_event) (N : network) (evs : list event) : Prop := {
  rf_run : exec step (init p) evs = Some (core N);
  rf_len : (length evs <= length nevs)%nat;
  rf_moves : other_moves evs = other_moves (moves nevs);
  rf_typed : Forall event_typed evs;
  rf_srv : wire_ok (to_srv (core N)) (wire_srv N);
  rf_cli : wire_ok (to_cli (core N)) (wire_cli N);
  rf_long : msgLengtheningPercent (faults N) = 0;
  rf_short : existsb shortens nevs = false -> msgShorteningPercent (faults N) = 0
}.

Lemma refines_silent nevs N N' evs nev :
  refines nevs N evs -> moves [nev] = [] -> core N' = core N -> wire_srv N' = wire_srv N ->
  wire_cli N' = wire_cli N -> msgLengtheningPercent (faults N') = 0 ->
  (shortens nev = false -> msgShorteningPercent (faults N) = 0 -> msgShorteningPercent (faults N') = 0) ->
  refines (nevs ++ [nev]) N' evs.
Proof using Type.
  intros [Hrun Hlen Hmv Hty Hs Hc Hl Hsh] Hn E1 E2 E3 E4 E5. split; rewrite ?E1, ?E2, ?E3; try done.
  - rewrite length_app. lia.
  - by rewrite Hmv, moves_app, Hn, app_nil_r.
  - rewrite existsb_app. simpl. rewrite orb_false_r. intros [? ?]%orb_false_elim. auto.
Qed.

Lemma refines_receive nevs N evs nev ev s' :
  refines nevs N evs -> moves [nev] = [] -> is_read ev = true -> step (core N) ev = Some s' ->
  refines (nevs ++ [nev]) (set_core N s') (evs ++ [ev]).
Proof using Type.
  intros [Hrun Hlen Hmv Hty Hs Hc Hl Hsh] Hn Hev Hstep.
  destruct (step_adds_to _ _ _ Hstep) as [P1 P2 _ _]. split; cbn [core set_core wire_srv wire_cli faults].
  - rewrite exec_app, Hrun. cbn [mbind option_bind exec]. by rewrite Hstep.
  - rewrite !length_app. simpl. lia.
  - rewrite other_moves_app, moves_app, Hn, app_nil_r, Hmv. unfold other_moves at 2. simpl.
    by rewrite Hev, app_nil_r.
  - apply Forall_app_2; [done|]. constructor; [|done]. by destruct ev.
  - by eapply wire_ok_mono.
  - by eapply wire_ok_mono.
  - done.
  - rewrite existsb_app. by intros [? _]%orb_false_elim; auto.
Qed.

(** A packet that arrives at the client at [a], or at the server, is one that the
    network of LspSystem.v may hand over, or an error of [ReadMessage]. *)
Lemma receive_cli nevs N evs a k rand N' :
  refines nevs N evs -> nstep N (NReceive a k rand) = Some N' ->
  exists evs', refines (nevs ++ [NReceive a k rand]) N' evs'.
Proof using Type.
  intros Hr. cbn [nstep].
  destruct (wire_cli N !! k) as [[dst b]|] eqn:Ek; cbn [mbind option_bind]; [|done].
  destruct (ends (core N) !! a) as [c|] eqn:Ec; cbn [mbind option_bind]; [|done].
  destruct (LspClient.sock c) eqn:Es; cbn [andb]; [|done].
  destruct (String.eqb_spec dst a) as [->|]; [|done].
  destruct (arrive _ _ _ _) as [r|] eqn:Ea.
  2: { intros [= <-]. exists evs. by apply (refines_silent nevs N); try done; apply Hr. }
  apply arrive_reads in Ea as ->.
  destruct (rf_cli _ _ _ Hr a b) as (m & cut & Hm & [-> | ->]); [by eapply list_elem_of_lookup_2|..].
  - apply list_elem_of_lookup_1 in Hm as [k' Hk'].
    destruct (LspClient.receiver c (Some (cut_msg cut m))) as [c'|] eqn:Er; [|done].
    intros [= <-]. exists (evs ++ [EReceive a k' cut]). apply refines_receive; [done..|].
    cbn [step]. rewrite Ec. cbn [mbind option_bind end_step]. by rewrite Hk', Es, String.eqb_refl, Er.
  - destruct (LspClient.receiver c None) as [c'|] eqn:Er; [|done].
    intros [= <-]. exists (evs ++ [EReceiveErr a]). apply refines_receive; [done..|].
    cbn [step]. rewrite Ec. cbn [mbind option_bind end_step]. by rewrite Er.
Qed.

Lemma receive_srv nevs N evs k rand N' :
  refines nevs N evs -> nstep N (NSReceive k rand) = Some N' ->
  exists evs', refines (nevs ++ [NSReceive k rand]) N' evs'.
Proof using Type.
  intros Hr. cbn [nstep].
  destruct (wire_srv N !! k) as [[a b]|] eqn:Ek; cbn [mbind option_bind]; [|done].
  destruct (LspServer.sock (srv (core N))) eqn:Es; [|done].
  destruct (arrive _ _ _ _) as [r|] eqn:Ea.
  2: { intros [= <-]. exists evs. by apply (refines_silent nevs N); try done; apply Hr. }
  apply arrive_reads in Ea as ->.
  destruct (rf_srv _ _ _ Hr a b) as (m & cut & Hm & [-> | ->]); [by eapply list_elem_of_lookup_2|..];
    cbn [fmap option_fmap option_map]; destruct (quiet_srv _ _) as [s'|] eqn:Eq; try done; intros [= <-].
  - apply list_elem_of_lookup_1 in Hm as [k' Hk'].
    exists (evs ++ [SReceive k' cut]). apply refines_receive; [done..|].
    cbn [step srv_step]. by rewrite Hk', Es.
  - exists (evs ++ [SReceiveErr]). by apply refines_receive.
Qed.

(** Any other move: what it writes goes through the faults. *)
Lemma move_wire nevs N evs ev fates N' :
  Z.of_nat (S (length nevs)) < 2 ^ 62 -> refines nevs N evs -> net_event_ok (NMove ev fates) ->
  nstep N (NMove ev fates) = Some N' -> (existsb shortens nevs = true -> histories_fine (core N')) ->
  refines (nevs ++ [NMove ev fates]) N' (evs ++ [ev]).
Proof using Hp.
  intros Hn [Hrun Hlen Hmv Hty Hs Hc Hl Hsh] [Hev Hf]. cbn [nstep].
  destruct (is_receive ev) eqn:Erc; [done|].
  destruct (step (core N) ev) as [s'|] eqn:Hstep; cbn [mbind option_bind]; [|done].
  intros [= <-]. cbn [core]. intros Hfine.
  assert (exec step (init p) (evs ++ [ev]) = Some s') as Hrun'.
  { rewrite exec_app, Hrun. cbn [mbind option_bind exec]. by rewrite Hstep. }
  assert (Forall event_typed (evs ++ [ev])) as Hty' by (by apply Forall_app_2; [|constructor]).
  assert (sys_inv None (length (evs ++ [ev])) s') as Hv.
  { apply (run_inv p); [rewrite length_app; simpl; lia|done]. }
  pose proof (exec_typed _ _ _ (init_typed p Hp) Hty' Hrun') as Ht.
  assert (forall a m, (a, m) ∈ to_srv s' \/ (a, m) ∈ to_cli s' -> msg_typed m /\
    (MType m = MsgData -> msgShorteningPercent (faults N) <> 0 -> fine (Payload m) = true)) as Hpkt.
  { intros a m Hm. split; [by eapply packet_typed|]. intros Hd Hne.
    eapply packet_fine; [done| |done..]. apply Hfine. by destruct (existsb shortens nevs); auto. }
  destruct (step_adds_to _ _ _ Hstep) as [P1 P2 _ _].
  split; cbn [core wire_srv wire_cli faults]; try done.
  - rewrite !length_app. simpl. lia.
  - by rewrite !other_moves_app, moves_app, other_moves_app, Hmv.
  - intros a b [H|H]%elem_of_app; [by eapply wire_ok_mono|]. revert a b H. apply wire_ok_new; try done.
    intros a m Hm. apply (drop_prefix _ _ _ P1) in Hm. split; [done|]. by apply (Hpkt a); left.
  - intros a b [H|H]%elem_of_app; [by eapply wire_ok_mono|]. revert a b H. apply wire_ok_new; try done.
    intros a m Hm. apply (drop_prefix _ _ _ P2) in Hm. split; [done|]. by apply (Hpkt a); right.
  - rewrite existsb_app. by intros [? _]%orb_false_elim; auto.
Qed.

Lemma nstep_refines nevs N evs ev N' :
  Z.of_nat (S (length nevs)) < 2 ^ 62 -> refines nevs N evs -> net_event_ok ev ->
  nstep N ev = Some N' -> (existsb shortens nevs = true -> histories_fine (core N')) ->
  exists evs', refines (nevs ++ [ev]) N' evs'.
Proof using Hp.
  intros Hn Hr Hev Hstep Hf. destruct ev as [ev fates|a k rand|k rand|c].
  - eexists. by eapply move_wire.
  - by eapply receive_cli.
  - by eapply receive_srv.
  - injection Hstep as <-. exists evs. apply (refines_silent nevs N); try done.
    + cbn [faults]. apply set_one_lengthening; [|apply Hr]. by intros x ->.
    + by apply set_one_shortening.
Qed.

Lemma run_refines nevs : forall N,
  Z.of_nat (length nevs) < 2 ^ 62 -> Forall net_event_ok nevs ->
  exec nstep (net_init p) nevs = Some N -> (existsb shortens nevs = true -> histories_fine (core N)) ->
  exists evs, refines nevs N evs.
Proof using Hp.
  induction nevs as [|ev nevs IH] using rev_ind; intros N Hn Hev Hrun Hf.
  { injection Hrun as <-. exists []. split; try done; by intros a b H%not_elem_of_nil. }
  rewrite length_app in Hn. simpl in Hn. apply Forall_app in Hev as [Hevs Hev].
  inversion Hev; subst. rewrite exec_app in Hrun.
  destruct (exec nstep (net_init p) nevs) as [N1|]; cbn [mbind option_bind exec] in Hrun; [|done].
  destruct (nstep N1 ev) as [N2|] eqn:E; [|done]. injection Hrun as <-.
  assert (existsb shortens nevs = true -> histories_fine (core N2)) as Hf2.
  { intros Hsh. apply Hf. by rewrite existsb_app, Hsh. }
  destruct (IH N1) as [evs Hr]; [lia|done|done|by intros Hsh; eapply nstep_histories; eauto|].
  eapply nstep_refines; [lia|done..].
Qed.
End Refinement.

(** C6: the protocol over the course's network.  Take a run of server and clients whose
    packets pass through the JSON text of the messages and the fault-injecting wrapper,
    with any percentages for dropping at either end and for shortening payloads, in
    which lengthening is off and, if shortening is ever switched on, no application
    writes an empty payload or a single character that is no number.  Then it is a run
    of LspSystem.v with the same moves but for the ends of [ReadMessage]: a packet that
    arrives is a written message, maybe with a shorter payload, or an error (when its
    text does not fit the reader's buffer).  So what is proved there of every
    schedule holds over this network.  ([lengthened_is_read] and [replaced_is_read]
    show that neither condition can be left out.) *)
Theorem lspnet_refinement p nevs N :
  int64_ok (WindowSize p) -> Z.of_nat (length nevs) < 2 ^ 62 -> Forall net_event_ok nevs ->
  exec nstep (net_init p) nevs = Some N ->
  (existsb shortens nevs = true -> histories_fine (core N)) ->
  exists evs, exec step (init p) evs = Some (core N) /\ (length evs <= length nevs)%nat /\
    other_moves evs = other_moves (moves nevs) /\ Forall event_typed evs.
Proof.
  intros Hp Hn Hev Hrun Hf. destruct (run_refines p Hp nevs N Hn Hev Hrun Hf) as [evs [? ? ? ? _ _ _ _]].
  by exists evs.
Qed.

(** ** Where the conditions fail

    The client at c1 writes [payload] once; the data packet that the server gets is
    the altered one, and its payload is not shorter than [Size]. *)
Definition altered_run (setting : setter * Z) (payload : string) : list net_event :=
  let f := mkFate 99 0 0 false in
  [NSet setting; NMove (ENewClient "c1" demo_params) [f];
   NSReceive 0 50; NMove (SHandle CasePacket) [f]; NReceive "c1" 0 50;
   NMove (EHandler "c1" LspClient.CaseIncoming) [];
   NMove (EWrite "c1" payload) []; NMove (EHandler "c1" LspClient.CaseDefault) [f];
   NSReceive 1 50; NMove (SHandle CasePacket) []; NMove (SHandle CasePacket) [];
   NMove (SClient 73 LspServer.CaseIncoming) []; NMove (SClient 73 LspServer.CaseDefault) []; NMove SRead []].

(** With lengthening, the server's application reads a text with the three bytes
    that the network has appended: nothing cuts a payload to its [Size]. *)
Example lengthened_is_read :
  let N := run nstep (net_init demo_params) (altered_run (Lengthening, 100) "7000") in
  runs nstep (net_init demo_params) (altered_run (Lengthening, 100) "7000") = true /\
  written (core N) !!! "c1"%string = ["7000"%string] /\
  sread (core N) !!! 73 = [lengthened "7000"] /\ String.length (lengthened "7000") = 7%nat.
Proof. split_and!; vm_refl. Qed.

(** With shortening, a single letter arrives as a zero. *)
Example replaced_is_read :
  let N := run nstep (net_init demo_params) (altered_run (Shortening, 100) "x") in
  runs nstep (net_init demo_params) (altered_run (Shortening, 100) "x") = true /\
  written (core N) !!! "c1"%string = ["x"%string] /\ sread (core N) !!! 73 = ["0"%string].
Proof. split_and!; vm_refl. Qed.

(** ** Witness: a shortened packet, and the one a tick sends again *)

Definition net_demo : list net_event :=
  let f := mkFate 99 99 99 true in
  let inc := LspServer.CaseIncoming in
  [NSet (Shortening, 50); NSet (Writes, 10); NMove (ENewClient "c1" demo_params) [f];
   NSReceive 0 50; NMove (SHandle CasePacket) [f]; NReceive "c1" 0 50;
   NMove (EHandler "c1" LspClient.CaseIncoming) [];
   NMove (EWrite "c1" "hello") []; NMove (EHandler "c1" LspClient.CaseDefault) [mkFate 99 0 99 false];
   NSReceive 1 50; NMove (SHandle CasePacket) []; NMove (SHandle CasePacket) []; NMove (SClient 73 inc) [];
   NMove (EHandler "c1" LspClient.CaseTimer) [mkFate 0 0 0 true; mkFate 99 99 99 false];
   NSReceive 2 50; NMove (SHandle CasePacket) []; NMove (SHandle CasePacket) []; NMove (SClient 73 inc) [];
   NMove (SClient 73 LspServer.CaseDefault) []; NMove SRead []].

Lemma total_fine {K} `{Countable K} (m : gmap K (list string)) :
  map_fold (fun _ l b => b && forallb fine l) true m = true ->
  forall k, Forall (fun p => fine p = true) (m !!! k).
Proof.
  intros Hm k. assert (forall l, m !! k = Some l -> forallb fine l = true) as H'.
  { revert Hm. apply (map_fold_weak_ind (fun b m => b = true -> forall l, m !! k = Some l -> forallb fine l = true)).
    - intros _ l. by rewrite lookup_empty.
    - intros i x m' b _ IH [Hb Hx]%andb_prop l [[_ <-]|[_ Hl]]%lookup_insert_Some; [done|by apply IH]. }
  rewrite lookup_total_alt. destruct (m !! k) as [l|]; [|done]. simpl. specialize (H' l eq_refl).
  rewrite forallb_forall in H'. apply Forall_forall. intros x Hx. apply H'. by apply list_elem_of_In.
Qed.

Lemma lspnet_refinement_witness :
  let N := run nstep (net_init demo_params) net_demo in
  sread (core N) !!! 73 = ["hello"%string] /\
  exists evs, exec step (init demo_params) evs = Some (core N) /\
    other_moves evs = other_moves (moves net_demo).
Proof.
  intros N. split; [vm_refl|].
  destruct (lspnet_refinement demo_params net_demo N) as (evs & H1 & _ & H3 & _).
  - split; vm_compute; (reflexivity || discriminate).
  - vm_refl.
  - unfold net_demo. repeat apply Forall_cons_2; try apply Forall_nil_2; try exact I;
      repeat split; repeat apply Forall_cons_2; try apply Forall_nil_2; repeat split;
      vm_compute; (reflexivity || discriminate).
  - exact (exec_run nstep (net_init demo_params) net_demo ltac:(vm_refl)).
  - intros _. split; apply total_fine; vm_refl.
  - by exists evs.
Defined.
