(* ===== verification/MapReduce.v ===== *)
(** The sequential map-reduce library (src/project-3/src/mapreduce/mapreduce.go).

    A file system is a map from names to contents; [None] is [log.Fatal] or a
    panic, which ends the process.  Creating and writing a file never fails in the
    model. *)
From Stdlib Require Import Ascii.
From S2P Require Import Prelude GoText Utf8 Json.

Abbreviation FS := (gmap string string).

(** ** File names *)

Definition MapName (fileName : string) (MapJob : Z) : string :=
  ("mrtmp." ++ fileName ++ "-" ++ Itoa MapJob)%string.

Definition ReduceName (fileName : string) (MapJob ReduceJob : Z) : string :=
  (MapName fileName MapJob ++ "-" ++ Itoa ReduceJob)%string.

Definition MergeName (fileName : string) (ReduceJob : Z) : string :=
  ("mrtmp." ++ fileName ++ "-res-" ++ Itoa ReduceJob)%string.

Definition OutName (fileName : string) : string := ("mrtmp." ++ fileName)%string.

(** ** Hashing

    [fnv.New32a]: FNV-1a on 32 bits. *)

Fixpoint fnv1a (h : Z) (s : string) : Z :=
  match s with
  | EmptyString => h
  | String c s => fnv1a (uint32 (Z.lxor h (byte c) * 16777619)) s
  end.

Definition ihash (s : string) : Z := fnv1a 2166136261 s.

(** ** Split *)

(** The lines of a text, the last one possibly without a newline. *)
Fixpoint raw_lines (s : string) : list string :=
  match s with
  | EmptyString => []
  | String c s =>
      if Ascii.eqb c (char 10) then EmptyString :: raw_lines s
      else match raw_lines s with
           | [] => [one c]
           | l :: ls => String c l :: ls
           end
  end.

Fixpoint dropCR (l : string) : string :=
  match l with
  | EmptyString => EmptyString
  | String c EmptyString => if Ascii.eqb c (char 13) then EmptyString else l
  | String c l => String c (dropCR l)
  end.

Definition MaxScanTokenSize : Z := 65536.

Definition line_fits (l : string) : bool := Z.of_nat (String.length l) <? MaxScanTokenSize.

Fixpoint take_while (p : string -> bool) (l : list string) : list string :=
  match l with
  | [] => []
  | x :: l => if p x then x :: take_while p l else []
  end.

(** What [scanner.Scan] gives: a line that does not fit the buffer ends the scan,
    as an error the caller does not look at. *)
Definition scan_lines (content : string) : list string :=
  dropCR <$> take_while line_fits (raw_lines content).

Definition append_file (fs : FS) (name text : string) : FS :=
  <[name := (fs !!! name ++ text)%string]> fs.

(** The body of the loop; [outfile] is the split of the map job [m - 1]. *)
Definition split_line (fileName : string) (nchunk : Z) (st : FS * Z * Z) (text : string)
    : FS * Z * Z :=
  let '(fs, m, i) := st in
  let '(fs, m) := if i >? int64 (nchunk * m)
                  then (<[MapName fileName m := EmptyString]> fs, int64 (m + 1)) else (fs, m) in
  let line := (text ++ newline)%string in
  (append_file fs (MapName fileName (m - 1)) line, m, int64 (i + Z.of_nat (String.length line))).

Definition Split (nMap : Z) (fileName : string) (fs : FS) : option FS :=
  content ← fs !! fileName;
  let size := Z.of_nat (String.length content) in
  if nMap =? 0 then None
  else
    let nchunk := int64 (Z.quot size nMap + 1) in
    let fs := <[MapName fileName 0 := EmptyString]> fs in
    Some (foldl (split_line fileName nchunk) (fs, 1, 0) (scan_lines content)).1.1.

(** ** Map jobs *)

Definition in_partition (nreduce r : Z) (kv : KeyValue) : bool :=
  ihash (Key kv) mod uint32 nreduce =? uint32 r.

Definition partition (nreduce r : Z) (kvs : list KeyValue) : list KeyValue :=
  base.filter (fun kv => in_partition nreduce r kv = true) kvs.

(** The one [file.Read] is taken to return the whole split, as it does up to 1 GB. *)
Definition DoMap (JobNumber : Z) (fileName : string) (nreduce : Z)
    (Map : string -> list KeyValue) (fs : FS) : option FS :=
  b ← fs !! MapName fileName JobNumber;
  let res := Map b in
  Some (foldl (fun fs r => <[ReduceName fileName JobNumber r :=
                            concat_all (Encode <$> partition nreduce r res)]> fs)
          fs (seqZ 0 nreduce)).

(** ** Reduce jobs *)

(** [sort.Strings] orders by bytes. *)
Fixpoint string_leb (s t : string) : bool :=
  match s, t with
  | EmptyString, _ => true
  | String _ _, EmptyString => false
  | String a s, String b t =>
      if byte a <? byte b then true else if byte a =? byte b then string_leb s t else false
  end.

Definition string_le (s t : string) : Prop := string_leb s t = true.

#[export] Instance string_le_dec : RelDecision string_le.
Proof. intros s t. unfold string_le. apply _. Defined.

Definition sort_strings (l : list string) : list string := merge_sort string_le l.

(** [kvs[kv.Key].PushBack(kv.Value)], with the list made at the first value. *)
Definition group_one (kvs : gmap string (list string)) (kv : KeyValue) : gmap string (list string) :=
  <[Key kv := kvs !!! Key kv ++ [Value kv]]> kvs.

Definition DoReduce (job : Z) (fileName : string) (nmap : Z)
    (Reduce : string -> list string -> string) (fs : FS) : option FS :=
  kvs ← foldM (fun kvs i =>
                 content ← fs !! ReduceName fileName i job;
                 Some (foldl group_one kvs (DecodeAll content)))
          ∅ (seqZ 0 nmap);
  let keys := sort_strings (map_to_list kvs).*1 in
  Some (<[MergeName fileName job :=
          concat_all ((fun k => Encode (mkKeyValue k (Reduce k (kvs !!! k)))) <$> keys)]> fs).

(** ** Merge *)

Definition Merge (nReduce : Z) (file : string) (fs : FS) : option FS :=
  kvs ← foldM (fun (kvs : gmap string string) i =>
                 content ← fs !! MergeName file i;
                 Some (foldl (fun kvs kv => <[Key kv := Value kv]> kvs) kvs (DecodeAll content)))
          ∅ (seqZ 0 nReduce);
  let keys := sort_strings (map_to_list kvs).*1 in
  Some (<[OutName file :=
          concat_all ((fun k => k ++ ": " ++ kvs !!! k ++ newline)%string <$> keys)]> fs).

(** ** RunSingle *)

Definition RunSingle (nMap nReduce : Z) (file : string) (Map : string -> list KeyValue)
    (Reduce : string -> list string -> string) (fs : FS) : option FS :=
  if (nMap <? 0) || (nReduce <? 0) then None   (* InitMapReduce: make of a negative size *)
  else
    fs ← Split nMap file fs;
    fs ← foldM (fun fs i => DoMap i file nReduce Map fs) fs (seqZ 0 nMap);
    fs ← foldM (fun fs i => DoReduce i file nMap Reduce fs) fs (seqZ 0 nReduce);
    Merge nReduce file fs.

(** ** CleanupFiles *)

Definition RemoveFile (fs : FS) (n : string) : option FS :=
  match fs !! n with
  | Some _ => Some (delete n fs)
  | None => None
  end.

Definition CleanupFiles (nMap nReduce : Z) (file : string) (fs : FS) : option FS :=
  fs ← foldM (fun fs i =>
                fs ← RemoveFile fs (MapName file i);
                foldM (fun fs j => RemoveFile fs (ReduceName file i j)) fs (seqZ 0 nReduce))
         fs (seqZ 0 nMap);
  fs ← foldM (fun fs i => RemoveFile fs (MergeName file i)) fs (seqZ 0 nReduce);
  RemoveFile fs (OutName file).

(** ** Names do not clash *)

(** The temporary files of a run. *)
Inductive tmp := TMap (i : Z) | TReduce (i r : Z) | TMerge (r : Z) | TOut.

Definition tmp_name (file : string) (t : tmp) : string :=
  match t with
  | TMap i => MapName file i
  | TReduce i r => ReduceName file i r
  | TMerge r => MergeName file r
  | TOut => OutName file
  end.

Definition tmp_ok (t : tmp) : Prop :=
  match t with
  | TMap i => 0 <= i
  | TReduce i r => 0 <= i /\ 0 <= r
  | TMerge r => 0 <= r
  | TOut => True
  end.

Definition suffix (t : tmp) : string :=
  match t with
  | TMap i => String "-" (Itoa i)
  | TReduce i r => String "-" (Itoa i ++ String "-" (Itoa r))
  | TMerge r => String "-" ("res" ++ String "-" (Itoa r))
  | TOut => EmptyString
  end.

Lemma tmp_name_suffix file t : tmp_name file t = ("mrtmp." ++ file ++ suffix t)%string.
Proof.
  destruct t; unfold tmp_name, ReduceName, MapName, MergeName, OutName, suffix.
  - reflexivity.
  - by rewrite !string_app_assoc.
  - reflexivity.
  - by rewrite string_app_nil_r.
Qed.

Definition not_dash (a : ascii) : bool := negb (Ascii.eqb a "-").

Lemma Itoa_not_dash z : 0 <= z -> all_chars not_dash (Itoa z).
Proof.
  intros Hz. pose proof (Itoa_digits z Hz) as H. induction (Itoa z) as [|a s IH]; [done|].
  simpl in *. apply andb_prop_elim in H as [Ha H]. apply andb_prop_intro. split; [|auto].
  unfold not_dash. destruct (Ascii.eqb_spec a "-") as [->|]; done.
Qed.

Lemma no_dash_app s r t : all_chars not_dash t -> (s ++ String "-" r)%string <> t.
Proof.
  intros H <-. rewrite all_chars_app in H. simpl in H. by rewrite andb_false_r in H.
Qed.

Lemma suffix_inj t1 t2 : tmp_ok t1 -> tmp_ok t2 -> suffix t1 = suffix t2 -> t1 = t2.
Proof.
  assert (forall i s, 0 <= i -> Itoa i <> ("res" ++ s)%string) as Hres.
  { intros i s Hi E. pose proof (Itoa_digits i Hi) as H. by rewrite E in H. }
  assert (forall i j r, 0 <= i -> (Itoa j ++ String "-" r)%string <> Itoa i) as Hd.
  { intros i j r Hi. by apply no_dash_app, Itoa_not_dash. }
  destruct t1 as [i|i r|r|], t2 as [i2|i2 r2|r2|]; cbn [tmp_ok suffix]; intros H1 H2 E;
    try discriminate E; try done; injection E as E.
  - by apply Itoa_inj in E as ->.
  - by destruct (Hd i i2 (Itoa r2)); [|symmetry].
  - by apply Hres in E.
  - by destruct (Hd i2 i (Itoa r)).
  - destruct H1, H2. apply (split_at_sep not_dash) in E as [E1%Itoa_inj E2%Itoa_inj];
      [by subst|done|by apply Itoa_not_dash..].
  - destruct H1. change (Itoa i ++ String "-" (Itoa r) = "res" ++ String "-" (Itoa r2))%string in E.
    apply (split_at_sep not_dash) in E as [E _]; [|done|by apply Itoa_not_dash|done].
    by apply (Hres i EmptyString) in E.
  - symmetry in E. by apply Hres in E.
  - destruct H2. change ("res" ++ String "-" (Itoa r) = Itoa i2 ++ String "-" (Itoa r2))%string in E.
    apply (split_at_sep not_dash) in E as [E _]; [|done|done|by apply Itoa_not_dash].
    symmetry in E. by apply (Hres i2 EmptyString) in E.
  - by apply Itoa_inj in E as ->.
Qed.

Lemma tmp_name_inj file t1 t2 :
  tmp_ok t1 -> tmp_ok t2 -> tmp_name file t1 = tmp_name file t2 -> t1 = t2.
Proof.
  rewrite !tmp_name_suffix. intros H1 H2 E%string_app_inj_l%string_app_inj_l.
  by apply suffix_inj.
Qed.

Lemma tmp_name_ne file t1 t2 :
  tmp_ok t1 -> tmp_ok t2 -> t1 <> t2 -> tmp_name file t1 <> tmp_name file t2.
Proof. intros H1 H2 Hne E. apply Hne. by eapply tmp_name_inj. Qed.

(** No temporary file is the input. *)
Lemma tmp_name_input file t : tmp_name file t <> file.
Proof.
  rewrite tmp_name_suffix. intros E. apply (f_equal String.length) in E.
  rewrite !string_length_app in E. simpl in E. lia.
Qed.
