(* ===== verification/MapReduceSpec.v ===== *)
(** What a map-reduce run computes: the specification and the proof that the
    sequential library meets it. *)
From Stdlib Require Import Ascii.
From S2P Require Import Prelude GoText Utf8 Json MapReduce.

(** ** The specification *)

(** The values of a key, in the order of the pairs. *)
Definition values (k : string) (kvs : list KeyValue) : list string :=
  Value <$> base.filter (fun kv => Key kv = k) kvs.

Definition keys_of (kvs : list KeyValue) : list string :=
  sort_strings (remove_dups (Key <$> kvs)).

Definition report (Reduce : string -> list string -> string) (kvs : list KeyValue) : string :=
  concat_all ((fun k => k ++ ": " ++ Reduce k (values k kvs) ++ newline)%string <$> keys_of kvs).

(** ** The order of strings *)

Lemma string_leb_refl s : string_leb s s = true.
Proof. induction s as [|a s IH]; simpl; [done|]. by rewrite Z.ltb_irrefl, Z.eqb_refl. Qed.

Lemma string_leb_total s1 s2 : string_leb s1 s2 = true \/ string_leb s2 s1 = true.
Proof.
  revert s2. induction s1 as [|a s1 IH]; intros [|b s2]; simpl; auto.
  destruct (Z.lt_trichotomy (byte a) (byte b)) as [H|[H|H]].
  - left. by rewrite (proj2 (Z.ltb_lt _ _) H).
  - rewrite H, Z.ltb_irrefl, Z.eqb_refl. auto.
  - right. by rewrite (proj2 (Z.ltb_lt _ _) H).
Qed.

Lemma string_leb_cons a s b t :
  string_leb (String a s) (String b t) = true <->
  byte a < byte b \/ a = b /\ string_leb s t = true.
Proof.
  simpl. destruct (byte a <? byte b) eqn:E1; [split; [left; lia|done]|].
  destruct (byte a =? byte b) eqn:E2.
  - apply Z.eqb_eq, byte_inj in E2 as ->. split; [auto|intros [?|[_ ?]]; [lia|done]].
  - split; [done|]. intros [?|[-> _]]; lia.
Qed.

#[export] Instance string_le_trans : Transitive string_le.
Proof.
  intros s1. unfold string_le. induction s1 as [|a s1 IH]; intros [|b s2] [|c s3]; try done.
  rewrite !string_leb_cons. intros [H1|[-> H1]] [H2|[-> H2]]; eauto; left; lia.
Qed.

#[export] Instance string_le_antisymm : AntiSymm (=) string_le.
Proof.
  intros s1. unfold string_le. induction s1 as [|a s1 IH]; intros [|b s2]; try done.
  rewrite !string_leb_cons. intros [H1|[-> H1]] [H2|[E H2]]; try lia; try (subst; lia).
  f_equal. auto.
Qed.

#[export] Instance string_le_total : Total string_le.
Proof. intros s1 s2. apply string_leb_total. Qed.

Lemma sort_strings_perm l : sort_strings l ≡ₚ l.
Proof. apply merge_sort_Permutation. Qed.

(** Sorting forgets the order of its input. *)
Lemma sort_strings_ext l1 l2 : l1 ≡ₚ l2 -> sort_strings l1 = sort_strings l2.
Proof.
  intros H. apply (StronglySorted_unique string_le).
  - apply StronglySorted_merge_sort; apply _.
  - apply StronglySorted_merge_sort; apply _.
  - by rewrite !sort_strings_perm.
Qed.

Lemma keys_of_elem k kvs : k ∈ keys_of kvs <-> k ∈ Key <$> kvs.
Proof. unfold keys_of. by rewrite sort_strings_perm, elem_of_remove_dups. Qed.

Lemma keys_of_NoDup kvs : NoDup (keys_of kvs).
Proof. unfold keys_of. rewrite sort_strings_perm. apply NoDup_remove_dups. Qed.

(** The keys of a map with the same domain, sorted. *)
Lemma sort_map_keys {A} (m : gmap string A) kvs :
  (forall k, is_Some (m !! k) <-> k ∈ Key <$> kvs) ->
  sort_strings (map_to_list m).*1 = keys_of kvs.
Proof.
  intros H. apply sort_strings_ext, NoDup_Permutation.
  - apply NoDup_fst_map_to_list.
  - apply NoDup_remove_dups.
  - intros k. rewrite elem_of_remove_dups, <- H. rewrite list_elem_of_fmap. split.
    + intros ([k' v] & -> & Hk%elem_of_map_to_list). by exists v.
    + intros [v Hv]. exists (k, v). by rewrite elem_of_map_to_list.
Qed.

(** ** Maps filled by loops *)

Lemma foldl_insert_in {A B} (f : A -> string) (g : A -> B) l (m : gmap string B) x :
  x ∈ l -> (forall y, y ∈ l -> f y = f x -> y = x) ->
  foldl (fun m x => <[f x := g x]> m) m l !! f x = Some (g x).
Proof.
  revert m. induction l as [|y l IH] using rev_ind; intros m; [by intros ?%not_elem_of_nil|].
  rewrite foldl_app. simpl. intros Hx Hinj. destruct (decide (f y = f x)) as [E|Hne].
  - rewrite (Hinj y) by (done || apply elem_of_app; right; left; done). apply lookup_insert_eq.
  - rewrite lookup_insert_ne by done. apply IH.
    + apply elem_of_app in Hx as [?|Hx]; [done|]. apply list_elem_of_singleton in Hx. congruence.
    + intros z Hz. apply Hinj, elem_of_app. auto.
Qed.

Lemma foldl_insert_notin {A B} (f : A -> string) (g : A -> B) l (m : gmap string B) k :
  (forall y, y ∈ l -> f y <> k) ->
  foldl (fun m x => <[f x := g x]> m) m l !! k = m !! k.
Proof.
  revert m. induction l as [|y l IH]; intros m H; simpl; [done|].
  rewrite IH; [|intros z Hz; apply H; by right]. apply lookup_insert_ne, H. by left.
Qed.

Lemma values_app k l1 l2 : values k (l1 ++ l2) = values k l1 ++ values k l2.
Proof. unfold values. by rewrite filter_app, fmap_app. Qed.

Lemma values_one k kv : values k [kv] = if decide (Key kv = k) then [Value kv] else [].
Proof. unfold values. rewrite filter_cons, filter_nil. by case_decide. Qed.

(** Grouping collects the values of each key. *)
Lemma group_total m kvs k :
  foldl group_one m kvs !!! k = m !!! k ++ values k kvs.
Proof.
  induction kvs as [|kv kvs IH] using rev_ind; [simpl; by rewrite app_nil_r|].
  rewrite foldl_app, values_app, values_one. simpl. unfold group_one at 1.
  destruct (decide (Key kv = k)) as [<-|Hne].
  - by rewrite lookup_total_insert_eq, IH, app_assoc.
  - by rewrite lookup_total_insert_ne, IH, app_nil_r.
Qed.

Lemma group_dom m kvs k :
  is_Some (foldl group_one m kvs !! k) <-> is_Some (m !! k) \/ k ∈ Key <$> kvs.
Proof.
  induction kvs as [|kv kvs IH] using rev_ind.
  { simpl. split; [by left|]. intros [?|?%not_elem_of_nil]; done. }
  rewrite foldl_app, fmap_app, elem_of_app. simpl. unfold group_one at 1.
  rewrite lookup_insert_is_Some', IH, list_elem_of_singleton.
  split; intros H; destruct_or! H; subst; auto.
Qed.

(** ** The map jobs *)

Lemma DoMap_spec job file nreduce Map fs b :
  0 <= job -> fs !! MapName file job = Some b ->
  exists fs', DoMap job file nreduce Map fs = Some fs' /\
    (forall r, 0 <= r < nreduce -> fs' !! ReduceName file job r =
       Some (concat_all (Encode <$> partition nreduce r (Map b)))) /\
    (forall k, (forall r, 0 <= r < nreduce -> k <> ReduceName file job r) -> fs' !! k = fs !! k).
Proof.
  intros Hj Hb. unfold DoMap. rewrite Hb. simpl. eexists. split; [done|]. split.
  - intros r Hr. set (g := fun r => concat_all (Encode <$> partition nreduce r (Map b))).
    apply (foldl_insert_in (ReduceName file job) g); [by apply elem_of_seqZ|].
    intros y Hy%elem_of_seqZ E.
    pose proof (tmp_name_inj file (TReduce job y) (TReduce job r)) as H. simpl in H.
    injection (H (conj Hj (proj1 Hy)) (conj Hj (proj1 Hr)) E). done.
  - intros k Hk. apply (foldl_insert_notin (ReduceName file job)).
    intros y Hy%elem_of_seqZ E. by apply (Hk y); [lia|].
Qed.

(** The chunks of the input, and the pairs of each. *)
Section Phases.
Context (file : string) (nreduce : Z) (Map : string -> list KeyValue).
Context (Reduce : string -> list string -> string).

(** The files of the jobs done: for each job of [jobs], each partition of its pairs. *)
Definition mapped (chunk : Z -> string) (jobs : list Z) (fs : FS) : Prop :=
  forall i r, i ∈ jobs -> 0 <= r < nreduce ->
    fs !! ReduceName file i r =
      Some (concat_all (Encode <$> partition nreduce r (Map (chunk i)))).

Lemma map_phase chunk jobs fs :
  (forall i, i ∈ jobs -> 0 <= i /\ fs !! MapName file i = Some (chunk i)) ->
  exists fs', foldM (fun fs i => DoMap i file nreduce Map fs) fs jobs = Some fs' /\
    mapped chunk jobs fs'.
Proof.
  intros Hjobs.
  destruct (foldM_inv (fun fs i => DoMap i file nreduce Map fs)
    (fun done fs' => mapped chunk done fs' /\
       (forall i, 0 <= i -> fs' !! MapName file i = fs !! MapName file i)) jobs fs)
    as (fs' & H & Hm & _); [..|by exists fs'].
  - split; [by intros i r ?%not_elem_of_nil|done].
  - intros l1 i l2 fs1 -> [Hm Hkeep].
    destruct (Hjobs i) as [Hi Hc]; [apply elem_of_app; right; left|].
    destruct (DoMap_spec i file nreduce Map fs1 (chunk i)) as (fs2 & E & Hnew & Hold);
      [done|by rewrite Hkeep|].
    exists fs2. split; [done|]. split.
    + intros j r [Hj|Hj]%elem_of_app Hr.
      * destruct (decide (j = i)) as [->|Hne]; [by apply Hnew|].
        rewrite Hold; [by apply Hm|]. intros r' Hr'.
        destruct (Hjobs j) as [Hj0 _]; [apply elem_of_app; by left|].
        apply (tmp_name_ne file (TReduce j r) (TReduce i r')); simpl; [lia..|congruence].
      * apply list_elem_of_singleton in Hj as ->. by apply Hnew.
    + intros j Hj. rewrite Hold; [by apply Hkeep|]. intros r Hr.
      apply (tmp_name_ne file (TMap j) (TReduce i r)); simpl; [lia..|done].
Qed.
(** ** The reduce jobs *)

(** The result of a reduce job for the pairs of its partition. *)
Definition reduced (kvs : list KeyValue) : list KeyValue :=
  (fun k => mkKeyValue k (Reduce k (values k kvs))) <$> keys_of kvs.

Lemma decode_ok kvs :
  forallb kv_ok kvs = true -> DecodeAll (concat_all (Encode <$> kvs)) = kvs.
Proof.
  intros H. rewrite DecodeAll_Encode. induction kvs as [|kv kvs IH]; [done|]. simpl in H.
  apply andb_prop in H as [H1 H2]. by rewrite fmap_cons, sanitize_kv_ok, IH.
Qed.

(** Reading the files of the jobs of a list one after the other. *)
Lemma read_loop {A} (name : Z -> string) (ps : Z -> list KeyValue) (f : A -> KeyValue -> A)
    (fs : FS) jobs m :
  (forall i, i ∈ jobs -> fs !! name i = Some (concat_all (Encode <$> ps i)) /\
     forallb kv_ok (ps i) = true) ->
  foldM (fun m i => content ← fs !! name i; Some (foldl f m (DecodeAll content))) m jobs =
    Some (foldl f m (concat (ps <$> jobs))).
Proof.
  revert m. induction jobs as [|i jobs IH]; intros m H; [done|]. cbn [foldM].
  destruct (H i) as [-> Hok]; [by left|]. cbn [mbind option_bind].
  rewrite decode_ok by done. rewrite fmap_cons. cbn [concat]. rewrite foldl_app.
  apply IH. intros j Hj. apply H. by right.
Qed.

Lemma DoReduce_spec job nmap ps fs :
  (forall i, 0 <= i < nmap ->
     fs !! ReduceName file i job = Some (concat_all (Encode <$> ps i)) /\
     forallb kv_ok (ps i) = true) ->
  DoReduce job file nmap Reduce fs =
    Some (<[MergeName file job :=
            concat_all (Encode <$> reduced (concat (ps <$> seqZ 0 nmap)))]> fs).
Proof.
  intros H. unfold DoReduce.
  rewrite (read_loop (fun i => ReduceName file i job) ps)
    by (intros i Hi%elem_of_seqZ; apply H; lia).
  cbn [mbind option_bind]. set (all := concat _).
  rewrite (sort_map_keys _ all).
  - do 3 f_equal. unfold reduced. rewrite <- list_fmap_compose. apply list_fmap_ext.
    intros _ k _. simpl. rewrite group_total. done.
  - intros k. rewrite group_dom. split; [intros [[? ?]|?]|]; [done|done|auto].
Qed.

(** ** Merge *)

Lemma overwrite_total (m : gmap string string) kvs k v :
  NoDup (Key <$> kvs) -> mkKeyValue k v ∈ kvs ->
  foldl (fun m kv => <[Key kv := Value kv]> m) m kvs !! k = Some v.
Proof.
  intros Hnd Hin. apply (foldl_insert_in Key Value kvs m (mkKeyValue k v)); [done|].
  intros y Hy E. apply list_elem_of_lookup in Hy as [i Hi], Hin as [j Hj].
  assert (i = j) as <-; [|congruence].
  eapply (NoDup_lookup (Key <$> kvs)); [done|..]; rewrite list_lookup_fmap.
  - by rewrite Hi.
  - rewrite Hj. simpl in *. by rewrite E.
Qed.

Lemma overwrite_dom (m : gmap string string) kvs k :
  is_Some (foldl (fun m kv => <[Key kv := Value kv]> m) m kvs !! k) <->
  is_Some (m !! k) \/ k ∈ Key <$> kvs.
Proof.
  induction kvs as [|kv kvs IH] using rev_ind.
  { simpl. split; [by left|]. intros [?|?%not_elem_of_nil]; done. }
  rewrite foldl_app, fmap_app, elem_of_app. simpl.
  rewrite lookup_insert_is_Some', IH, list_elem_of_singleton.
  split; intros H; destruct_or! H; subst; auto.
Qed.

Lemma Merge_spec qs fs :
  (forall r, 0 <= r < nreduce ->
     fs !! MergeName file r = Some (concat_all (Encode <$> qs r)) /\
     forallb kv_ok (qs r) = true) ->
  let kvs := concat (qs <$> seqZ 0 nreduce) in
  Merge nreduce file fs =
    Some (<[OutName file := concat_all ((fun k => k ++ ": " ++
            foldl (fun m kv => <[Key kv := Value kv]> m) (∅ : gmap string string) kvs !!! k ++
            newline)%string <$> keys_of kvs)]> fs).
Proof.
  intros H kvs. unfold Merge.
  rewrite (read_loop (MergeName file) qs) by (intros r Hr%elem_of_seqZ; apply H; lia).
  cbn [mbind option_bind]. fold kvs. rewrite (sort_map_keys _ kvs); [done|].
  intros k. rewrite overwrite_dom. split; [intros [[? ?]|?]|]; [done|done|auto].
Qed.
End Phases.

(** ** Partitions *)

Section Shards.
Context (nreduce : Z) (Hn : 0 < nreduce < 2 ^ 32).

Definition shard (k : string) : Z := ihash k mod nreduce.

Lemma shard_range k : 0 <= shard k < nreduce.
Proof using Hn. unfold shard. apply Z.mod_pos_bound. lia. Qed.

Lemma in_partition_shard r kv :
  0 <= r < nreduce -> in_partition nreduce r kv = true <-> shard (Key kv) = r.
Proof using Hn.
  intros Hr. unfold in_partition, shard, uint32. rewrite !(Z.mod_small _ (2 ^ 32)) by lia.
  apply Z.eqb_eq.
Qed.

Lemma partition_elem r kv kvs :
  0 <= r < nreduce -> kv ∈ partition nreduce r kvs <-> shard (Key kv) = r /\ kv ∈ kvs.
Proof using Hn. intros Hr. unfold partition. by rewrite list_elem_of_filter, in_partition_shard. Qed.

Lemma partition_keys r k kvs :
  0 <= r < nreduce -> k ∈ Key <$> partition nreduce r kvs <-> shard k = r /\ k ∈ Key <$> kvs.
Proof using Hn.
  intros Hr. rewrite !list_elem_of_fmap. setoid_rewrite partition_elem; [|done].
  split; [intros (kv & -> & <- & ?); eauto|]. intros (<- & kv & -> & ?). by exists kv.
Qed.

(** A job has all the values of its keys, in order. *)
Lemma partition_values k kvs : values k (partition nreduce (shard k) kvs) = values k kvs.
Proof using Hn.
  unfold values, partition. f_equal. rewrite list_filter_filter. apply list_filter_iff.
  intros kv. split; [by intros [? _]|]. intros <-. split; [done|].
  apply in_partition_shard; [apply shard_range|done].
Qed.

Lemma partition_concat r (pss : list (list KeyValue)) :
  concat (partition nreduce r <$> pss) = partition nreduce r (concat pss).
Proof using.
  induction pss as [|ps pss IH]; [done|]. rewrite fmap_cons. cbn [concat]. rewrite IH.
  unfold partition. by rewrite filter_app.
Qed.

(** A map job distributes its pairs.  It writes one file per reduce job, with
    the pairs of that job in the order of [Map]; a pair is in the file of the
    reduce job its key hashes to and in no other; all other files are untouched. *)
Theorem domap_correct job file Map fs b :
  0 <= job -> fs !! MapName file job = Some b ->
  exists fs', DoMap job file nreduce Map fs = Some fs' /\
    (forall r, 0 <= r < nreduce -> fs' !! ReduceName file job r =
       Some (concat_all (Encode <$> partition nreduce r (Map b)))) /\
    (forall kv r, kv ∈ Map b -> 0 <= r < nreduce ->
       kv ∈ partition nreduce r (Map b) <-> r = ihash (Key kv) mod nreduce) /\
    (forall k, (forall r, 0 <= r < nreduce -> k <> ReduceName file job r) -> fs' !! k = fs !! k).
Proof using Hn.
  intros Hj Hb. destruct (DoMap_spec job file nreduce Map fs b Hj Hb) as (fs' & E & Hnew & Hold).
  exists fs'. split_and!; [done|done| |done].
  intros kv r Hkv Hr. rewrite partition_elem by done. unfold shard.
  split; [by intros [-> _]|by intros ->].
Qed.

Context (Reduce : string -> list string -> string) (all : list KeyValue).

(** The results of all the reduce jobs. *)
Definition results : list KeyValue :=
  concat ((fun r => reduced Reduce (partition nreduce r all)) <$> seqZ 0 nreduce).

Lemma reduced_keys kvs : Key <$> reduced Reduce kvs = keys_of kvs.
Proof using.
  unfold reduced. rewrite <- list_fmap_compose.
  rewrite (list_fmap_ext _ id); [by rewrite list_fmap_id|done].
Qed.

Lemma results_elem kv :
  kv ∈ results <-> Key kv ∈ Key <$> all /\ Value kv = Reduce (Key kv) (values (Key kv) all).
Proof using Hn.
  unfold results. rewrite list_elem_of_In, in_concat. setoid_rewrite <- list_elem_of_In.
  setoid_rewrite list_elem_of_fmap. split.
  - intros (l & (r & -> & Hr%elem_of_seqZ) & Hk). unfold reduced in Hk.
    apply list_elem_of_fmap in Hk as (k & -> & Hk). simpl.
    apply keys_of_elem, partition_keys in Hk as [<- Hk]; [|lia].
    rewrite partition_values. split; [|done]. by apply list_elem_of_fmap.
  - intros [Hk Hv]. eexists. split; [exists (shard (Key kv)); split; [done|]|].
    + apply elem_of_seqZ. pose proof (shard_range (Key kv)). lia.
    + unfold reduced. apply list_elem_of_fmap. exists (Key kv).
      rewrite partition_values, <- Hv. split; [by destruct kv|].
      apply keys_of_elem, partition_keys; [apply shard_range|]. split; [done|].
      by apply list_elem_of_fmap.
Qed.

Lemma results_NoDup : NoDup (Key <$> results).
Proof using Hn.
  unfold results. assert (forall r, r ∈ seqZ 0 nreduce -> 0 <= r < nreduce) as Hrange
    by (intros r ?%elem_of_seqZ; lia).
  pose proof (NoDup_seqZ 0 nreduce) as Hnd. revert Hnd Hrange.
  generalize (seqZ 0 nreduce) as rs.
  induction rs as [|r rs IH]; intros Hnd Hrange; [constructor|].
  inversion Hnd as [|? ? Hr Hnd']; subst. rewrite fmap_cons. cbn [concat].
  rewrite fmap_app, reduced_keys. apply NoDup_app. split_and!.
  - apply keys_of_NoDup.
  - intros k Hk Hk2. apply keys_of_elem, partition_keys in Hk as [<- _]; [|apply Hrange; by left].
    apply Hr. apply list_elem_of_fmap in Hk2 as (kv & -> & Hkv).
    apply list_elem_of_In, in_concat in Hkv as (l & Hl & Hkv).
    apply list_elem_of_In, list_elem_of_fmap in Hl as (r2 & -> & Hr2).
    apply list_elem_of_In, (list_elem_of_fmap_2 Key) in Hkv. rewrite reduced_keys in Hkv.
    apply keys_of_elem, partition_keys in Hkv as [<- _]; [done|apply Hrange; by right].
  - apply IH; [done|]. intros r' Hr'. apply Hrange. by right.
Qed.

Lemma results_keys : keys_of results = keys_of all.
Proof using Hn.
  apply sort_strings_ext, NoDup_Permutation; try apply NoDup_remove_dups.
  intros k. rewrite !elem_of_remove_dups. split.
  - intros (kv & -> & Hkv%results_elem)%list_elem_of_fmap. apply Hkv.
  - intros Hk. apply list_elem_of_fmap.
    exists (mkKeyValue k (Reduce k (values k all))). split; [done|]. by apply results_elem.
Qed.

(** The merged results are the report. *)
Lemma results_report :
  concat_all ((fun k => k ++ ": " ++
    foldl (fun m kv => <[Key kv := Value kv]> m) (∅ : gmap string string) results !!! k ++
    newline)%string <$> keys_of results) = report Reduce all.
Proof using Hn.
  unfold report. rewrite results_keys. f_equal. apply list_fmap_ext. intros i k Hk.
  apply list_elem_of_lookup_2, keys_of_elem in Hk.
  rewrite lookup_total_alt.
  rewrite (overwrite_total _ _ k (Reduce k (values k all))); [done|apply results_NoDup|].
  by apply results_elem.
Qed.
End Shards.

(** ** Witnesses *)

Lemma domap_correct_witness :
  let fs : FS := {[MapName "f" 0 := "x"%string]} in
  let m := fun _ : string => [mkKeyValue "a" "1"; mkKeyValue "b" "1"] in
  exists fs', DoMap 0 "f" 2 m fs = Some fs' /\
    fs' !! MapName "f" 0 = Some "x"%string /\
    (mkKeyValue "a" "1" ∈ partition 2 0 (m "x"%string) <-> 0 = ihash "a" mod 2).
Proof.
  intros fs m. destruct (domap_correct 2 ltac:(lia) 0 "f" m fs "x" ltac:(lia) ltac:(vm_refl))
    as (fs' & E & _ & Hp & Hk).
  exists fs'. split; [exact E|]. split.
  - rewrite Hk; [vm_refl|]. intros r Hr. assert (r = 0 \/ r = 1) as [-> | ->] by lia;
      vm_compute; discriminate.
  - apply Hp; [by left|lia].
Defined.
