(* ===== verification/MapReduceSplit.v ===== *)
(** What [Split] does with the input: groups of whole lines. *)
From Stdlib Require Import Ascii.
From S2P Require Import Prelude GoText Utf8 Json MapReduce MapReduceSpec.

Definition line_of (text : string) : string := (text ++ newline)%string.
Definition text_of (lines : list string) : string := concat_all (line_of <$> lines).

(** The groups of lines: those closed, the open one, and the bytes so far. *)
Definition group_step (nchunk : Z) (st : list (list string) * list string * Z) (text : string)
    : list (list string) * list string * Z :=
  let '(gs, cur, i) := st in
  let j := i + Z.of_nat (String.length (line_of text)) in
  if i >? nchunk * (Z.of_nat (length gs) + 1) then (gs ++ [cur], [text], j)
  else (gs, cur ++ [text], j).

Definition groups_of (nchunk : Z) (lines : list string) : list (list string) :=
  let '(gs, cur, _) := foldl (group_step nchunk) ([], [], 0) lines in gs ++ [cur].

(** The chunk size of [Split]. *)
Definition chunk_size (nMap : Z) (content : string) : Z :=
  Z.of_nat (String.length content) / nMap + 1.

Definition splits (nMap : Z) (content : string) : list (list string) :=
  groups_of (chunk_size nMap content) (scan_lines content).

(** ** Lines and bytes *)

Definition bytes (lines : list string) : Z := Z.of_nat (String.length (text_of lines)).

Lemma text_of_app l1 l2 : text_of (l1 ++ l2) = (text_of l1 ++ text_of l2)%string.
Proof. unfold text_of. by rewrite fmap_app, concat_all_app. Qed.

Lemma bytes_app l1 l2 : bytes (l1 ++ l2) = bytes l1 + bytes l2.
Proof. unfold bytes. rewrite text_of_app, string_length_app. lia. Qed.

Lemma bytes_one l : bytes [l] = Z.of_nat (String.length (line_of l)).
Proof. unfold bytes, text_of. simpl. by rewrite string_app_nil_r. Qed.

Lemma bytes_nonneg l : 0 <= bytes l.
Proof. unfold bytes. lia. Qed.

Lemma length_line_of l : Z.of_nat (String.length (line_of l)) = Z.of_nat (String.length l) + 1.
Proof. unfold line_of. rewrite string_length_app. simpl. lia. Qed.

Lemma bytes_cons x l : bytes (x :: l) = Z.of_nat (String.length x) + 1 + bytes l.
Proof. by rewrite <- length_line_of, <- bytes_one, <- bytes_app. Qed.

Lemma dropCR_length l : (String.length (dropCR l) <= String.length l)%nat.
Proof.
  induction l as [|c [|c' l] IH]; [simpl; lia|cbn; case_match; simpl; lia|].
  cbn [dropCR String.length] in *. lia.
Qed.

(** Every line but the last ends with a newline of the text. *)
Lemma raw_lines_bytes s l1 x l2 :
  raw_lines s = l1 ++ x :: l2 -> bytes l1 + Z.of_nat (String.length x) <= Z.of_nat (String.length s).
Proof.
  revert l1 x l2. induction s as [|c s IH]; intros l1 x l2 H; [by destruct l1|].
  cbn [raw_lines] in H. destruct (Ascii.eqb c (char 10)).
  - destruct l1 as [|y l1]; injection H as <- H; [unfold bytes; simpl; lia|].
    apply IH in H. rewrite bytes_cons. simpl. lia.
  - destruct (raw_lines s) as [|y ls].
    + destruct l1 as [|y l1]; injection H as <- H; [unfold bytes; simpl; lia|]. by destruct l1.
    + destruct l1 as [|z l1]; injection H as <- H; subst ls.
      * specialize (IH [] y l2 eq_refl). unfold bytes in *. simpl in *. lia.
      * specialize (IH (y :: l1) x l2 eq_refl). rewrite bytes_cons in IH |- *. simpl. lia.
Qed.

Lemma take_while_prefix p l : take_while p l `prefix_of` l.
Proof.
  induction l as [|x l IH]; simpl; [done|]. destruct (p x); [|apply prefix_nil].
  by apply prefix_cons.
Qed.

Lemma bytes_dropCR l : bytes (dropCR <$> l) <= bytes l.
Proof.
  induction l as [|x l IH]; [done|]. rewrite fmap_cons, !bytes_cons. pose proof (dropCR_length x). lia.
Qed.

Lemma scan_lines_bytes content l1 x l2 :
  scan_lines content = l1 ++ x :: l2 ->
  bytes l1 + Z.of_nat (String.length x) <= Z.of_nat (String.length content).
Proof.
  unfold scan_lines. intros H. apply fmap_app_inv in H as (k1 & k2 & H1 & H2 & H).
  destruct k2 as [|y k2]; [done|]. injection H2 as -> _.
  destruct (take_while_prefix line_fits (raw_lines content)) as [k Hk].
  rewrite H, <- app_assoc in Hk. apply raw_lines_bytes in Hk. subst l1.
  pose proof (bytes_dropCR k1). pose proof (dropCR_length y). lia.
Qed.

(** ** The number of chunks *)

Section Split.
Context (nMap : Z) (content : string).
Context (HnMap : 0 < nMap < 2 ^ 62) (Hsize : Z.of_nat (String.length content) < 2 ^ 61).

#[local] Abbreviation nchunk := (chunk_size nMap content).
#[local] Abbreviation size := (Z.of_nat (String.length content)).

Lemma chunk_size_total : size < nchunk * nMap <= size + nMap.
Proof using HnMap.
  unfold chunk_size. pose proof (Z.div_mod size nMap). pose proof (Z.mod_pos_bound size nMap). lia.
Qed.

(** The state after the lines [done]. *)
Record split_inv (done : list string) (st : list (list string) * list string * Z) : Prop := {
  sp_lines : concat st.1.1 ++ st.1.2 = done;
  sp_bytes : st.2 = bytes done;
  sp_count : Z.of_nat (length st.1.1) + 1 <= nMap
}.

Lemma group_step_inv done text rest st :
  scan_lines content = done ++ text :: rest -> split_inv done st ->
  split_inv (done ++ [text]) (group_step nchunk st text).
Proof using HnMap.
  intros Hl [H1 H2 H3]. destruct st as [[gs cur] i]. simpl in *.
  pose proof (scan_lines_bytes _ _ _ _ Hl). pose proof chunk_size_total.
  destruct (i >? _) eqn:E.
  - constructor; simpl; [|by rewrite H2, bytes_app, bytes_one|].
    + rewrite concat_app. simpl. rewrite app_nil_r. by rewrite <- H1.
    + rewrite length_app. simpl.
      assert (nchunk * (Z.of_nat (length gs) + 1) < nchunk * nMap) as Hlt by lia.
      apply Z.mul_lt_mono_pos_l in Hlt; [lia|]. pose proof (bytes_nonneg done). nia.
  - constructor; simpl; [|by rewrite H2, bytes_app, bytes_one|done].
    by rewrite app_assoc, H1.
Qed.

Lemma groups_inv :
  split_inv (scan_lines content) (foldl (group_step nchunk) ([], [], 0) (scan_lines content)).
Proof using HnMap.
  assert (forall l2 l1, scan_lines content = l1 ++ l2 -> forall st, split_inv l1 st ->
    split_inv (scan_lines content) (foldl (group_step nchunk) st l2)) as H.
  { induction l2 as [|x l2 IH]; intros l1 El st Hst; simpl.
    - rewrite app_nil_r in El. by subst l1.
    - apply (IH (l1 ++ [x])); [by rewrite <- app_assoc|]. by eapply group_step_inv. }
  apply (H _ []); [done|]. constructor; simpl; [done|done|lia].
Qed.

(** The files after some lines, in step with the groups. *)
Context (file : string) (fs0 : FS).

Record files_inv (g : list (list string) * list string * Z) (st : FS * Z * Z) : Prop := {
  fi_m : st.1.2 = Z.of_nat (length g.1.1) + 1;
  fi_i : st.2 = g.2;
  fi_files : forall k c, (g.1.1 ++ [g.1.2]) !! k = Some c ->
    st.1.1 !! MapName file (Z.of_nat k) = Some (text_of c);
  fi_rest : forall name, (forall k, (k <= length g.1.1)%nat -> name <> MapName file (Z.of_nat k)) ->
    st.1.1 !! name = fs0 !! name
}.

Lemma MapName_inj i j : 0 <= i -> 0 <= j -> MapName file i = MapName file j -> i = j.
Proof using.
  intros Hi Hj E. by injection (tmp_name_inj file (TMap i) (TMap j) Hi Hj E).
Qed.

(** Writing a line to the open file. *)
Lemma append_inv gs cur j fs m i text :
  files_inv (gs, cur, j) (fs, m, i) ->
  forall k c, (gs ++ [cur ++ [text]]) !! k = Some c ->
    append_file fs (MapName file (m - 1)) (line_of text) !! MapName file (Z.of_nat k) = Some (text_of c).
Proof.
  intros [Hm Hi Hf Hr] k c Hk. simpl in *. subst m i. unfold append_file.
  replace (Z.of_nat (length gs) + 1 - 1) with (Z.of_nat (length gs)) by lia.
  pose proof (Hf (length gs) cur) as Hlast. rewrite lookup_total_alt.
  rewrite lookup_app_r, Nat.sub_diag in Hlast by lia. rewrite (Hlast eq_refl). simpl.
  destruct (decide (k = length gs)) as [->|Hne].
  - rewrite lookup_app_r, Nat.sub_diag in Hk by lia. injection Hk as <-.
    rewrite lookup_insert_eq. f_equal. rewrite text_of_app. f_equal.
    unfold text_of. simpl. by rewrite string_app_nil_r.
  - apply lookup_app_Some in Hk as [Hk|[Hk1 Hk2]].
    + rewrite lookup_insert_ne; [|intros E; apply MapName_inj in E; lia].
      apply Hf. by apply lookup_app_l_Some.
    + apply lookup_lt_Some in Hk2. simpl in Hk2. lia.
Qed.

Lemma split_line_inv done text rest g st :
  scan_lines content = done ++ text :: rest -> split_inv done g -> files_inv g st ->
  files_inv (group_step nchunk g text) (split_line file nchunk st text).
Proof using HnMap Hsize.
  intros Hl [H1 H2 H3] Hfi. destruct g as [[gs cur] j], st as [[fs m] i].
  destruct Hfi as [Hm Hi Hf Hr] eqn:Efi. simpl in *. subst m i. unfold split_line.
  pose proof (scan_lines_bytes _ _ _ _ Hl). pose proof chunk_size_total. pose proof (bytes_nonneg done).
  fold (line_of text).
  assert (bytes (done ++ [text]) < 2 ^ 62) as Hb.
  { rewrite bytes_app, bytes_one, length_line_of. lia. }
  rewrite bytes_app, bytes_one in Hb. rewrite <- H2 in *.
  rewrite (int64_id (nchunk * _)) by (unfold int64_ok; nia).
  rewrite (int64_id (j + _)) by (unfold int64_ok; lia).
  destruct (j >? _).
  - rewrite int64_id by (unfold int64_ok; lia).
    assert (files_inv (gs ++ [cur], [], j) (<[MapName file (Z.of_nat (length gs) + 1) := EmptyString]> fs,
      Z.of_nat (length gs) + 1 + 1, j)) as Hnew.
    { constructor; simpl; [rewrite length_app; simpl; lia|done|..].
      - intros k c Hk. apply lookup_app_Some in Hk as [Hk|[Hk1 Hk2]].
        + pose proof (lookup_lt_Some _ _ _ Hk) as Hlt. rewrite length_app in Hlt. simpl in Hlt.
          rewrite lookup_insert_ne; [by apply Hf|]. intros E%MapName_inj; lia.
        + rewrite length_app in *. simpl in *. destruct (k - _)%nat eqn:Ek; [|done].
          injection Hk2 as <-. replace (Z.of_nat k) with (Z.of_nat (length gs) + 1) by lia.
          apply lookup_insert_eq.
      - intros name Hn. rewrite length_app in Hn. simpl in Hn.
        rewrite lookup_insert_ne; [apply Hr; intros k Hk; apply Hn; lia|].
        intros <-. apply (Hn (length gs + 1)%nat); [lia|]. f_equal. lia. }
    constructor; simpl; [rewrite length_app; simpl; lia|done|by apply (append_inv _ _ _ _ _ _ _ Hnew)|].
    intros name Hn. unfold append_file. rewrite lookup_insert_ne.
    + by apply (fi_rest _ _ Hnew).
    + intros <-. apply (Hn (length gs + 1)%nat); [rewrite length_app; simpl; lia|]. f_equal. lia.
  - constructor; simpl; [done|done|by apply (append_inv _ _ _ _ _ _ _ Hfi)|].
    intros name Hn. unfold append_file. rewrite lookup_insert_ne; [by apply Hr|].
    intros <-. apply (Hn (length gs)); [lia|]. f_equal. lia.
Qed.
End Split.

Section SplitSpec.
Context (nMap : Z) (file content : string) (fs : FS).
Context (HnMap : 0 < nMap < 2 ^ 62) (Hsize : Z.of_nat (String.length content) < 2 ^ 61).
Context (Hfile : fs !! file = Some content).

Lemma split_files_inv :
  files_inv file (<[MapName file 0 := EmptyString]> fs)
    (foldl (group_step (chunk_size nMap content)) ([], [], 0) (scan_lines content))
    (foldl (split_line file (chunk_size nMap content))
       (<[MapName file 0 := EmptyString]> fs, 1, 0) (scan_lines content)).
Proof using HnMap Hsize.
  assert (forall l2 l1 g st, scan_lines content = l1 ++ l2 -> split_inv nMap l1 g ->
    files_inv file (<[MapName file 0 := EmptyString]> fs) g st ->
    files_inv file (<[MapName file 0 := EmptyString]> fs)
      (foldl (group_step (chunk_size nMap content)) g l2)
      (foldl (split_line file (chunk_size nMap content)) st l2)) as H.
  { induction l2 as [|x l2 IH]; intros l1 g st El Hg Hst; simpl; [done|].
    apply (IH (l1 ++ [x])); [by rewrite <- app_assoc| |].
    - by eapply group_step_inv.
    - by eapply split_line_inv. }
  apply (H _ []); [done|constructor; simpl; [done|done|lia]|].
  constructor; simpl; [done|done| |done].
  intros k c Hk. apply list_lookup_singleton_Some in Hk as [-> <-]. by rewrite lookup_insert_eq.
Qed.

Lemma Split_result :
  exists fs', Split nMap file fs = Some fs' /\
    concat (splits nMap content) = scan_lines content /\
    1 <= Z.of_nat (length (splits nMap content)) <= nMap /\
    (forall k g, splits nMap content !! k = Some g ->
       fs' !! MapName file (Z.of_nat k) = Some (text_of g)) /\
    (forall name, (forall k, (k < length (splits nMap content))%nat ->
                     name <> MapName file (Z.of_nat k)) -> fs' !! name = fs !! name).
Proof using HnMap Hsize Hfile.
  unfold Split. rewrite Hfile. cbn [mbind option_bind].
  rewrite (proj2 (Z.eqb_neq nMap 0)) by lia. rewrite Z.quot_div_nonneg by lia.
  rewrite int64_id.
  2: { unfold int64_ok. pose proof (Z.div_pos (Z.of_nat (String.length content)) nMap).
       pose proof (Z.div_le_upper_bound (Z.of_nat (String.length content)) nMap
         (Z.of_nat (String.length content))). nia. }
  fold (chunk_size nMap content). eexists. split; [done|].
  pose proof split_files_inv as Hf. pose proof (groups_inv nMap content HnMap) as Hg.
  unfold splits, groups_of. destruct (foldl (group_step _) _ _) as [[gs cur] j].
  destruct Hg as [Hl Hb Hc], Hf as [Hm Hi Hfs Hr]. simpl in *.
  rewrite concat_app, length_app. simpl. rewrite app_nil_r.
  split_and!; [done|lia|lia|done|].
  intros name Hn. rewrite Hr by (intros k Hk; apply Hn; lia).
  apply lookup_insert_ne. intros <-. by apply (Hn 0%nat); [lia|].
Qed.
End SplitSpec.

Lemma take_while_all (p : string -> bool) l : forallb p l = true -> take_while p l = l.
Proof. induction l as [|x l IH]; [done|]. simpl. intros [-> H]%andb_prop. by rewrite IH. Qed.

Lemma take_while_stop (p : string -> bool) l1 x l2 :
  forallb p l1 = true -> p x = false -> take_while p (l1 ++ x :: l2) = l1.
Proof.
  intros H1 Hx. induction l1 as [|y l1 IH]; simpl in *; [by rewrite Hx|].
  apply andb_prop in H1 as [-> H1]. by rewrite IH.
Qed.

(** C18: [Split] cuts the input at line ends only.  The files it writes are, in order,
    groups of whole lines, each with its newline (a carriage return before it is
    gone); there are between one and [nMap] of them; no other file changes.  When every
    line fits the scanner's buffer, they hold every line of the input once.  The first
    line of 65536 bytes or more ends the input: the files hold the lines before it and
    nothing of what follows, without an error. *)
Theorem split_correct nMap file content fs :
  0 < nMap < 2 ^ 62 -> Z.of_nat (String.length content) < 2 ^ 61 ->
  fs !! file = Some content ->
  exists fs', Split nMap file fs = Some fs' /\
    (forallb line_fits (raw_lines content) = true ->
     concat (splits nMap content) = dropCR <$> raw_lines content) /\
    (forall l1 x l2, raw_lines content = l1 ++ x :: l2 -> forallb line_fits l1 = true ->
       line_fits x = false -> concat (splits nMap content) = dropCR <$> l1) /\
    1 <= Z.of_nat (length (splits nMap content)) <= nMap /\
    (forall k g, splits nMap content !! k = Some g ->
       fs' !! MapName file (Z.of_nat k) = Some (text_of g)) /\
    (forall name, (forall k, (k < length (splits nMap content))%nat ->
                     name <> MapName file (Z.of_nat k)) -> fs' !! name = fs !! name).
Proof.
  intros Hn Hsize Hfile. destruct (Split_result nMap file content fs Hn Hsize Hfile) as (fs' & E & -> & Hrest).
  exists fs'. split; [done|]. unfold scan_lines. split_and!; try apply Hrest.
  - intros Hfit. by rewrite take_while_all.
  - intros l1 x l2 -> H1 Hx. by rewrite take_while_stop.
Qed.

(** ** The whole run *)

Section Run.
Context (nMap nReduce : Z) (file content : string) (fs : FS).
Context (Map : string -> list KeyValue) (Reduce : string -> list string -> string).
Context (HnMap : 0 < nMap < 2 ^ 62) (HnReduce : 0 < nReduce < 2 ^ 32).
Context (Hsize : Z.of_nat (String.length content) < 2 ^ 61) (Hfile : fs !! file = Some content).

(** All the pairs, in the order of the chunks. *)
Definition pairs : list KeyValue :=
  concat ((fun g => Map (text_of g)) <$> splits nMap content).

Lemma forallb_elem {A} (p : A -> bool) l : forallb p l = true <-> forall x, x ∈ l -> p x = true.
Proof using. rewrite forallb_forall. by setoid_rewrite list_elem_of_In. Qed.

(** The jobs see all the chunks. *)
Lemma pairs_seq (chunk : Z -> string) :
  Z.of_nat (length (splits nMap content)) = nMap ->
  (forall k g, splits nMap content !! k = Some g -> chunk (Z.of_nat k) = text_of g) ->
  concat ((fun i => Map (chunk i)) <$> seqZ 0 nMap) = pairs.
Proof using.
  intros Hlen Hc. unfold pairs. f_equal. apply list_eq. intros k.
  rewrite !list_lookup_fmap. destruct (splits nMap content !! k) as [g|] eqn:E.
  - rewrite lookup_seqZ_lt by (apply lookup_lt_Some in E; lia). simpl. by rewrite Z.add_0_l, (Hc _ _ E).
  - rewrite lookup_seqZ_ge; [done|]. apply lookup_ge_None in E. lia.
Qed.

(** A reduce job that finds the files of all the map jobs. *)
Lemma reduce_job (chunk : Z -> string) fs1 r :
  0 <= r < nReduce -> MapReduceSpec.mapped file nReduce Map chunk (seqZ 0 nMap) fs1 ->
  concat ((fun i => Map (chunk i)) <$> seqZ 0 nMap) = pairs -> forallb kv_ok pairs = true ->
  DoReduce r file nMap Reduce fs1 =
    Some (<[MergeName file r :=
            concat_all (Encode <$> reduced Reduce (partition nReduce r pairs))]> fs1).
Proof using HnReduce.
  intros Hr Hm Hpairs Hok. set (ps := fun i => partition nReduce r (Map (chunk i))).
  assert (concat (ps <$> seqZ 0 nMap) = partition nReduce r pairs) as Hps
    by (rewrite <- Hpairs, <- partition_concat, <- list_fmap_compose; done).
  rewrite (DoReduce_spec file Reduce r nMap ps fs1); [by rewrite Hps|].
  intros i Hi. split; [apply Hm; [apply elem_of_seqZ; lia|done]|].
  rewrite forallb_elem in Hok |- *. intros kv Hkv. apply Hok, (partition_elem nReduce HnReduce r kv pairs Hr).
  rewrite <- Hps. apply list_elem_of_In, in_concat. exists (ps i).
  split; [|by apply list_elem_of_In]. apply list_elem_of_In, list_elem_of_fmap. exists i.
  split; [done|]. apply elem_of_seqZ. lia.
Qed.

(** Merging the files of all the reduce jobs. *)
Lemma merge_report fs1 :
  (forall r, 0 <= r < nReduce -> fs1 !! MergeName file r =
     Some (concat_all (Encode <$> reduced Reduce (partition nReduce r pairs)))) ->
  forallb kv_ok pairs = true -> (forall k vs, utf8_ok (Reduce k vs) = true) ->
  exists fs', Merge nReduce file fs1 = Some fs' /\ fs' !! OutName file = Some (report Reduce pairs).
Proof using HnReduce.
  intros Hmerge Hok Hred.
  rewrite (Merge_spec file nReduce (fun r => reduced Reduce (partition nReduce r pairs))).
  2: { intros r Hr. split; [by apply Hmerge|]. apply forallb_elem.
       intros kv (k & -> & Hk)%list_elem_of_fmap. unfold kv_ok. simpl. rewrite Hred, andb_true_r.
       apply keys_of_elem, list_elem_of_fmap in Hk as (kv & -> & Hkv).
       apply (partition_elem nReduce HnReduce r kv pairs Hr) in Hkv as [_ Hkv].
       rewrite forallb_elem in Hok. by apply Hok, andb_prop in Hkv as [? _]. }
  eexists. split; [done|]. rewrite lookup_insert_eq. f_equal. by apply (results_report nReduce).
Qed.

Lemma run_phases fs1 (chunk : Z -> string) :
  (forall i, 0 <= i < nMap -> fs1 !! MapName file i = Some (chunk i)) ->
  concat ((fun i => Map (chunk i)) <$> seqZ 0 nMap) = pairs ->
  forallb kv_ok pairs = true -> (forall k vs, utf8_ok (Reduce k vs) = true) ->
  exists fs', (fs ← foldM (fun fs i => DoMap i file nReduce Map fs) fs1 (seqZ 0 nMap);
      fs ← foldM (fun fs i => DoReduce i file nMap Reduce fs) fs (seqZ 0 nReduce);
      Merge nReduce file fs) = Some fs' /\
    fs' !! OutName file = Some (report Reduce pairs).
Proof using HnReduce.
  intros Hchunks Hpairs Hok Hred.
  destruct (map_phase file nReduce Map chunk (seqZ 0 nMap) fs1) as (fs2 & -> & Hm).
  { intros i Hi%elem_of_seqZ. split; [lia|]. apply Hchunks. lia. }
  cbn [mbind option_bind].
  destruct (foldM_inv (fun fs r => DoReduce r file nMap Reduce fs)
    (fun done fs' => (forall r, r ∈ done -> fs' !! MergeName file r =
        Some (concat_all (Encode <$> reduced Reduce (partition nReduce r pairs)))) /\
      MapReduceSpec.mapped file nReduce Map chunk (seqZ 0 nMap) fs')
    (seqZ 0 nReduce) fs2) as (fs3 & -> & Hmerge & _).
  - split; [by intros r ?%not_elem_of_nil|done].
  - intros l1 r l2 fs4 El [Hdone Hkeep].
    assert (forall x, x ∈ l1 ++ [r] -> 0 <= x < nReduce) as Hin.
    { intros x Hx. assert (x ∈ seqZ 0 nReduce) as ?%elem_of_seqZ; [|lia].
      rewrite El. apply elem_of_app. apply elem_of_app in Hx as [?| ->%list_elem_of_singleton];
        [by left|right; by left]. }
    assert (0 <= r < nReduce) as Hr by (apply Hin, elem_of_app; right; by left).
    rewrite (reduce_job chunk) by done. eexists. split; [done|]. split.
    + intros r' Hr'. destruct (decide (r' = r)) as [->|Hne]; [apply lookup_insert_eq|].
      pose proof (Hin r' Hr'). rewrite lookup_insert_ne.
      * apply Hdone. by apply elem_of_app in Hr' as [?|?%list_elem_of_singleton].
      * apply (tmp_name_ne file (TMerge r) (TMerge r')); simpl; [lia..|congruence].
    + intros i r' Hi Hr'. rewrite lookup_insert_ne; [by apply Hkeep|]. apply elem_of_seqZ in Hi.
      apply (tmp_name_ne file (TMerge r) (TReduce i r')); simpl; [lia|lia|done].
  - apply merge_report; [|done|done]. intros r Hr. apply Hmerge, elem_of_seqZ. lia.
Qed.
End Run.

(** A missing split stops the map jobs. *)
Lemma map_missing file nReduce Map n jobs fs :
  0 <= n -> (forall i, i ∈ jobs -> 0 <= i) -> n ∈ jobs -> fs !! MapName file n = None ->
  foldM (fun fs i => DoMap i file nReduce Map fs) fs jobs = None.
Proof.
  intros Hn. revert fs. induction jobs as [|i jobs IH]; intros fs Hpos Hin Hnone;
    [by apply not_elem_of_nil in Hin|].
  cbn [foldM]. destruct (decide (i = n)) as [->|Hne]; [unfold DoMap; by rewrite Hnone|].
  destruct (DoMap i file nReduce Map fs) as [fs'|] eqn:E; [|done]. apply IH.
  - intros j Hj. apply Hpos. by right.
  - apply elem_of_cons in Hin as [->|?]; done.
  - unfold DoMap in E. destruct (fs !! MapName file i); simplify_eq/=.
    rewrite foldl_insert_notin; [done|]. intros r [Hr _]%elem_of_seqZ.
    apply (tmp_name_ne file (TReduce i r) (TMap n)); simpl; [|done|done].
    split; [apply Hpos; by left|done].
Qed.

(** When [Split] makes all the files, they give the map jobs their chunks. *)
Lemma split_chunks nMap file content fs fs1 Map :
  0 < nMap < 2 ^ 62 -> Z.of_nat (String.length content) < 2 ^ 61 -> fs !! file = Some content ->
  Z.of_nat (length (splits nMap content)) = nMap -> Split nMap file fs = Some fs1 ->
  exists chunk : Z -> string,
    (forall i, 0 <= i < nMap -> fs1 !! MapName file i = Some (chunk i)) /\
    concat ((fun i => Map (chunk i)) <$> seqZ 0 nMap) = pairs nMap content Map.
Proof.
  intros Hn Hsize Hfile Hlen Hsplit.
  destruct (Split_result nMap file content fs Hn Hsize Hfile) as (fs2 & E & _ & _ & Hf & _).
  rewrite E in Hsplit. injection Hsplit as ->.
  exists (fun i => default EmptyString (text_of <$> splits nMap content !! Z.to_nat i)). split.
  - intros i Hi. destruct (lookup_lt_is_Some_2 (splits nMap content) (Z.to_nat i)) as [g Hg]; [lia|].
    rewrite Hg. simpl. rewrite <- (Hf _ _ Hg). f_equal. f_equal. lia.
  - apply pairs_seq; [done|]. intros k g Hg. by rewrite Nat2Z.id, Hg.
Qed.

Lemma run_single_result nMap nReduce file content fs Map Reduce :
  0 < nMap < 2 ^ 62 -> 0 < nReduce < 2 ^ 32 ->
  Z.of_nat (String.length content) < 2 ^ 61 -> fs !! file = Some content ->
  Z.of_nat (length (splits nMap content)) = nMap ->
  forallb kv_ok (pairs nMap content Map) = true ->
  (forall k vs, utf8_ok (Reduce k vs) = true) ->
  exists fs', RunSingle nMap nReduce file Map Reduce fs = Some fs' /\
    fs' !! OutName file = Some (report Reduce (pairs nMap content Map)).
Proof.
  intros Hn Hr Hsize Hfile Hlen Hok Hred.
  destruct (Split_result nMap file content fs Hn Hsize Hfile) as (fs1 & E & _).
  destruct (split_chunks nMap file content fs fs1 Map Hn Hsize Hfile Hlen E) as (chunk & Hc & Hp).
  unfold RunSingle. replace ((nMap <? 0) || (nReduce <? 0)) with false by lia.
  rewrite E. cbn [mbind option_bind].
  by apply (run_phases nMap nReduce file content Map Reduce Hr fs1 chunk).
Qed.

(** C8: the sequential map-reduce is correct.  When [Split] makes [nMap] files, and
    the pairs are valid UTF-8, [RunSingle] ends and its output file has one line
    [key: result] for each distinct key, in the order of the keys, where the
    result is [Reduce] of all the values of the key, in the order in which [Map]
    gave them over the whole input. *)
Theorem run_single_correct nMap nReduce file content fs Map Reduce :
  0 < nMap < 2 ^ 62 -> 0 < nReduce < 2 ^ 32 ->
  Z.of_nat (String.length content) < 2 ^ 61 -> fs !! file = Some content ->
  Z.of_nat (length (splits nMap content)) = nMap ->
  forallb kv_ok (pairs nMap content Map) = true ->
  (forall k vs, utf8_ok (Reduce k vs) = true) ->
  exists fs', RunSingle nMap nReduce file Map Reduce fs = Some fs' /\
    fs' !! OutName file = Some (report Reduce (pairs nMap content Map)).
Proof. apply run_single_result. Qed.

(** C24: a short input stops the run.  [Split] creates a file only when it reaches
    its first line, so an input with fewer groups of lines than [nMap] leaves the
    last files missing, and the map job that opens the first missing one ends the
    process. *)
Theorem run_single_too_few nMap nReduce file content fs Map Reduce :
  0 < nMap < 2 ^ 62 -> Z.of_nat (String.length content) < 2 ^ 61 -> fs !! file = Some content ->
  Z.of_nat (length (splits nMap content)) < nMap ->
  fs !! MapName file (Z.of_nat (length (splits nMap content))) = None ->
  RunSingle nMap nReduce file Map Reduce fs = None.
Proof.
  intros Hn Hsize Hfile Hlen Hnone.
  destruct (Split_result nMap file content fs Hn Hsize Hfile) as (fs1 & E & _ & Hb & Hf & Hrest).
  unfold RunSingle. destruct (_ || _); [done|]. rewrite E. cbn [mbind option_bind].
  set (n := length (splits nMap content)) in *.
  assert (fs1 !! MapName file (Z.of_nat n) = None) as Hmiss.
  { rewrite Hrest; [done|]. intros k Hk E2. apply MapName_inj in E2; lia. }
  rewrite (map_missing file nReduce Map (Z.of_nat n)); [done|lia|..|done].
  - intros i Hi%elem_of_seqZ. lia.
  - apply elem_of_seqZ. lia.
Qed.

(** ** Witnesses *)

Definition demo_input : string := ("one two" ++ newline ++ "two" ++ newline ++ "three two" ++ newline ++ "two" ++ newline)%string.
Definition demo_fs : FS := {["in"%string := demo_input]}.
Definition demo_map (s : string) : list KeyValue :=
  (fun w => mkKeyValue w "1") <$> FieldsFunc s (fun r => negb ((97 <=? r) && (r <=? 122))).
Definition demo_reduce (k : string) (vs : list string) : string := Itoa (Z.of_nat (length vs)).

Lemma split_correct_witness :
  exists fs', Split 2 "in" demo_fs = Some fs' /\
    concat (splits 2 demo_input) = ["one two"; "two"; "three two"; "two"]%string.
Proof.
  destruct (split_correct 2 "in" demo_input demo_fs ltac:(lia) ltac:(vm_refl) ltac:(vm_refl))
    as (fs' & H & Hc & _).
  exists fs'. split; [exact H|]. exact (Hc ltac:(vm_refl)).
Defined.

(** A [Reduce] that only gives valid text. *)
Definition demo_constant (k : string) (vs : list string) : string := "x".

Lemma run_single_correct_witness :
  exists fs', RunSingle 2 3 "in" demo_map demo_constant demo_fs = Some fs' /\
    fs' !! OutName "in" = Some ("one: x" ++ newline ++ "three: x" ++ newline ++ "two: x" ++ newline)%string.
Proof.
  destruct (run_single_correct 2 3 "in" demo_input demo_fs demo_map demo_constant ltac:(lia)
    ltac:(lia) ltac:(vm_refl) ltac:(vm_refl) ltac:(vm_refl) ltac:(vm_refl)
    (fun _ _ => eq_refl)) as (fs' & H & Ho).
  exists fs'. split; [exact H|]. rewrite Ho. vm_refl.
Defined.

Fixpoint long_line (n : nat) : string :=
  match n with
  | O => EmptyString
  | S n => String "x" (long_line n)
  end.

Lemma long_line_length n : String.length (long_line n) = n.
Proof. induction n as [|n IH]; simpl; [done|by rewrite IH]. Qed.

Lemma raw_lines_long n t : raw_lines (line_of (long_line n) ++ t) = long_line n :: raw_lines t.
Proof.
  induction n as [|n IH]; [done|]. cbn [long_line].
  change (line_of (String "x" (long_line n)) ++ t)%string
    with (String "x" (line_of (long_line n) ++ t)).
  cbn [raw_lines]. by rewrite IH.
Qed.

Lemma raw_lines_demo n :
  raw_lines (line_of "a" ++ line_of (long_line n) ++ line_of "b")%string =
    ["a"%string] ++ long_line n :: ["b"%string].
Proof.
  change (line_of "a" ++ line_of (long_line n) ++ line_of "b")%string
    with (String "a" (String (char 10) (line_of (long_line n) ++ line_of "b"))).
  cbn [raw_lines]. by rewrite raw_lines_long.
Qed.

Lemma long_line_fits n : line_fits (long_line n) = (Z.of_nat n <? MaxScanTokenSize).
Proof. unfold line_fits. by rewrite long_line_length. Qed.

(** An input whose second line is too long: only the first one is kept. *)
Example split_stops_at_long_line :
  take_while line_fits (raw_lines (line_of "a" ++ line_of (long_line (Z.to_nat 65536)) ++ line_of "b")) =
    ["a"%string].
Proof.
  rewrite raw_lines_demo. apply take_while_stop; [done|].
  rewrite long_line_fits, Z2Nat.id by lia. reflexivity.
Qed.

Lemma run_single_too_few_witness :
  RunSingle 5 3 "in" demo_map demo_reduce demo_fs = None.
Proof.
  apply (run_single_too_few 5 3 "in" demo_input demo_fs demo_map demo_reduce);
    [lia|vm_refl|vm_refl|vm_refl|vm_refl].
Defined.
