(* ===== verification/WordCount.v ===== *)
(** The word-count program (src/project-3/src/main/wc.go) on the map-reduce
    library.

    [letter_table] is Go's table of letters beyond Latin-1; what is used of it is
    that the replacement character is not a letter. *)
From Stdlib Require Import Ascii.
From S2P Require Import Prelude GoText Utf8 Json MapReduce MapReduceSpec MapReduceSplit.

(** The letters up to U+00FF. *)
Definition latin1_letter (r : Z) : bool :=
  ((65 <=? r) && (r <=? 90)) || ((97 <=? r) && (r <=? 122)) ||
  (r =? 170) || (r =? 181) || (r =? 186) ||
  ((192 <=? r) && (r <=? 214)) || ((216 <=? r) && (r <=? 246)) || ((248 <=? r) && (r <=? 255)).

Section WordCount.
Context (letter_table : Z -> bool).

(** [unicode.IsLetter] *)
Definition IsLetter (r : Z) : bool := if r <=? 255 then latin1_letter r else letter_table r.

Definition words (value : string) : list string := FieldsFunc value (fun r => negb (IsLetter r)).

Definition Map (value : string) : list KeyValue := (fun s => mkKeyValue s "1") <$> words value.

Definition Reduce (key : string) (values : list string) : string :=
  Itoa (foldl (fun result e => int64 (result + Atoi_value e)) 0 values).

(** [main] with the argument [sequential]. *)
Definition main_sequential (file : string) (fs : FS) : option FS := RunSingle 5 3 file Map Reduce fs.

(** The three ways to run the program, and what each starts: the sequential run with its
    result, the master with the sizes, the file and its address, a worker with the two
    addresses and the number of calls it serves. *)
Inductive mode :=
| Usage (line : string)
| Sequential (result : option FS)
| Master (nmap nreduce : Z) (file address : string)
| Working (master me : string) (nRPC : Z).

(** [os.Args] is [prog :: args]. *)
Definition main (prog : string) (args : list string) (fs : FS) : mode :=
  match args with
  | [x; y; z] =>
      if String.eqb x "master" then
        if String.eqb z "sequential" then Sequential (main_sequential y fs)
        else Master 5 3 y z
      else Working y z 100
  | _ => Usage (prog ++ ": see usage comments in file" ++ newline)
  end.

(** ** Specification *)

Definition count (w : string) (l : list string) : Z :=
  Z.of_nat (length (base.filter (fun x => x = w) l)).

Definition word_report (ws : list string) : string :=
  concat_all ((fun w => w ++ ": " ++ Itoa (count w ws) ++ newline)%string <$>
    sort_strings (remove_dups ws)).

(** ** Words and lines *)

Lemma words_sep s c t :
  byte c < 65 -> words (s ++ String c t) = words s ++ words t.
Proof using.
  intros Hc. apply FieldsFunc_sep; [lia|]. pose proof (byte_range c).
  unfold IsLetter, latin1_letter. rewrite (proj2 (Z.leb_le (byte c) 255)) by lia. lia.
Qed.

Lemma words_line l t : words (line_of l ++ t) = words l ++ words t.
Proof using.
  unfold line_of, newline. rewrite string_app_assoc. simpl. by apply words_sep.
Qed.

Lemma words_text ls : words (text_of ls) = concat (words <$> ls).
Proof using.
  induction ls as [|l ls IH]; [done|]. unfold text_of. rewrite !fmap_cons. cbn [concat_all concat].
  by rewrite words_line, <- IH.
Qed.

Lemma words_dropCR l : words (dropCR l) = words l.
Proof using.
  assert (dropCR l = l \/ l = (dropCR l ++ String (char 13) EmptyString)%string) as H.
  { induction l as [|c [|c2 l] IH]; [by left|..].
    - change (dropCR (String c EmptyString))
        with (if Ascii.eqb c (char 13) then EmptyString else String c EmptyString).
      destruct (Ascii.eqb_spec c (char 13)) as [->|]; [by right|by left].
    - change (dropCR (String c (String c2 l))) with (String c (dropCR (String c2 l))).
      destruct IH as [IH|IH]; [left; by rewrite IH|right]. cbn [String.append]. by rewrite <- IH. }
  destruct H as [->|H]; [done|]. rewrite H at 2. rewrite words_sep; [|done].
  change (words EmptyString) with (@nil string). by rewrite app_nil_r.
Qed.

(** The lines are the text, up to a newline at its end. *)
Lemma raw_lines_text s :
  text_of (raw_lines s) = s \/ text_of (raw_lines s) = (s ++ newline)%string.
Proof using.
  induction s as [|c s IH]; [by left|]. cbn [raw_lines].
  destruct (Ascii.eqb_spec c (char 10)) as [->|Hc].
  - destruct IH as [IH|IH]; [left|right]; unfold text_of in *; rewrite fmap_cons; cbn [concat_all];
      rewrite IH; reflexivity.
  - destruct (raw_lines s) as [|l ls] eqn:E.
    + destruct s as [|c2 s]; [by right|]. exfalso. cbn [raw_lines] in E.
      destruct (Ascii.eqb c2 (char 10)); [done|]. by destruct (raw_lines s).
    + destruct IH as [IH|IH]; [left|right]; unfold text_of in *; rewrite fmap_cons in *;
        cbn [concat_all] in *; unfold line_of in *; cbn [String.append]; by rewrite IH.
Qed.

Lemma words_raw_lines s : concat (words <$> raw_lines s) = words s.
Proof using.
  rewrite <- words_text. destruct (raw_lines_text s) as [E | E]; rewrite E; [done|].
  unfold newline. rewrite words_sep; [|done].
  change (words EmptyString) with (@nil string). by rewrite app_nil_r.
Qed.

(** Splitting into lines and dropping carriage returns loses no word. *)
Lemma words_scan_lines content :
  forallb line_fits (raw_lines content) = true ->
  concat (words <$> scan_lines content) = words content.
Proof using.
  intros H. unfold scan_lines. rewrite take_while_all by done.
  rewrite <- list_fmap_compose, <- words_raw_lines. f_equal. apply list_fmap_ext.
  intros _ l _. apply words_dropCR.
Qed.

(** ** Counting *)

Lemma Reduce_ones key n :
  Z.of_nat n < 2 ^ 63 -> Reduce key (replicate n "1"%string) = Itoa (Z.of_nat n).
Proof using.
  intros Hn. unfold Reduce. f_equal. induction n as [|n IH]; [done|].
  replace (S n) with (n + 1)%nat at 1 by lia. rewrite replicate_add, foldl_app, IH by lia. simpl.
  change (Atoi_value "1") with 1. rewrite int64_id by (unfold int64_ok; lia). lia.
Qed.

Lemma values_ones w ws :
  values w ((fun s => mkKeyValue s "1") <$> ws) =
    replicate (length (base.filter (fun x => x = w) ws)) "1"%string.
Proof using.
  induction ws as [|x ws IH]; [done|]. unfold values in *. rewrite fmap_cons, !filter_cons.
  cbn [Key]. case_decide; [|done]. rewrite fmap_cons, IH. done.
Qed.

(** The pairs of the run are the words of the input, in order. *)
Lemma pairs_words nMap content :
  0 < nMap < 2 ^ 62 -> forallb line_fits (raw_lines content) = true ->
  pairs nMap content Map = (fun s => mkKeyValue s "1") <$> words content.
Proof using.
  intros Hn Hfit. rewrite <- words_scan_lines by done.
  pose proof (groups_inv nMap content Hn) as [Hl _ _].
  assert (concat (splits nMap content) = scan_lines content) as <-.
  { unfold splits, groups_of. destruct (foldl (group_step _) _ _) as [[gs cur] j]. simpl in *.
    rewrite concat_app. simpl. by rewrite app_nil_r. }
  unfold pairs, Map. induction (splits nMap content) as [|g gs IH]; [done|].
  rewrite fmap_cons. cbn [concat]. rewrite IH, (fmap_app words), concat_app, fmap_app.
  by rewrite words_text.
Qed.

Context (Htable : letter_table RuneError = false).

Lemma word_ok value w : w ∈ words value -> utf8_ok w = true.
Proof using Htable.
  apply FieldsFunc_utf8. unfold IsLetter. change (RuneError <=? 255) with false. by rewrite Htable.
Qed.

Lemma count_small w content :
  Z.of_nat (String.length content) < 2 ^ 61 -> count w (words content) < 2 ^ 63.
Proof using.
  intros H. unfold count, words. pose proof (FieldsFunc_length content (fun r => negb (IsLetter r))).
  pose proof (length_filter (fun x => x = w) (FieldsFunc content (fun r => negb (IsLetter r)))). lia.
Qed.

Lemma Itoa_utf8 z : utf8_ok (Itoa z) = true.
Proof using.
  apply ascii_utf8_ok. assert (forall n, 0 <= n -> all_chars (fun c => byte c <? 128) (Itoa n) = true) as H.
  { intros n Hn. pose proof (Itoa_digits n Hn) as H. induction (Itoa n) as [|c s IH]; [done|].
    simpl in *. apply andb_prop_elim in H as [Hc Hs]. rewrite IH by done.
    rewrite andb_true_r. apply Z.ltb_lt. unfold is_digit, nat_of_ascii in Hc.
    apply andb_prop_elim in Hc as [_ Hc%Is_true_true%Nat.leb_le]. unfold byte. lia. }
  destruct z as [|p|p]; [by apply H|by apply H|]. exact (H (Z.pos p) ltac:(lia)).
Qed.

Lemma report_words ws :
  (forall w, count w ws < 2 ^ 63) ->
  report Reduce ((fun s => mkKeyValue s "1") <$> ws) = word_report ws.
Proof using.
  intros Hc. unfold report, word_report, keys_of. rewrite <- list_fmap_compose.
  rewrite (list_fmap_ext (Key ∘ _) id) by done. rewrite list_fmap_id. f_equal.
  apply list_fmap_ext. intros _ w _. rewrite values_ones, Reduce_ones by apply Hc. done.
Qed.

(** The word count is right.  On an input whose lines fit the scanner's buffer
    and make [nMap] splits, the run ends and the output file lists every distinct
    word of the input once, in byte order, with the number of its occurrences in
    the whole input. *)
Theorem word_count_correct nMap nReduce file content fs :
  0 < nMap < 2 ^ 62 -> 0 < nReduce < 2 ^ 32 ->
  Z.of_nat (String.length content) < 2 ^ 61 -> fs !! file = Some content ->
  forallb line_fits (raw_lines content) = true ->
  Z.of_nat (length (splits nMap content)) = nMap ->
  exists fs', RunSingle nMap nReduce file Map Reduce fs = Some fs' /\
    fs' !! OutName file = Some (word_report (words content)).
Proof using Htable.
  intros Hn Hr Hsize Hfile Hfit Hlen.
  rewrite <- report_words by (intros w; by apply count_small).
  rewrite <- (pairs_words nMap) by done. apply run_single_result; try done.
  - rewrite pairs_words by done. apply forallb_elem.
    intros kv (w & -> & Hw)%list_elem_of_fmap. unfold kv_ok. simpl. by rewrite (word_ok _ _ Hw).
  - intros k vs. apply Itoa_utf8.
Qed.
End WordCount.

(** ** Witnesses *)

Definition wc_input : string :=
  ("to be" ++ newline ++ "or not" ++ newline ++ "to be" ++ newline ++ "be" ++ newline)%string.

Lemma word_count_correct_witness :
  exists fs', RunSingle 2 3 "in" (Map (fun _ => false)) Reduce {["in"%string := wc_input]} = Some fs' /\
    fs' !! OutName "in" = Some ("be: 3" ++ newline ++ "not: 1" ++ newline ++ "or: 1" ++ newline ++
      "to: 2" ++ newline)%string.
Proof.
  destruct (word_count_correct (fun _ => false) eq_refl 2 3 "in" wc_input {["in"%string := wc_input]}
    ltac:(lia) ltac:(lia) ltac:(vm_refl) ltac:(vm_refl) ltac:(vm_refl) ltac:(vm_refl)) as (fs' & H & Ho).
  exists fs'. split; [exact H|]. rewrite Ho. vm_refl.
Defined.
