(* ===== verification/MapReduceMaster.v ===== *)
(** The master of a distributed run (src/project-3/src/mapreduce/master.go): the
    loop [RunMaster] and one goroutine [RunWorker] per registration, which share
    five channels.

    A step is one channel operation or the end of one RPC.  The result of
    [call] is an argument of the step: the answer of the worker process, or the
    failure to reach it. *)
From S2P Require Import Prelude.

(** Where a goroutine [RunWorker] is. *)
Inductive worker_pc :=
| WMap                   (* at the select of the first loop *)
| WMapping (j : Z)       (* calling the worker with map job [j] *)
| WReduce                (* at the select of the second loop *)
| WReducing (j : Z)      (* calling the worker with reduce job [j] *)
| WExit.

#[export] Instance worker_pc_eq_dec : EqDecision worker_pc.
Proof. solve_decision. Defined.

Record mr := mkMR {
  nMap : Z;
  nReduce : Z;
  mapJobs : list Z;        (* channel of capacity [nMap] *)
  mapDone : list Z;        (* channel of capacity [nMap]; the job, for the proofs *)
  reduceStart : bool;      (* closed? *)
  reduceJobs : list Z;     (* channel of capacity [nReduce] *)
  reduceDone : list Z;     (* channel of capacity [nReduce]; the job, for the proofs *)
  mapCount : Z;            (* local [mapDone] of [RunMaster] *)
  reduceCount : Z;         (* local [reduceDone] of [RunMaster] *)
  mapped : list Z;         (* the jobs counted, for the proofs *)
  reduced : list Z;
  Workers : list string;   (* keys of the map [Workers], newest first *)
  goroutines : list worker_pc;
  returned : bool          (* has [RunMaster] left its loop? *)
}.

Definition InitMapReduce (nmap nreduce : Z) : mr :=
  mkMR nmap nreduce (seqZ 0 nmap) [] false (seqZ 0 nreduce) [] 0 0 [] [] [] [] false.

Definition set_goroutine (s : mr) (w : nat) (p : worker_pc) : mr :=
  mkMR (nMap s) (nReduce s) (mapJobs s) (mapDone s) (reduceStart s) (reduceJobs s) (reduceDone s)
    (mapCount s) (reduceCount s) (mapped s) (reduced s) (Workers s) (<[w := p]> (goroutines s))
    (returned s).
Definition set_mapJobs (s : mr) q :=
  mkMR (nMap s) (nReduce s) q (mapDone s) (reduceStart s) (reduceJobs s) (reduceDone s)
    (mapCount s) (reduceCount s) (mapped s) (reduced s) (Workers s) (goroutines s) (returned s).
Definition set_mapDone (s : mr) q :=
  mkMR (nMap s) (nReduce s) (mapJobs s) q (reduceStart s) (reduceJobs s) (reduceDone s)
    (mapCount s) (reduceCount s) (mapped s) (reduced s) (Workers s) (goroutines s) (returned s).
Definition set_reduceJobs (s : mr) q :=
  mkMR (nMap s) (nReduce s) (mapJobs s) (mapDone s) (reduceStart s) q (reduceDone s)
    (mapCount s) (reduceCount s) (mapped s) (reduced s) (Workers s) (goroutines s) (returned s).
Definition set_reduceDone (s : mr) q :=
  mkMR (nMap s) (nReduce s) (mapJobs s) (mapDone s) (reduceStart s) (reduceJobs s) q
    (mapCount s) (reduceCount s) (mapped s) (reduced s) (Workers s) (goroutines s) (returned s).

(** The outcome of [call(w, "Worker.DoJob", args, &reply)]: no answer, or an answer
    with [reply.OK]. *)
Inductive rpc := Unreachable | Answer (OK : bool).

Inductive event :=
| MRegister (w : string)         (* case w := <-mr.registerChannel *)
| MMapDone                       (* case <-mr.mapDone *)
| MReduceDone                    (* case <-mr.reduceDone *)
| WTake (w : nat)                (* a job from the channel of the loop *)
| WCall (w : nat) (r : rpc)      (* the call returns; its consequences *)
| WLeave (w : nat).              (* case <-mr.reduceStart; default of the second loop *)

(** [RunMaster] *)
Definition RunMaster (s : mr) (ev : event) : option mr :=
  if returned s then None
  else
    match ev with
    | MRegister w =>
        Some (mkMR (nMap s) (nReduce s) (mapJobs s) (mapDone s) (reduceStart s) (reduceJobs s)
          (reduceDone s) (mapCount s) (reduceCount s) (mapped s) (reduced s)
          (if bool_decide (w ∈ Workers s) then Workers s else w :: Workers s)
          (goroutines s ++ [WMap]) false)
    | MMapDone =>
        match mapDone s with
        | j :: q =>
            let n := int64 (mapCount s + 1) in
            Some (mkMR (nMap s) (nReduce s) (mapJobs s) q (reduceStart s || (n =? nMap s))
              (reduceJobs s) (reduceDone s) n (reduceCount s) (mapped s ++ [j]) (reduced s)
              (Workers s) (goroutines s) false)
        | [] => None
        end
    | MReduceDone =>
        match reduceDone s with
        | j :: q =>
            let n := int64 (reduceCount s + 1) in
            Some (mkMR (nMap s) (nReduce s) (mapJobs s) (mapDone s) (reduceStart s) (reduceJobs s)
              q (mapCount s) n (mapped s) (reduced s ++ [j]) (Workers s) (goroutines s)
              (n =? nReduce s))
        | [] => None
        end
    | _ => None
    end.

(** [RunWorker] *)
Definition RunWorker (s : mr) (w : nat) (ev : event) : option mr :=
  match goroutines s !! w with
  | Some WMap =>
      match ev with
      | WTake _ => match mapJobs s with
                   | j :: q => Some (set_goroutine (set_mapJobs s q) w (WMapping j))
                   | [] => None
                   end
      | WLeave _ => if reduceStart s then Some (set_goroutine s w WReduce) else None
      | _ => None
      end
  | Some (WMapping j) =>
      match ev with
      | WCall _ (Answer true) =>
          q ← send (nMap s) (mapDone s) j;
          Some (set_goroutine (set_mapDone s q) w WMap)
      | WCall _ _ =>
          q ← send (nMap s) (mapJobs s) j;
          Some (set_goroutine (set_mapJobs s q) w WExit)
      | _ => None
      end
  | Some WReduce =>
      match reduceJobs s, ev with
      | j :: q, WTake _ => Some (set_goroutine (set_reduceJobs s q) w (WReducing j))
      | [], WLeave _ => Some (set_goroutine s w WExit)
      | _, _ => None
      end
  | Some (WReducing j) =>
      match ev with
      | WCall _ (Answer true) =>
          q ← send (nReduce s) (reduceDone s) j;
          Some (set_goroutine (set_reduceDone s q) w WReduce)
      | WCall _ _ =>
          q ← send (nReduce s) (reduceJobs s) j;
          Some (set_goroutine (set_reduceJobs s q) w WExit)
      | _ => None
      end
  | _ => None
  end.

Definition step (s : mr) (ev : event) : option mr :=
  match ev with
  | WTake w | WCall w _ | WLeave w => RunWorker s w ev
  | _ => RunMaster s ev
  end.

(** ** The jobs

    Every job is in one place: waiting, with a goroutine, reported, or counted. *)

Definition map_job (p : worker_pc) : option Z :=
  match p with WMapping j => Some j | _ => None end.
Definition reduce_job (p : worker_pc) : option Z :=
  match p with WReducing j => Some j | _ => None end.
Definition in_reduce_loop (p : worker_pc) : bool :=
  match p with WReduce | WReducing _ => true | _ => false end.

Definition jobs_of (f : worker_pc -> option Z) (gs : list worker_pc) : list Z := omap f gs.

Record mr_inv (s : mr) : Prop := {
  mi_map : mapJobs s ++ jobs_of map_job (goroutines s) ++ mapDone s ++ mapped s ≡ₚ seqZ 0 (nMap s);
  mi_reduce : reduceJobs s ++ jobs_of reduce_job (goroutines s) ++ reduceDone s ++ reduced s
                ≡ₚ seqZ 0 (nReduce s);
  mi_mapCount : mapCount s = Z.of_nat (length (mapped s));
  mi_reduceCount : reduceCount s = Z.of_nat (length (reduced s));
  mi_start : reduceStart s = true <-> mapCount s = nMap s;
  mi_phase : Exists (fun p => in_reduce_loop p = true) (goroutines s) -> reduceStart s = true;
  mi_worked : 0 < reduceCount s \/ reduceDone s <> [] -> reduceStart s = true;
  mi_returned : returned s = true -> reduceCount s = nReduce s
}.

Lemma jobs_of_set f gs w p p' :
  gs !! w = Some p -> exists l1 l2,
    jobs_of f gs = l1 ++ option_list (f p) ++ l2 /\
    jobs_of f (<[w := p']> gs) = l1 ++ option_list (f p') ++ l2.
Proof.
  intros H. exists (omap f (take w gs)), (omap f (drop (S w) gs)).
  assert (forall x, omap f (x :: drop (S w) gs) = option_list (f x) ++ omap f (drop (S w) gs)) as Hc
    by (intros x; simpl; by destruct (f x)).
  unfold jobs_of. split.
  - rewrite <- Hc, <- omap_app. f_equal. by rewrite take_drop_middle.
  - rewrite <- Hc, <- omap_app. f_equal. apply insert_take_drop. by eapply lookup_lt_Some.
Qed.

(** The phase of the goroutines after one of them moved. *)
Lemma phase_set gs w p p' :
  gs !! w = Some p -> (in_reduce_loop p' = true -> in_reduce_loop p = true) ->
  Exists (fun p => in_reduce_loop p = true) (<[w := p']> gs) ->
  Exists (fun p => in_reduce_loop p = true) gs.
Proof.
  intros Hw Hp. rewrite !Exists_exists. intros (x & Hx & Ht).
  apply list_elem_of_lookup in Hx as [i Hi]. destruct (decide (i = w)) as [->|Hne].
  - rewrite list_lookup_insert_eq in Hi by (by eapply lookup_lt_Some). injection Hi as <-.
    exists p. split; [by eapply list_elem_of_lookup_2|auto].
  - rewrite list_lookup_insert_ne in Hi by done. exists x. split; [by eapply list_elem_of_lookup_2|done].
Qed.

Section MasterInv.
Context (s : mr) (HnMap : 0 < nMap s) (Hcap : nMap s < 2 ^ 62) (HnR : nReduce s < 2 ^ 62).
Context (Hinv : mr_inv s).

(** The jobs in the places are at most the jobs there are. *)
Lemma map_total :
  Z.of_nat (length (mapJobs s) + length (jobs_of map_job (goroutines s)) + length (mapDone s) +
            length (mapped s)) = nMap s.
Proof using Hinv HnMap.
  pose proof (Permutation_length (mi_map _ Hinv)) as H. rewrite !length_app, length_seqZ in H. lia.
Qed.

Lemma reduce_total :
  Z.of_nat (length (reduceJobs s) + length (jobs_of reduce_job (goroutines s)) +
            length (reduceDone s) + length (reduced s)) = Z.max 0 (nReduce s).
Proof using Hinv.
  pose proof (Permutation_length (mi_reduce _ Hinv)) as H. rewrite !length_app, length_seqZ in H. lia.
Qed.

Lemma in_reduce_start w p :
  goroutines s !! w = Some p -> in_reduce_loop p = true -> reduceStart s = true.
Proof using Hinv.
  intros Hw Hp. apply (mi_phase _ Hinv), Exists_exists. exists p.
  split; [by eapply list_elem_of_lookup_2|done].
Qed.

(** A goroutine moves from [p] to [p'] while the channels change. *)
Lemma goroutine_inv w p p' (mj md rj rd : list Z) :
  goroutines s !! w = Some p ->
  mj ++ option_list (map_job p') ++ md ≡ₚ mapJobs s ++ option_list (map_job p) ++ mapDone s ->
  rj ++ option_list (reduce_job p') ++ rd ≡ₚ reduceJobs s ++ option_list (reduce_job p) ++ reduceDone s ->
  (in_reduce_loop p' = true \/ rd <> [] -> reduceStart s = true) ->
  mr_inv (mkMR (nMap s) (nReduce s) mj md (reduceStart s) rj rd (mapCount s) (reduceCount s)
    (mapped s) (reduced s) (Workers s) (<[w := p']> (goroutines s)) (returned s)).
Proof using Hinv.
  intros Hw Hm Hr Hph. destruct Hinv as [H1 H2 H3 H4 H5 H6 H7 H8].
  destruct (jobs_of_set map_job _ w p p' Hw) as (l1 & l2 & E1 & E2).
  destruct (jobs_of_set reduce_job _ w p p' Hw) as (l3 & l4 & E3 & E4).
  constructor; simpl; try done.
  - rewrite <- H1, E1, E2. transitivity ((mj ++ option_list (map_job p') ++ md) ++ l1 ++ l2 ++ mapped s);
      [solve_Permutation|rewrite Hm; solve_Permutation].
  - rewrite <- H2, E3, E4. transitivity ((rj ++ option_list (reduce_job p') ++ rd) ++ l3 ++ l4 ++ reduced s);
      [solve_Permutation|rewrite Hr; solve_Permutation].
  - destruct (in_reduce_loop p') eqn:Ep; [auto|]. intros Hx. apply H6. by eapply phase_set; [done|rewrite Ep|].
  - intros [?|?]; auto.
Qed.

Lemma RunWorker_inv w ev s' : RunWorker s w ev = Some s' -> mr_inv s'.
Proof using Hinv.
  unfold RunWorker. destruct (goroutines s !! w) as [p|] eqn:Hw; [|done].
  pose proof (mi_worked _ Hinv) as H7. pose proof (in_reduce_start w p Hw) as H6.
  assert (forall rd, in_reduce_loop p = true -> in_reduce_loop p = true \/ rd <> @nil Z ->
    reduceStart s = true) as Hin by (intros rd Hp _; auto).
  destruct p as [|j| |j|]; [..|done].
  - destruct ev; try done.
    + destruct (mapJobs s) as [|j q] eqn:Ej; [done|]. intros [= <-].
      apply (goroutine_inv w WMap (WMapping j)); try done; rewrite ?Ej; try solve_Permutation.
      intros [?|?]; [done|auto].
    + destruct (reduceStart s) eqn:Es; [|done]. intros [= <-].
      by apply (goroutine_inv w WMap WReduce).
  - destruct ev as [| | | |? r|]; try done.
    destruct r as [|[]]; (destruct (send _ _ _) as [q|] eqn:Eq; [|done]); intros [= <-];
      apply send_Some in Eq as [_ ->].
    all: apply (goroutine_inv w (WMapping j)); try done; try solve_Permutation.
    all: intros [?|?]; [done|auto].
  - destruct (reduceJobs s) as [|j q] eqn:Ej; destruct ev; try done; intros [= <-].
    + apply (goroutine_inv w WReduce WExit); try done; rewrite ?Ej; try solve_Permutation.
      intros [?|?]; [done|auto].
    + apply (goroutine_inv w WReduce (WReducing j)); try done; rewrite ?Ej; try solve_Permutation.
      intros _. by apply H6.
  - destruct ev as [| | | |? r|]; try done.
    destruct r as [|[]]; (destruct (send _ _ _) as [q|] eqn:Eq; [|done]); intros [= <-];
      apply send_Some in Eq as [_ ->].
    all: apply (goroutine_inv w (WReducing j)); try done; try solve_Permutation.
    all: intros _; by apply H6.
Qed.

Lemma RunMaster_inv ev s' : RunMaster s ev = Some s' -> mr_inv s'.
Proof using Hinv HnMap Hcap HnR.
  unfold RunMaster. destruct (returned s) eqn:Eret; [done|].
  pose proof map_total as Hmt. pose proof reduce_total as Hrt.
  destruct Hinv as [H1 H2 H3 H4 H5 H6 H7 H8].
  destruct ev; try done.
  - intros [= <-].
    assert (jobs_of map_job (goroutines s ++ [WMap]) = jobs_of map_job (goroutines s)) as E1
      by (unfold jobs_of; rewrite omap_app; apply app_nil_r).
    assert (jobs_of reduce_job (goroutines s ++ [WMap]) = jobs_of reduce_job (goroutines s)) as E2
      by (unfold jobs_of; rewrite omap_app; apply app_nil_r).
    constructor; simpl; rewrite ?E1, ?E2; try done.
    rewrite Exists_app. intros [?|Hx]; [auto|]. inversion Hx as [? ? Hp|? ? Hp]; subst; [done|by apply Exists_nil in Hp].
  - destruct (mapDone s) as [|j q] eqn:Ed; [done|]. intros [= <-]. simpl in *.
    rewrite int64_id by (unfold int64_ok; lia). constructor; simpl; try done.
    + rewrite <- H1. solve_Permutation.
    + rewrite length_app. simpl. lia.
    + rewrite orb_true_iff, Z.eqb_eq, H5. split; [intros [?|?]; [lia|done]|auto].
    + intros Hx. by rewrite H6.
    + intros Hx. by rewrite H7.
  - destruct (reduceDone s) as [|j q] eqn:Ed; [done|]. intros [= <-]. simpl in *.
    rewrite int64_id by (unfold int64_ok; lia). constructor; simpl; try done.
    + rewrite <- H2. solve_Permutation.
    + rewrite length_app. simpl. lia.
    + intros _. apply H7. by right.
    + intros Hr. lia.
Qed.

Lemma master_step_inv ev s' : step s ev = Some s' -> mr_inv s'.
Proof using Hinv HnMap Hcap HnR.
  destruct ev; simpl; try apply RunMaster_inv; apply RunWorker_inv.
Qed.
End MasterInv.

Lemma Init_inv nmap nreduce : 0 < nmap -> mr_inv (InitMapReduce nmap nreduce).
Proof.
  intros Hn. constructor; simpl; try done; rewrite ?app_nil_r; try done.
  - split; [done|lia].
  - by intros H%Exists_nil.
  - intros [?|?]; [lia|done].
Qed.

Lemma step_params s ev s' : step s ev = Some s' -> nMap s' = nMap s /\ nReduce s' = nReduce s.
Proof.
  intros H. destruct ev as [| | | |? r|]; simpl in H; unfold RunMaster, RunWorker in H;
    try destruct r as [|[]]; repeat (case_match; simplify_eq/=; try done);
    (destruct (send _ _ _); simplify_eq/=; done).
Qed.

Section Run.
Context (nmap nreduce : Z) (Hm : 0 < nmap < 2 ^ 62) (Hr : nreduce < 2 ^ 62).

Definition params_ok (s : mr) : Prop := nMap s = nmap /\ nReduce s = nreduce /\ mr_inv s.

Lemma step_ok s ev s' : params_ok s -> step s ev = Some s' -> params_ok s'.
Proof using Hm Hr.
  intros (E1 & E2 & Hi) H. destruct (step_params _ _ _ H) as [E3 E4].
  split; [congruence|]. split; [congruence|]. eapply master_step_inv; eauto; lia.
Qed.

Lemma run_ok s : reachable step (InitMapReduce nmap nreduce) s -> params_ok s.
Proof using Hm Hr.
  apply (reachable_inv step params_ok).
  - split_and!; [done|done|apply Init_inv; lia].
  - intros s1 s2 ev H1 H2. by eapply step_ok.
Qed.

Lemma job_places s :
  reachable step (InitMapReduce nmap nreduce) s ->
  mapJobs s ++ jobs_of map_job (goroutines s) ++ mapDone s ++ mapped s ≡ₚ seqZ 0 nmap /\
  reduceJobs s ++ jobs_of reduce_job (goroutines s) ++ reduceDone s ++ reduced s ≡ₚ seqZ 0 nreduce /\
  (jobs_of reduce_job (goroutines s) ++ reduceDone s ++ reduced s <> [] -> mapped s ≡ₚ seqZ 0 nmap) /\
  (returned s = true -> 0 <= nreduce -> reduced s ≡ₚ seqZ 0 nreduce).
Proof using Hm Hr.
  intros Hs. destruct (run_ok s Hs) as (E1 & E2 & Hi).
  pose proof (map_total s ltac:(lia) Hi) as Hmt. pose proof (reduce_total s Hi) as Hrt.
  destruct Hi as [H1 H2 H3 H4 H5 H6 H7 H8]. rewrite E1, E2 in *.
  split_and!; [done|done|..].
  - intros Hne. assert (reduceStart s = true) as Hst.
    { destruct (jobs_of reduce_job (goroutines s)) as [|j l] eqn:Ej.
      - apply H7. destruct (reduceDone s); [|by right]. left. rewrite H4.
        destruct (reduced s); [done|simpl; lia].
      - apply H6, Exists_exists. assert (j ∈ jobs_of reduce_job (goroutines s)) as Hj
          by (rewrite Ej; by left).
        apply list_elem_of_omap in Hj as (p & Hp & Hpj). exists p. by destruct p. }
    apply H5 in Hst. rewrite <- H1.
    destruct (mapJobs s), (jobs_of map_job (goroutines s)), (mapDone s); simpl in *; done || lia.
  - intros Hret Hpos. apply H8 in Hret. rewrite <- H2.
    destruct (reduceJobs s), (jobs_of reduce_job (goroutines s)), (reduceDone s); simpl in *; done || lia.
Qed.

(** C11: no job is lost, done twice or started too early, whatever the workers do
    and however often a call fails.  At every moment each map job is in exactly
    one place: waiting, being called, reported, or counted; likewise each reduce
    job.  A reduce job is waiting to start until every map job was counted, and
    [RunMaster] returns only when every reduce job was counted. *)
Theorem master_jobs s :
  reachable step (InitMapReduce nmap nreduce) s ->
  mapJobs s ++ jobs_of map_job (goroutines s) ++ mapDone s ++ mapped s ≡ₚ seqZ 0 nmap /\
  reduceJobs s ++ jobs_of reduce_job (goroutines s) ++ reduceDone s ++ reduced s ≡ₚ seqZ 0 nreduce /\
  (jobs_of reduce_job (goroutines s) ++ reduceDone s ++ reduced s <> [] -> mapped s ≡ₚ seqZ 0 nmap) /\
  (returned s = true -> 0 <= nreduce -> reduced s ≡ₚ seqZ 0 nreduce).
Proof using Hm Hr. apply job_places. Qed.

(** ** Progress *)

Definition no_register (ev : event) : bool :=
  match ev with MRegister _ => false | _ => true end.

(** A move other than a registration is possible; when it is the end of a call,
    whatever its outcome. *)
Definition can_move (s : mr) : Prop :=
  exists ev : rpc -> event, forall r, no_register (ev r) = true /\ is_Some (step s (ev r)).

Lemma send_room {A} cap (q : list A) x : Z.of_nat (length q) < cap -> send cap q x = Some (q ++ [x]).
Proof using. intros H. by apply send_Some. Qed.

Lemma jobs_of_elem f gs w p (j : Z) : gs !! w = Some p -> f p = Some j -> jobs_of f gs <> [].
Proof using.
  intros Hw Hf E. assert (j ∈ jobs_of f gs) as H; [|rewrite E in H; by apply not_elem_of_nil in H].
  apply list_elem_of_omap. exists p. split; [by eapply list_elem_of_lookup_2|done].
Qed.

(** A call may return at any moment. *)
Lemma call_returns s w j r :
  params_ok s -> goroutines s !! w = Some (WMapping j) \/ goroutines s !! w = Some (WReducing j) ->
  is_Some (step s (WCall w r)).
Proof using Hm.
  intros (E1 & E2 & Hi) Hw. pose proof (map_total s ltac:(lia) Hi) as Hmt.
  pose proof (reduce_total s Hi) as Hrt. rewrite E1 in Hmt. rewrite E2 in Hrt.
  simpl. unfold RunWorker. destruct Hw as [Hw|Hw]; rewrite Hw.
  - pose proof (jobs_of_elem map_job _ _ _ j Hw eq_refl) as Hne.
    destruct (jobs_of map_job (goroutines s)); [done|]. simpl in Hmt.
    rewrite !send_room by lia. destruct r as [|[]]; eauto.
  - pose proof (jobs_of_elem reduce_job _ _ _ j Hw eq_refl) as Hne.
    destruct (jobs_of reduce_job (goroutines s)); [done|]. simpl in Hrt.
    rewrite !send_room by lia. destruct r as [|[]]; eauto.
Qed.

Lemma call_moves s w j :
  params_ok s -> goroutines s !! w = Some (WMapping j) \/ goroutines s !! w = Some (WReducing j) ->
  can_move s.
Proof using Hm. intros Hs Hw. exists (WCall w). intros r. split; [done|by eapply call_returns]. Qed.

Lemma live_moves s w p :
  params_ok s -> returned s = false -> goroutines s !! w = Some p -> p <> WExit -> can_move s.
Proof using Hm.
  intros Hs Hret Hw Hp. destruct p as [|j| |j|]; [| by eapply call_moves; [|left]| |
    by eapply call_moves; [|right]|done].
  - destruct (mapJobs s) as [|j q] eqn:Ej.
    2: { exists (fun _ => WTake w). intros _. split; [done|]. simpl. unfold RunWorker.
         rewrite Hw, Ej. eauto. }
    destruct (reduceStart s) eqn:Es.
    { exists (fun _ => WLeave w). intros _. split; [done|]. simpl. unfold RunWorker.
      rewrite Hw, Es. eauto. }
    destruct (mapDone s) as [|j q] eqn:Ed.
    2: { exists (fun _ => MMapDone). intros _. split; [done|]. simpl. unfold RunMaster.
         rewrite Hret, Ed. eauto. }
    destruct (jobs_of map_job (goroutines s)) as [|j l] eqn:El.
    { exfalso. destruct Hs as (E1 & _ & Hi). pose proof (map_total s ltac:(lia) Hi) as Hmt.
      rewrite Ej, Ed, El in Hmt. simpl in Hmt. rewrite <- (mi_mapCount _ Hi) in Hmt.
      apply (mi_start _ Hi) in Hmt. congruence. }
    assert (j ∈ jobs_of map_job (goroutines s)) as (p & [w' Hw']%list_elem_of_lookup & Hj)%list_elem_of_omap
      by (rewrite El; by left).
    destruct p; simplify_eq/=. eapply call_moves; [done|by left].
  - destruct (reduceJobs s) as [|j q] eqn:Ej.
    + exists (fun _ => WLeave w). intros _. split; [done|]. simpl. unfold RunWorker.
      rewrite Hw, Ej. eauto.
    + exists (fun _ => WTake w). intros _. split; [done|]. simpl. unfold RunWorker.
      rewrite Hw, Ej. eauto.
Qed.
End Run.

(** ** Termination *)

Definition weight (p : worker_pc) : nat :=
  match p with
  | WMap => 4 | WMapping _ => 6 | WReduce => 2 | WReducing _ => 4 | WExit => 0
  end.

Definition measure (s : mr) : nat :=
  3 * (length (mapJobs s) + length (reduceJobs s)) + (length (mapDone s) + length (reduceDone s)) +
  sum_list_with weight (goroutines s).

Lemma weight_set gs w p p' :
  gs !! w = Some p ->
  (sum_list_with weight (<[w := p']> gs) + weight p = sum_list_with weight gs + weight p')%nat.
Proof.
  revert w. induction gs as [|x gs IH]; intros [|w]; simpl; try done; intros H.
  - injection H as ->. lia.
  - specialize (IH _ H). lia.
Qed.

Lemma step_measure s ev s' :
  step s ev = Some s' -> no_register ev = true -> (measure s' < measure s)%nat.
Proof.
  intros H Hev. unfold measure. destruct ev as [w| | |w|w r|w]; simpl in H; try done.
  - unfold RunMaster in H. repeat (case_match; simplify_eq/=). lia.
  - unfold RunMaster in H. repeat (case_match; simplify_eq/=). lia.
  - unfold RunWorker in H. destruct (goroutines s !! w) as [p|] eqn:Hw; [|done].
    pose proof (fun p' => weight_set _ _ _ p' Hw) as Hsum.
    destruct p; try done; repeat (case_match; simplify_eq/=);
      match goal with |- context [<[w := ?q]> _] => specialize (Hsum q) end; simpl in Hsum; lia.
  - unfold RunWorker in H. destruct (goroutines s !! w) as [p|] eqn:Hw; [|done].
    pose proof (fun p' => weight_set _ _ _ p' Hw) as Hsum.
    destruct p; try done; destruct r as [|[]]; repeat (case_match; simplify_eq/=); try done;
      (destruct (send _ _ _) as [q|] eqn:Eq; [|done]); simplify_eq/=;
      apply send_Some in Eq as [_ ->]; rewrite ?length_app; simpl;
      match goal with |- context [<[w := ?q]> _] => specialize (Hsum q) end; simpl in Hsum; lia.
  - unfold RunWorker in H. destruct (goroutines s !! w) as [p|] eqn:Hw; [|done].
    pose proof (fun p' => weight_set _ _ _ p' Hw) as Hsum.
    destruct p; try done; repeat (case_match; simplify_eq/=);
      match goal with |- context [<[w := ?q]> _] => specialize (Hsum q) end; simpl in Hsum;
      repeat match goal with E : reduceJobs s = _ |- _ => rewrite E end; simpl; lia.
Qed.

(** A run ends.  Without further registrations the master and its goroutines
    make at most [measure s] more moves, however the calls end. *)
Theorem master_terminates evs s s' :
  exec step s evs = Some s' -> forallb no_register evs = true ->
  (length evs + measure s' <= measure s)%nat.
Proof.
  revert s. induction evs as [|ev evs IH]; intros s; simpl; [intros [= ->]; lia|].
  destruct (step s ev) as [s1|] eqn:E; [|done]. intros H [Hev Hevs]%andb_prop.
  pose proof (step_measure _ _ _ E Hev). specialize (IH _ H Hevs). lia.
Qed.

(** ** Runs without failures *)

Definition no_failure (ev : event) : bool :=
  match ev with WCall _ (Answer true) => true | WCall _ _ => false | _ => true end.

Record smooth (s : mr) : Prop := {
  sm_exit : WExit ∈ goroutines s -> reduceJobs s = [];
  sm_returned : returned s = (reduceCount s =? nReduce s)
}.

Lemma elem_of_insert_pc (w : nat) (p p' : worker_pc) (gs : list worker_pc) : p ∈ <[w := p']> gs -> p = p' \/ p ∈ gs.
Proof.
  intros [i Hi]%list_elem_of_lookup. destruct (decide (i = w)) as [->|Hne].
  - destruct (decide (w < length gs)%nat).
    + rewrite list_lookup_insert_eq in Hi by done. left. congruence.
    + right. rewrite list_insert_ge in Hi by lia. by eapply list_elem_of_lookup_2.
  - rewrite list_lookup_insert_ne in Hi by done. right. by eapply list_elem_of_lookup_2.
Qed.

Lemma step_smooth s ev s' :
  smooth s -> step s ev = Some s' -> no_failure ev = true -> smooth s'.
Proof.
  intros [H1 H2] H Hev. destruct ev as [w| | |w|w r|w]; simpl in H; unfold RunMaster, RunWorker in H.
  - destruct (returned s) eqn:Er; [done|]. injection H as <-. constructor; simpl; [|done].
    rewrite elem_of_app, list_elem_of_singleton. intros [?|?]; [auto|done].
  - repeat (case_match; simplify_eq/=); by constructor.
  - repeat (case_match; simplify_eq/=); by constructor.
  - repeat (case_match; simplify_eq/=); (constructor; simpl; [|done]);
      intros [?|Hx]%elem_of_insert_pc; try done; auto. apply H1 in Hx. congruence.
  - destruct r as [|[]]; try done; repeat (case_match; simplify_eq/=; try done);
      (destruct (send _ _ _); simplify_eq/=); (constructor; simpl; [|done]);
      intros [?|Hx]%elem_of_insert_pc; try done; auto.
  - repeat (case_match; simplify_eq/=); (constructor; simpl; [|done]);
      intros [?|Hx]%elem_of_insert_pc; try done; auto.
Qed.

Lemma exec_smooth evs s s' :
  smooth s -> exec step s evs = Some s' -> forallb no_failure evs = true -> smooth s'.
Proof.
  revert s. induction evs as [|ev evs IH]; intros s Hs; simpl; [by intros [= <-]|].
  destruct (step s ev) as [s1|] eqn:E; [|done]. intros H [Hev Hevs]%andb_prop.
  eapply IH; [|done..]. by eapply step_smooth.
Qed.

(** As long as there is a worker, a master none of whose calls failed can move. *)
Lemma smooth_moves nmap nreduce s :
  0 < nmap < 2 ^ 62 -> 0 < nreduce < 2 ^ 62 -> params_ok nmap nreduce s -> smooth s ->
  goroutines s <> [] -> returned s = false -> can_move s.
Proof.
  intros Hm Hr Hs [Hexit Hdone] Hne Hret.
  destruct (decide (Exists (fun p => p <> WExit) (goroutines s))) as [Hl|Hl].
  { apply Exists_exists in Hl as (p & [w Hw]%list_elem_of_lookup & Hp).
    by eapply (live_moves nmap nreduce Hm). }
  apply not_Exists_Forall in Hl; [|intros p; solve_decision]. rewrite Forall_forall in Hl.
  assert (jobs_of reduce_job (goroutines s) = []) as Hj.
  { destruct (jobs_of reduce_job (goroutines s)) as [|j l] eqn:E; [done|].
    assert (j ∈ jobs_of reduce_job (goroutines s)) as (p & Hp & Hpj)%list_elem_of_omap
      by (rewrite E; by left).
    exfalso. apply (Hl p Hp). by intros ->. }
  destruct (reduceDone s) as [|j q] eqn:Ed.
  2: { exists (fun _ => MReduceDone). intros _. split; [done|]. simpl. unfold RunMaster.
       rewrite Hret, Ed. eauto. }
  exfalso. destruct Hs as (E1 & E2 & Hi). pose proof (reduce_total s Hi) as Hrt.
  destruct (goroutines s) as [|p gs] eqn:Eg; [done|].
  rewrite Hexit, Hj, Ed in Hrt.
  2: { destruct (decide (p = WExit)) as [->|Hp]; [by left|]. exfalso. by apply (Hl p); [left|]. }
  simpl in Hrt. rewrite Hret in Hdone.
  symmetry in Hdone. apply Z.eqb_neq in Hdone. pose proof (mi_reduceCount _ Hi). lia.
Qed.

(** When no call fails, the run completes: once a worker has registered, as
    long as [RunMaster] has not returned there is a move that is no registration
    and that no outcome of a call blocks.  (There are finitely many such moves,
    by [master_terminates], so [RunMaster] returns.) *)
Theorem master_completes nmap nreduce evs s :
  0 < nmap < 2 ^ 62 -> 0 < nreduce < 2 ^ 62 ->
  exec step (InitMapReduce nmap nreduce) evs = Some s -> forallb no_failure evs = true ->
  goroutines s <> [] -> returned s = false -> can_move s.
Proof.
  intros Hm Hr Hrun Hev. apply (smooth_moves nmap nreduce); [done|done|..].
  - apply (run_ok nmap nreduce Hm ltac:(lia) s (exec_reachable _ _ _ _ Hrun)).
  - eapply exec_smooth; [|done..]. constructor; simpl; [by intros ?%not_elem_of_nil|].
    by destruct nreduce; [lia|..].
Qed.

(** *** A run without workers *)

Lemma exited_no_move s w ev :
  Forall (fun p => p = WExit) (goroutines s) -> RunWorker s w ev = None.
Proof.
  intros Hg. unfold RunWorker. destruct (goroutines s !! w) as [p|] eqn:E; [|done].
  by rewrite (Forall_lookup_1 _ _ _ _ Hg E).
Qed.

(** Without a registration only [RunMaster] moves: it counts what is reported. *)
Lemma abandoned_step s ev s' :
  Forall (fun p => p = WExit) (goroutines s) -> step s ev = Some s' -> no_register ev = true ->
  goroutines s' = goroutines s /\ mapJobs s' = mapJobs s /\ reduceJobs s' = reduceJobs s /\
  (length (mapDone s') + length (reduceDone s') < length (mapDone s) + length (reduceDone s))%nat.
Proof.
  intros Hg H Hev. destruct ev; try done; simpl in H; rewrite ?exited_no_move in H by done; try done;
    unfold RunMaster in H; repeat (case_match; simplify_eq/=); split_and!; try done; lia.
Qed.

Lemma abandoned_run evs s s' :
  Forall (fun p => p = WExit) (goroutines s) -> exec step s evs = Some s' -> forallb no_register evs = true ->
  goroutines s' = goroutines s /\ mapJobs s' = mapJobs s /\ reduceJobs s' = reduceJobs s /\
  (length evs <= length (mapDone s) + length (reduceDone s))%nat.
Proof.
  revert s. induction evs as [|ev evs IH]; intros s Hg; cbn [exec].
  { intros [= <-] _. simpl. split_and!; [done..|lia]. }
  destruct (step s ev) as [s1|] eqn:E; [|done]. cbn [forallb]. intros H [Hev Hevs]%andb_prop.
  destruct (abandoned_step _ _ _ Hg E Hev) as (E1 & E2 & E3 & Hl).
  rewrite <- E1 in Hg. destruct (IH s1 Hg H Hevs) as (F1 & F2 & F3 & Fl). simpl.
  split_and!; [congruence..|lia].
Qed.

(** While a job waits [RunMaster] does not return. *)
Lemma waiting_not_returned nmap nreduce s :
  0 < nmap < 2 ^ 62 -> 0 < nreduce < 2 ^ 62 -> reachable step (InitMapReduce nmap nreduce) s ->
  mapJobs s <> [] \/ reduceJobs s <> [] -> returned s = false.
Proof.
  intros Hm Hr Hs Hw. destruct (returned s) eqn:E; [exfalso|done].
  destruct (job_places nmap nreduce Hm ltac:(lia) s Hs) as (H1 & H2 & H3 & H4).
  specialize (H4 E ltac:(lia)).
  assert (mapped s ≡ₚ seqZ 0 nmap) as H5.
  { apply H3. intros [_ [_ Hn]%app_eq_nil]%app_eq_nil. rewrite Hn in H4.
    apply Permutation_length in H4. rewrite length_seqZ in H4. simpl in H4. lia. }
  apply Permutation_length in H1, H2, H4, H5. rewrite !length_app, ?length_seqZ in *.
  destruct Hw as [Hw|Hw].
  - destruct (mapJobs s); [done|]. simpl in H1. lia.
  - destruct (reduceJobs s); [done|]. simpl in H2. lia.
Qed.

(** The job a goroutine calls its worker with is put back where it came from. *)
Definition put_back (p : worker_pc) (s : mr) : Prop :=
  match p with
  | WMapping j => j ∈ mapJobs s
  | WReducing j => j ∈ reduceJobs s
  | _ => False
  end.

(** C23: a run strands when its last goroutine fails.  In any run, let all goroutines but
    one have left (one that finds no reduce job waiting leaves, although another is still
    calling with one), and let the call of that one fail.  The job goes back to its
    channel and the goroutine leaves, with nobody left to take it: from then on, for
    every schedule without a new registration, the job waits, [RunMaster] has not
    returned, and at most the jobs reported before are still counted. *)
Theorem master_stranded nmap nreduce s w p r s1 evs s2 :
  0 < nmap < 2 ^ 62 -> 0 < nreduce < 2 ^ 62 -> reachable step (InitMapReduce nmap nreduce) s ->
  goroutines s !! w = Some p ->
  (forall w' p', w' <> w -> goroutines s !! w' = Some p' -> p' = WExit) ->
  r <> Answer true -> step s (WCall w r) = Some s1 ->
  exec step s1 evs = Some s2 -> forallb no_register evs = true ->
  put_back p s2 /\ returned s2 = false /\ Forall (fun p => p = WExit) (goroutines s2) /\
  (length evs <= length (mapDone s) + length (reduceDone s))%nat.
Proof.
  intros Hm Hr Hs Hw Hothers Hfail Hstep Hrun Hev.
  assert (put_back p s1 /\ goroutines s1 = <[w := WExit]> (goroutines s) /\
    mapDone s1 = mapDone s /\ reduceDone s1 = reduceDone s) as (Hback & Hg & E1 & E2).
  { simpl in Hstep. unfold RunWorker in Hstep. rewrite Hw in Hstep.
    destruct p as [|j| |j|]; try done; [|by destruct (reduceJobs s)|];
      (destruct r as [|[]]; try done; (destruct (send _ _ _) as [q|] eqn:Eq; [|done]));
      injection Hstep as <-; apply send_Some in Eq as [_ ->]; simpl; split_and!; try done;
      apply elem_of_app; right; by left. }
  assert (Forall (fun p => p = WExit) (goroutines s1)) as Hexit.
  { rewrite Hg. apply Forall_lookup. intros k q [(-> & -> & _)|[Hne Hk]]%list_lookup_insert_Some; [done|by eapply Hothers]. }
  destruct (abandoned_run _ _ _ Hexit Hrun Hev) as (F1 & F2 & F3 & Fl).
  assert (put_back p s2) as Hback2 by (unfold put_back in *; by rewrite F2, F3).
  split_and!; [done| |by rewrite F1|by rewrite <- E1, <- E2].
  eapply (waiting_not_returned nmap nreduce); [done|done| |].
  - eapply reachable_trans; [by eapply reachable_step|by eapply exec_reachable].
  - destruct p; try done; [left|right]; intros E; simpl in Hback2; rewrite E in Hback2; by apply not_elem_of_nil in Hback2.
Qed.

(** ** KillWorkers

    [call] is the answer to [Worker.Shutdown], the number of jobs, if there is
    one; the order of the map iteration is the argument. *)
Definition KillWorkers (call : string -> option Z) (workers : list string) : list Z :=
  omap call workers.

(** ** The worker process (worker.go)

    [RunWorker] of the worker: its main loop accepts connections; each one is
    served by a goroutine of its own. *)

Inductive loop_pc := Test | Accept | Count | Done.

#[export] Instance loop_pc_eq_dec : EqDecision loop_pc.
Proof. solve_decision. Defined.

Record Worker := mkWorker {
  nRPC : Z;
  nJobs : Z;
  loop : loop_pc;
  served : Z            (* connections accepted and not served yet *)
}.

Definition new_Worker (nRPC : Z) : Worker := mkWorker nRPC 0 Test 0.

Inductive worker_event :=
| WTest                  (* the condition of the loop *)
| WAccept (ok : bool)    (* Accept returns; on success [nRPC] goes down and the goroutine starts *)
| WCount                 (* wk.nJobs += 1 *)
| WDoJob                 (* a goroutine serves DoJob *)
| WShutdown.             (* a goroutine serves Shutdown *)

(** The reply of a served [Shutdown] comes with the new state. *)
Definition worker_step (wk : Worker) (ev : worker_event) : option (Worker * option Z) :=
  match ev, loop wk with
  | WTest, Test =>
      Some (mkWorker (nRPC wk) (nJobs wk) (if nRPC wk =? 0 then Done else Accept) (served wk), None)
  | WAccept true, Accept =>
      Some (mkWorker (int64 (nRPC wk - 1)) (nJobs wk) Count (served wk + 1), None)
  | WAccept false, Accept => Some (mkWorker (nRPC wk) (nJobs wk) Done (served wk), None)
  | WCount, Count => Some (mkWorker (nRPC wk) (int64 (nJobs wk + 1)) Test (served wk), None)
  | WDoJob, _ =>
      if 0 <? served wk then Some (mkWorker (nRPC wk) (nJobs wk) (loop wk) (served wk - 1), None)
      else None
  | WShutdown, _ =>
      if 0 <? served wk
      then Some (mkWorker 1 (int64 (nJobs wk - 1)) (loop wk) (served wk - 1), Some (nJobs wk))
      else None
  | _, _ => None
  end.

Definition worker_next (wk : Worker) (ev : worker_event) : option Worker := fst <$> worker_step wk ev.

#[export] Instance worker_event_eq_dec : EqDecision worker_event.
Proof. solve_decision. Defined.

Definition occurrences (ev : worker_event) (evs : list worker_event) : Z :=
  Z.of_nat (length (base.filter (fun x => x = ev) evs)).

Lemma occurrences_snoc ev evs x :
  occurrences ev (evs ++ [x]) = occurrences ev evs + (if decide (x = ev) then 1 else 0).
Proof.
  unfold occurrences. rewrite filter_app, length_app, filter_cons, filter_nil.
  case_decide; simpl; lia.
Qed.

Lemma occurrences_le ev evs : 0 <= occurrences ev evs <= Z.of_nat (length evs).
Proof. unfold occurrences. pose proof (length_filter (fun x => x = ev) evs). lia. Qed.

(** The counters of a worker that was not asked to shut down. *)
Lemma worker_counts n evs wk :
  Z.of_nat (length evs) < 2 ^ 62 -> exec worker_next (new_Worker n) evs = Some wk ->
  WShutdown ∉ evs ->
  nJobs wk + (if bool_decide (loop wk = Count) then 1 else 0) = occurrences (WAccept true) evs /\
  served wk = occurrences (WAccept true) evs - occurrences WDoJob evs.
Proof.
  revert wk. induction evs as [|ev evs IH] using rev_ind; intros wk Hlen.
  { intros [= <-] _. done. }
  rewrite exec_app. destruct (exec worker_next (new_Worker n) evs) as [wk0|] eqn:E; [|done].
  rewrite length_app in Hlen. simpl in Hlen. cbn [mbind option_bind exec]. intros H Hns.
  rewrite elem_of_app, list_elem_of_singleton in Hns.
  destruct (IH wk0) as [I1 I2]; [lia|done|by intros ?; apply Hns; left|].
  pose proof (occurrences_le (WAccept true) evs). pose proof (occurrences_le WDoJob evs).
  rewrite !occurrences_snoc. unfold worker_next, worker_step in H.
  destruct ev as [|[]| | |]; try (by exfalso; apply Hns; right);
    destruct (loop wk0) eqn:El; simplify_eq/=;
    repeat (case_match; simplify_eq/=); try rewrite int64_id by (unfold int64_ok; lia); lia.
Qed.

(** The count a worker reports.  When [Shutdown] is served and every job
    connection was served before, the reported number is the jobs done plus one:
    the connection of the shutdown itself is counted (the decrement comes after
    the reply was filled in).  After that the worker's loop is not left before
    one more connection arrives. *)
Theorem worker_shutdown n evs wk wk' r :
  Z.of_nat (length evs) < 2 ^ 62 -> exec worker_next (new_Worker n) evs = Some wk ->
  WShutdown ∉ evs -> loop wk = Accept -> served wk = 1 ->
  worker_step wk WShutdown = Some (wk', r) ->
  r = Some (occurrences WDoJob evs + 1) /\
  (forall evs' wk2, exec worker_next wk' evs' = Some wk2 ->
     (forall ok, WAccept ok ∉ evs') -> loop wk2 = Accept).
Proof.
  intros Hlen Hrun Hns Hl Hs Hstep.
  destruct (worker_counts n evs wk Hlen Hrun Hns) as [H1 H2].
  unfold worker_step in Hstep. rewrite Hl, Hs in Hstep. simpl in Hstep. injection Hstep as <- <-.
  split; [rewrite Hl in H1; simpl in H1; f_equal; lia|].
  intros evs' wk2. assert (loop (mkWorker 1 (int64 (nJobs wk - 1)) Accept (1 - 1)) = Accept) as H0 by done.
  revert H0. generalize (mkWorker 1 (int64 (nJobs wk - 1)) Accept (1 - 1)).
  induction evs' as [|ev evs' IH]; intros w Hw; cbn [exec]; [by intros [= <-] _|].
  destruct (worker_next w ev) as [w1|] eqn:E; [|by intros]. intros Hrun2 Hna.
  assert (loop w1 = Accept) as Hw1.
  { unfold worker_next, worker_step in E. rewrite Hw in E.
    destruct ev as [|ok| | |]; try done; [by destruct (Hna ok); left|..];
      case_match; by simplify_eq/=. }
  apply (IH w1 Hw1 Hrun2). intros ok Hok. apply (Hna ok). by right.
Qed.

(** ** Witnesses *)

(** One map job, one reduce job, two workers; the call of the reduce job fails
    when the other goroutine has left. *)
Definition demo_schedule : list event :=
  [MRegister "w1"; MRegister "w2"; WTake 0; WCall 0 (Answer true); MMapDone; WLeave 0; WLeave 1;
   WTake 0; WLeave 1; WCall 0 Unreachable].

Lemma master_stranded_witness :
  let s := run step (InitMapReduce 1 1) demo_schedule in
  runs step (InitMapReduce 1 1) demo_schedule = true /\ reduceJobs s = [0] /\ returned s = false /\
  goroutines (run step (InitMapReduce 1 1) (take 9 demo_schedule)) = [WReducing 0; WExit].
Proof.
  split; [vm_refl|]. split; [vm_refl|]. split; [|vm_refl].
  pose proof (exec_run step (InitMapReduce 1 1) (take 9 demo_schedule) ltac:(vm_refl)) as Hrun.
  refine (proj1 (proj2 (master_stranded 1 1 _ 0 (WReducing 0) Unreachable
    (run step (InitMapReduce 1 1) demo_schedule) [] (run step (InitMapReduce 1 1) demo_schedule) _ _ (exec_reachable step _ _ _ Hrun) _ _ _ _ _ _)));
    [lia|lia|vm_refl| |discriminate|vm_refl|reflexivity|reflexivity].
  intros [|[|w]] p' Hne; [done| |]; vm_compute; [by intros [= <-]|discriminate].
Defined.

Lemma master_jobs_witness :
  let s := run step (InitMapReduce 1 1) (take 8 demo_schedule) in
  jobs_of reduce_job (goroutines s) = [0] /\ mapped s ≡ₚ [0].
Proof.
  pose proof (exec_reachable step _ _ _
    (exec_run step (InitMapReduce 1 1) (take 8 demo_schedule) ltac:(vm_refl))) as Hr.
  split; [vm_refl|].
  refine (proj1 (proj2 (proj2 (master_jobs 1 1 _ _ _ Hr))) _); [lia|lia|].
  vm_compute. discriminate.
Defined.

Lemma master_terminates_witness :
  (length [WTake 0; WCall 0 (Answer true); MMapDone] <=
   measure (run step (InitMapReduce 1 1) [MRegister "w1"]))%nat.
Proof.
  pose proof (master_terminates [WTake 0; WCall 0 (Answer true); MMapDone]
    (run step (InitMapReduce 1 1) [MRegister "w1"]) _
    (exec_run step (run step (InitMapReduce 1 1) [MRegister "w1"])
      [WTake 0; WCall 0 (Answer true); MMapDone] ltac:(vm_refl)) eq_refl) as H.
  lia.
Defined.

Lemma master_completes_witness :
  can_move (run step (InitMapReduce 1 1) [MRegister "w1"; WTake 0; WCall 0 (Answer true)]).
Proof.
  apply (master_completes 1 1 [MRegister "w1"; WTake 0; WCall 0 (Answer true)]);
    [lia|lia|exact (exec_run step (InitMapReduce 1 1) [MRegister "w1"; WTake 0; WCall 0 (Answer true)] ltac:(vm_refl))|
     vm_refl|vm_compute; discriminate|vm_refl].
Defined.

Definition demo_worker : list worker_event :=
  [WTest; WAccept true; WCount; WTest; WDoJob; WAccept true; WCount; WTest].

Lemma worker_shutdown_witness :
  exists wk', worker_step (run worker_next (new_Worker 100) demo_worker) WShutdown =
    Some (wk', Some (occurrences WDoJob demo_worker + 1)).
Proof.
  destruct (worker_step (run worker_next (new_Worker 100) demo_worker) WShutdown) as [[wk' r]|] eqn:E;
    [|vm_compute in E; discriminate E].
  exists wk'. f_equal. f_equal.
  refine (proj1 (worker_shutdown 100 demo_worker _ wk' r eq_refl
    (exec_run worker_next (new_Worker 100) demo_worker ltac:(vm_refl)) _ eq_refl eq_refl E)).
  intros H. repeat (apply elem_of_cons in H as [H|H]; [discriminate H|]). by apply not_elem_of_nil in H.
Defined.
