(* ===== verification/MapReduceRun.v ===== *)
(** A distributed run (src/project-3/src/mapreduce: [Run] of mapreduce.go and
    [DoJob] of worker.go): the master of MapReduceMaster.v with worker processes
    that share one file system.

    A worker executes its job between the master's call and the end of the call.
    What its files hold in between is arbitrary: each write is an event of its own
    that may leave any text in any output file of the job.  A call ends served,
    and then the job's effect is there, or failed, and then whatever was written
    remains.  A call fails only when its worker has died or never accepted it
    (MapReduceCluster.v has the connections), so no worker lives on after its call
    failed. *)
From S2P Require Import Prelude GoText Utf8 Json MapReduce MapReduceSpec MapReduceSplit MapReduceMaster.

(** ** Jobs *)

Record DoJobArgs := mkDoJobArgs {
  File : string;
  Operation : string;
  JobNumber : Z;
  NumOtherPhase : Z
}.

(** The values of [JobType]. *)
Definition OpMap : string := "Map".
Definition OpReduce : string := "Reduce".

(** What [RunWorker] of the master sends for the job it took. *)
Definition job_args (file : string) (nMap nReduce : Z) (p : worker_pc) : option DoJobArgs :=
  match p with
  | WMapping j => Some (mkDoJobArgs file OpMap j nReduce)
  | WReducing j => Some (mkDoJobArgs file OpReduce j nMap)
  | _ => None
  end.

(** The files a job creates. *)
Definition outputs (arg : DoJobArgs) : list string :=
  if String.eqb (Operation arg) OpMap then
    ReduceName (File arg) (JobNumber arg) <$> seqZ 0 (NumOtherPhase arg)
  else if String.eqb (Operation arg) OpReduce then [MergeName (File arg) (JobNumber arg)]
  else [].

Record cluster := mkCluster { master : mr; disk : FS }.

Inductive run_event :=
| DMaster (ev : event)                    (* the master, no end of a call *)
| DWrite (w : nat) (name text : string)   (* a worker in its job writes *)
| DCall (w : nat) (served : bool).        (* the call of goroutine [w] ends *)

Definition is_call (ev : event) : bool := match ev with WCall _ _ => true | _ => false end.

Section Run.
Context (nMap nReduce : Z) (file : string).
Context (Map : string -> list KeyValue) (Reduce : string -> list string -> string).

(** [Worker.DoJob]; [None] is [log.Fatal] of the worker.  The flag is [res.OK]. *)
Definition DoJob (arg : DoJobArgs) (fs : FS) : option (FS * bool) :=
  fs ← (if String.eqb (Operation arg) OpMap then
          DoMap (JobNumber arg) (File arg) (NumOtherPhase arg) Map fs
        else if String.eqb (Operation arg) OpReduce then
          DoReduce (JobNumber arg) (File arg) (NumOtherPhase arg) Reduce fs
        else Some fs);
  Some (fs, true).

Definition current_args (s : cluster) (w : nat) : option DoJobArgs :=
  p ← goroutines (master s) !! w; job_args file nMap nReduce p.

Definition run_step (s : cluster) (ev : run_event) : option cluster :=
  match ev with
  | DMaster ev =>
      if is_call ev then None else m ← step (master s) ev; Some (mkCluster m (disk s))
  | DWrite w name text =>
      arg ← current_args s w;
      if bool_decide (name ∈ outputs arg) then Some (mkCluster (master s) (<[name := text]> (disk s)))
      else None
  | DCall w true =>
      arg ← current_args s w;
      '(fs, ok) ← DoJob arg (disk s);
      m ← step (master s) (WCall w (Answer ok));
      Some (mkCluster m fs)
  | DCall w false =>
      m ← step (master s) (WCall w Unreachable); Some (mkCluster m (disk s))
  end.

(** [MapReduce.Run] for a schedule of the master and the workers; [None] when
    [RunMaster] has not returned by its end. *)
Definition Run (fs : FS) (evs : list run_event) : option FS :=
  if (nMap <? 0) || (nReduce <? 0) then None
  else
    fs ← Split nMap file fs;
    s ← exec run_step (mkCluster (InitMapReduce nMap nReduce) fs) evs;
    if returned (master s) then Merge nReduce file (disk s) else None.
End Run.

(** ** What the moves of the master do to the finished jobs *)

Definition maps_done (m : mr) : list Z := mapDone m ++ MapReduceMaster.mapped m.
Definition reduces_done (m : mr) : list Z := reduceDone m ++ MapReduceMaster.reduced m.

Lemma quiet_step m ev m' :
  is_call ev = false -> step m ev = Some m' ->
  (forall j, j ∈ maps_done m' <-> j ∈ maps_done m) /\
  (forall j, j ∈ reduces_done m' <-> j ∈ reduces_done m).
Proof.
  unfold maps_done, reduces_done. intros Hc H.
  destruct ev as [w| | |w|w r|w]; simpl in H; unfold RunMaster, RunWorker in H; try done;
    repeat (case_match; simplify_eq/=); try done;
    repeat match goal with E : _ = _ :: _ |- _ => rewrite E end;
    split; intros j'; repeat rewrite ?elem_of_app, ?elem_of_cons, ?elem_of_nil; tauto.
Qed.

Lemma call_step m w r m' :
  step m (WCall w r) = Some m' ->
  exists j, (goroutines m !! w = Some (WMapping j) /\ reduces_done m' = reduces_done m /\
             forall x, x ∈ maps_done m' <-> (r = Answer true /\ x = j) \/ x ∈ maps_done m) \/
            (goroutines m !! w = Some (WReducing j) /\ maps_done m' = maps_done m /\
             forall x, x ∈ reduces_done m' <-> (r = Answer true /\ x = j) \/ x ∈ reduces_done m).
Proof.
  unfold maps_done, reduces_done. intros H. simpl in H. unfold RunWorker in H.
  destruct (goroutines m !! w) as [[|j| |j|]|]; try done; [|by case_match|];
    exists j; [left|right];
    destruct r as [|[]]; (destruct (send _ _ _) as [q|] eqn:E; [|done]); injection H as <-; simpl;
    (split; [done|]); (split; [done|]); intros x; apply send_Some in E as [_ ->];
    rewrite ?elem_of_app, ?list_elem_of_singleton; try (split; [by right|by intros [[? _]|?]]); tauto.
Qed.

(** A job that is being called is not done, and a reduce job starts after all maps. *)
Lemma called_job nMap nReduce m w p :
  0 < nMap < 2 ^ 62 -> nReduce < 2 ^ 62 -> reachable step (InitMapReduce nMap nReduce) m ->
  goroutines m !! w = Some p ->
  (forall j, map_job p = Some j -> 0 <= j < nMap /\ j ∉ maps_done m) /\
  (forall j, MapReduceMaster.reduce_job p = Some j ->
     0 <= j < nReduce /\ (j ∉ reduces_done m) /\ maps_done m ≡ₚ seqZ 0 nMap).
Proof.
  intros Hn Hr Hreach Hp. destruct (job_places nMap nReduce Hn Hr m Hreach) as (H1 & H2 & H3 & _).
  assert (forall f j, f p = Some j -> j ∈ jobs_of f (goroutines m)) as Hin.
  { intros f j Hf. apply list_elem_of_omap. exists p. split; [by eapply list_elem_of_lookup_2|done]. }
  assert (forall (l1 l2 l3 l4 : list Z) n j, l1 ++ l2 ++ l3 ++ l4 ≡ₚ seqZ 0 n -> j ∈ l2 ->
    0 <= j < n /\ j ∉ l3 ++ l4) as Hone.
  { intros l1 l2 l3 l4 n j Hperm Hj. split.
    - assert (j ∈ seqZ 0 n) as ?%elem_of_seqZ; [|lia]. rewrite <- Hperm, !elem_of_app. auto.
    - assert (NoDup (l1 ++ l2 ++ l3 ++ l4)) as (_ & _ & (_ & Hx & _)%NoDup_app)%NoDup_app
        by (rewrite Hperm; apply NoDup_seqZ). by apply Hx. }
  split; intros j Hj; apply Hin in Hj; [by eapply Hone|].
  split; [by eapply Hone|]. split; [by eapply Hone|]. unfold maps_done.
  assert (MapReduceMaster.mapped m ≡ₚ seqZ 0 nMap) as Hall.
  { apply H3. intros E. apply app_eq_nil in E as [E _]. rewrite E in Hj. by apply not_elem_of_nil in Hj. }
  apply Permutation_length in H1 as Hl. rewrite !length_app, (Permutation_length Hall) in Hl.
  by destruct (mapDone m); [|simpl in Hl; lia].
Qed.

Lemma done_range nMap nReduce m :
  0 < nMap < 2 ^ 62 -> nReduce < 2 ^ 62 ->
  reachable step (InitMapReduce nMap nReduce) m ->
  (forall i, i ∈ maps_done m -> 0 <= i < nMap) /\ (forall r, r ∈ reduces_done m -> 0 <= r < nReduce).
Proof.
  intros HnMap HnReduce Hreach. destruct (job_places nMap nReduce HnMap HnReduce m Hreach) as (H1 & H2 & _).
  split; intros i Hi; [assert (i ∈ seqZ 0 nMap) as ?%elem_of_seqZ; [rewrite <- H1|lia]
                      |assert (i ∈ seqZ 0 nReduce) as ?%elem_of_seqZ; [rewrite <- H2|lia]];
    rewrite !elem_of_app; apply elem_of_app in Hi; tauto.
Qed.

(** ** The invariant of a run *)

Section RunInv.
Context (nMap nReduce : Z) (file content : string).
Context (Map : string -> list KeyValue) (Reduce : string -> list string -> string).
Context (HnMap : 0 < nMap < 2 ^ 62) (HnReduce : 0 < nReduce < 2 ^ 32).
Context (chunk : Z -> string).

#[local] Abbreviation pairs := (pairs nMap content Map).
Context (Hpairs : concat ((fun i => Map (chunk i)) <$> seqZ 0 nMap) = pairs).
Context (Hok : forallb kv_ok pairs = true).

#[local] Abbreviation run_step := (run_step nMap nReduce file Map Reduce).

(** What a finished reduce job leaves. *)
Definition merged (r : Z) : string :=
  concat_all (Encode <$> MapReduceSpec.reduced Reduce (partition nReduce r pairs)).

Record run_inv (s : cluster) : Prop := {
  ri_master : reachable step (InitMapReduce nMap nReduce) (master s);
  ri_chunks : forall i, 0 <= i < nMap -> disk s !! MapName file i = Some (chunk i);
  ri_mapped : MapReduceSpec.mapped file nReduce Map chunk (maps_done (master s)) (disk s);
  ri_reduced : forall r, r ∈ reduces_done (master s) -> disk s !! MergeName file r = Some (merged r)
}.

(** Writing to the outputs of a job in progress disturbs no finished job. *)
Lemma output_fresh m w p arg name :
  reachable step (InitMapReduce nMap nReduce) m -> goroutines m !! w = Some p ->
  job_args file nMap nReduce p = Some arg -> name ∈ outputs arg ->
  (forall i, 0 <= i -> name <> MapName file i) /\
  (forall i r, i ∈ maps_done m -> 0 <= i -> 0 <= r -> name <> ReduceName file i r) /\
  (forall r, r ∈ reduces_done m -> 0 <= r -> name <> MergeName file r).
Proof using HnMap HnReduce.
  intros Hreach Hp Harg Hname.
  destruct (called_job nMap nReduce m w p HnMap ltac:(lia) Hreach Hp) as [Hcm Hcr].
  destruct p as [|j| |j|]; simpl in Harg; try done; injection Harg as <-; unfold outputs in Hname;
    simpl in Hname.
  - destruct (Hcm j eq_refl) as [Hj Hfresh].
    apply list_elem_of_fmap in Hname as (r & -> & Hr%elem_of_seqZ). split_and!.
    + intros i Hi. apply (tmp_name_ne file (TReduce j r) (TMap i)); simpl; [lia..|done].
    + intros i r' Hi Hi0 Hr'. apply (tmp_name_ne file (TReduce j r) (TReduce i r')); simpl; [lia..|].
      intros [= -> ->]. done.
    + intros r' _ Hr'. apply (tmp_name_ne file (TReduce j r) (TMerge r')); simpl; [lia..|done].
  - destruct (Hcr j eq_refl) as (Hj & Hfresh & _). apply list_elem_of_singleton in Hname as ->.
    split_and!.
    + intros i Hi. apply (tmp_name_ne file (TMerge j) (TMap i)); simpl; [lia..|done].
    + intros i r' _ Hi0 Hr'. apply (tmp_name_ne file (TMerge j) (TReduce i r')); simpl; [lia|lia|done].
    + intros r' Hr Hr'. apply (tmp_name_ne file (TMerge j) (TMerge r')); simpl; [lia..|].
      intros [= ->]. done.
Qed.

(** The files change only in the outputs of a job in progress, the jobs done stay. *)
Lemma disk_inv s w p arg m fs :
  run_inv s -> goroutines (master s) !! w = Some p -> job_args file nMap nReduce p = Some arg ->
  (forall name, name ∉ outputs arg -> fs !! name = disk s !! name) ->
  reachable step (InitMapReduce nMap nReduce) m ->
  (forall i, i ∈ maps_done m -> i ∈ maps_done (master s) \/
     forall r, 0 <= r < nReduce ->
       fs !! ReduceName file i r = Some (concat_all (Encode <$> partition nReduce r (Map (chunk i))))) ->
  (forall r, r ∈ reduces_done m -> r ∈ reduces_done (master s) \/ fs !! MergeName file r = Some (merged r)) ->
  run_inv (mkCluster m fs).
Proof using HnMap HnReduce.
  intros [Hr Hc Hm Hd] Hp Harg Hfs Hm' Hmaps Hreds.
  destruct (done_range nMap nReduce _ HnMap ltac:(lia) Hr) as [Nm Nr].
  assert (forall name, (forall n, n ∈ outputs arg -> n <> name) -> fs !! name = disk s !! name) as Hkeep
    by (intros name Hn; apply Hfs; intros Hin; by apply (Hn name)).
  pose proof (fun n => output_fresh _ w p arg n Hr Hp Harg) as Hout.
  constructor; simpl; [done|..].
  - intros i Hi. rewrite Hkeep; [auto|]. intros n Hn. apply (Hout n Hn). lia.
  - intros i r Hi Hri. destruct (Hmaps i Hi) as [Hold|Hnew]; [|auto]. rewrite Hkeep; [by apply Hm|].
    intros n Hn. pose proof (Nm i Hold). by apply (Hout n Hn); [|lia..].
  - intros r Hri. destruct (Hreds r Hri) as [Hold|Hnew]; [|auto]. rewrite Hkeep; [by apply Hd|].
    intros n Hn. pose proof (Nr r Hold). by apply (Hout n Hn); [|lia..].
Qed.

(** The job of a call can be done. *)
Lemma job_succeeds s w p arg :
  run_inv s -> goroutines (master s) !! w = Some p -> job_args file nMap nReduce p = Some arg ->
  exists fs, DoJob Map Reduce arg (disk s) = Some (fs, true).
Proof using HnMap HnReduce Hpairs Hok.
  intros Hv Hp Harg.
  destruct (called_job nMap nReduce _ w p HnMap ltac:(lia) (ri_master _ Hv) Hp) as [Hcm Hcr].
  destruct p as [|j| |j|]; simpl in Harg; try done; injection Harg as <-; unfold DoJob; simpl.
  - destruct (Hcm j eq_refl) as [Hj _].
    destruct (DoMap_spec j file nReduce Map (disk s) (chunk j)) as (fs' & -> & _);
      [lia|by apply (ri_chunks _ Hv)|]. by exists fs'.
  - destruct (Hcr j eq_refl) as (Hj & _ & Hall).
    rewrite (MapReduceSplit.reduce_job nMap nReduce file content Map Reduce HnReduce chunk); try done; [by eexists|].
    intros i r Hi Hr. apply (ri_mapped _ Hv); [by rewrite Hall|done].
Qed.

(** A served job leaves its files and no other change. *)
Lemma served_job s w p arg fs ok :
  run_inv s -> goroutines (master s) !! w = Some p -> job_args file nMap nReduce p = Some arg ->
  DoJob Map Reduce arg (disk s) = Some (fs, ok) ->
  ok = true /\ (forall name, name ∉ outputs arg -> fs !! name = disk s !! name) /\
  (forall j, p = WMapping j -> forall r, 0 <= r < nReduce ->
     fs !! ReduceName file j r = Some (concat_all (Encode <$> partition nReduce r (Map (chunk j))))) /\
  (forall j, p = WReducing j -> fs !! MergeName file j = Some (merged j)).
Proof using HnMap HnReduce Hpairs Hok.
  intros Hv Hp Harg Hjob.
  destruct (called_job nMap nReduce _ w p HnMap ltac:(lia) (ri_master _ Hv) Hp) as [Hcm Hcr].
  destruct p as [|j| |j|]; simpl in Harg; try done; injection Harg as <-;
    unfold DoJob, outputs in *; simpl in *.
  - destruct (Hcm j eq_refl) as [Hj _].
    destruct (DoMap_spec j file nReduce Map (disk s) (chunk j)) as (fs' & E & Hnew & Hold);
      [lia|by apply (ri_chunks _ Hv)|].
    rewrite E in Hjob. injection Hjob as <- <-. split_and!; [done| |by intros ? [= <-]|done].
    intros name Hn. apply Hold. intros r Hr ->. apply Hn, list_elem_of_fmap. exists r.
    split; [done|]. apply elem_of_seqZ. lia.
  - destruct (Hcr j eq_refl) as (Hj & _ & Hall).
    rewrite (MapReduceSplit.reduce_job nMap nReduce file content Map Reduce HnReduce chunk) in Hjob;
      [|done| |done|done].
    + injection Hjob as <- <-. split_and!; [done| |done|intros ? [= <-]; apply lookup_insert_eq].
      intros name Hn. apply lookup_insert_ne. intros <-. apply Hn. by left.
    + intros i r Hi Hr. apply (ri_mapped _ Hv); [by rewrite Hall|done].
Qed.

Lemma run_step_inv s ev s' : run_inv s -> run_step s ev = Some s' -> run_inv s'.
Proof using HnMap HnReduce Hpairs Hok.
  intros Hv. destruct ev as [ev|w name text|w served]; cbn [MapReduceRun.run_step].
  - destruct (is_call ev) eqn:Ec; [done|]. destruct (step (master s) ev) as [m|] eqn:Em; [|done].
    intros [= <-]. destruct (quiet_step _ _ _ Ec Em) as [H1 H2], Hv as [Hr Hc Hm Hd].
    constructor; simpl; [by eapply reachable_step|done|..].
    + intros i r Hi%H1. by apply Hm.
    + intros r Hi%H2. by apply Hd.
  - unfold current_args. destruct (goroutines (master s) !! w) as [p|] eqn:Hp; [|done]. simpl.
    destruct (job_args file nMap nReduce p) as [arg|] eqn:Ha; [|done]. simpl.
    case_bool_decide as Hn; [|done]. intros [= <-]. eapply (disk_inv s w p arg); try done.
    + intros n Hout. apply lookup_insert_ne. by intros ->.
    + apply Hv.
    + auto.
    + auto.
  - destruct served.
    + unfold current_args. destruct (goroutines (master s) !! w) as [p|] eqn:Hp; [|done]. simpl.
      destruct (job_args file nMap nReduce p) as [arg|] eqn:Ha; [|done]. simpl.
      destruct (DoJob Map Reduce arg (disk s)) as [[fs ok]|] eqn:Ej; [|done]. simpl.
      change (RunWorker (master s) w (WCall w (Answer ok))) with (step (master s) (WCall w (Answer ok))).
      destruct (step (master s) (WCall w (Answer ok))) as [m|] eqn:Em; [|done]. intros [= <-].
      destruct (served_job s w p arg fs ok Hv Hp Ha Ej) as (-> & Hkeep & Hmap & Hred).
      eapply (disk_inv s w p arg); try done; [eapply reachable_step; [apply Hv|done]|..];
        destruct (call_step _ _ _ _ Em) as (j & [(Hj & Hsame & Hdone)|(Hj & Hsame & Hdone)]);
        rewrite Hp in Hj; injection Hj as ->; intros x; rewrite ?Hsame; auto;
        intros [[_ ->]|?]%Hdone; auto.
    + destruct (step (master s) (WCall w Unreachable)) as [m|] eqn:Em; [|done]. intros [= <-].
      destruct Hv as [Hr Hc Hm Hd].
      destruct (call_step _ _ _ _ Em) as (j & [(_ & Hsame & Hdone)|(_ & Hsame & Hdone)]);
        (constructor; simpl; [by eapply reachable_step|done|..]); rewrite ?Hsame; try done.
      * intros i r [[? _]|Hi]%Hdone; [done|]. by apply Hm.
      * intros r [[? _]|Hi]%Hdone; [done|]. by apply Hd.
Qed.

Lemma exec_run_inv evs s s' : run_inv s -> exec run_step s evs = Some s' -> run_inv s'.
Proof using HnMap HnReduce Hpairs Hok.
  intros Hv H. apply (reachable_inv run_step run_inv s Hv); [|by eapply exec_reachable].
  intros s1 s2 ev. apply run_step_inv.
Qed.
End RunInv.

(** A distributed run computes what the sequential run computes.  For every
    schedule of the master, of its workers and of their writes, with any number of
    workers and of failed calls: when [RunMaster] has returned, [Merge] succeeds,
    and the output file is the specified report, the same as the one of
    [RunSingle]. *)
Theorem distributed_correct nMap nReduce file content fs fs1 Map Reduce evs s :
  0 < nMap < 2 ^ 62 -> 0 < nReduce < 2 ^ 32 ->
  Z.of_nat (String.length content) < 2 ^ 61 -> fs !! file = Some content ->
  Z.of_nat (length (splits nMap content)) = nMap ->
  forallb kv_ok (pairs nMap content Map) = true ->
  (forall k vs, utf8_ok (Reduce k vs) = true) ->
  Split nMap file fs = Some fs1 ->
  exec (run_step nMap nReduce file Map Reduce) (mkCluster (InitMapReduce nMap nReduce) fs1) evs = Some s ->
  returned (master s) = true ->
  exists fs2 fs3, Run nMap nReduce file Map Reduce fs evs = Some fs2 /\
    RunSingle nMap nReduce file Map Reduce fs = Some fs3 /\
    fs2 !! OutName file = Some (report Reduce (pairs nMap content Map)) /\
    fs2 !! OutName file = fs3 !! OutName file.
Proof.
  intros Hn Hr Hsize Hfile Hlen Hok Hred Hsplit Hexec Hret.
  destruct (run_single_result nMap nReduce file content fs Map Reduce) as (fs3 & H3 & Hout3); [done..|].
  destruct (split_chunks nMap file content fs fs1 Map Hn Hsize Hfile Hlen Hsplit) as (chunk & Hc & Hp).
  assert (run_inv nMap nReduce file content Map Reduce chunk s) as [Hm _ _ Hd].
  { eapply exec_run_inv; [done..| |exact Hexec]. constructor; simpl; [constructor|done|..].
    - by intros i r ?%not_elem_of_nil.
    - by intros r ?%not_elem_of_nil. }
  destruct (merge_report nMap nReduce file content Map Reduce Hr (disk s)) as (fs2 & H2 & Hout2);
    [|done|done|].
  { intros r Hri. apply Hd, elem_of_app. right.
    destruct (job_places nMap nReduce Hn ltac:(lia) _ Hm) as (_ & _ & _ & Hall).
    rewrite (Hall Hret) by lia. apply elem_of_seqZ. lia. }
  exists fs2, fs3. split_and!; [|done|done|congruence]. unfold Run.
  replace ((nMap <? 0) || (nReduce <? 0)) with false by lia. rewrite Hsplit. cbn [mbind option_bind].
  rewrite Hexec. cbn [mbind option_bind]. by rewrite Hret.
Qed.

(** ** Witnesses *)

(** Two workers; the first one dies in the middle of a map job, and later in the
    middle of a reduce job; the second one does everything. *)
Definition demo_jobs : list run_event :=
  [DMaster (MRegister "w1"); DMaster (MRegister "w2"); DMaster (WTake 0); DMaster (WTake 1);
   DWrite 0 (ReduceName "in" 0 0) "garbage"; DCall 1 true; DCall 0 false; DMaster (WTake 1);
   DMaster MMapDone; DCall 1 true; DMaster MMapDone; DMaster (WLeave 1); DMaster (WTake 1);
   DWrite 1 (MergeName "in" 0) "half"; DCall 1 true; DMaster MReduceDone; DMaster (WTake 1);
   DCall 1 true; DMaster MReduceDone].

Definition demo_split : FS := default ∅ (Split 2 "in" demo_fs).

Lemma distributed_correct_witness :
  exists fs', Run 2 2 "in" demo_map demo_constant demo_fs demo_jobs = Some fs' /\
    fs' !! OutName "in" = Some ("one: x" ++ newline ++ "three: x" ++ newline ++ "two: x" ++ newline)%string.
Proof.
  set (s0 := mkCluster (InitMapReduce 2 2) demo_split).
  pose proof (exec_run (run_step 2 2 "in" demo_map demo_constant) s0 demo_jobs ltac:(vm_refl)) as Hexec.
  destruct (distributed_correct 2 2 "in" demo_input demo_fs demo_split demo_map demo_constant demo_jobs
    _ ltac:(lia) ltac:(lia) ltac:(vm_refl) ltac:(vm_refl) ltac:(vm_refl) ltac:(vm_refl)
    (fun _ _ => eq_refl) ltac:(vm_refl) Hexec ltac:(vm_refl)) as (fs' & _ & H & _ & Ho & _).
  exists fs'. split; [exact H|]. rewrite Ho. vm_refl.
Defined.
