(* ===== verification/MapReduceCluster.v ===== *)
(** A distributed run with its connections (src/project-3/src/mapreduce: the
    registration server and the whole of [Run] in mapreduce.go, [call] of common.go,
    the worker processes of worker.go).

    MapReduceRun.v lets the schedule choose how each call ends.  Here a call goes
    over a Unix socket: it is dialled, waits in the queue of the listener, is accepted
    and served, and it fails only when nobody listens (any more) or the process has
    died.  The loop of the worker and its two counters are those of
    MapReduceMaster.v; a worker starts with registering.  One process ever runs at an
    address. *)
From S2P Require Import Prelude GoText Utf8 Json MapReduce MapReduceSpec MapReduceSplit MapReduceMaster MapReduceRun.

(** ** State *)

(** Where a [call] is. *)
Inductive rpc_pc :=
| CDial                  (* at [rpc.Dial] *)
| CWaiting               (* connected; the listener has not accepted *)
| CServing.              (* accepted; a goroutine of the server runs the method *)

#[export] Instance rpc_pc_eq_dec : EqDecision rpc_pc.
Proof. solve_decision. Defined.

(** Where [RunWorker] of a worker is. *)
Inductive proc_pc :=
| PDial                  (* [Register]: dialling the master *)
| PWaiting               (* connected; the registration server has not accepted *)
| PServed                (* [MapReduce.Register] sends on [registerChannel] *)
| PReplied               (* the reply is under way *)
| PLoop.                 (* in the loop *)

#[export] Instance proc_pc_eq_dec : EqDecision proc_pc.
Proof. solve_decision. Defined.

Record process := mkProcess { ppc : proc_pc; wk : Worker; up : bool }.

(** The goroutine of [StartRegistrationServer]. *)
Inductive acceptor_pc := ATest | AAccept | ADone.

#[export] Instance acceptor_pc_eq_dec : EqDecision acceptor_pc.
Proof. solve_decision. Defined.

(** Where [MapReduce.Run] is. *)
Inductive run_pc :=
| RSplit
| RMaster
| RKill (todo : list string)      (* [KillWorkers]; the head is being called *)
| RCleanup (c : rpc_pc)           (* [CleanupRegistration] *)
| RDone.                          (* at the send on [DoneChannel] *)

#[export] Instance run_pc_eq_dec : EqDecision run_pc.
Proof. solve_decision. Defined.

Record deployment := mkDeployment {
  shared : cluster;
  addrs : list string;                    (* the argument of each goroutine [RunWorker] *)
  calls : gmap (option nat) rpc_pc;       (* of a goroutine; [None] of [KillWorkers] *)
  procs : gmap string process;
  alive : bool;
  l_open : bool;                          (* is the listener [mr.l] open? *)
  acceptor : acceptor_pc;
  phase : run_pc;
  stats : list Z
}.

(** [MakeMapReduce] *)
Definition MakeMapReduce (nmap nreduce : Z) (fs : FS) : deployment :=
  mkDeployment (mkCluster (InitMapReduce nmap nreduce) fs) [] ∅ ∅ true true ATest RSplit [].

Definition set_shared (d : deployment) (s : cluster) : deployment :=
  mkDeployment s (addrs d) (calls d) (procs d) (alive d) (l_open d) (acceptor d) (phase d) (stats d).
Definition set_calls (d : deployment) (m : gmap (option nat) rpc_pc) : deployment :=
  mkDeployment (shared d) (addrs d) m (procs d) (alive d) (l_open d) (acceptor d) (phase d) (stats d).
Definition set_proc (d : deployment) (a : string) (p : process) : deployment :=
  mkDeployment (shared d) (addrs d) (calls d) (<[a := p]> (procs d)) (alive d) (l_open d) (acceptor d)
    (phase d) (stats d).
Definition set_ppc (d : deployment) (a : string) (p : process) (pc : proc_pc) : deployment :=
  set_proc d a (mkProcess pc (wk p) (up p)).
Definition set_acceptor (d : deployment) (x : acceptor_pc) : deployment :=
  mkDeployment (shared d) (addrs d) (calls d) (procs d) (alive d) (l_open d) x (phase d) (stats d).
Definition set_phase (d : deployment) (x : run_pc) : deployment :=
  mkDeployment (shared d) (addrs d) (calls d) (procs d) (alive d) (l_open d) (acceptor d) x (stats d).

(** Does the process at [a] have its listener open? *)
Definition listening (d : deployment) (a : string) : bool :=
  match procs d !! a with
  | Some p => up p && negb (bool_decide (loop (wk p) = Done))
  | None => false
  end.

Definition running (d : deployment) (a : string) : bool :=
  match procs d !! a with Some p => up p | None => false end.

(** Whom a call calls. *)
Definition target (d : deployment) (k : option nat) : option string :=
  match k with
  | Some w => addrs d !! w
  | None => match phase d with RKill (a :: _) => Some a | _ => None end
  end.

(** ** The worker processes *)

Definition in_loop (ev : worker_event) : bool :=
  match ev with WTest | WAccept _ | WCount => true | _ => false end.

(** A move of [RunWorker] of a worker, with the reply of a served [Shutdown]. *)
Definition proc_step (d : deployment) (a : string) (ev : worker_event) : option (deployment * option Z) :=
  p ← procs d !! a;
  if up p && (negb (in_loop ev) || bool_decide (ppc p = PLoop)) then
    '(w, r) ← worker_step (wk p) ev;
    Some (set_proc d a (mkProcess (ppc p) w (up p)), r)
  else None.

Inductive devent :=
| XStart (a : string) (n : Z)           (* a worker starts, with [nRPC] *)
| XCrash (a : string)
| XLoop (a : string) (ev : worker_event)
| XRegDial (a : string)
| XRegReset (a : string)                (* the listener closed before it accepted *)
| XRegAccept (a : string)
| XRegSend (a : string)                 (* the rendezvous on [registerChannel] *)
| XRegReply (a : string)
| XAlive                                (* the condition of the registration server *)
| XAcceptFails
| XMaster (ev : event)                  (* [RunMaster] and its goroutines, no call *)
| XDial (k : option nat)
| XAccept (a : string) (k : option nat)
| XWrite (w : nat) (name text : string) (* a worker in its job writes *)
| XServe (k : option nat)               (* the method and its reply *)
| XBreak (k : option nat)               (* [call] returns false *)
| XSplit
| XReturn (order : list string)         (* [RunMaster] returns [KillWorkers()] *)
| XKill                                 (* the next worker is called *)
| XMerge
| XCleanDial
| XCleanAccept
| XCleanServe.

Section Cluster.
Context (nMap nReduce : Z) (file : string).
Context (Map : string -> list KeyValue) (Reduce : string -> list string -> string).

(** A move of the master with the shared files. *)
Definition share (d : deployment) (ev : run_event) : option deployment :=
  s ← run_step nMap nReduce file Map Reduce (shared d) ev; Some (set_shared d s).

(** ** Registration *)

(** The worker's side, with [call(master, MapReduce.Register, ...)]: whether the call
    succeeds is printed, and [RunWorker] goes on. *)
Definition Register (d : deployment) (a : string) (ev : devent) : option deployment :=
  p ← procs d !! a;
  match ev, ppc p with
  | XRegDial _, PDial =>
      if up p then Some (set_ppc d a p (if l_open d then PWaiting else PLoop)) else None
  | XRegReset _, PWaiting => if up p && negb (l_open d) then Some (set_ppc d a p PLoop) else None
  | XRegReply _, PReplied => if up p then Some (set_ppc d a p PLoop) else None
  | _, _ => None
  end.

(** The master's side.  What a worker sent before it died is served. *)
Definition StartRegistrationServer (d : deployment) (ev : devent) : option deployment :=
  match ev, acceptor d with
  | XAlive, ATest => Some (set_acceptor d (if alive d then AAccept else ADone))
  | XAcceptFails, AAccept => if l_open d then None else Some (set_acceptor d ADone)
  | XRegAccept a, AAccept =>
      p ← procs d !! a;
      if l_open d && bool_decide (ppc p = PWaiting) then Some (set_ppc (set_acceptor d ATest) a p PServed)
      else None
  | _, _ => None
  end.

(** [MapReduce.Register] meets [RunMaster] at the channel. *)
Definition register (d : deployment) (a : string) : option deployment :=
  p ← procs d !! a;
  if bool_decide (phase d = RMaster) && bool_decide (ppc p = PServed) then
    d ← share d (DMaster (MRegister a));
    Some (mkDeployment (shared d) (addrs d ++ [a]) (calls d) (<[a := mkProcess PReplied (wk p) (up p)]> (procs d))
            (alive d) (l_open d) (acceptor d) (phase d) (stats d))
  else None.

(** ** The master and its calls *)

Definition master_move (d : deployment) (ev : event) : option deployment :=
  match ev with
  | WTake w => d ← share d (DMaster ev); Some (set_calls d (<[Some w := CDial]> (calls d)))
  | WLeave _ => share d (DMaster ev)
  | MMapDone | MReduceDone => if bool_decide (phase d = RMaster) then share d (DMaster ev) else None
  | _ => None
  end.

(** The call is over. *)
Definition hang_up (d : deployment) (k : option nat) : deployment := set_calls d (delete k (calls d)).

(** [KillWorkers] goes on with the next worker. *)
Definition next_kill (d : deployment) (reply : option Z) : deployment :=
  mkDeployment (shared d) (addrs d) (calls d) (procs d) (alive d) (l_open d) (acceptor d)
    (match phase d with RKill (_ :: todo) => RKill todo | x => x end) (stats d ++ option_list reply).

(** [call] returns false. *)
Definition call_failed (d : deployment) (k : option nat) : option deployment :=
  match k with
  | Some w => d ← share d (DCall w false); Some (hang_up d k)
  | None => Some (next_kill (hang_up d k) None)
  end.

Definition call_move (d : deployment) (k : option nat) (ev : devent) : option deployment :=
  c ← calls d !! k;
  a ← target d k;
  match ev, c with
  | XDial _, CDial => if listening d a then Some (set_calls d (<[k := CWaiting]> (calls d))) else None
  | XAccept b _, CWaiting =>
      if String.eqb a b then
        '(d, _) ← proc_step d a (WAccept true); Some (set_calls d (<[k := CServing]> (calls d)))
      else None
  | XServe _, CServing =>
      match k with
      | Some w =>
          '(d, _) ← proc_step d a WDoJob;
          d ← share d (DCall w true);
          Some (hang_up d k)
      | None => '(d, r) ← proc_step d a WShutdown; Some (next_kill (hang_up d k) r)
      end
  | XBreak _, _ =>
      if (match c with CServing => running d a | _ => listening d a end) then None else call_failed d k
  | XWrite w name text, CServing =>
      if running d a then share d (DWrite w name text) else None
  | _, _ => None
  end.

(** ** Run *)

Definition CleanupRegistration (d : deployment) (ev : devent) : option deployment :=
  match ev, phase d with
  | XCleanDial, RCleanup CDial => Some (set_phase d (if l_open d then RCleanup CWaiting else RDone))
  | XCleanAccept, RCleanup CWaiting =>
      if l_open d && bool_decide (acceptor d = AAccept)
      then Some (set_phase (set_acceptor d ATest) (RCleanup CServing)) else None
  | XCleanServe, RCleanup CServing =>   (* [MapReduce.Shutdown] *)
      Some (mkDeployment (shared d) (addrs d) (calls d) (procs d) false false (acceptor d) RDone (stats d))
  | _, _ => None
  end.

Definition run_move (d : deployment) (ev : devent) : option deployment :=
  match ev, phase d with
  | XSplit, RSplit =>
      fs ← Split nMap file (disk (shared d));
      Some (set_phase (set_shared d (mkCluster (master (shared d)) fs)) RMaster)
  | XReturn order, RMaster =>
      if returned (master (shared d)) && bool_decide (order ≡ₚ Workers (master (shared d)))
      then Some (set_phase d (RKill order)) else None
  | XKill, RKill (_ :: _) =>
      match calls d !! None with
      | None => Some (set_calls d (<[None := CDial]> (calls d)))
      | Some _ => None
      end
  | XMerge, RKill [] =>
      fs ← Merge nReduce file (disk (shared d));
      Some (set_phase (set_shared d (mkCluster (master (shared d)) fs)) (RCleanup CDial))
  | _, _ => CleanupRegistration d ev
  end.

(** One move of the cluster.  The process of the master stays alive after [DoneChannel];
    that [main] of wc.go then ends it, with its connections, is not a move. *)
Definition dstep (d : deployment) (ev : devent) : option deployment :=
  match ev with
  | XStart a n =>
      match procs d !! a with
      | None => Some (set_proc d a (mkProcess PDial (new_Worker n) true))
      | Some _ => None
      end
  | XCrash a => p ← procs d !! a; Some (set_proc d a (mkProcess (ppc p) (wk p) false))
  | XLoop a ev =>
      match ev with
      | WTest | WCount | WAccept false => '(d, _) ← proc_step d a ev; Some d
      | _ => None
      end
  | XRegDial a | XRegReset a | XRegReply a => Register d a ev
  | XAlive | XAcceptFails | XRegAccept _ => StartRegistrationServer d ev
  | XRegSend a => register d a
  | XMaster ev => master_move d ev
  | XDial k | XAccept _ k | XServe k | XBreak k => call_move d k ev
  | XWrite w _ _ => call_move d (Some w) ev
  | _ => run_move d ev
  end.
End Cluster.

(** ** What a move does to the master and the files *)

Section Moves.
Context (nMap nReduce : Z) (file : string).
Context (Map : string -> list KeyValue) (Reduce : string -> list string -> string).

#[local] Abbreviation run_step := (run_step nMap nReduce file Map Reduce).
#[local] Abbreviation dstep := (dstep nMap nReduce file Map Reduce).
#[local] Abbreviation share := (share nMap nReduce file Map Reduce).

(** Either the master and the files rest, or they make one move of MapReduceRun.v. *)
Definition registers (ev : run_event) : bool :=
  match ev with DMaster (MRegister _) => true | _ => false end.

Definition moved (d d' : deployment) : Prop :=
  shared d' = shared d \/
  exists ev, (registers ev = true -> phase d = RMaster) /\ run_step (shared d) ev = Some (shared d').

(** How [Run] goes on. *)
Inductive advance (d d' : deployment) : Prop :=
| adv_same : moved d d' -> phase d' = phase d -> advance d d'
| adv_split fs : phase d = RSplit -> phase d' = RMaster -> Split nMap file (disk (shared d)) = Some fs ->
    shared d' = mkCluster (master (shared d)) fs -> advance d d'
| adv_return order : phase d = RMaster -> phase d' = RKill order -> shared d' = shared d ->
    returned (master (shared d)) = true -> advance d d'
| adv_kill a todo : phase d = RKill (a :: todo) -> phase d' = RKill todo -> shared d' = shared d -> advance d d'
| adv_merge fs : phase d = RKill [] -> phase d' = RCleanup CDial -> Merge nReduce file (disk (shared d)) = Some fs ->
    shared d' = mkCluster (master (shared d)) fs -> advance d d'
| adv_cleanup c : phase d = RCleanup c -> (exists c', phase d' = RCleanup c') \/ phase d' = RDone ->
    shared d' = shared d -> advance d d'.

Lemma share_moved d ev d' : share d ev = Some d' -> (registers ev = true -> phase d = RMaster) ->
  moved d d' /\ phase d' = phase d.
Proof.
  unfold share. destruct (run_step _ _) as [s|] eqn:E; simpl; [|done]. intros [= <-] Hr.
  split; [right; by exists ev|done].
Qed.

Lemma proc_step_Some d a ev d' r : proc_step d a ev = Some (d', r) ->
  exists p w, procs d !! a = Some p /\ up p = true /\ (in_loop ev = true -> ppc p = PLoop) /\
    worker_step (wk p) ev = Some (w, r) /\ d' = set_proc d a (mkProcess (ppc p) w (up p)).
Proof.
  unfold proc_step. destruct (procs d !! a) as [p|] eqn:Ep; simpl; [|done].
  destruct (up p) eqn:Eu; simpl; [|done]. destruct (_ || _) eqn:El; [|done].
  destruct (worker_step _ _) as [[w r']|] eqn:Ew; simpl; [|done]. intros [= <- <-].
  exists p, w. split_and!; try done; [|by rewrite Eu]. intros Hl. rewrite Hl in El. simpl in El.
  by apply bool_decide_eq_true in El.
Qed.

Lemma call_failed_advance d k a d' :
  target d k = Some a -> call_failed nMap nReduce file Map Reduce d k = Some d' -> advance d d'.
Proof.
  intros Ht. destruct k as [w|]; simpl.
  - destruct (share _ _) as [d2|] eqn:E2; simpl; [|done]. intros [= <-].
    apply share_moved in E2 as [H1 H2]; [by apply adv_same|done].
  - simpl in Ht. destruct (phase d) as [| |[|b todo]| |] eqn:Eph; try done. intros [= <-].
    eapply adv_kill; [done| |done]. simpl. by rewrite Eph.
Qed.

Lemma call_move_advance d k ev d' : call_move nMap nReduce file Map Reduce d k ev = Some d' -> advance d d'.
Proof.
  unfold call_move. destruct (calls d !! k) as [c|]; simpl; [|done].
  destruct (target d k) as [a|] eqn:Et; simpl; [|done].
  destruct ev, c; try done.
  - destruct (listening d a); [|done]. intros [= <-]. by apply adv_same; [left|].
  - destruct (String.eqb _ _); [|done]. destruct (proc_step _ _ _) as [[d1 r]|] eqn:E; simpl; [|done].
    intros [= <-]. apply proc_step_Some in E as (p & w & _ & _ & _ & _ & ->). by apply adv_same; [left|].
  - destruct (running d a); [|done]. intros [H1 H2]%share_moved; [by apply adv_same|done].
  - destruct k as [w|].
    + destruct (proc_step _ _ _) as [[d1 r]|] eqn:E; simpl; [|done].
      apply proc_step_Some in E as (p & wk' & _ & _ & _ & _ & ->).
      destruct (share _ _) as [d2|] eqn:E2; simpl; [|done]. intros [= <-].
      apply share_moved in E2 as [H1 H2]; [by apply adv_same|done].
    + simpl in Et. destruct (phase d) as [| |[|b todo]| |] eqn:Eph; try done. injection Et as ->.
      destruct (proc_step _ _ _) as [[d1 r]|] eqn:E; simpl; [|done]. intros [= <-].
      apply proc_step_Some in E as (p & w & _ & _ & _ & _ & ->).
      eapply adv_kill; [done| |done]. simpl. by rewrite Eph.
  - by destruct (listening d a); [|apply (call_failed_advance _ _ a)].
  - by destruct (listening d a); [|apply (call_failed_advance _ _ a)].
  - by destruct (running d a); [|apply (call_failed_advance _ _ a)].
Qed.

Lemma dstep_advance d ev d' : dstep d ev = Some d' -> advance d d'.
Proof.
  destruct ev as [a n|a|a ev|a|a|a|a|a| | |ev|k|a k|w name text|k|k| |order| | | | |];
    cbn [MapReduceCluster.dstep]; try apply call_move_advance.
  - destruct (procs d !! a); [done|]. intros [= <-]. by apply adv_same; [left|].
  - destruct (procs d !! a); simpl; [|done]. intros [= <-]. by apply adv_same; [left|].
  - assert ((exists r, proc_step d a ev = Some (d', r)) -> advance d d') as H.
    { intros (r & (p & w & _ & _ & _ & _ & ->)%proc_step_Some). by apply adv_same; [left|]. }
    destruct ev as [|[]| | |]; try done; destruct (proc_step _ _ _) as [[d1 r]|] eqn:E; simpl; try done;
      intros [= <-]; eauto.
  - unfold Register. destruct (procs d !! a) as [p|]; simpl; [|done]. destruct (ppc p); try done.
    destruct (up p); [|done]. intros [= <-]. by apply adv_same; [left|].
  - unfold Register. destruct (procs d !! a) as [p|]; simpl; [|done]. destruct (ppc p); try done.
    destruct (up p && _); [|done]. intros [= <-]. by apply adv_same; [left|].
  - simpl. destruct (acceptor d); try done. destruct (procs d !! a); simpl; [|done].
    destruct (_ && _); [|done]. intros [= <-]. by apply adv_same; [left|].
  - unfold register. destruct (procs d !! a); simpl; [|done]. destruct (_ && _) eqn:E; [|done].
    apply andb_prop in E as [E%bool_decide_eq_true _].
    destruct (share _ _) as [d2|] eqn:E2; simpl; [|done]. intros [= <-].
    apply share_moved in E2 as [H1 H2]; [by apply adv_same|done].
  - unfold Register. destruct (procs d !! a) as [p|]; simpl; [|done]. destruct (ppc p); try done.
    destruct (up p); [|done]. intros [= <-]. by apply adv_same; [left|].
  - simpl. destruct (acceptor d); try done. intros [= <-]. by apply adv_same; [left|].
  - simpl. destruct (acceptor d); try done. destruct (l_open d); [done|]. intros [= <-]. by apply adv_same; [left|].
  - assert (forall d1, registers (DMaster ev) = false -> share d (DMaster ev) = Some d1 ->
      shared d' = shared d1 -> phase d' = phase d1 -> advance d d') as H.
    { intros d1 Hr [H1 H2]%share_moved E1 E2; [|by rewrite Hr].
      apply adv_same; [|congruence]. unfold moved. by rewrite E1. }
    destruct ev; simpl; try done.
    + destruct (bool_decide _); [|done]. intros E. by eapply H.
    + destruct (bool_decide _); [|done]. intros E. by eapply H.
    + destruct (share _ _) as [d1|] eqn:E; simpl; [|done]. intros [= <-]. by eapply H.
    + intros E. by eapply H.
  - simpl. destruct (phase d) eqn:Eph; try done. destruct (Split _ _ _) as [fs|] eqn:E; simpl; [|done].
    intros [= <-]. by eapply adv_split.
  - simpl. destruct (phase d) eqn:Eph; try done. destruct (_ && _) eqn:E; [|done].
    apply andb_prop in E as [E _]. intros [= <-]. by eapply adv_return.
  - simpl. destruct (phase d) as [| |[|b todo]|c|] eqn:Eph; try done.
    destruct (calls d !! None); [done|]. intros [= <-]. apply adv_same; [by left|]. simpl. congruence.
  - simpl. destruct (phase d) as [| |[|b todo]|c|] eqn:Eph; try done.
    destruct (Merge _ _ _) as [fs|] eqn:E; simpl; [|done]. intros [= <-]. by eapply adv_merge.
  - simpl. destruct (phase d) as [| | |[]|] eqn:Eph; try done. intros [= <-].
    eapply adv_cleanup; [done| |done]. simpl. destruct (l_open d); eauto.
  - simpl. destruct (phase d) as [| | |[]|] eqn:Eph; try done. destruct (_ && _); [|done]. intros [= <-].
    eapply adv_cleanup; [done| |done]. simpl. eauto.
  - simpl. destruct (phase d) as [| | |[]|] eqn:Eph; try done. intros [= <-].
    eapply adv_cleanup; [done| |done]. by right.
Qed.

(** ** When [RunMaster] has returned *)

Lemma returned_idle m :
  0 < nMap < 2 ^ 62 -> 0 < nReduce < 2 ^ 62 -> reachable step (InitMapReduce nMap nReduce) m ->
  returned m = true -> jobs_of map_job (goroutines m) = [] /\ jobs_of reduce_job (goroutines m) = [].
Proof.
  intros Hm Hr Hreach Hret.
  destruct (job_places nMap nReduce Hm ltac:(lia) m Hreach) as (H1 & H2 & H3 & H4).
  specialize (H4 Hret ltac:(lia)). assert (0 < Z.of_nat (length (reduced m))) as Hlen
    by (rewrite (Permutation_length H4), length_seqZ; lia).
  assert (mapped m ≡ₚ seqZ 0 nMap) as H5.
  { apply H3. intros [_ [_ E]%app_eq_nil]%app_eq_nil. by rewrite E in Hlen. }
  apply Permutation_length in H1, H2, H4, H5. rewrite !length_app in H1, H2.
  split; apply length_zero_iff_nil; lia.
Qed.

(** Then no call is in progress, and nothing changes any more. *)
Lemma returned_quiet s ev s' :
  0 < nMap < 2 ^ 62 -> 0 < nReduce < 2 ^ 62 -> reachable step (InitMapReduce nMap nReduce) (master s) ->
  returned (master s) = true -> run_step s ev = Some s' ->
  returned (master s') = true /\ disk s' = disk s.
Proof.
  intros Hm Hr Hreach Hret Hstep.
  destruct (returned_idle _ Hm Hr Hreach Hret) as [Hmap Hred].
  assert (forall w j, goroutines (master s) !! w = Some (WMapping j) -> False) as Nm.
  { intros w j Hw. by eapply (jobs_of_elem map_job _ w) in Hw. }
  assert (forall w j, goroutines (master s) !! w = Some (WReducing j) -> False) as Nr.
  { intros w j Hw. by eapply (jobs_of_elem reduce_job _ w) in Hw. }
  assert (forall w, current_args nMap nReduce file s w = None) as Hargs.
  { intros w. unfold current_args. destruct (goroutines (master s) !! w) as [[]|] eqn:E; try done; exfalso; eauto. }
  destruct ev as [ev|w name text|w []]; cbn [MapReduceRun.run_step] in Hstep; rewrite ?Hargs in Hstep; try done.
  - destruct (is_call ev) eqn:Ec; [done|]. destruct (step _ _) as [m|] eqn:E; simpl in Hstep; [|done].
    injection Hstep as <-. split; [|done]. simpl.
    destruct ev as [| | |w| |w]; simpl in E; unfold RunMaster in E; rewrite ?Hret in E; try done;
      unfold RunWorker in E; repeat (case_match; simplify_eq/=); done.
  - destruct (step _ _) as [m|] eqn:E; simpl in Hstep; [|done]. exfalso.
    destruct (call_step _ _ _ _ E) as (j & [(Hw & _)|(Hw & _)]); eauto.
Qed.

Lemma run_step_master s ev s' : run_step s ev = Some s' ->
  reachable step (InitMapReduce nMap nReduce) (master s) ->
  reachable step (InitMapReduce nMap nReduce) (master s').
Proof.
  intros Hstep Hr.
  destruct ev as [ev|w name text|w []]; cbn [MapReduceRun.run_step] in Hstep.
  - destruct (is_call ev); [done|]. destruct (step _ _) as [m|] eqn:E; simpl in Hstep; [|done].
    injection Hstep as <-. by eapply reachable_step.
  - destruct (current_args _ _ _ _ _); simpl in Hstep; [|done]. destruct (bool_decide _); [|done].
    by injection Hstep as <-.
  - destruct (current_args _ _ _ _ _); simpl in Hstep; [|done].
    destruct (DoJob _ _ _ _) as [[fs ok]|]; [|done]. simpl in Hstep.
    change (RunWorker (master s) w (WCall w (Answer ok))) with (step (master s) (WCall w (Answer ok))) in Hstep.
    destruct (step _ _) as [m|] eqn:E; [|done].
    injection Hstep as <-. by eapply reachable_step.
  - destruct (step _ _) as [m|] eqn:E; simpl in Hstep; [|done].
    injection Hstep as <-. by eapply reachable_step.
Qed.
End Moves.

(** ** What a run computes *)

Section Result.
Context (nMap nReduce : Z) (file content : string) (fs : FS).
Context (Map : string -> list KeyValue) (Reduce : string -> list string -> string).
Context (HnMap : 0 < nMap < 2 ^ 62) (HnReduce : 0 < nReduce < 2 ^ 32).
Context (Hsize : Z.of_nat (String.length content) < 2 ^ 61) (Hfile : fs !! file = Some content).
Context (Hlen : Z.of_nat (length (splits nMap content)) = nMap).
Context (Hok : forallb kv_ok (pairs nMap content Map) = true).
Context (Hred : forall k vs, utf8_ok (Reduce k vs) = true).

#[local] Abbreviation pairs := (pairs nMap content Map).
#[local] Abbreviation run_step := (run_step nMap nReduce file Map Reduce).
#[local] Abbreviation dstep := (dstep nMap nReduce file Map Reduce).
#[local] Abbreviation run_inv := (run_inv nMap nReduce file content Map Reduce).

(** The files of the jobs are those of MapReduceRun.v. *)
Definition computing (s : cluster) : Prop :=
  exists chunk, concat ((fun i => Map (chunk i)) <$> seqZ 0 nMap) = pairs /\ run_inv chunk s.

Definition cluster_ok (d : deployment) : Prop :=
  match phase d with
  | RSplit => shared d = mkCluster (InitMapReduce nMap nReduce) fs
  | RMaster => computing (shared d)
  | RKill _ => computing (shared d) /\ returned (master (shared d)) = true
  | RCleanup _ | RDone =>
      reachable step (InitMapReduce nMap nReduce) (master (shared d)) /\
      returned (master (shared d)) = true /\ disk (shared d) !! OutName file = Some (report Reduce pairs)
  end.

Lemma computing_step s ev s' : computing s -> run_step s ev = Some s' -> computing s'.
Proof using HnMap HnReduce Hok.
  intros (chunk & Hp & Hv) Hs. exists chunk. split; [done|]. by eapply run_step_inv.
Qed.

Lemma computing_master s : computing s -> reachable step (InitMapReduce nMap nReduce) (master s).
Proof using. intros (chunk & _ & Hv). apply Hv. Qed.

(** Nothing moves before a worker has registered. *)
Lemma start_quiet ev s' : registers ev = false ->
  run_step (mkCluster (InitMapReduce nMap nReduce) fs) ev = Some s' -> False.
Proof using. by destruct ev as [[]| |? []]. Qed.

Lemma split_computing fs1 : Split nMap file fs = Some fs1 ->
  computing (mkCluster (InitMapReduce nMap nReduce) fs1).
Proof using HnMap HnReduce Hsize Hfile Hlen.
  intros Hsplit.
  destruct (split_chunks nMap file content fs fs1 Map HnMap Hsize Hfile Hlen Hsplit) as (chunk & Hc & Hp).
  exists chunk. split; [done|]. constructor; simpl; [constructor|done|..].
  - by intros i r ?%not_elem_of_nil.
  - by intros r ?%not_elem_of_nil.
Qed.

Lemma merge_computing s : computing s -> returned (master s) = true ->
  exists fs2, Merge nReduce file (disk s) = Some fs2 /\ fs2 !! OutName file = Some (report Reduce pairs).
Proof using HnMap HnReduce Hok Hred.
  intros (chunk & _ & [Hm _ _ Hd]) Hret.
  apply (merge_report nMap nReduce file content Map Reduce HnReduce); [|done..].
  intros r Hr. apply Hd, elem_of_app. right.
  destruct (job_places nMap nReduce HnMap ltac:(lia) _ Hm) as (_ & _ & _ & Hall).
  rewrite (Hall Hret) by lia. apply elem_of_seqZ. lia.
Qed.

Lemma advance_ok d d' : cluster_ok d -> advance nMap nReduce file Map Reduce d d' -> cluster_ok d'.
Proof using HnMap HnReduce Hsize Hfile Hlen Hok Hred.
  unfold cluster_ok.
  intros Hd [[E|(ev & Hr & Hs)] Eph|fs1 E1 E2 E3 E4|order E1 E2 E3 E4|a todo E1 E2 E3|fs1 E1 E2 E3 E4|c E1 E2 E3].
  - by rewrite Eph, E.
  - rewrite Eph. destruct (phase d) as [| |todo|c|].
    + rewrite Hd in Hs. destruct (start_quiet ev (shared d')); [|done]. destruct (registers ev); [|done].
      by discriminate Hr.
    + by eapply computing_step.
    + destruct Hd as [Hc Hret]. split; [by eapply computing_step|].
      by apply (returned_quiet nMap nReduce file Map Reduce _ ev _ HnMap ltac:(lia) (computing_master _ Hc) Hret Hs).
    + destruct Hd as (Hm & Hret & Ho).
      destruct (returned_quiet nMap nReduce file Map Reduce _ ev _ HnMap ltac:(lia) Hm Hret Hs) as [Hret' ->].
      split; [by eapply run_step_master|done].
    + destruct Hd as (Hm & Hret & Ho).
      destruct (returned_quiet nMap nReduce file Map Reduce _ ev _ HnMap ltac:(lia) Hm Hret Hs) as [Hret' ->].
      split; [by eapply run_step_master|done].
  - rewrite E1 in Hd. rewrite E2, E4, Hd. apply split_computing. by rewrite Hd in E3.
  - rewrite E1 in Hd. rewrite E2, E3. done.
  - rewrite E1 in Hd. rewrite E2, E3. done.
  - rewrite E1 in Hd. rewrite E2, E4. destruct Hd as [Hc Hret]. simpl.
    split; [by apply computing_master|]. split; [done|].
    destruct (merge_computing _ Hc Hret) as (fs2 & E & Ho). rewrite E in E3. by injection E3 as <-.
  - rewrite E1 in Hd. rewrite E3. destruct E2 as [[c' ->]| ->]; done.
Qed.

Lemma cluster_run evs d :
  exec dstep (MakeMapReduce nMap nReduce fs) evs = Some d -> cluster_ok d.
Proof using HnMap HnReduce Hsize Hfile Hlen Hok Hred.
  intros Hrun. apply (reachable_inv dstep cluster_ok (MakeMapReduce nMap nReduce fs)); [done| |].
  - intros d1 d2 ev H1 H2. by eapply advance_ok, dstep_advance.
  - by eapply exec_reachable.
Qed.

(** When [Run] is about to signal [DoneChannel], the output file is the report. *)
Lemma cluster_result evs d :
  exec dstep (MakeMapReduce nMap nReduce fs) evs = Some d -> phase d = RDone ->
  disk (shared d) !! OutName file = Some (report Reduce pairs).
Proof using HnMap HnReduce Hsize Hfile Hlen Hok Hred.
  intros Hrun Hdone. pose proof (cluster_run evs d Hrun) as Hd.
  unfold cluster_ok in Hd. rewrite Hdone in Hd. by destruct Hd as (_ & _ & Ho).
Qed.
End Result.

(** C9: the distributed run with its connections.  For every schedule of workers that
    start, register, die and run out of [nRPC], of connections that wait, are
    accepted or refused, and of writes in the middle of jobs: when [Run] is about to
    signal [DoneChannel], the output file is the report, the same as the one of the
    sequential [RunSingle]; and it stays. *)
Theorem cluster_correct nMap nReduce file content fs Map Reduce evs d :
  0 < nMap < 2 ^ 62 -> 0 < nReduce < 2 ^ 32 ->
  Z.of_nat (String.length content) < 2 ^ 61 -> fs !! file = Some content ->
  Z.of_nat (length (splits nMap content)) = nMap ->
  forallb kv_ok (pairs nMap content Map) = true ->
  (forall k vs, utf8_ok (Reduce k vs) = true) ->
  exec (dstep nMap nReduce file Map Reduce) (MakeMapReduce nMap nReduce fs) evs = Some d ->
  phase d = RDone ->
  exists fs', RunSingle nMap nReduce file Map Reduce fs = Some fs' /\
    disk (shared d) !! OutName file = Some (report Reduce (pairs nMap content Map)) /\
    disk (shared d) !! OutName file = fs' !! OutName file.
Proof.
  intros Hn Hr Hsize Hfile Hlen Hok Hred Hrun Hdone.
  destruct (run_single_result nMap nReduce file content fs Map Reduce) as (fs' & H1 & H2); [done..|].
  pose proof (cluster_result nMap nReduce file content fs Map Reduce Hn Hr Hsize Hfile Hlen Hok Hred
    evs d Hrun Hdone) as Ho.
  exists fs'. split_and!; [done|done|congruence].
Qed.

(** ** The registrations *)

Section Registration.
Context (nMap nReduce : Z) (file : string).
Context (Map : string -> list KeyValue) (Reduce : string -> list string -> string).

#[local] Abbreviation run_step := (run_step nMap nReduce file Map Reduce).
#[local] Abbreviation dstep := (dstep nMap nReduce file Map Reduce).

(** The moves of a process between its [rpc.Dial] and its loop. *)
Inductive ppc_move (d : deployment) : proc_pc -> proc_pc -> Prop :=
| pm_same x : ppc_move d x x
| pm_dial : l_open d = true -> ppc_move d PDial PWaiting
| pm_refused x : l_open d = false -> x = PDial \/ x = PWaiting -> ppc_move d x PLoop
| pm_accept : l_open d = true -> acceptor d = AAccept -> ppc_move d PWaiting PServed
| pm_send : phase d = RMaster -> ppc_move d PServed PReplied
| pm_reply : ppc_move d PReplied PLoop.

Lemma share_procs d ev d' : share nMap nReduce file Map Reduce d ev = Some d' -> procs d' = procs d.
Proof. unfold share. destruct (run_step _ _); simpl; [|done]. by intros [= <-]. Qed.

(** A process that stays where it is with registering. *)
Lemma set_proc_moves d d0 a b p q : procs d = procs d0 -> procs d0 !! a = Some p -> ppc_move d0 (ppc p) (ppc q) ->
  forall p0, procs d0 !! b = Some p0 ->
  exists p', procs (set_proc d a q) !! b = Some p' /\ ppc_move d0 (ppc p0) (ppc p').
Proof.
  intros E Ha Hm p0 Hb. simpl. rewrite E. destruct (decide (a = b)) as [->|Hne].
  - rewrite lookup_insert_eq. exists q. split; [done|]. by simplify_eq.
  - rewrite lookup_insert_ne by done. exists p0. split; [done|constructor].
Qed.

Lemma proc_step_moves d0 d a ev d' r b p0 : procs d = procs d0 -> proc_step d a ev = Some (d', r) ->
  procs d0 !! b = Some p0 -> exists p', procs d' !! b = Some p' /\ ppc_move d0 (ppc p0) (ppc p').
Proof.
  intros E (p & w & Hp & _ & _ & _ & ->)%proc_step_Some. apply (set_proc_moves d d0 a b p); try done.
  - by rewrite <- E.
  - constructor.
Qed.

Lemma unmoved d d' b p0 : procs d' = procs d -> procs d !! b = Some p0 ->
  exists p', procs d' !! b = Some p' /\ ppc_move d (ppc p0) (ppc p').
Proof. intros -> H. exists p0. split; [done|constructor]. Qed.

Lemma call_failed_procs d k d' : call_failed nMap nReduce file Map Reduce d k = Some d' -> procs d' = procs d.
Proof.
  destruct k as [w|]; simpl; [|by intros [= <-]].
  destruct (share _ _ _ _ _ _ _) as [d1|] eqn:E; simpl; [|done]. intros [= <-]. by apply share_procs in E.
Qed.

Lemma call_move_moves d k ev d' b p0 : call_move nMap nReduce file Map Reduce d k ev = Some d' ->
  procs d !! b = Some p0 -> exists p', procs d' !! b = Some p' /\ ppc_move d (ppc p0) (ppc p').
Proof.
  intros H Hb. unfold call_move in H. destruct (calls d !! k) as [c|]; simpl in H; [|done].
  destruct (target d k) as [a|]; simpl in H; [|done].
  destruct ev; try (by destruct c).
  - destruct c; try done. destruct (listening d a); [|done]. injection H as <-. by apply unmoved.
  - destruct c; try done. destruct (String.eqb _ _); [|done].
    destruct (proc_step _ _ _) as [[d1 r]|] eqn:E; simpl in H; [|done]. injection H as <-.
    by eapply (proc_step_moves d d) in E.
  - destruct c; try done. destruct (running d a); [|done]. apply share_procs in H. by apply unmoved.
  - destruct c; try done. destruct k as [w|];
      (destruct (proc_step _ _ _) as [[d1 r]|] eqn:E; simpl in H; [|done]);
      eapply (proc_step_moves d d) in E as (p' & Hp & Hm); try done.
    + destruct (share _ _ _ _ _ _ _) as [d2|] eqn:E2; simpl in H; [|done]. injection H as <-.
      apply share_procs in E2. simpl. rewrite E2. eauto.
    + injection H as <-. eauto.
  - destruct (match c with CServing => running d a | _ => listening d a end) eqn:E; [done|].
    apply call_failed_procs in H. by apply unmoved.
Qed.

Lemma dstep_ppc d ev d' b p0 : dstep d ev = Some d' -> procs d !! b = Some p0 ->
  exists p', procs d' !! b = Some p' /\ ppc_move d (ppc p0) (ppc p').
Proof.
  intros H Hb. destruct ev as [a n|a|a ev|a|a|a|a|a| | |ev|k|a k|w name text|k|k| |order| | | | |];
    cbn [MapReduceCluster.dstep] in H; try (by eapply call_move_moves).
  - destruct (procs d !! a) eqn:Ea; [done|]. injection H as <-. exists p0. split; [|constructor].
    simpl. rewrite lookup_insert_ne; [done|]. by intros ->; simplify_eq.
  - destruct (procs d !! a) as [p|] eqn:Ea; simpl in H; [|done]. injection H as <-.
    apply (set_proc_moves d d a b p); try done. constructor.
  - assert (forall d1 r, proc_step d a ev = Some (d1, r) -> d1 = d' -> exists p', procs d' !! b = Some p' /\
      ppc_move d (ppc p0) (ppc p')) as Hp.
    { intros d1 r E <-. by eapply proc_step_moves. }
    destruct ev as [|[]| | |]; try done; (destruct (proc_step _ _ _) as [[d1 r]|] eqn:E; simpl in H; [|done]);
      injection H as ->; by eapply Hp.
  - unfold Register in H. destruct (procs d !! a) as [p|] eqn:Ea; simpl in H; [|done].
    destruct (ppc p) eqn:Ep; try done. destruct (up p); [|done]. injection H as <-.
    apply (set_proc_moves d d a b p); try done. simpl. rewrite Ep.
    destruct (l_open d) eqn:El; constructor; auto.
  - unfold Register in H. destruct (procs d !! a) as [p|] eqn:Ea; simpl in H; [|done].
    destruct (ppc p) eqn:Ep; try done. destruct (up p && _) eqn:El; [|done]. injection H as <-.
    apply (set_proc_moves d d a b p); try done. simpl. rewrite Ep.
    apply andb_prop in El as [_ El%negb_true_iff]. constructor; auto.
  - simpl in H. destruct (acceptor d) eqn:Eacc; try done.
    destruct (procs d !! a) as [p|] eqn:Ea; simpl in H; [|done].
    destruct (l_open d && _) eqn:El; [|done]. injection H as <-.
    apply andb_prop in El as [El Ep%bool_decide_eq_true].
    apply (set_proc_moves (set_acceptor d ATest) d a b p); try done. simpl. rewrite Ep. by constructor.
  - unfold register in H. destruct (procs d !! a) as [p|] eqn:Ea; simpl in H; [|done].
    destruct (bool_decide _ && _) eqn:El; [|done].
    apply andb_prop in El as [El%bool_decide_eq_true Ep%bool_decide_eq_true].
    destruct (share _ _ _ _ _ _ _) as [d2|] eqn:E2; simpl in H; [|done]. injection H as <-.
    apply share_procs in E2. apply (set_proc_moves d2 d a b p (mkProcess PReplied (wk p) (up p))); try done.
    simpl. rewrite Ep. by constructor.
  - unfold Register in H. destruct (procs d !! a) as [p|] eqn:Ea; simpl in H; [|done].
    destruct (ppc p) eqn:Ep; try done. destruct (up p); [|done]. injection H as <-.
    apply (set_proc_moves d d a b p); try done. simpl. rewrite Ep. apply pm_reply.
  - simpl in H. destruct (acceptor d); try done. injection H as <-. by apply unmoved.
  - simpl in H. destruct (acceptor d); try done. destruct (l_open d); [done|]. injection H as <-. by apply unmoved.
  - assert (forall d1, share nMap nReduce file Map Reduce d (DMaster ev) = Some d1 -> procs d' = procs d1 ->
      exists p', procs d' !! b = Some p' /\ ppc_move d (ppc p0) (ppc p')) as Hs.
    { intros d1 E%share_procs E2. apply unmoved; [congruence|done]. }
    destruct ev; simpl in H; try done.
    + destruct (bool_decide _); [|done]. by eapply Hs.
    + destruct (bool_decide _); [|done]. by eapply Hs.
    + destruct (share _ _ _ _ _ _ _) as [d1|] eqn:E; simpl in H; [|done]. injection H as <-. by eapply Hs.
    + by eapply Hs.
  - simpl in H. destruct (phase d); try done. destruct (Split _ _ _); simpl in H; [|done].
    injection H as <-. by apply unmoved.
  - simpl in H. destruct (phase d); try done. destruct (_ && _); [|done]. injection H as <-. by apply unmoved.
  - simpl in H. destruct (phase d) as [| |[]| |]; try done. destruct (calls d !! None); [done|].
    injection H as <-. by apply unmoved.
  - simpl in H. destruct (phase d) as [| |[]| |]; try done. destruct (Merge _ _ _); simpl in H; [|done].
    injection H as <-. by apply unmoved.
  - simpl in H. destruct (phase d) as [| | |[]|]; try done. injection H as <-. by apply unmoved.
  - simpl in H. destruct (phase d) as [| | |[]|]; try done. destruct (_ && _); [|done]. injection H as <-.
    by apply unmoved.
  - simpl in H. destruct (phase d) as [| | |[]|]; try done. injection H as <-. by apply unmoved.
Qed.
(** [RunMaster] has returned. *)
Definition past (d : deployment) : Prop := phase d <> RSplit /\ phase d <> RMaster.

Lemma step_returned m ev m' : step m ev = Some m' -> returned m = true ->
  returned m' = true /\ Workers m' = Workers m.
Proof.
  intros H Hret. destruct ev as [| | |w|w r|w]; simpl in H; unfold RunMaster in H; rewrite ?Hret in H; try done;
    unfold RunWorker in H; try destruct r as [|[]]; repeat (case_match; simplify_eq/=); try done;
    (destruct (send _ _ _); simplify_eq/=; done).
Qed.

Lemma run_step_returned s ev s' : run_step s ev = Some s' -> returned (master s) = true ->
  returned (master s') = true /\ Workers (master s') = Workers (master s).
Proof.
  intros H Hret. destruct ev as [ev|w name text|w []]; cbn [MapReduceRun.run_step] in H.
  - destruct (is_call ev); [done|]. destruct (step _ _) as [m|] eqn:E; simpl in H; [|done].
    injection H as <-. by eapply step_returned.
  - destruct (current_args _ _ _ _ _); simpl in H; [|done]. destruct (bool_decide _); [|done]. by injection H as <-.
  - destruct (current_args _ _ _ _ _); simpl in H; [|done].
    destruct (DoJob _ _ _ _) as [[fs ok]|]; [|done]. simpl in H.
    change (RunWorker (master s) w (WCall w (Answer ok))) with (step (master s) (WCall w (Answer ok))) in H.
    destruct (step _ _) as [m|] eqn:E; [|done]. injection H as <-. by eapply step_returned.
  - destruct (step _ _) as [m|] eqn:E; simpl in H; [|done]. injection H as <-. by eapply step_returned.
Qed.

Lemma advance_past d d' : advance nMap nReduce file Map Reduce d d' ->
  past d -> returned (master (shared d)) = true ->
  past d' /\ returned (master (shared d')) = true /\ Workers (master (shared d')) = Workers (master (shared d)).
Proof.
  unfold past.
  intros [[E|(ev & _ & E)] Eph|fs E1 E2 E3 E4|order E1 E2 E3 E4|a todo E1 E2 E3|fs E1 E2 E3 E4|c E1 E2 E3] [Hs Hm] Hr;
    try done.
  - rewrite Eph, E. done.
  - rewrite Eph. destruct (run_step_returned _ _ _ E Hr) as [-> ->]. done.
  - rewrite E2, E3. done.
  - rewrite E2, E4. done.
  - rewrite E3. destruct E2 as [[c' ->]| ->]; done.
Qed.

Lemma past_returned fs d : reachable dstep (MakeMapReduce nMap nReduce fs) d -> past d ->
  returned (master (shared d)) = true.
Proof.
  intros H. induction H as [|d d' ev _ IH Hstep]; [by intros []|]. intros Hp.
  apply dstep_advance in Hstep as Ha. destruct (decide (phase d = RSplit \/ phase d = RMaster)) as [Hph|Hph].
  - destruct Hp as [P1 P2], Ha as [E Eph|fs1 E1 E2 E3 E4|order E1 E2 E3 E4|a todo E1 E2 E3|fs1 E1 E2 E3 E4|c E1 E2 E3];
      try (rewrite Eph in P1, P2; tauto); rewrite ?E1 in Hph; try (by destruct Hph); try done.
    by rewrite E3.
  - assert (past d) as Hd by (split; tauto). by apply (advance_past _ _ Ha Hd (IH Hd)).
Qed.

Lemma past_exec evs : forall d d', past d -> returned (master (shared d)) = true -> exec dstep d evs = Some d' ->
  past d' /\ Workers (master (shared d')) = Workers (master (shared d)) /\
  forall a p, procs d !! a = Some p -> ppc p = PServed ->
    exists p', procs d' !! a = Some p' /\ ppc p' = PServed.
Proof.
  induction evs as [|ev evs IH]; intros d d' Hp Hr; simpl; [intros [= <-]; eauto|].
  destruct (dstep d ev) as [d1|] eqn:E; [|done]. intros Hrun.
  destruct (advance_past d d1 (dstep_advance _ _ _ _ _ _ _ _ E) Hp Hr) as (Hp1 & Hr1 & Hw1).
  destruct (IH _ _ Hp1 Hr1 Hrun) as (H1 & H2 & H3). split_and!; [done|congruence|].
  intros a p Ha Hpc. destruct (dstep_ppc _ _ _ _ _ E Ha) as (p1 & Ha1 & Hm).
  apply (H3 a p1 Ha1). rewrite Hpc in Hm. inversion Hm as [|?|? ? [|]|?|Hph|]; try done. by destruct Hp.
Qed.
End Registration.

(** C22: a registration is answered only while [RunMaster] runs.  Once it has returned,
    no worker is added any more, and the call of a worker whose [Register] was
    accepted is never answered: it waits at [registerChannel], which nobody
    receives from, for ever after, also when the run is over and the registration
    server is shut down, as long as the process of the master lives (the tests keep it
    alive; the word count leaves it). *)
Theorem late_registration nMap nReduce file fs Map Reduce evs0 evs d d' a p :
  exec (dstep nMap nReduce file Map Reduce) (MakeMapReduce nMap nReduce fs) evs0 = Some d -> past d ->
  exec (dstep nMap nReduce file Map Reduce) d evs = Some d' ->
  Workers (master (shared d')) = Workers (master (shared d)) /\
  (procs d !! a = Some p -> ppc p = PServed ->
   exists p', procs d' !! a = Some p' /\ ppc p' = PServed).
Proof.
  intros H0 Hp H. pose proof (past_returned _ _ _ _ _ _ _ (exec_reachable _ _ _ _ H0) Hp) as Hr.
  destruct (past_exec _ _ _ _ _ _ _ _ Hp Hr H) as (_ & Hw & Hk). split; [done|]. apply Hk.
Qed.

(** ** Witnesses *)

(** A worker starts and registers. *)
Definition demo_join (a : string) (n : Z) : list devent :=
  [XStart a n; XRegDial a; XAlive; XRegAccept a].

Definition demo_loop (a : string) : list devent := [XRegReply a; XLoop a WTest].

(** The call of the goroutine [w] is served by the worker at [a]. *)
Definition demo_call (a : string) (k : option nat) : list devent :=
  [XDial k; XAccept a k; XLoop a WCount; XLoop a WTest; XServe k].

Definition demo_job (a : string) (w : nat) (done : event) : list devent :=
  [XMaster (WTake w)] ++ demo_call a (Some w) ++ [XMaster done].

(** Worker [w1] accepts one connection and stops; worker [w2] does every job; worker
    [w3] registers too late. *)
Definition demo_cluster : list devent :=
  demo_join "w1" 1 ++ [XSplit; XRegSend "w1"] ++ demo_loop "w1" ++
  [XMaster (WTake 0); XDial (Some 0%nat); XAccept "w1" (Some 0%nat); XLoop "w1" WCount; XLoop "w1" WTest;
   XWrite 0 (ReduceName "in" 0 1) "garbage"; XCrash "w1"; XBreak (Some 0%nat)] ++
  demo_join "w2" (-1) ++ [XRegSend "w2"] ++ demo_loop "w2" ++
  demo_job "w2" 1 MMapDone ++ demo_job "w2" 1 MMapDone ++ [XMaster (WLeave 1)] ++
  demo_job "w2" 1 MReduceDone ++ demo_job "w2" 1 MReduceDone ++
  demo_join "w3" (-1) ++
  [XReturn ["w2"; "w1"]; XKill] ++ demo_call "w2" None ++ [XKill; XBreak None; XMerge; XCleanDial; XAlive; XCleanAccept;
   XCleanServe; XAlive].

Lemma cluster_correct_witness :
  let d := run (dstep 2 2 "in" demo_map demo_constant) (MakeMapReduce 2 2 demo_fs) demo_cluster in
  phase d = RDone /\
  disk (shared d) !! OutName "in" = Some ("one: x" ++ newline ++ "three: x" ++ newline ++ "two: x" ++ newline)%string.
Proof.
  set (d := run _ _ _). cbv zeta. assert (phase d = RDone) as Hdone by vm_refl. split; [exact Hdone|].
  pose proof (exec_run (dstep 2 2 "in" demo_map demo_constant) (MakeMapReduce 2 2 demo_fs) demo_cluster
    ltac:(vm_refl)) as Hexec.
  destruct (cluster_correct 2 2 "in" demo_input demo_fs demo_map demo_constant demo_cluster d
    ltac:(lia) ltac:(lia) ltac:(vm_refl) ltac:(vm_refl) ltac:(vm_refl) ltac:(vm_refl)
    (fun _ _ => eq_refl) Hexec Hdone) as (fs' & _ & H & _).
  rewrite H. vm_refl.
Defined.

Lemma late_registration_witness :
  let d1 := run (dstep 2 2 "in" demo_map demo_constant) (MakeMapReduce 2 2 demo_fs) (take 60 demo_cluster) in
  let d2 := run (dstep 2 2 "in" demo_map demo_constant) d1 (drop 60 demo_cluster) in
  phase d2 = RDone /\ Workers (master (shared d2)) = ["w2"; "w1"] /\
  ppc <$> procs d2 !! "w3" = Some PServed.
Proof.
  intros d1 d2.
  pose proof (exec_run (dstep 2 2 "in" demo_map demo_constant) (MakeMapReduce 2 2 demo_fs)
    (take 60 demo_cluster) ltac:(vm_refl)) as H1.
  pose proof (exec_run (dstep 2 2 "in" demo_map demo_constant) d1 (drop 60 demo_cluster) ltac:(vm_refl)) as H2.
  destruct (late_registration 2 2 "in" demo_fs demo_map demo_constant (take 60 demo_cluster) (drop 60 demo_cluster)
    d1 d2 "w3" (mkProcess PServed (new_Worker (-1)) true) H1) as [Hw Hp]; [|exact H2|].
  - split; vm_compute; discriminate.
  - split; [vm_refl|]. split; [rewrite Hw; vm_refl|].
    destruct Hp as (p' & -> & Hpc); [vm_refl|vm_refl|]. simpl. by rewrite Hpc.
Defined.
