(* ===== verification/MapReduceProgress.v ===== *)
(** A distributed run ends: as long as no process dies, the cluster of
    MapReduceCluster.v always has a move of its own, until [Run] signals
    [DoneChannel]; and there are finitely many of them. *)
From S2P Require Import Prelude GoText Utf8 Json MapReduce MapReduceSpec MapReduceSplit MapReduceMaster MapReduceRun MapReduceCluster.

(** ** Runs without failures *)

(** A move of a program of the cluster, with its progress: not a new worker, a failure
    or a write before the end of a job. *)
Definition own (ev : devent) : bool :=
  match ev with
  | XStart _ _ | XCrash _ | XWrite _ _ _ | XLoop _ (WAccept false) => false
  | _ => true
  end.

(** No process dies, and no worker has a limit of connections. *)
Definition calm (ev : devent) : bool :=
  match ev with
  | XStart _ n => (- 2 ^ 62 <=? n) && (n <? 0)
  | XCrash _ | XLoop _ (WAccept false) => false
  | _ => true
  end.

Definition registered (x : proc_pc) : bool :=
  match x with PReplied | PLoop => true | _ => false end.

Definition in_call (m : mr) (w : nat) : Prop :=
  exists j, goroutines m !! w = Some (WMapping j) \/ goroutines m !! w = Some (WReducing j).

(** The worker at [a] has had its [Shutdown]. *)
Definition killed (d : deployment) (a : string) : Prop :=
  past d /\ forall todo, phase d = RKill todo -> a ∉ todo.

(** A process after at most [n] moves. *)
Record proc_ok (n : Z) (d : deployment) (a : string) (p : process) : Prop := {
  po_up : up p = true;
  po_loop : loop (wk p) <> Done;
  po_nrpc : (- 2 ^ 62 - n <= nRPC (wk p) < 0) \/ (nRPC (wk p) = 1 /\ killed d a);
  po_served : 0 <= served (wk p);
  po_serving : forall k, calls d !! k = Some CServing -> target d k = Some a -> 0 < served (wk p);
  po_registered : registered (ppc p) = true <-> a ∈ addrs d
}.

Section Progress.
Context (nMap nReduce : Z) (file content : string) (fs : FS).
Context (Map : string -> list KeyValue) (Reduce : string -> list string -> string).
Context (HnMap : 0 < nMap < 2 ^ 62) (HnReduce : 0 < nReduce < 2 ^ 32).

#[local] Abbreviation run_step := (run_step nMap nReduce file Map Reduce).
#[local] Abbreviation dstep := (dstep nMap nReduce file Map Reduce).
#[local] Abbreviation share := (share nMap nReduce file Map Reduce).

(** The master, the addresses of its goroutines, and its calls. *)
Record calls_ok (d : deployment) : Prop := {
  ck_reach : reachable step (InitMapReduce nMap nReduce) (master (shared d));
  ck_smooth : smooth (master (shared d));
  ck_past : past d -> returned (master (shared d)) = true;
  ck_addrs : length (addrs d) = length (goroutines (master (shared d)));
  ck_nodup : NoDup (addrs d);
  ck_workers : NoDup (Workers (master (shared d))) /\
    forall a, a ∈ Workers (master (shared d)) <-> a ∈ addrs d;
  ck_calls : forall w, is_Some (calls d !! Some w) <-> in_call (master (shared d)) w;
  ck_kill : is_Some (calls d !! None) -> exists a todo, phase d = RKill (a :: todo);
  ck_todo : forall todo, phase d = RKill todo -> NoDup todo /\ forall a, a ∈ todo -> a ∈ addrs d
}.

Record live (n : Z) (d : deployment) : Prop := {
  lv_open : l_open d = true;
  lv_alive : alive d = true;
  lv_acceptor : acceptor d <> ADone;
  lv_calls : calls_ok d;
  lv_procs : forall a p, procs d !! a = Some p -> proc_ok n d a p;
  lv_addrs : forall a, a ∈ addrs d -> is_Some (procs d !! a)
}.

Definition live_inv (n : Z) (d : deployment) : Prop := phase d = RDone \/ live n d.

(** *** Consequences *)

Lemma past_no_calls d w : calls_ok d -> past d -> calls d !! Some w = None.
Proof using HnMap HnReduce.
  intros Hc Hp. apply eq_None_not_Some. intros (j & Hj)%(ck_calls _ Hc).
  destruct (returned_idle nMap nReduce (master (shared d)) HnMap ltac:(lia) (ck_reach _ Hc)
    (ck_past _ Hc Hp)) as [E1 E2].
  destruct Hj as [Hj|Hj]; [by eapply (jobs_of_elem map_job _ w) in Hj|by eapply (jobs_of_elem reduce_job _ w) in Hj].
Qed.

(** Each address is called by one call at a time. *)
Lemma target_unique d k1 k2 a : calls_ok d -> is_Some (calls d !! k1) -> is_Some (calls d !! k2) ->
  target d k1 = Some a -> target d k2 = Some a -> k1 = k2.
Proof using HnMap HnReduce.
  intros Hc H1 H2 T1 T2.
  assert (forall w, is_Some (calls d !! None) -> is_Some (calls d !! Some w) -> False) as Hboth.
  { intros w (b & todo & Eph)%(ck_kill _ Hc) Hw. rewrite past_no_calls in Hw; [by destruct Hw|done|].
    unfold past. by rewrite Eph. }
  destruct k1 as [w1|], k2 as [w2|]; simpl in T1, T2; try (by exfalso; eauto); [|done].
  f_equal. by eapply NoDup_lookup; [apply Hc|..].
Qed.

Lemma call_target d k : calls_ok d -> is_Some (calls d !! k) ->
  exists a, target d k = Some a /\ a ∈ addrs d.
Proof using.
  intros Hc Hk. destruct k as [w|]; simpl.
  - apply (ck_calls _ Hc) in Hk as (j & Hj).
    assert (is_Some (addrs d !! w)) as [a Ha].
    { apply lookup_lt_is_Some. rewrite (ck_addrs _ Hc). destruct Hj as [Hj|Hj]; by apply lookup_lt_Some in Hj. }
    exists a. split; [done|by eapply list_elem_of_lookup_2].
  - apply (ck_kill _ Hc) in Hk as (a & todo & Eph). rewrite Eph. exists a. split; [done|].
    apply (ck_todo _ Hc _ Eph). by left.
Qed.

Lemma live_listening n d a : live n d -> a ∈ addrs d -> listening d a = true /\ running d a = true.
Proof using.
  intros Hl Ha. destruct (lv_addrs _ _ Hl a Ha) as [p Hp]. destruct (lv_procs _ _ Hl a p Hp).
  unfold listening, running. rewrite Hp, po_up0. by rewrite bool_decide_eq_false_2.
Qed.

(** No call fails. *)
Lemma no_break n d k k' d' : live n d -> call_move nMap nReduce file Map Reduce d k (XBreak k') = Some d' -> False.
Proof using.
  intros Hl. unfold call_move. destruct (calls d !! k) as [c|] eqn:Ek; simpl; [|done].
  destruct (call_target d k (lv_calls _ _ Hl)) as (a & Ht & Ha); [by rewrite Ek|]. rewrite Ht. simpl.
  destruct (live_listening _ _ _ Hl Ha) as [-> ->]. by destruct c.
Qed.

(** *** Frames *)

Lemma insert_present (m : gmap string process) a b p : is_Some (m !! b) -> is_Some (<[a := p]> m !! b).
Proof using. rewrite lookup_insert_is_Some. destruct (decide (a = b)); auto. Qed.

Lemma proc_ok_frame n n' d d' a p :
  n <= n' ->
  (forall k, calls d' !! k = Some CServing -> calls d !! k = Some CServing /\ target d' k = target d k) ->
  (killed d a -> killed d' a) -> (a ∈ addrs d' <-> a ∈ addrs d) ->
  proc_ok n d a p -> proc_ok n' d' a p.
Proof using.
  intros Hn Hs Hk Ha [H1 H2 H3 H4 H5 H6]. split; [done|done| |done| |by rewrite Ha].
  - destruct H3 as [?|[? ?]]; [left; lia|right; auto].
  - intros k Hk1 Hk2. destruct (Hs k Hk1) as [Hk3 Hk4]. rewrite Hk4 in Hk2. by eapply H5.
Qed.

(** The same master, calls and phase; one process moves on with registering. *)
Lemma live_ppc n d d' a p x :
  live n d -> procs d !! a = Some p -> registered x = registered (ppc p) ->
  shared d' = shared d -> addrs d' = addrs d -> calls d' = calls d -> phase d' = phase d ->
  l_open d' = true -> alive d' = true -> acceptor d' <> ADone ->
  procs d' = <[a := mkProcess x (wk p) (up p)]> (procs d) -> live (n + 1) d'.
Proof using.
  intros [L1 L2 L3 L4 L5 L6] Hp Hx E1 E2 E3 E4 H1 H2 H3 E5.
  assert (forall b q, proc_ok n d b q -> proc_ok (n + 1) d' b q) as Hf.
  { intros b q. apply proc_ok_frame; [lia|..].
    - rewrite E3. intros k Hk. split; [done|]. destruct k; simpl; by rewrite ?E2, ?E4.
    - unfold killed, past. by rewrite E4.
    - by rewrite E2. }
  split; try done.
  - destruct L4. split; unfold past; rewrite ?E1, ?E2, ?E3, ?E4; done.
  - intros b q. rewrite E5. destruct (decide (a = b)) as [->|Hne].
    + rewrite lookup_insert_eq. intros [= <-]. destruct (Hf _ _ (L5 _ _ Hp)). split; simpl; rewrite ?Hx; done.
    + rewrite lookup_insert_ne by done. auto.
  - intros b. rewrite E2, E5. auto using insert_present.
Qed.
Lemma calls_ok_same d d' :
  master (shared d') = master (shared d) -> addrs d' = addrs d -> phase d' = phase d ->
  (forall k, is_Some (calls d' !! k) <-> is_Some (calls d !! k)) -> calls_ok d -> calls_ok d'.
Proof using.
  intros E1 E2 E3 E4 []. split; unfold past; rewrite ?E1, ?E2, ?E3; try done.
  - intros w. by rewrite E4.
  - by rewrite E4.
Qed.

Lemma is_Some_insert_same (m : gmap (option nat) rpc_pc) k c c' k' :
  m !! k = Some c -> is_Some (<[k := c']> m !! k') <-> is_Some (m !! k').
Proof using.
  intros Hk. destruct (decide (k = k')) as [<-|Hne].
  - rewrite lookup_insert_eq, Hk. split; eauto.
  - by rewrite lookup_insert_ne.
Qed.

(** One turn of the loop of a worker. *)
Lemma live_loop n d a p w :
  live n d -> procs d !! a = Some p -> loop w <> Done -> nRPC w = nRPC (wk p) -> served w = served (wk p) ->
  live (n + 1) (set_proc d a (mkProcess (ppc p) w (up p))).
Proof using.
  intros [L1 L2 L3 L4 L5 L6] Hp Hw1 Hw2 Hw3. split; try done.
  - by apply (calls_ok_same d).
  - intros b q. simpl. intros Hq.
    assert (forall b q, proc_ok n d b q -> proc_ok (n + 1) (set_proc d a (mkProcess (ppc p) w (up p))) b q) as Hf
      by (intros ? ?; apply proc_ok_frame; [lia|done..]).
    destruct (decide (a = b)) as [->|Hne].
    + rewrite lookup_insert_eq in Hq. injection Hq as <-. destruct (Hf _ _ (L5 _ _ Hp)).
      split; try done; cbn [wk]; rewrite ?Hw2, ?Hw3; done.
    + rewrite lookup_insert_ne in Hq by done. auto.
  - intros b Hb. simpl. auto using insert_present.
Qed.

(** A call goes on, with its process. *)
Lemma live_serving n d a p w k c :
  live n d -> procs d !! a = Some p -> calls d !! k = Some c -> target d k = Some a -> c <> CServing ->
  loop w <> Done -> nRPC w = nRPC (wk p) - 1 -> served w = served (wk p) + 1 ->
  live (n + 1) (set_calls (set_proc d a (mkProcess (ppc p) w (up p))) (<[k := CServing]> (calls d))).
Proof using HnMap HnReduce.
  intros [L1 L2 L3 L4 L5 L6] Hp Hk Ht Hc Hw1 Hw2 Hw3. split; try done.
  - apply (calls_ok_same d); [done..| |done]. intros k'. simpl. by eapply is_Some_insert_same.
  - intros b q. simpl. intros Hq. destruct (decide (a = b)) as [->|Hne].
    + rewrite lookup_insert_eq in Hq. injection Hq as <-. destruct (L5 _ _ Hp) as [P1 P2 P3 P4 P5 P6].
      split; simpl; try done; [|lia|intros; lia].
      destruct P3 as [?|[? [Hpast Hkill]]]; [left; lia|exfalso].
      destruct k as [w'|]; simpl in Ht; [by rewrite past_no_calls in Hk|].
      destruct (ck_kill _ L4) as (a' & todo & Eph); [by rewrite Hk|]. rewrite Eph in Ht. injection Ht as ->.
      apply (Hkill _ Eph). by left.
    + rewrite lookup_insert_ne in Hq by done. specialize (L5 _ _ Hq) as [P1 P2 P3 P4 P5 P6].
      split; simpl; try done; [destruct P3; [left; lia|by right]|].
      intros k'. destruct (decide (k = k')) as [<-|Hk'].
      * intros _ Ht'. change (target d k = Some b) in Ht'. congruence.
      * rewrite lookup_insert_ne by done. apply P5.
  - intros b Hb. simpl. auto using insert_present.
Qed.

Lemma live_dial n d k :
  live n d -> calls d !! k = Some CDial -> live (n + 1) (set_calls d (<[k := CWaiting]> (calls d))).
Proof using.
  intros [L1 L2 L3 L4 L5 L6] Hk. split; try done.
  - apply (calls_ok_same d); [done..| |done]. intros k'. simpl. by eapply is_Some_insert_same.
  - intros b q Hq. eapply proc_ok_frame; [| | | |by apply L5]; try done; [lia|].
    intros k'. simpl. destruct (decide (k = k')) as [<-|Hk']; [by rewrite lookup_insert_eq|].
    rewrite lookup_insert_ne by done. done.
Qed.

(** *** The moves of the master *)

(** The master and the files move; the calls are those of the goroutines. *)
Lemma calls_ok_master d m fs' cs ev :
  calls_ok d -> step (master (shared d)) ev = Some m -> no_failure ev = true ->
  (forall a, ev <> MRegister a) ->
  length (goroutines m) = length (goroutines (master (shared d))) ->
  (forall w, is_Some (cs !! Some w) <-> in_call m w) -> cs !! None = calls d !! None ->
  calls_ok (set_calls (set_shared d (mkCluster m fs')) cs).
Proof using.
  intros [] Hm Hf Hr Hl Hcs Hn.
  assert (Workers m = Workers (master (shared d)) /\ (past d -> returned m = true)) as [Ew Hret].
  { split.
    - destruct ev as [a| | |w|w r|w]; simpl in Hm; unfold RunMaster, RunWorker in Hm; [by destruct (Hr a)|..];
        try destruct r as [|[]]; repeat (case_match; simplify_eq/=); try done;
        (destruct (send _ _ _); simplify_eq/=; done).
    - intros Hp. by apply (step_returned _ _ _ Hm), ck_past0. }
  split; simpl; rewrite ?Ew, ?Hl, ?Hn; try done.
  - by eapply reachable_step.
  - by eapply step_smooth.
Qed.

Lemma live_master n d m fs' cs :
  live n d -> calls_ok (set_calls (set_shared d (mkCluster m fs')) cs) ->
  (forall k, cs !! k = Some CServing -> calls d !! k = Some CServing) ->
  live (n + 1) (set_calls (set_shared d (mkCluster m fs')) cs).
Proof using.
  intros [L1 L2 L3 L4 L5 L6] Hc Hs. split; try done.
  intros b q Hq. eapply proc_ok_frame; [| | | |by apply L5]; try done; [lia|].
  intros k Hk. split; [by apply Hs|]. by destruct k.
Qed.
Definition calling (p : worker_pc) : bool :=
  match p with WMapping _ | WReducing _ => true | _ => false end.

Lemma in_call_pc m w : in_call m w <-> exists p, goroutines m !! w = Some p /\ calling p = true.
Proof using.
  split.
  - intros (j & [H|H]); eauto.
  - intros (p & Hp & Hc). destruct p; try done; eexists; eauto.
Qed.

Lemma in_call_set m m' w p p' : goroutines m !! w = Some p -> goroutines m' = <[w := p']> (goroutines m) ->
  forall v, in_call m' v <-> (v = w /\ calling p' = true) \/ (v <> w /\ in_call m v).
Proof using.
  intros Hw E v. rewrite !in_call_pc, E. destruct (decide (v = w)) as [->|Hne].
  - rewrite list_lookup_insert_eq by (by eapply lookup_lt_Some).
    split; [intros (q & [= <-] & Hc); by left|intros [[_ Hc]|[? _]]; [eauto|done]].
  - rewrite list_lookup_insert_ne by done. split; [by right|by intros [[? _]|[_ ?]]].
Qed.

(** What a move does to the goroutines. *)
Lemma step_goroutines m ev m' : step m ev = Some m' ->
  match ev with
  | MRegister _ => goroutines m' = goroutines m ++ [WMap]
  | MMapDone | MReduceDone => goroutines m' = goroutines m
  | WTake w => exists p p', goroutines m !! w = Some p /\ calling p' = true /\ goroutines m' = <[w := p']> (goroutines m)
  | WCall w _ => exists p p', goroutines m !! w = Some p /\ calling p = true /\ calling p' = false /\
      goroutines m' = <[w := p']> (goroutines m)
  | WLeave w => exists p p', goroutines m !! w = Some p /\ calling p = false /\ calling p' = false /\
      goroutines m' = <[w := p']> (goroutines m)
  end.
Proof using.
  intros H. destruct ev as [a| | |w|w r|w]; simpl in H.
  1-3: unfold RunMaster in H; destruct (returned m); [done|].
  - by injection H as <-.
  - destruct (mapDone m); [done|]. by injection H as <-.
  - destruct (reduceDone m); [done|]. by injection H as <-.
  - unfold RunWorker in H. destruct (goroutines m !! w) as [[]|]; try done.
    + destruct (mapJobs m) as [|j q]; [done|]. injection H as <-. by exists WMap, (WMapping j).
    + destruct (reduceJobs m) as [|j q]; [done|]. injection H as <-. by exists WReduce, (WReducing j).
  - unfold RunWorker in H. destruct (goroutines m !! w) as [[|j| |j|]|]; try done;
      [|by destruct (reduceJobs m)|];
      destruct r as [|[]]; (destruct (send _ _ _) as [q|]; [|done]); injection H as <-;
      eexists _, _; repeat split; done.
  - unfold RunWorker in H. destruct (goroutines m !! w) as [[]|]; try done.
    + destruct (reduceStart m); [|done]. injection H as <-. by exists WMap, WReduce.
    + destruct (reduceJobs m) as [|j q]; [|done]. injection H as <-. by exists WReduce, WExit.
Qed.
Lemma share_master d ev d1 : share d (DMaster ev) = Some d1 ->
  is_call ev = false /\ exists m, step (master (shared d)) ev = Some m /\
    d1 = set_shared d (mkCluster m (disk (shared d))).
Proof using.
  unfold MapReduceCluster.share. cbn [MapReduceRun.run_step]. destruct (is_call ev); [done|].
  destruct (step _ _) as [m|]; simpl; [|done]. intros [= <-]. eauto.
Qed.

Lemma share_served d w d1 : share d (DCall w true) = Some d1 ->
  exists m fs', step (master (shared d)) (WCall w (Answer true)) = Some m /\ d1 = set_shared d (mkCluster m fs').
Proof using.
  unfold MapReduceCluster.share. cbn [MapReduceRun.run_step].
  destruct (current_args _ _ _ _ _) as [arg|]; [|done]. cbn [mbind option_bind].
  destruct (DoJob Map Reduce arg (disk (shared d))) as [[fs' ok]|] eqn:E; [|done]. cbn [mbind option_bind].
  assert (ok = true) as ->.
  { unfold DoJob in E. by destruct (if String.eqb (Operation arg) OpMap then _ else _); simplify_eq/=. }
  destruct (step _ _) as [m|]; [|done]. cbn [mbind option_bind]. intros [= <-]. eauto.
Qed.

(** A move of the master that ends or starts no call. *)
Lemma live_quiet n d m fs' ev :
  live n d -> step (master (shared d)) ev = Some m ->
  match ev with MMapDone | MReduceDone | WLeave _ => True | _ => False end ->
  live (n + 1) (set_shared d (mkCluster m fs')).
Proof using.
  intros Hl Hm Hev. pose proof (step_goroutines _ _ _ Hm) as Hg.
  change (live (n + 1) (set_calls (set_shared d (mkCluster m fs')) (calls d))).
  apply live_master; [done| |done].
  apply (calls_ok_master d m fs' (calls d) ev); try done; try (by destruct ev); [by apply Hl|..].
  - destruct ev; try done; try (by rewrite Hg). destruct Hg as (p & p' & _ & _ & _ & ->). by rewrite length_insert.
  - intros w. rewrite (ck_calls _ (lv_calls _ _ Hl)). destruct ev as [| | | | |v]; try done;
      try (unfold in_call; by rewrite Hg).
    destruct Hg as (p & p' & H1 & H2 & H3 & E). rewrite (in_call_set _ _ _ _ _ H1 E), !in_call_pc.
    destruct (decide (w = v)) as [->|Hne].
    + split; [intros (q & Hq & Hc); congruence|by intros [[_ ?]|[? _]]; [congruence|]].
    + split; [by right|by intros [[? _]|[_ ?]]].
Qed.

Lemma live_take n d m w :
  live n d -> step (master (shared d)) (WTake w) = Some m ->
  live (n + 1) (set_calls (set_shared d (mkCluster m (disk (shared d)))) (<[Some w := CDial]> (calls d))).
Proof using.
  intros Hl Hm. pose proof (step_goroutines _ _ _ Hm) as (p & p' & H1 & H2 & E). simpl in H1, E.
  apply live_master; [done| |].
  - apply (calls_ok_master d m _ _ (WTake w)); try done; [apply Hl|by rewrite E, length_insert| |by rewrite lookup_insert_ne].
    intros v. rewrite (in_call_set _ _ _ _ _ H1 E). destruct (decide (v = w)) as [->|Hne].
    + rewrite lookup_insert_eq. split; [by left|eauto].
    + rewrite lookup_insert_ne by (intros [= ?]; congruence). rewrite (ck_calls _ (lv_calls _ _ Hl)).
      split; [by right|by intros [[? _]|[_ ?]]].
  - intros k. destruct (decide (k = Some w)) as [->|Hne]; [by rewrite lookup_insert_eq|].
    by rewrite lookup_insert_ne.
Qed.

(** The job of goroutine [w] is done. *)
Lemma live_served n d a p m fs' w :
  live n d -> procs d !! a = Some p -> calls d !! Some w = Some CServing -> addrs d !! w = Some a ->
  step (master (shared d)) (WCall w (Answer true)) = Some m -> 0 < served (wk p) ->
  live (n + 1) (hang_up (set_shared (set_proc d a (mkProcess (ppc p)
    (mkWorker (nRPC (wk p)) (nJobs (wk p)) (loop (wk p)) (served (wk p) - 1)) (up p))) (mkCluster m fs')) (Some w)).
Proof using HnMap HnReduce.
  intros Hl Hp Hk Ha Hm Hs. pose proof (step_goroutines _ _ _ Hm) as (q & q' & H1 & H2 & H3 & E).
  pose proof (lv_calls _ _ Hl) as Hc.
  assert (calls_ok (set_calls (set_shared d (mkCluster m fs')) (delete (Some w) (calls d)))) as Hc'.
  { apply (calls_ok_master d m fs' _ (WCall w (Answer true))); try done; [by rewrite E, length_insert| |by rewrite lookup_delete_ne].
    intros v. rewrite (in_call_set _ _ _ _ _ H1 E). destruct (decide (v = w)) as [->|Hne].
    - rewrite lookup_delete_eq. split; [by intros []|intros [[_ ?]|[? _]]; congruence].
    - rewrite lookup_delete_ne by (intros [= ?]; congruence). rewrite (ck_calls _ Hc).
      split; [by right|by intros [[? _]|[_ ?]]]. }
  destruct Hl as [L1 L2 L3 L4 L5 L6].
  split; try done; [by eapply calls_ok_same, Hc'| |intros b Hb; simpl; auto using insert_present].
  intros b x. simpl. intros Hb.
  assert (forall k, delete (Some w) (calls d) !! k = Some CServing ->
    calls d !! k = Some CServing /\ (target d k = Some a -> False)) as Hdel.
  { intros k [Hne Hk']%lookup_delete_Some. split; [done|]. intros Ht. apply Hne.
    apply (target_unique d _ _ a Hc); eauto. }
  destruct (decide (a = b)) as [->|Hne].
  - rewrite lookup_insert_eq in Hb. injection Hb as <-. destruct (L5 _ _ Hp) as [P1 P2 P3 P4 P5 P6].
    split; simpl; try done; [destruct P3; [left; lia|by right]|lia|].
    intros k Hk1 Hk2. exfalso. apply (proj2 (Hdel _ Hk1)). by destruct k.
  - rewrite lookup_insert_ne in Hb by done. specialize (L5 _ _ Hb).
    eapply proc_ok_frame; [| | | |exact L5]; try done; [lia|].
    intros k Hk1. split; [by apply Hdel|]. by destruct k.
Qed.
(** A registration meets [RunMaster]. *)
Lemma live_register n d a p m :
  live n d -> procs d !! a = Some p -> ppc p = PServed -> phase d = RMaster ->
  step (master (shared d)) (MRegister a) = Some m ->
  live (n + 1) (mkDeployment (mkCluster m (disk (shared d))) (addrs d ++ [a]) (calls d)
    (<[a := mkProcess PReplied (wk p) (up p)]> (procs d)) (alive d) (l_open d) (acceptor d) (phase d) (stats d)).
Proof.
  intros [L1 L2 L3 L4 L5 L6] Hp Hpc Hph Hm. pose proof (step_goroutines _ _ _ Hm) as Hg. simpl in Hg.
  assert (a ∉ addrs d) as Ha.
  { rewrite <- (po_registered _ _ _ _ (L5 _ _ Hp)), Hpc. done. }
  assert (forall w, in_call m w <-> in_call (master (shared d)) w) as Hin.
  { intros w. rewrite !in_call_pc, Hg. split; intros (q & Hq & Hc).
    - apply lookup_app_Some in Hq as [Hq|[_ Hq]]; [eauto|].
      by apply list_lookup_singleton_Some in Hq as [_ <-].
    - exists q. split; [by apply lookup_app_l_Some|done]. }
  assert (forall k, calls d !! k = Some CServing ->
    target (mkDeployment (mkCluster m (disk (shared d))) (addrs d ++ [a]) (calls d)
    (<[a := mkProcess PReplied (wk p) (up p)]> (procs d)) (alive d) (l_open d) (acceptor d) (phase d) (stats d)) k =
    target d k) as Ht.
  { intros [w|] Hk; [|done]. destruct (call_target d (Some w) L4) as (b & Hb & _); [by rewrite Hk|].
    rewrite Hb. simpl in *. by apply lookup_app_l_Some. }
  split; try done.
  - destruct L4. assert (Workers m = a :: Workers (master (shared d))) as Ew.
    { simpl in Hm. unfold RunMaster in Hm. destruct (returned _); [done|]. injection Hm as <-. simpl.
      by rewrite bool_decide_eq_false_2 by (by rewrite (proj2 ck_workers0)). }
    split; simpl; rewrite ?Ew; try done.
    + by eapply reachable_step.
    + by eapply step_smooth.
    + by intros [_ []].
    + rewrite Hg, !length_app. simpl. lia.
    + apply NoDup_app. split_and!; [done| |apply NoDup_singleton].
      intros b Hb ->%list_elem_of_singleton. done.
    + destruct ck_workers0 as [N1 N2]. split; [by constructor; [rewrite N2|]|].
      intros b. rewrite elem_of_cons, elem_of_app, list_elem_of_singleton, N2. tauto.
    + intros w. by rewrite ck_calls0, Hin.
    + by rewrite Hph.
  - intros b q. simpl. intros Hb. destruct (decide (a = b)) as [->|Hne].
    + rewrite lookup_insert_eq in Hb. injection Hb as <-. destruct (L5 _ _ Hp) as [P1 P2 P3 P4 P5 P6].
      split; simpl; try done; [destruct P3; [left; lia|by right]|..].
      * intros k Hk1 Hk2. rewrite Ht in Hk2 by done. by eapply P5.
      * rewrite elem_of_app, list_elem_of_singleton. tauto.
    + rewrite lookup_insert_ne in Hb by done. eapply proc_ok_frame; [| | | |by apply L5]; try done; [lia|by auto|].
      simpl. rewrite elem_of_app, list_elem_of_singleton. split; [intros [?|?]; congruence|auto].
  - intros b. simpl. rewrite elem_of_app, list_elem_of_singleton. intros [Hb| ->]; [auto using insert_present|].
    rewrite lookup_insert_eq. eauto.
Qed.

(** The next worker has reported, and waits for nothing more. *)
Lemma live_killed n d a p todo r :
  live n d -> procs d !! a = Some p -> phase d = RKill (a :: todo) -> calls d !! None = Some CServing ->
  0 < served (wk p) ->
  live (n + 1) (next_kill (hang_up (set_proc d a (mkProcess (ppc p)
    (mkWorker 1 (int64 (nJobs (wk p) - 1)) (loop (wk p)) (served (wk p) - 1)) (up p))) None) r).
Proof using HnMap HnReduce.
  intros Hl Hp Hph Hk Hs. pose proof (lv_calls _ _ Hl) as Hc. destruct Hl as [L1 L2 L3 L4 L5 L6].
  assert (past d) as Hpast by (unfold past; by rewrite Hph).
  destruct (ck_todo _ Hc _ Hph) as [[Hna Hnd]%NoDup_cons Htodo].
  assert (forall k, is_Some (delete None (calls d) !! k) -> False) as Hnone.
  { intros [w|]; [|rewrite lookup_delete_eq; by intros []].
    rewrite lookup_delete_ne, past_no_calls by done. by intros []. }
  split; try done; [| |intros b Hb; simpl; auto using insert_present].
  - destruct L4. split; simpl; rewrite ?Hph; try done.
    + intros _. by apply ck_past0.
    + intros w. rewrite lookup_delete_ne by done. apply ck_calls0.
    + intros H. exfalso. by apply (Hnone None).
    + intros l [= <-]. split; [done|]. intros b Hb. apply Htodo. by right.
  - intros b x. simpl. intros Hb. destruct (decide (a = b)) as [->|Hne].
    + rewrite lookup_insert_eq in Hb. injection Hb as <-. destruct (L5 _ _ Hp) as [P1 P2 P3 P4 P5 P6].
      split; simpl; try done; [right; split; [done|]|lia|].
      * unfold killed, past. simpl. rewrite Hph. split; [done|]. by intros l [= <-].
      * intros k Hk1. exfalso. apply (Hnone k). by exists CServing.
    + rewrite lookup_insert_ne in Hb by done. eapply proc_ok_frame; [| | | |by apply L5]; try done; [lia|..].
      * intros k Hk1. exfalso. apply (Hnone k). by exists CServing.
      * unfold killed, past. simpl. rewrite Hph. intros [_ H]. split; [done|]. intros l [= <-] Hin.
        apply (H _ eq_refl). by right.
Qed.
(** [Run] goes on, or another worker is called. *)
Lemma live_phase n d m fs' cs acc x :
  live n d -> calls_ok (mkDeployment (mkCluster m fs') (addrs d) cs (procs d) (alive d) (l_open d) acc x (stats d)) ->
  acc <> ADone -> (forall k, cs !! k = Some CServing -> calls d !! k = Some CServing) ->
  (calls d !! None = Some CServing -> phase d = x) ->
  (forall a, killed d a -> x <> RSplit /\ x <> RMaster /\ forall todo, x = RKill todo -> a ∉ todo) ->
  live (n + 1) (mkDeployment (mkCluster m fs') (addrs d) cs (procs d) (alive d) (l_open d) acc x (stats d)).
Proof using.
  intros [L1 L2 L3 L4 L5 L6] Hc Hacc Hs Hph Hkill. split; try done.
  intros b q Hq. eapply proc_ok_frame; [| | | |by apply L5]; try done; [lia|..].
  - intros k Hk%Hs. split; [done|]. destruct k; [done|]. simpl. by rewrite Hph.
  - intros (H1 & H2 & H3)%Hkill. by split; [split|].
Qed.

Lemma live_write n d fs' : live n d -> live (n + 1) (set_shared d (mkCluster (master (shared d)) fs')).
Proof using.
  intros Hl. pose proof (lv_calls _ _ Hl) as Hc. destruct d as [[m f0] ad cs pr al lo acc x st].
  apply (live_phase n (mkDeployment (mkCluster m f0) ad cs pr al lo acc x st)); try done; [| |].
  - by eapply calls_ok_same, Hc.
  - by apply Hl.
  - intros a [[? ?] ?]. done.
Qed.

Lemma live_start n d a z :
  live n d -> procs d !! a = None -> - 2 ^ 62 - n <= z < 0 ->
  live (n + 1) (set_proc d a (mkProcess PDial (new_Worker z) true)).
Proof using.
  intros [L1 L2 L3 L4 L5 L6] Ha Hz. split; try done; [by eapply calls_ok_same, L4| |].
  - intros b q. simpl. intros Hb. destruct (decide (a = b)) as [->|Hne].
    + rewrite lookup_insert_eq in Hb. injection Hb as <-.
      assert (b ∉ addrs d) as Hb by (intros [p Hp]%L6; congruence).
      split; simpl; try done; [left; lia|].
      intros k Hk Ht. exfalso. destruct (call_target d k L4) as (a' & Ht' & Ha'); [by rewrite Hk|].
      change (target d k = Some b) in Ht. congruence.
    + rewrite lookup_insert_ne in Hb by done. eapply proc_ok_frame; [| | | |by apply L5]; try done. lia.
  - intros b Hb. simpl. auto using insert_present.
Qed.
(** *** Every move *)

Lemma Register_live n d a ev d' : live n d -> Register d a ev = Some d' -> live (n + 1) d'.
Proof using.
  intros Hl. pose proof Hl as [L1 L2 L3 L4 L5 L6]. unfold Register.
  destruct (procs d !! a) as [p|] eqn:Hp; simpl; [|done]. rewrite L1.
  assert (forall x, registered x = registered (ppc p) -> live (n + 1) (set_ppc d a p x)) as H
    by (intros x Hx; by apply (live_ppc n d _ a p x)).
  destruct ev; try done; destruct (ppc p); try done.
  - destruct (up p); [|done]. intros [= <-]. by apply H.
  - by rewrite andb_false_r.
  - destruct (up p); [|done]. intros [= <-]. by apply H.
Qed.

Lemma acceptor_live n d x : live n d -> x <> ADone -> live (n + 1) (set_acceptor d x).
Proof using.
  intros Hl Hx. pose proof (lv_calls _ _ Hl) as Hc. destruct d as [[m f0] ad cs pr al lo acc ph st].
  apply (live_phase n (mkDeployment (mkCluster m f0) ad cs pr al lo acc ph st)); try done;
    [by eapply calls_ok_same, Hc|].
  intros a [[? ?] ?]. done.
Qed.

Lemma server_live n d ev d' : live n d -> StartRegistrationServer d ev = Some d' -> live (n + 1) d'.
Proof using.
  intros Hl. pose proof Hl as [L1 L2 L3 L4 L5 L6]. unfold StartRegistrationServer. rewrite L1, L2.
  destruct ev; try done; destruct (acceptor d) eqn:Eacc; try done.
  - destruct (procs d !! a) as [p|] eqn:Hp; simpl; [|done].
    destruct (bool_decide _) eqn:Epc; [|done]. apply bool_decide_eq_true in Epc. intros [= <-].
    apply (live_ppc n d _ a p PServed); try done. by rewrite Epc.
  - intros [= <-]. by apply acceptor_live.
Qed.

Lemma worker_turn n d a ev p w r :
  live n d -> procs d !! a = Some p -> ev = WTest \/ ev = WCount ->
  worker_step (wk p) ev = Some (w, r) -> live (n + 1) (set_proc d a (mkProcess (ppc p) w (up p))).
Proof using.
  intros Hl Hp Hev Hw. destruct (lv_procs _ _ Hl _ _ Hp) as [P1 P2 P3 P4 P5 P6].
  destruct Hev as [-> | ->]; unfold worker_step in Hw; destruct (loop (wk p)) eqn:El; try done; simplify_eq;
    apply live_loop; simpl; try done.
  replace (nRPC (wk p) =? 0) with false by (destruct P3 as [?|[? _]]; lia). done.
Qed.

Lemma call_live n d k ev d' : 0 <= n < 2 ^ 61 ->
  live n d -> call_move nMap nReduce file Map Reduce d k ev = Some d' -> live (n + 1) d'.
Proof using HnMap HnReduce.
  intros Hn Hl Hstep. pose proof Hl as [L1 L2 L3 L4 L5 L6].
  assert (forall k', ev <> XBreak k') as Hev by (intros k' ->; by destruct (no_break n d k k' d' Hl)).
  unfold call_move in Hstep. destruct (calls d !! k) as [c|] eqn:Hk; [|done]. cbn [mbind option_bind] in Hstep.
  destruct (target d k) as [a|] eqn:Ht; [|done]. cbn [mbind option_bind] in Hstep.
  destruct ev as [| | | | | | | | | | |k'|b k'|w name text|k'|k'| | | | | | |]; try (by destruct c).
  - destruct c; try done. destruct (listening d a); [|done]. injection Hstep as <-. by apply live_dial.
  - destruct c; try done. destruct (String.eqb a b); [|done].
    destruct (proc_step d a (WAccept true)) as [[d1 r]|] eqn:E; [|done]. injection Hstep as <-.
    apply proc_step_Some in E as (p & w & Hp & _ & _ & Hw & ->).
    destruct (L5 _ _ Hp) as [P1 P2 P3 P4 P5 P6].
    unfold worker_step in Hw. destruct (loop (wk p)); try done. injection Hw as <- <-.
    apply (live_serving n d a p _ k CWaiting); try done. simpl.
    rewrite int64_id; [done|]. unfold int64_ok. destruct P3 as [?|[-> _]]; lia.
  - destruct c; try done. destruct (running d a); [|done].
    unfold MapReduceCluster.share in Hstep. cbn [MapReduceRun.run_step] in Hstep.
    destruct (current_args _ _ _ _ _); [|done]. cbn [mbind option_bind] in Hstep.
    destruct (bool_decide _); [|done]. injection Hstep as <-. by apply live_write.
  - destruct c; try done. destruct k as [w|].
    + destruct (proc_step d a WDoJob) as [[d1 r]|] eqn:E; [|done]. cbn [mbind option_bind] in Hstep.
      apply proc_step_Some in E as (p & wk' & Hp & _ & _ & Hw & ->).
      destruct (share _ _) as [d2|] eqn:E2; [|done]. injection Hstep as <-.
      apply share_served in E2 as (m & fs' & Hm & ->).
      pose proof (po_serving _ _ _ _ (L5 _ _ Hp) (Some w) Hk Ht) as Hs.
      simpl in Hw. replace (0 <? served (wk p)) with true in Hw by lia. injection Hw as <- _.
      by apply (live_served n d a p m fs' w).
    + destruct (proc_step d a WShutdown) as [[d1 r]|] eqn:E; [|done]. injection Hstep as <-.
      apply proc_step_Some in E as (p & wk' & Hp & _ & _ & Hw & ->).
      pose proof (po_serving _ _ _ _ (L5 _ _ Hp) None Hk Ht) as Hs.
      simpl in Hw. replace (0 <? served (wk p)) with true in Hw by lia. injection Hw as <- <-.
      simpl in Ht. destruct (phase d) as [| |[|b todo]| |] eqn:Hph; try done. injection Ht as ->.
      by apply (live_killed n d a p todo).
  - by destruct (Hev k').
Qed.
(** [Run] goes on while no worker is being called. *)
Lemma live_run n d fs' acc x :
  live n d -> calls d !! None = None -> acc <> ADone ->
  (x <> RSplit -> x <> RMaster -> returned (master (shared d)) = true) ->
  (forall todo, x = RKill todo -> NoDup todo /\ forall a, a ∈ todo -> a ∈ addrs d) ->
  (forall a, killed d a -> x <> RSplit /\ x <> RMaster /\ forall todo, x = RKill todo -> a ∉ todo) ->
  live (n + 1) (mkDeployment (mkCluster (master (shared d)) fs') (addrs d) (calls d) (procs d) (alive d)
    (l_open d) acc x (stats d)).
Proof using.
  intros Hl Hn Hacc Hret Htodo Hkill. apply live_phase; try done.
  - destruct (lv_calls _ _ Hl). split; simpl; try done.
    + intros [H1 H2]. by apply Hret.
    + rewrite Hn. by intros [].
  - by rewrite Hn.
Qed.

Lemma no_kill d : calls_ok d -> (forall a todo, phase d <> RKill (a :: todo)) -> calls d !! None = None.
Proof using.
  intros Hc Hph. apply eq_None_not_Some. intros (a & todo & E)%(ck_kill _ Hc). by destruct (Hph a todo).
Qed.

Lemma run_live n d ev d' :
  live n d -> run_move nMap nReduce file d ev = Some d' -> phase d' = RDone \/ live (n + 1) d'.
Proof using.
  intros Hl Hstep. pose proof Hl as [L1 L2 L3 L4 L5 L6].
  assert (forall a, killed d a -> phase d <> RSplit /\ phase d <> RMaster) as Hkp by (intros a [[? ?] _]; done).
  destruct d as [[m f0] ad cs pr al lo acc ph st]. simpl in L1, L2, L3, Hkp. subst al lo.
  pose proof (live_run n _ f0 ATest ph Hl) as _.
  destruct ev; try done; simpl in Hstep; destruct ph as [| |todo|c|] eqn:Hph; try done.
  - destruct (Split _ _ _) as [fs1|]; simpl in Hstep; [|done]. injection Hstep as <-. right.
    apply (live_run n _ fs1 acc RMaster Hl); try done; [by apply no_kill|]. intros a [? _]%Hkp. done.
  - destruct (returned m) eqn:Hret; simpl in Hstep; [|done].
    destruct (bool_decide _) eqn:E; [|done]. apply bool_decide_eq_true in E. injection Hstep as <-. right.
    apply (live_run n _ f0 acc (RKill order) Hl); try done; [by apply no_kill|..].
    + intros todo [= <-]. destruct (ck_workers _ L4) as [N1 N2]. rewrite E. split; [done|].
      intros a. simpl. rewrite E. apply N2.
    + intros a [_ ?]%Hkp. done.
  - destruct todo as [|a todo]; [done|]. destruct (cs !! None) eqn:Hn; [done|]. injection Hstep as <-. right.
    apply (live_phase n (mkDeployment (mkCluster m f0) ad cs pr true true acc (RKill (a :: todo)) st)); try done.
    + destruct L4. split; try done; simpl.
      * intros w. rewrite lookup_insert_ne by done. apply ck_calls0.
      * eauto.
    + intros k. destruct (decide (k = None)) as [->|Hne]; [by rewrite lookup_insert_eq|by rewrite lookup_insert_ne].
    + intros b [[? ?] Hk]. done.
  - destruct todo as [|a todo]; [|done]. destruct (Merge _ _ _) as [fs1|]; simpl in Hstep; [|done].
    injection Hstep as <-. right.
    apply (live_run n _ fs1 acc (RCleanup CDial) Hl); try done; [by apply no_kill|].
    intros _ _. by apply (ck_past _ L4).
  - destruct c; try done. injection Hstep as <-. right.
    apply (live_run n _ f0 acc (RCleanup CWaiting) Hl); try done; [by apply no_kill|].
    intros _ _. by apply (ck_past _ L4).
  - destruct c; try done. destruct (bool_decide _); [|done]. injection Hstep as <-. right.
    apply (live_run n _ f0 ATest (RCleanup CServing) Hl); try done; [by apply no_kill|].
    intros _ _. by apply (ck_past _ L4).
  - destruct c; try done. injection Hstep as <-. by left.
Qed.

Lemma master_live n d ev d' : live n d -> master_move nMap nReduce file Map Reduce d ev = Some d' -> live (n + 1) d'.
Proof using.
  intros Hl Hstep. destruct ev as [| | |w| |w]; simpl in Hstep; try done.
  - destruct (bool_decide _); [|done]. apply share_master in Hstep as (_ & m & Hm & ->). by eapply live_quiet.
  - destruct (bool_decide _); [|done]. apply share_master in Hstep as (_ & m & Hm & ->). by eapply live_quiet.
  - destruct (share _ _) as [d1|] eqn:E; [|done]. injection Hstep as <-.
    apply share_master in E as (_ & m & Hm & ->). by apply (live_take n d m w).
  - apply share_master in Hstep as (_ & m & Hm & ->). by eapply live_quiet.
Qed.

Lemma register_live n d a d' : live n d -> register nMap nReduce file Map Reduce d a = Some d' -> live (n + 1) d'.
Proof.
  intros Hl. unfold register. destruct (procs d !! a) as [p|] eqn:Hp; simpl; [|done].
  destruct (bool_decide _ && _) eqn:E; [|done].
  apply andb_prop in E as [E1%bool_decide_eq_true E2%bool_decide_eq_true].
  destruct (share _ _) as [d1|] eqn:E; simpl; [|done]. intros [= <-].
  apply share_master in E as (_ & m & Hm & ->). by apply (live_register n d a p m).
Qed.

Lemma live_step n d ev d' : 0 <= n < 2 ^ 61 -> calm ev = true ->
  live n d -> dstep d ev = Some d' -> phase d' = RDone \/ live (n + 1) d'.
Proof.
  intros Hn Hcalm Hl Hstep.
  destruct ev as [a z|a|a ev|a|a|a|a|a| | |ev|k|a k|w name text|k|k| |order| | | | |];
    cbn [MapReduceCluster.dstep] in Hstep; try discriminate Hcalm; try (by eapply run_live); right;
    try (by eapply Register_live); try (by eapply server_live); try (by eapply call_live).
  - destruct (procs d !! a) eqn:Ha; [done|]. injection Hstep as <-.
    apply live_start; [done..|]. simpl in Hcalm. lia.
  - assert (exists r, proc_step d a ev = Some (d', r) /\ (ev = WTest \/ ev = WCount)) as (r & E & Hev).
    { destruct ev as [|[]| | |]; try done; (destruct (proc_step _ _ _) as [[d1 r]|]; simpl in Hstep; [|done]);
        injection Hstep as <-; eauto. }
    apply proc_step_Some in E as (p & w & Hp & _ & _ & Hw & ->). by eapply worker_turn.
  - by eapply register_live.
  - by eapply master_live.
Qed.

Lemma live_start_state : live 0 (MakeMapReduce nMap nReduce fs).
Proof using HnReduce.
  split; try done.
  - split; try done.
    + constructor.
    + split; simpl; [by intros ?%not_elem_of_nil|by destruct nReduce; [lia|..]].
    + by intros [].
    + constructor.
    + simpl. split; [constructor|done].
    + intros w. split; [intros [c Hc]; cbv [MakeMapReduce calls] in Hc; by rewrite lookup_empty in Hc|by intros (j & [?|?])].
    + intros [c Hc]. cbv [MakeMapReduce calls] in Hc; by rewrite lookup_empty in Hc.
  - by intros a ?%not_elem_of_nil.
Qed.

Lemma live_run_all evs d : Z.of_nat (length evs) < 2 ^ 61 -> forallb calm evs = true ->
  exec dstep (MakeMapReduce nMap nReduce fs) evs = Some d ->
  phase d = RDone \/ live (Z.of_nat (length evs)) d.
Proof.
  revert d. induction evs as [|ev evs IH] using rev_ind; intros d Hlen Hcalm.
  { intros [= <-]. right. apply live_start_state. }
  rewrite length_app in Hlen |- *. simpl in Hlen |- *. rewrite exec_app. rewrite forallb_app in Hcalm.
  apply andb_prop in Hcalm as [Hc1 Hc2]. simpl in Hc2. rewrite andb_true_r in Hc2.
  destruct (exec dstep _ evs) as [d1|]; [|done]. cbn [mbind option_bind exec].
  destruct (dstep d1 ev) as [d2|] eqn:E; [|done]. intros [= <-].
  destruct (IH d1) as [Hd|Hl]; [lia|done|done|..].
  - left. apply dstep_advance in E as [? E|? E|? E|? ? E|? E|? E]; congruence.
  - replace (Z.of_nat (length evs + 1)) with (Z.of_nat (length evs) + 1) by lia.
    eapply live_step; [|done..]. lia.
Qed.
End Progress.

(** ** Termination *)

(** The sum of a weight over a map. *)
Definition msum {K A} `{Countable K} (f : A -> nat) (m : gmap K A) : nat :=
  sum_list_with f (map_to_list m).*2.

Lemma sum_list_with_perm {A} (f : A -> nat) l1 l2 : l1 ≡ₚ l2 -> sum_list_with f l1 = sum_list_with f l2.
Proof. induction 1; simpl; lia. Qed.

Lemma msum_delete {K A} `{Countable K} (f : A -> nat) (m : gmap K A) k x :
  m !! k = Some x -> msum f m = (f x + msum f (delete k m))%nat.
Proof.
  intros Hk. unfold msum. rewrite <- (sum_list_with_perm f _ _ (fmap_Permutation snd _ _ (map_to_list_delete m k x Hk))).
  done.
Qed.

Lemma msum_insert {K A} `{Countable K} (f : A -> nat) (m : gmap K A) k x :
  msum f (<[k := x]> m) = (f x + msum f (delete k m))%nat.
Proof. rewrite (msum_delete f _ k x) by apply lookup_insert_eq. by rewrite delete_insert_eq. Qed.

Lemma msum_delete_le {K A} `{Countable K} (f : A -> nat) (m : gmap K A) k : (msum f (delete k m) <= msum f m)%nat.
Proof.
  destruct (m !! k) as [x|] eqn:E; [rewrite (msum_delete f m k x E); lia|by rewrite delete_id].
Qed.

Definition call_weight (c : rpc_pc) : nat := match c with CDial => 6 | CWaiting => 5 | CServing => 1 end.
Definition ppc_weight (x : proc_pc) : nat :=
  match x with PDial => 190 | PWaiting => 185 | PServed => 180 | PReplied => 1 | PLoop => 0 end.
Definition loop_weight (x : loop_pc) : nat := match x with Count => 2 | Test => 1 | _ => 0 end.
Definition proc_weight (p : process) : nat := (ppc_weight (ppc p) + loop_weight (loop (wk p)))%nat.
Definition acceptor_weight (x : acceptor_pc) : nat := match x with ATest => 2 | AAccept => 1 | ADone => 0 end.
Definition phase_weight (workers : list string) (killing : option rpc_pc) (x : run_pc) : nat :=
  match x with
  | RSplit => 41 + 10 * length workers
  | RMaster => 40 + 10 * length workers
  | RKill todo => 20 + 10 * length todo + (if killing is Some _ then 0 else 7)
  | RCleanup CDial => 6
  | RCleanup CWaiting => 5
  | RCleanup CServing => 2
  | RDone => 0
  end.

Definition cluster_measure (d : deployment) : nat :=
  40 * measure (master (shared d)) + msum call_weight (calls d) + msum proc_weight (procs d) +
  acceptor_weight (acceptor d) + phase_weight (Workers (master (shared d))) (calls d !! None) (phase d).

Section Termination.
Context (nMap nReduce : Z) (file : string).
Context (Map : string -> list KeyValue) (Reduce : string -> list string -> string).

#[local] Abbreviation run_step := (run_step nMap nReduce file Map Reduce).
#[local] Abbreviation dstep := (dstep nMap nReduce file Map Reduce).
#[local] Abbreviation share := (share nMap nReduce file Map Reduce).

Lemma set_proc_measure d a p q : procs d !! a = Some p ->
  (cluster_measure (set_proc d a q) + proc_weight p = cluster_measure d + proc_weight q)%nat.
Proof.
  intros Hp. unfold cluster_measure. simpl. rewrite msum_insert, (msum_delete proc_weight (procs d) a p Hp). lia.
Qed.

Lemma set_call_measure d k c c' : calls d !! k = Some c ->
  (cluster_measure (set_calls d (<[k := c']> (calls d))) + call_weight c = cluster_measure d + call_weight c')%nat.
Proof.
  intros Hk. unfold cluster_measure. simpl. rewrite msum_insert, (msum_delete call_weight (calls d) k c Hk).
  assert (forall w x, phase_weight w (<[k := c']> (calls d) !! None) x = phase_weight w (calls d !! None) x) as E.
  { intros w x. destruct (decide (k = None)) as [->|Hne]; [|by rewrite lookup_insert_ne].
    rewrite lookup_insert_eq, Hk. by destruct x. }
  rewrite E. lia.
Qed.

Lemma step_workers m ev m' : step m ev = Some m' -> no_register ev = true -> Workers m' = Workers m.
Proof.
  intros H Hev. destruct ev as [a| | |w|w r|w]; simpl in H; [done|..].
  1-2: unfold RunMaster in H; destruct (returned m); [done|].
  - destruct (mapDone m); [done|]. by injection H as <-.
  - destruct (reduceDone m); [done|]. by injection H as <-.
  - unfold RunWorker in H. destruct (goroutines m !! w) as [[]|]; try done.
    + destruct (mapJobs m) as [|j q]; [done|]. by injection H as <-.
    + destruct (reduceJobs m) as [|j q]; [done|]. by injection H as <-.
  - unfold RunWorker in H. destruct (goroutines m !! w) as [[|j| |j|]|]; try done; [|by destruct (reduceJobs m)|];
      destruct r as [|[]]; (destruct (send _ _ _) as [q|]; [|done]); by injection H as <-.
  - unfold RunWorker in H. destruct (goroutines m !! w) as [[]|]; try done.
    + destruct (reduceStart m); [|done]. by injection H as <-.
    + destruct (reduceJobs m) as [|j q]; [|done]. by injection H as <-.
Qed.

(** A move of the master pays for what follows from it. *)
Lemma share_measure d ev d1 : share d ev = Some d1 ->
  match ev with DMaster ev => no_register ev = true | DCall _ _ => True | DWrite _ _ _ => False end ->
  (cluster_measure d1 + 40 <= cluster_measure d)%nat /\ calls d1 = calls d /\ phase d1 = phase d.
Proof.
  unfold MapReduceCluster.share. intros H Hev.
  assert (exists m fs ev', step (master (shared d)) ev' = Some m /\ no_register ev' = true /\
    d1 = set_shared d (mkCluster m fs)) as (m & fs & ev' & Hm & Hn & ->).
  { destruct ev as [ev|w name text|w []]; cbn [MapReduceRun.run_step] in H; try done.
    - destruct (is_call ev); [done|]. destruct (step _ _) as [m|] eqn:E; [|done]. injection H as <-. by eexists m, _, ev.
    - destruct (current_args _ _ _ _ _) as [arg|]; [|done]. cbn [mbind option_bind] in H.
      destruct (DoJob _ _ _ _) as [[fs ok]|]; [|done]. cbn [mbind option_bind] in H.
      destruct (step _ (WCall w (Answer ok))) as [m|] eqn:E; [|done]. injection H as <-.
      exists m, fs, (WCall w (Answer ok)). done.
    - destruct (step _ _) as [m|] eqn:E; [|done]. injection H as <-. by eexists m, _, _. }
  pose proof (step_measure _ _ _ Hm Hn). split; [|done]. unfold cluster_measure. simpl.
  rewrite (step_workers _ _ _ Hm Hn). lia.
Qed.

Lemma hang_up_measure d w : (cluster_measure (hang_up d (Some w)) <= cluster_measure d)%nat.
Proof.
  unfold cluster_measure. simpl. rewrite lookup_delete_ne by done.
  pose proof (msum_delete_le call_weight (calls d) (Some w)). lia.
Qed.

(** The call of the head of the list ends. *)
Lemma next_kill_measure d a c r : calls d !! None = Some c -> target d None = Some a ->
  (cluster_measure (next_kill (hang_up d None) r) < cluster_measure d)%nat.
Proof.
  intros Hk Ht. unfold cluster_measure. simpl. rewrite (msum_delete call_weight (calls d) None c Hk), Hk.
  simpl in Ht. destruct (phase d) as [| |[|b todo]| |]; try done. cbn [phase_weight length].
  rewrite lookup_delete_eq. destruct c; simpl; lia.
Qed.
Lemma proc_step_measure d a ev d' r x : proc_step d a ev = Some (d', r) ->
  (forall p w, worker_step (wk p) ev = Some (w, r) ->
     (loop_weight (loop w) <= loop_weight (loop (wk p)) + x)%nat) ->
  (cluster_measure d' <= cluster_measure d + x)%nat.
Proof.
  intros (p & w & Hp & _ & _ & Hw & ->)%proc_step_Some H. specialize (H p w Hw).
  pose proof (set_proc_measure d a p (mkProcess (ppc p) w (up p)) Hp) as E. unfold proc_weight in E. simpl in E. lia.
Qed.

Lemma worker_weight p w ev r : worker_step (wk p) ev = Some (w, r) ->
  match ev with
  | WTest | WCount => (loop_weight (loop w) < loop_weight (loop (wk p)))%nat
  | WAccept true => loop_weight (loop w) = 2%nat
  | WAccept false => True
  | WDoJob | WShutdown => loop w = loop (wk p)
  end.
Proof.
  unfold worker_step. destruct ev as [|[]| | |].
  - destruct (loop (wk p)); try done. intros [= <- _]. simpl. destruct (nRPC (wk p) =? 0); simpl; lia.
  - destruct (loop (wk p)); try done. by intros [= <- _].
  - done.
  - destruct (loop (wk p)); try done. intros [= <- _]. simpl. lia.
  - destruct (0 <? served (wk p)); [by intros [= <- _]|done].
  - destruct (0 <? served (wk p)); [by intros [= <- _]|done].
Qed.

Lemma call_measure d k ev d' : call_move nMap nReduce file Map Reduce d k ev = Some d' ->
  match ev with XWrite _ _ _ => False | _ => True end -> (cluster_measure d' < cluster_measure d)%nat.
Proof.
  intros Hstep Hev. unfold call_move in Hstep.
  destruct (calls d !! k) as [c|] eqn:Hk; [|done]. cbn [mbind option_bind] in Hstep.
  destruct (target d k) as [a|] eqn:Ht; [|done]. cbn [mbind option_bind] in Hstep.
  destruct ev as [| | | | | | | | | | |k'|b k'|w name text|k'|k'| | | | | | |]; try done; try (by destruct c).
  - destruct c; try done. destruct (listening d a); [|done]. injection Hstep as <-.
    pose proof (set_call_measure d k CDial CWaiting Hk) as E. simpl in E. lia.
  - destruct c; try done. destruct (String.eqb a b); [|done].
    destruct (proc_step d a (WAccept true)) as [[d1 r]|] eqn:E; [|done]. injection Hstep as <-.
    assert (cluster_measure d1 <= cluster_measure d + 2)%nat.
    { eapply proc_step_measure; [exact E|]. intros p w Hw%worker_weight. simpl in Hw. lia. }
    apply proc_step_Some in E as (p & w & Hp & _ & _ & Hw & ->).
    pose proof (set_call_measure (set_proc d a (mkProcess (ppc p) w (up p))) k CWaiting CServing Hk) as E2.
    cbn [call_weight] in E2. cbn [calls set_proc] in E2 |- *. lia.
  - destruct c; try done. destruct k as [w|].
    + destruct (proc_step d a WDoJob) as [[d1 r]|] eqn:E; [|done]. cbn [mbind option_bind] in Hstep.
      assert (cluster_measure d1 <= cluster_measure d + 0)%nat.
      { eapply proc_step_measure; [exact E|]. intros p w' Hw%worker_weight. rewrite Hw. lia. }
      destruct (share _ _) as [d2|] eqn:E2; [|done]. injection Hstep as <-.
      destruct (share_measure _ _ _ E2 I). pose proof (hang_up_measure d2 w). lia.
    + destruct (proc_step d a WShutdown) as [[d1 r]|] eqn:E; [|done]. injection Hstep as <-.
      assert (cluster_measure d1 <= cluster_measure d + 0)%nat.
      { eapply proc_step_measure; [exact E|]. intros p w' Hw%worker_weight. rewrite Hw. lia. }
      apply proc_step_Some in E as (p & w & Hp & _ & _ & Hw & ->).
      pose proof (next_kill_measure (set_proc d a (mkProcess (ppc p) w (up p))) a CServing r Hk Ht). lia.
  - destruct (match c with CServing => running d a | _ => listening d a end); [done|].
    destruct k as [w|]; simpl in Hstep.
    + destruct (share _ _) as [d2|] eqn:E2; [|done]. injection Hstep as <-.
      destruct (share_measure _ _ _ E2 I). pose proof (hang_up_measure d2 w). lia.
    + injection Hstep as <-. by eapply next_kill_measure.
Qed.

Lemma set_ppc_measure d a p x : procs d !! a = Some p -> (ppc_weight x < ppc_weight (ppc p))%nat ->
  (cluster_measure (set_ppc d a p x) < cluster_measure d)%nat.
Proof.
  intros Hp Hx. pose proof (set_proc_measure d a p (mkProcess x (wk p) (up p)) Hp) as E.
  unfold proc_weight in E. simpl in E. unfold set_ppc. lia.
Qed.

Lemma register_measure d a d' : register nMap nReduce file Map Reduce d a = Some d' ->
  (cluster_measure d' < cluster_measure d)%nat.
Proof.
  unfold register. destruct (procs d !! a) as [p|] eqn:Hp; simpl; [|done].
  destruct (bool_decide _ && _) eqn:E; [|done].
  apply andb_prop in E as [E1%bool_decide_eq_true E2%bool_decide_eq_true].
  unfold MapReduceCluster.share. simpl. unfold RunMaster. destruct (returned _); [done|]. intros [= <-].
  unfold cluster_measure. simpl. rewrite E1, msum_insert, (msum_delete proc_weight (procs d) a p Hp).
  unfold proc_weight, measure. simpl. rewrite E2, sum_list_with_app. simpl.
  case_bool_decide; simpl; lia.
Qed.

Lemma run_measure d ev d' : run_move nMap nReduce file d ev = Some d' -> (cluster_measure d' < cluster_measure d)%nat.
Proof.
  intros Hstep. unfold cluster_measure. destruct ev; try done; simpl in Hstep;
    destruct (phase d) as [| |todo|c|] eqn:Hph; try done.
  - destruct (Split _ _ _) as [fs1|]; simpl in Hstep; [|done]. injection Hstep as <-. simpl. lia.
  - destruct (returned _ && _) eqn:E; [|done]. injection Hstep as <-. simpl.
    apply andb_prop in E as [_ E%bool_decide_eq_true]. rewrite (Permutation_length E).
    destruct (calls d !! None); lia.
  - destruct todo as [|a todo]; [done|]. destruct (calls d !! None) eqn:Hn; [done|]. injection Hstep as <-.
    simpl. rewrite Hph, lookup_insert_eq, msum_insert, delete_id by done. simpl. lia.
  - destruct todo as [|a todo]; [|done]. destruct (Merge _ _ _) as [fs1|]; simpl in Hstep; [|done].
    injection Hstep as <-. simpl. lia.
  - destruct c; try done. injection Hstep as <-. simpl. destruct (l_open d); simpl; lia.
  - destruct c; try done. destruct (l_open d && bool_decide (acceptor d = AAccept)) eqn:E; [|done].
    apply andb_prop in E as [_ ->%bool_decide_eq_true]. injection Hstep as <-. simpl. lia.
  - destruct c; try done. injection Hstep as <-. simpl. lia.
Qed.

(** Every move of the programs of the cluster counts down. *)
Lemma own_measure d ev d' : dstep d ev = Some d' -> own ev = true -> (cluster_measure d' < cluster_measure d)%nat.
Proof.
  intros Hstep Hown. destruct ev as [a z|a|a ev|a|a|a|a|a| | |ev|k|a k|w name text|k|k| |order| | | | |];
    cbn [MapReduceCluster.dstep] in Hstep; try discriminate Hown;
    try (by eapply run_measure); try (by eapply call_measure).
  - assert (exists r, proc_step d a ev = Some (d', r) /\ (ev = WTest \/ ev = WCount)) as (r & E & Hev).
    { destruct ev as [|[]| | |]; try done; (destruct (proc_step _ _ _) as [[d1 r]|]; simpl in Hstep; [|done]);
        injection Hstep as <-; eauto. }
    apply proc_step_Some in E as (p & w & Hp & _ & _ & Hw & ->). apply worker_weight in Hw.
    pose proof (set_proc_measure d a p (mkProcess (ppc p) w (up p)) Hp) as E. unfold proc_weight in E. simpl in E.
    destruct Hev as [-> | ->]; lia.
  - unfold Register in Hstep. destruct (procs d !! a) as [p|] eqn:Hp; simpl in Hstep; [|done].
    destruct (ppc p) eqn:Epc; try done. destruct (up p); [|done]. injection Hstep as <-.
    apply set_ppc_measure; [done|]. rewrite Epc. destruct (l_open d); simpl; lia.
  - unfold Register in Hstep. destruct (procs d !! a) as [p|] eqn:Hp; simpl in Hstep; [|done].
    destruct (ppc p) eqn:Epc; try done. destruct (up p && _); [|done]. injection Hstep as <-.
    apply set_ppc_measure; [done|]. rewrite Epc. simpl. lia.
  - simpl in Hstep. destruct (acceptor d) eqn:Eacc; try done.
    destruct (procs d !! a) as [p|] eqn:Hp; simpl in Hstep; [|done].
    destruct (l_open d && _) eqn:E; [|done]. apply andb_prop in E as [_ E%bool_decide_eq_true]. injection Hstep as <-.
    pose proof (set_proc_measure (set_acceptor d ATest) a p (mkProcess PServed (wk p) (up p)) Hp) as E2.
    unfold proc_weight in E2. simpl in E2. rewrite E in E2. simpl in E2. unfold set_ppc.
    assert (cluster_measure (set_acceptor d ATest) = cluster_measure d + 1)%nat
      by (unfold cluster_measure; simpl; rewrite Eacc; simpl; lia). lia.
  - by eapply register_measure.
  - unfold Register in Hstep. destruct (procs d !! a) as [p|] eqn:Hp; simpl in Hstep; [|done].
    destruct (ppc p) eqn:Epc; try done. destruct (up p); [|done]. injection Hstep as <-.
    apply set_ppc_measure; [done|]. rewrite Epc. simpl. lia.
  - simpl in Hstep. destruct (acceptor d) eqn:Eacc; try done. injection Hstep as <-. unfold cluster_measure. simpl.
    rewrite Eacc. destruct (alive d); simpl; lia.
  - simpl in Hstep. destruct (acceptor d) eqn:Eacc; try done. destruct (l_open d); [done|]. injection Hstep as <-.
    unfold cluster_measure. simpl. rewrite Eacc. simpl. lia.
  - destruct ev as [| | |w| |w]; simpl in Hstep; try done.
    + destruct (bool_decide _); [|done]. by destruct (share_measure _ _ _ Hstep eq_refl); lia.
    + destruct (bool_decide _); [|done]. by destruct (share_measure _ _ _ Hstep eq_refl); lia.
    + destruct (share _ _) as [d1|] eqn:E; [|done]. injection Hstep as <-.
      destruct (share_measure _ _ _ E eq_refl) as (? & _). unfold cluster_measure in *. simpl.
      rewrite lookup_insert_ne, msum_insert by done.
      pose proof (msum_delete_le call_weight (calls d1) (Some w)). simpl. lia.
    + by destruct (share_measure _ _ _ Hstep eq_refl); lia.
Qed.

Lemma own_bounded evs : forall d d', exec dstep d evs = Some d' -> forallb own evs = true ->
  (length evs + cluster_measure d' <= cluster_measure d)%nat.
Proof.
  induction evs as [|ev evs IH]; intros d d'; simpl; [intros [= ->]; lia|].
  destruct (dstep d ev) as [d1|] eqn:E; [|done]. intros H [Hev Hevs]%andb_prop.
  pose proof (own_measure _ _ _ E Hev). specialize (IH _ _ H Hevs). lia.
Qed.
End Termination.

(** ** No deadlock *)

Section Completion.
Context (nMap nReduce : Z) (file content : string) (fs : FS).
Context (Map : string -> list KeyValue) (Reduce : string -> list string -> string).
Context (HnMap : 0 < nMap < 2 ^ 62) (HnReduce : 0 < nReduce < 2 ^ 32).
Context (Hsize : Z.of_nat (String.length content) < 2 ^ 61) (Hfile : fs !! file = Some content).
Context (Hlen : Z.of_nat (length (splits nMap content)) = nMap).
Context (Hok : forallb kv_ok (pairs nMap content Map) = true).
Context (Hred : forall k vs, utf8_ok (Reduce k vs) = true).

#[local] Abbreviation run_step := (run_step nMap nReduce file Map Reduce).
#[local] Abbreviation dstep := (dstep nMap nReduce file Map Reduce).
#[local] Abbreviation share := (share nMap nReduce file Map Reduce).
#[local] Abbreviation live := (live nMap nReduce).
#[local] Abbreviation cluster_ok := (cluster_ok nMap nReduce file content fs Map Reduce).
#[local] Abbreviation computing := (computing nMap nReduce file content Map Reduce).

Definition can_go (d : deployment) : Prop := exists ev, own ev = true /\ is_Some (dstep d ev).

Lemma job_done s w : computing s -> in_call (master s) w -> is_Some (run_step s (DCall w true)).
Proof using HnMap HnReduce Hok.
  intros (chunk & Hp & Hv) (j & Hj). pose proof (ri_master _ _ _ _ _ _ _ _ Hv) as Hreach.
  destruct (call_returns nMap nReduce HnMap (master s) w j (Answer true)) as [m Hm];
    [by apply (run_ok nMap nReduce HnMap); [lia|]|done|].
  assert (exists p arg, goroutines (master s) !! w = Some p /\ job_args file nMap nReduce p = Some arg)
    as (p & arg & Hp' & Harg) by (destruct Hj as [Hj|Hj]; rewrite Hj; by eexists _, _).
  destruct (job_succeeds nMap nReduce file content Map Reduce HnMap HnReduce chunk Hp Hok s w p arg Hv Hp' Harg)
    as (fs' & Hjob).
  cbn [MapReduceRun.run_step]. unfold current_args. rewrite Hp'. cbn [mbind option_bind]. rewrite Harg.
  cbn [mbind option_bind]. rewrite Hjob. cbn [mbind option_bind]. rewrite Hm. cbn [mbind option_bind]. eauto.
Qed.

(** A call that is under way goes on, unless its worker does. *)
Lemma call_goes n d k : live n d -> cluster_ok d -> is_Some (calls d !! k) -> can_go d.
Proof using HnMap HnReduce Hok.
  intros Hl Hd [c Hk]. pose proof (lv_calls _ _ _ _ Hl) as Hc.
  destruct (call_target nMap nReduce d k Hc) as (a & Ht & Ha); [by rewrite Hk|].
  destruct (lv_addrs _ _ _ _ Hl a Ha) as [p Hp].
  destruct (lv_procs _ _ _ _ Hl a p Hp) as [P1 P2 P3 P4 P5 P6]. destruct c.
  - exists (XDial k). split; [done|]. cbn [MapReduceCluster.dstep]. unfold call_move. rewrite Hk, Ht.
    cbn [mbind option_bind]. destruct (live_listening _ _ _ _ _ Hl Ha) as [-> _]. eauto.
  - apply P6 in Ha. destruct (ppc p) eqn:Epc; try done.
    { exists (XRegReply a). split; [done|]. simpl. unfold Register. rewrite Hp. simpl. rewrite Epc, P1. eauto. }
    destruct (loop (wk p)) eqn:El; [| | |done].
    + exists (XLoop a WTest). split; [done|]. simpl. unfold proc_step. rewrite Hp. simpl.
      rewrite P1, Epc, El. simpl. eauto.
    + exists (XAccept a k). split; [done|]. cbn [MapReduceCluster.dstep]. unfold call_move. rewrite Hk, Ht.
      cbn [mbind option_bind]. rewrite String.eqb_refl. unfold proc_step. rewrite Hp. simpl.
      rewrite P1, Epc, El. simpl. eauto.
    + exists (XLoop a WCount). split; [done|]. simpl. unfold proc_step. rewrite Hp. simpl.
      rewrite P1, Epc, El. simpl. eauto.
  - exists (XServe k). split; [done|]. cbn [MapReduceCluster.dstep]. unfold call_move. rewrite Hk, Ht.
    cbn [mbind option_bind]. pose proof (P5 k Hk Ht) as Hs.
    assert (forall ev, ev = WDoJob \/ ev = WShutdown -> exists w r, proc_step d a ev =
      Some (set_proc d a (mkProcess (ppc p) w (up p)), r)) as Hps.
    { intros ev Hev. unfold proc_step. rewrite Hp. simpl. rewrite P1.
      destruct Hev as [-> | ->]; simpl; replace (0 <? served (wk p)) with true by lia; by eexists _, _. }
    destruct k as [w|].
    + destruct (Hps WDoJob ltac:(auto)) as (wk' & r & ->). cbn [mbind option_bind].
      unfold MapReduceCluster.share. assert (in_call (master (shared d)) w) as Hcall
        by (apply (ck_calls _ _ _ Hc); by rewrite Hk).
      assert (computing (shared d)) as Hcomp.
      { unfold MapReduceCluster.cluster_ok in Hd. destruct (phase d) eqn:Hph; try done.
        - rewrite Hd in Hcall. by destruct Hcall as (j & [?|?]).
        - apply Hd.
        - rewrite (past_no_calls nMap nReduce HnMap HnReduce d w Hc) in Hk; [done|]. unfold past. by rewrite Hph.
        - rewrite (past_no_calls nMap nReduce HnMap HnReduce d w Hc) in Hk; [done|]. unfold past. by rewrite Hph. }
      destruct (job_done (shared d) w Hcomp Hcall) as [s' Hs'].
      change (shared (set_proc d a _)) with (shared d). rewrite Hs'. cbn [mbind option_bind]. eauto.
    + destruct (Hps WShutdown ltac:(auto)) as (wk' & r & ->). cbn [mbind option_bind]. eauto.
Qed.

(** A worker that has not registered yet. *)
Lemma registration_goes n d a p : live n d -> procs d !! a = Some p -> addrs d = [] -> phase d = RMaster ->
  returned (master (shared d)) = false -> can_go d.
Proof using.
  intros Hl Hp Ha Hph Hret. destruct (lv_procs _ _ _ _ Hl a p Hp) as [P1 P2 P3 P4 P5 P6].
  destruct Hl as [L1 L2 L3 L4 L5 L6]. rewrite Ha in P6. destruct (ppc p) eqn:Epc.
  - exists (XRegDial a). split; [done|]. simpl. unfold Register. rewrite Hp. simpl. rewrite Epc, P1. eauto.
  - destruct (acceptor d) eqn:Eacc; [| |done].
    + exists XAlive. split; [done|]. simpl. rewrite Eacc. eauto.
    + exists (XRegAccept a). split; [done|]. simpl. rewrite Eacc, Hp. simpl. rewrite L1, Epc. simpl. eauto.
  - exists (XRegSend a). split; [done|]. simpl. unfold register. rewrite Hp. simpl. rewrite Hph, Epc. simpl.
    unfold MapReduceCluster.share. simpl. unfold RunMaster. rewrite Hret. simpl. eauto.
  - by destruct (not_elem_of_nil a (proj1 P6 eq_refl)).
  - by destruct (not_elem_of_nil a (proj1 P6 eq_refl)).
Qed.

(** [RunMaster] and its goroutines. *)
Lemma master_goes n d : live n d -> cluster_ok d -> procs d <> ∅ -> phase d = RMaster ->
  returned (master (shared d)) = false -> can_go d.
Proof using HnMap HnReduce Hok.
  intros Hl Hd Hne Hph Hret. pose proof (lv_calls _ _ _ _ Hl) as Hc.
  destruct (decide (goroutines (master (shared d)) = [])) as [Hg|Hg].
  { apply map_choose in Hne as (a & p & Hp). eapply registration_goes; [done..| |done|done].
    apply length_zero_iff_nil. by rewrite (ck_addrs _ _ _ Hc), Hg. }
  destruct (smooth_moves nMap nReduce (master (shared d)) HnMap ltac:(lia)) as (ev & Hev); [|by apply Hc|done..|].
  { apply (run_ok nMap nReduce HnMap); [lia|by apply Hc]. }
  destruct (Hev (Answer true)) as [Hr [m Hm]].
  assert (is_call (ev (Answer true)) = false -> run_step (shared d) (DMaster (ev (Answer true))) =
    Some (mkCluster m (disk (shared d)))) as Hshare.
  { intros E. cbn [MapReduceRun.run_step]. by rewrite E, Hm. }
  destruct (ev (Answer true)) as [a| | |w|w r|w] eqn:E; [done|..].
  - exists (XMaster MMapDone). split; [done|]. simpl. rewrite Hph. simpl.
    unfold MapReduceCluster.share. rewrite Hshare by done. simpl. eauto.
  - exists (XMaster MReduceDone). split; [done|]. simpl. rewrite Hph. simpl.
    unfold MapReduceCluster.share. rewrite Hshare by done. simpl. eauto.
  - exists (XMaster (WTake w)). split; [done|]. cbn [MapReduceCluster.dstep master_move].
    unfold MapReduceCluster.share. rewrite Hshare by done. simpl. eauto.
  - apply (call_goes n d (Some w)); [done|done|]. apply (ck_calls _ _ _ Hc).
    destruct (step_goroutines _ _ _ Hm) as (p & p' & Hp & Hcall & _). apply in_call_pc. eauto.
  - exists (XMaster (WLeave w)). split; [done|]. cbn [MapReduceCluster.dstep master_move].
    unfold MapReduceCluster.share. rewrite Hshare by done. simpl. eauto.
Qed.

Lemma cluster_goes n d : live n d -> cluster_ok d -> procs d <> ∅ -> phase d <> RDone -> can_go d.
Proof using HnMap HnReduce Hsize Hfile Hlen Hok Hred.
  intros Hl Hd Hne Hph. pose proof (lv_calls _ _ _ _ Hl) as Hc.
  pose proof Hd as Hd'. unfold MapReduceCluster.cluster_ok in Hd'.
  destruct (phase d) as [| |[|a todo]|c|] eqn:E; try done.
  - exists XSplit. split; [done|]. simpl. rewrite E, Hd'. simpl.
    destruct (Split_result nMap file content fs HnMap Hsize Hfile) as (fs1 & -> & _). simpl. eauto.
  - destruct (returned (master (shared d))) eqn:Hret; [|by eapply master_goes].
    exists (XReturn (Workers (master (shared d)))). split; [done|]. simpl. rewrite E, Hret. simpl.
    rewrite bool_decide_eq_true_2 by done. eauto.
  - exists XMerge. split; [done|]. simpl. rewrite E. destruct Hd' as [H1 H2].
    destruct (merge_computing nMap nReduce file content Map Reduce HnMap HnReduce Hok Hred _ H1 H2) as (fs2 & -> & _).
    simpl. eauto.
  - destruct (calls d !! None) as [c|] eqn:Hk; [eapply (call_goes n d None); eauto|].
    exists XKill. split; [done|]. simpl. rewrite E, Hk. eauto.
  - destruct Hl as [L1 L2 L3 _ _ _]. destruct c.
    + exists XCleanDial. split; [done|]. simpl. rewrite E. eauto.
    + destruct (acceptor d) eqn:Eacc; [| |done].
      * exists XAlive. split; [done|]. simpl. rewrite Eacc. eauto.
      * exists XCleanAccept. split; [done|]. simpl. rewrite E, L1, Eacc. simpl. eauto.
    + exists XCleanServe. split; [done|]. simpl. rewrite E. eauto.
Qed.

Lemma procs_stay d ev d' : dstep d ev = Some d' -> procs d <> ∅ -> procs d' <> ∅.
Proof using.
  intros Hstep (a & p & Hp)%map_choose E. destruct (dstep_ppc _ _ _ _ _ _ _ _ _ _ Hstep Hp) as (p' & Hp' & _).
  by rewrite E, lookup_empty in Hp'.
Qed.

Lemma own_calm ev : own ev = true -> calm ev = true.
Proof using. by destruct ev as [| |? [|[]| | |]| | | | | | | | | | | | | | | | | | | |]. Qed.

(** The run can be carried to its end. *)
Lemma cluster_finishes k : forall n d, (cluster_measure d <= k)%nat -> 0 <= n -> n + Z.of_nat k < 2 ^ 61 ->
  phase d = RDone \/ live n d -> cluster_ok d -> procs d <> ∅ ->
  exists evs d', forallb own evs = true /\ exec dstep d evs = Some d' /\ phase d' = RDone.
Proof using HnMap HnReduce Hsize Hfile Hlen Hok Hred.
  induction k as [|k IH]; intros n d Hm Hn Hk Hl Hd Hne;
    (destruct (decide (phase d = RDone)) as [Hph|Hph]; [by exists [], d|]);
    (destruct Hl as [?|Hl]; [done|]);
    destruct (cluster_goes n d Hl Hd Hne Hph) as (ev & Hown & [d1 Hstep]);
    pose proof (own_measure _ _ _ _ _ _ _ _ Hstep Hown); [lia|].
  destruct (IH (n + 1) d1) as (evs & d' & H1 & H2 & H3); [lia|lia|lia|..].
  - eapply live_step; [done|done| |by apply own_calm|exact Hl|exact Hstep]. lia.
  - by eapply advance_ok, dstep_advance.
  - by eapply procs_stay.
  - exists (ev :: evs), d'. simpl. rewrite Hstep, Hown. done.
Qed.
End Completion.

(** C10: a distributed run ends.  In a run in which no process dies, workers without a
    limit of connections may start at any moment.  Then, once there is a worker, the
    programs always have a move until [Run] signals [DoneChannel]; they make at most
    [cluster_measure d] moves from the state [d], whoever moves; and so they can be
    driven to the end, whatever happened before.  In particular no call fails, no
    channel blocks for ever, and [KillWorkers] and [CleanupRegistration] return. *)
Theorem cluster_completes nMap nReduce file content fs Map Reduce evs d :
  0 < nMap < 2 ^ 62 -> 0 < nReduce < 2 ^ 32 ->
  Z.of_nat (String.length content) < 2 ^ 61 -> fs !! file = Some content ->
  Z.of_nat (length (splits nMap content)) = nMap ->
  forallb kv_ok (pairs nMap content Map) = true ->
  (forall k vs, utf8_ok (Reduce k vs) = true) ->
  exec (dstep nMap nReduce file Map Reduce) (MakeMapReduce nMap nReduce fs) evs = Some d ->
  forallb calm evs = true -> Z.of_nat (length evs + cluster_measure d) < 2 ^ 61 -> procs d <> ∅ ->
  (phase d <> RDone -> exists ev, own ev = true /\ is_Some (dstep nMap nReduce file Map Reduce d ev)) /\
  (forall evs' d', exec (dstep nMap nReduce file Map Reduce) d evs' = Some d' -> forallb own evs' = true ->
     (length evs' + cluster_measure d' <= cluster_measure d)%nat) /\
  exists evs' d', forallb own evs' = true /\
    exec (dstep nMap nReduce file Map Reduce) d evs' = Some d' /\ phase d' = RDone.
Proof.
  intros Hn Hr Hsize Hfile Hlen Hok Hred Hrun Hcalm Hbound Hne.
  pose proof (cluster_run nMap nReduce file content fs Map Reduce Hn Hr Hsize Hfile Hlen Hok Hred
    evs d Hrun) as Hd.
  pose proof (live_run_all nMap nReduce file fs Map Reduce Hn Hr evs d ltac:(lia) Hcalm Hrun) as Hl.
  split_and!.
  - intros Hph. destruct Hl as [?|Hl]; [done|]. by eapply (cluster_goes nMap nReduce file content fs).
  - intros evs' d'. apply own_bounded.
  - by apply (cluster_finishes nMap nReduce file content fs Map Reduce Hn Hr Hsize Hfile Hlen Hok Hred
      (cluster_measure d) (Z.of_nat (length evs))); [..|lia|lia| | |].
Qed.

(** Two workers have started, one of them has a job. *)
Definition demo_begun : list devent :=
  demo_join "w1" (-1) ++ [XSplit; XRegSend "w1"; XStart "w2" (-1); XMaster (WTake 0); XDial (Some 0%nat)].

Lemma cluster_completes_witness :
  let d := run (dstep 2 2 "in" demo_map demo_constant) (MakeMapReduce 2 2 demo_fs) demo_begun in
  (exists ev, own ev = true /\ is_Some (dstep 2 2 "in" demo_map demo_constant d ev)) /\
  exists evs' d', forallb own evs' = true /\
    exec (dstep 2 2 "in" demo_map demo_constant) d evs' = Some d' /\ phase d' = RDone.
Proof.
  intros d.
  pose proof (exec_run (dstep 2 2 "in" demo_map demo_constant) (MakeMapReduce 2 2 demo_fs) demo_begun
    ltac:(vm_refl)) as Hexec.
  assert (procs d <> ∅) as Hne by (intros E; by vm_compute in E).
  destruct (cluster_completes 2 2 "in" demo_input demo_fs demo_map demo_constant demo_begun d
    ltac:(lia) ltac:(lia) ltac:(vm_refl) ltac:(vm_refl) ltac:(vm_refl) ltac:(vm_refl)
    (fun _ _ => eq_refl) Hexec ltac:(vm_refl) ltac:(vm_refl) Hne) as (H1 & _ & H3).
  split; [|exact H3]. apply H1. vm_compute. discriminate.
Defined.
