(* ===== verification/WordCountMain.v ===== *)
(** The word-count program (src/project-3/src/main/wc.go) in its two ways of counting:
    alone, and as a master whose workers run the same program. *)
From Stdlib Require Import Ascii.
From S2P Require Import Prelude GoText Utf8 Json MapReduce MapReduceSpec MapReduceSplit WordCount MapReduceMaster MapReduceRun MapReduceCluster.

Section Main.
Context (letter_table : Z -> bool) (Htable : letter_table RuneError = false).

#[local] Abbreviation Map := (WordCount.Map letter_table).

(** What the two runs need of their input: its lines fit the scanner's buffer and make
    [nMap] splits. *)
Record countable_input (nMap : Z) (file content : string) (fs : FS) : Prop := {
  ci_size : Z.of_nat (String.length content) < 2 ^ 61;
  ci_file : fs !! file = Some content;
  ci_fits : forallb line_fits (raw_lines content) = true;
  ci_splits : Z.of_nat (length (splits nMap content)) = nMap
}.

Lemma distributed_words nMap nReduce file content fs evs d :
  0 < nMap < 2 ^ 62 -> 0 < nReduce < 2 ^ 32 -> countable_input nMap file content fs ->
  exec (dstep nMap nReduce file Map Reduce) (MakeMapReduce nMap nReduce fs) evs = Some d ->
  phase d = RDone -> disk (shared d) !! OutName file = Some (word_report (words letter_table content)).
Proof using Htable.
  intros Hn Hr [Hsize Hfile Hfit Hlen] Hrun Hdone.
  rewrite <- report_words by (intros w; by apply count_small).
  rewrite <- (pairs_words letter_table nMap) by done. eapply cluster_result; try done.
  - rewrite pairs_words by done. apply forallb_elem.
    intros kv (w & -> & Hw)%list_elem_of_fmap. unfold kv_ok. simpl. by rewrite (word_ok _ Htable _ _ Hw).
  - intros k vs. apply Itoa_utf8.
Qed.

(** C5: the word-count program counts words, however it is run.  On an input that
    makes five splits, [wc master x sequential] writes every distinct word once, in byte
    order, with the number of its occurrences; and [wc master x addr] starts a master
    whose workers, whatever registers, dies, fails, runs out of its calls or writes half
    of a file, leave the same file when it signals [DoneChannel]. *)
Theorem wc_correct file content fs :
  countable_input 5 file content fs ->
  (exists fs', main letter_table "wc" ["master"; file; "sequential"] fs = Sequential (Some fs') /\
     fs' !! OutName file = Some (word_report (words letter_table content))) /\
  (forall address, address <> "sequential"%string ->
     exists nmap nreduce, main letter_table "wc" ["master"; file; address] fs = Master nmap nreduce file address /\
       forall evs d, exec (dstep nmap nreduce file Map Reduce) (MakeMapReduce nmap nreduce fs) evs = Some d ->
         phase d = RDone -> disk (shared d) !! OutName file = Some (word_report (words letter_table content))).
Proof using Htable.
  intros Hin. split.
  - destruct (word_count_correct letter_table Htable 5 3 file content fs) as (fs' & Hrun & Ho);
      [lia|lia|apply Hin..|]. exists fs'. split; [|done]. simpl. unfold main_sequential. by rewrite Hrun.
  - intros address Ha. exists 5, 3. split.
    + simpl. by rewrite (proj2 (String.eqb_neq _ _) Ha).
    + intros evs d. apply distributed_words; [lia|lia|done].
Qed.
End Main.

(** ** Witness: a sequential run, and a distributed one with one worker *)

Definition wc_demo : string :=
  ("to be not" ++ newline ++ "to be or" ++ newline ++ "to be" ++ newline ++ "to be" ++ newline ++ "to" ++ newline)%string.
Definition wc_demo_fs : FS := {["in"%string := wc_demo]}.

Definition wc_schedule : list devent :=
  demo_join "w1" (-1) ++ [XSplit; XRegSend "w1"] ++ demo_loop "w1" ++
  concat (replicate 5 (demo_job "w1" 0 MMapDone)) ++ [XMaster (WLeave 0)] ++ concat (replicate 3 (demo_job "w1" 0 MReduceDone)) ++
  [XReturn ["w1"]; XKill] ++ demo_call "w1" None ++ [XMerge; XCleanDial; XAlive; XCleanAccept;
   XCleanServe; XAlive].

Lemma wc_correct_witness :
  let d := run (dstep 5 3 "in" (WordCount.Map (fun _ => false)) Reduce) (MakeMapReduce 5 3 wc_demo_fs) wc_schedule in
  phase d = RDone /\
  disk (shared d) !! OutName "in" =
    Some ("be: 4" ++ newline ++ "not: 1" ++ newline ++ "or: 1" ++ newline ++ "to: 5" ++ newline)%string.
Proof.
  set (d := run _ _ _). cbv zeta. assert (phase d = RDone) as Hdone by vm_refl. split; [exact Hdone|].
  pose proof (exec_run (dstep 5 3 "in" (WordCount.Map (fun _ => false)) Reduce) (MakeMapReduce 5 3 wc_demo_fs)
    wc_schedule ltac:(vm_refl)) as Hexec.
  destruct (wc_correct (fun _ => false) eq_refl "in" wc_demo wc_demo_fs) as [_ H].
  { split; vm_refl. }
  destruct (H "localhost:7777"%string) as (nmap & nreduce & Hmain & Hd); [discriminate|].
  injection Hmain as <- <-. rewrite (Hd wc_schedule d Hexec Hdone). vm_refl.
Defined.
