(* ===== verification/BufChan.v ===== *)
(** The unbounded channel (src/bufchan/buffchan.go).

    A mutex, a list and a condition variable.  Every method holds the mutex from
    its first line to its return or to [Wait], so each stretch between is one step.
    [waiting] is the notification list of the condition variable, oldest first;
    [woken] are the goroutines that were signalled and have still to get the mutex
    back.  [returned] records what [Remove] and [AsyncRemove] gave away. *)
From S2P Require Import Prelude.

(** The list without the first [g]. *)
Fixpoint remove_one (g : nat) (q : list nat) : list nat :=
  match q with
  | [] => []
  | x :: q => if decide (x = g) then q else x :: remove_one g q
  end.

Lemma remove_one_length g q : g ∈ q -> S (length (remove_one g q)) = length q.
Proof.
  induction q as [|x q IH]; [by intros ?%not_elem_of_nil|]. simpl. case_decide as E; [done|].
  intros [->|Hg]%elem_of_cons; [done|]. simpl. by rewrite IH.
Qed.

Section BufChan.
Context {V : Type}.

Record BufferedChannel := mkChan {
  l : list V;
  waiting : list nat;
  woken : list nat;
  appended : list V;            (* history *)
  returned : list V             (* history *)
}.

Definition New : BufferedChannel := mkChan [] [] [] [] [].

Inductive op :=
| Append (v : V)
| Remove (g : nat)              (* goroutine [g] calls Remove *)
| Resume (g : nat)              (* goroutine [g] is back from Wait *)
| Inspect
| AsyncRemove.

(** [b.c.Signal()] *)
Definition Signal (b : BufferedChannel) : BufferedChannel :=
  match waiting b with
  | g :: q => mkChan (l b) q (woken b ++ [g]) (appended b) (returned b)
  | [] => b
  end.

(** The condition of the loop in [Remove], and what follows it: a value, or the
    goroutine goes to sleep. *)
Definition remove_loop (b : BufferedChannel) (g : nat) : BufferedChannel * option V :=
  match l b with
  | [] => (mkChan [] (waiting b ++ [g]) (woken b) (appended b) (returned b), None)
  | v :: q => (mkChan q (waiting b) (woken b) (appended b) (returned b ++ [v]), Some v)
  end.

Definition take_first (b : BufferedChannel) : BufferedChannel * option V :=
  match l b with
  | [] => (b, None)
  | v :: q => (mkChan q (waiting b) (woken b) (appended b) (returned b ++ [v]), Some v)
  end.

(** The new state and the value the call returns, if it returns one: nothing from
    [Append], [None] for [nil] and for a [Remove] that waits. *)
Definition step_val (b : BufferedChannel) (o : op) : option (BufferedChannel * option V) :=
  match o with
  | Append v =>
      Some (Signal (mkChan (l b ++ [v]) (waiting b) (woken b) (appended b ++ [v]) (returned b)), None)
  | Remove g => Some (remove_loop b g)
  | Resume g =>
      if bool_decide (g ∈ woken b) then
        Some (remove_loop (mkChan (l b) (waiting b) (remove_one g (woken b))
                             (appended b) (returned b)) g)
      else None
  | Inspect => Some (b, head (l b))
  | AsyncRemove => Some (take_first b)
  end.

Definition step (b : BufferedChannel) (o : op) : option BufferedChannel := fst <$> step_val b o.

(** ** Invariants *)

Record chan_inv (b : BufferedChannel) : Prop := {
  ci_fifo : appended b = returned b ++ l b;
  ci_awake : waiting b <> [] -> (length (l b) <= length (woken b))%nat
}.

Lemma remove_loop_inv b g :
  appended b = returned b ++ l b ->
  (waiting b <> [] -> (length (l b) <= S (length (woken b)))%nat) -> chan_inv (remove_loop b g).1.
Proof.
  intros H1 H2. unfold remove_loop. destruct (l b) as [|v q] eqn:E; constructor; simpl; rewrite ?H1.
  - done.
  - lia.
  - by rewrite <- app_assoc.
  - intros Hw. specialize (H2 Hw). simpl in H2. lia.
Qed.

Lemma chan_step_inv b o b' : chan_inv b -> step b o = Some b' -> chan_inv b'.
Proof.
  intros [H1 H2]. unfold step, step_val. destruct o as [v|g|g| |].
  - intros [= <-]. unfold Signal. simpl. destruct (waiting b) as [|g q] eqn:E; constructor; simpl.
    + by rewrite H1, app_assoc.
    + done.
    + by rewrite H1, app_assoc.
    + intros _. rewrite !length_app. specialize (H2 ltac:(done)). simpl. lia.
  - intros [= <-]. apply remove_loop_inv; [done|]. intros Hw. specialize (H2 Hw). lia.
  - case_bool_decide as Hg; [|done]. intros [= <-]. apply remove_loop_inv; simpl; [done|].
    intros Hw. rewrite (remove_one_length g) by done. auto.
  - by intros [= <-].
  - intros [= <-]. unfold take_first. destruct (l b) as [|v q] eqn:E; [constructor; simpl; by rewrite E|].
    constructor; simpl; [by rewrite H1, <- app_assoc|]. intros Hw. specialize (H2 Hw). simpl in H2. lia.
Qed.

Lemma reach_inv b : reachable step New b -> chan_inv b.
Proof.
  apply (reachable_inv step chan_inv); [by constructor|]. intros s s' ev. apply chan_step_inv.
Qed.
End BufChan.

Arguments BufferedChannel : clear implicits.
Arguments op : clear implicits.

(** C32: the channel is a queue.  In every state that the methods can reach, the
    values taken so far, in the order they were taken, and then those still
    inside, are the values appended, in their order: none is lost, repeated or
    overtaken. *)
Theorem bufchan_fifo (V : Type) (b : BufferedChannel V) :
  reachable step New b -> appended b = returned b ++ l b.
Proof. intros H. apply (reach_inv b H). Qed.

(** C33: no wake-up is lost.  While a goroutine sleeps in [Remove], every value
    inside is matched by a goroutine that was already signalled; so a value never
    lies in the channel with all its takers asleep, and a signalled goroutine that
    runs next gets the oldest value. *)
Theorem bufchan_no_lost_wakeup (V : Type) (b : BufferedChannel V) :
  reachable step New b -> waiting b <> [] -> l b <> [] ->
  (length (l b) <= length (woken b))%nat /\
  exists g, g ∈ woken b /\
    exists b', step_val b (Resume g) = Some (b', head (l b)) /\ l b' = tail (l b).
Proof.
  intros H Hw Hl. destruct (reach_inv b H) as [_ Ha]. specialize (Ha Hw). split; [done|].
  destruct (l b) as [|v q] eqn:E; [done|]. destruct (woken b) as [|g gs] eqn:Eg; [simpl in Ha; lia|].
  exists g. split; [by left|]. unfold step_val. rewrite Eg, bool_decide_eq_true_2 by (by left).
  unfold remove_loop. simpl. rewrite E. by eexists.
Qed.

(** ** Witnesses *)

Definition demo_ops : list (op Z) := [Remove 1; Remove 2; Append 5; Append 6; AsyncRemove].

Lemma bufchan_fifo_witness :
  appended (run step New demo_ops) = returned (run step New demo_ops) ++ l (run step New demo_ops).
Proof.
  apply (bufchan_fifo Z).
  exact (exec_reachable step demo_ops New _ (exec_run step New demo_ops ltac:(vm_refl))).
Defined.

Definition demo_sleep : list (op Z) := [Remove 1; Remove 2; Append 5].

Lemma bufchan_no_lost_wakeup_witness :
  (length (l (run step New demo_sleep)) <= length (woken (run step New demo_sleep)))%nat.
Proof.
  refine (proj1 (bufchan_no_lost_wakeup Z (run step New demo_sleep) _ _ _)).
  - exact (exec_reachable step demo_sleep New _ (exec_run step New demo_sleep ltac:(vm_refl))).
  - vm_compute. discriminate.
  - vm_compute. discriminate.
Defined.
