(* ===== verification/Midterm.v ===== *)
(** src/midterm.go: the Fibonacci numbers through a buffered channel. *)
From S2P Require Import Prelude.

(** The loop of [fibonacci]: [n] turns left, the channel holds [c]; [None] is a send
    that blocks for ever, since nothing receives before the loop ends. *)
Fixpoint fib_loop (n : nat) (cap x y : Z) (c : list Z) : option (list Z) :=
  match n with
  | O => Some c
  | S n => c ← send cap c x; fib_loop n cap y (int64 (x + y)) c
  end.

(** The channel when it is closed. *)
Definition fibonacci (cap : Z) : option (list Z) := fib_loop (Z.to_nat cap) cap 0 1 [].

(** What [main] prints, a line each. *)
Definition main : option (list Z) := fibonacci 6.

Fixpoint fib_pair (n : nat) : Z * Z :=
  match n with
  | O => (0, 1)
  | S n => let '(x, y) := fib_pair n in (y, x + y)
  end.

(** The mathematical Fibonacci numbers. *)
Definition fib (n : nat) : Z := (fib_pair n).1.

Lemma fib_pair_eq n : fib_pair n = (fib n, fib (S n)).
Proof. unfold fib. simpl. by destruct (fib_pair n). Qed.

Lemma fib_SS n : fib (S (S n)) = fib n + fib (S n).
Proof. unfold fib. simpl. rewrite fib_pair_eq. done. Qed.

Lemma int64_add a b : int64 (int64 a + int64 b) = int64 (a + b).
Proof.
  unfold int64. f_equal.
  replace ((a + 2 ^ 63) mod 2 ^ 64 - 2 ^ 63 + ((b + 2 ^ 63) mod 2 ^ 64 - 2 ^ 63) + 2 ^ 63)
    with ((a + 2 ^ 63) mod 2 ^ 64 + ((b + 2 ^ 63) mod 2 ^ 64) - 2 ^ 63) by lia.
  rewrite <- Zminus_mod_idemp_l, <- Zplus_mod, Zminus_mod_idemp_l. f_equal. lia.
Qed.

Lemma fib_loop_spec cap n k c :
  Z.of_nat (length c + n) <= cap ->
  fib_loop n cap (int64 (fib k)) (int64 (fib (S k))) c =
    Some (c ++ ((fun i => int64 (fib i)) <$> seq k n)).
Proof.
  revert k c. induction n as [|n IH]; intros k c Hc; simpl; [by rewrite app_nil_r|].
  rewrite (proj2 (send_Some cap c _ _)) by (split; [lia|done]). simpl.
  rewrite int64_add, <- fib_SS, IH by (rewrite length_app; simpl; lia). by rewrite <- app_assoc.
Qed.

(** [fibonacci] never blocks and fills the channel with the first [cap]
    Fibonacci numbers in order, each modulo the wrap-around of [int]. *)
Theorem fibonacci_correct cap :
  fibonacci cap = Some ((fun i => int64 (fib i)) <$> seq 0 (Z.to_nat cap)).
Proof.
  unfold fibonacci. destruct (decide (0 <= cap)) as [H|H].
  - apply (fib_loop_spec cap (Z.to_nat cap) 0 []). simpl. lia.
  - by replace (Z.to_nat cap) with 0%nat by lia.
Qed.
