(* ===== verification/KvServer.v ===== *)
(** The key/value server (src/project-1/src/example.com/p1) and the list of its
    clients (src/project-1/src/example.com/clist).

    The goroutines are [listen], [dispatch] and, per connection, [receiver] and
    [sender]; [server_step] adds [Start] and [Close].  A connection is given with all the bytes it will ever receive, the
    end of the connection included; a receiver that waits for more bytes is one
    the schedule does not move. *)
From Stdlib Require Import Ascii.
From S2P Require Import Prelude GoText.

(** ** Requests *)

Record request := mkRequest { command : string; key : string; value : string }.

#[export] Instance request_eq_dec : EqDecision request.
Proof. solve_decision. Defined.

Definition comma : ascii := ","%char.
Definition nl : ascii := ascii_of_nat 10.

(** [ReadBytes(delim)] without the delimiter; [None] is the end of the connection
    before a delimiter. *)
Fixpoint ReadBytes (delim : ascii) (s : string) : option (string * string) :=
  match s with
  | EmptyString => None
  | String c s =>
      if Ascii.eqb c delim then Some (EmptyString, s)
      else match ReadBytes delim s with
           | Some (buf, rest) => Some (String c buf, rest)
           | None => None
           end
  end.

(** One turn of the loop of [receiver]: a request, nothing (an unknown command is
    passed over), or the end. *)
Inductive read_result :=
| ReadRequest (r : request) (rest : string)
| ReadSkip (rest : string)
| ReadEnd.

Definition read_request (s : string) : read_result :=
  match ReadBytes comma s with
  | None => ReadEnd
  | Some (cmd, s) =>
      if String.eqb cmd "get" then
        match ReadBytes nl s with
        | Some (k, s) => ReadRequest (mkRequest "get" k EmptyString) s
        | None => ReadEnd
        end
      else if String.eqb cmd "set" then
        match ReadBytes comma s with
        | Some (k, s) =>
            match ReadBytes nl s with
            | Some (v, s) => ReadRequest (mkRequest "set" k v) s
            | None => ReadEnd
            end
        | None => ReadEnd
        end
      else ReadSkip s
  end.

(** All the requests of a connection, in order.  Each turn consumes a byte. *)
Fixpoint requests_fuel (fuel : nat) (s : string) : list request :=
  match fuel with
  | S fuel =>
      match read_request s with
      | ReadRequest r rest => r :: requests_fuel fuel rest
      | ReadSkip rest => requests_fuel fuel rest
      | ReadEnd => []
      end
  | O => []
  end.

Definition requests (s : string) : list request := requests_fuel (String.length s) s.

(** ** State *)

Record response := mkResponse { rkey : string; rvalue : string }.

(** Where [receiver] is: at the head of its loop, sending a request to [req], about
    to remove the client, returned. *)
Inductive receiver_pc := RLoop | RPush (r : request) | RLeave | RGone.

Record client := mkClient {
  full : string;                (* the connection, for the proofs *)
  input : string;               (* what is still to be read *)
  rpc : receiver_pc;
  req : list request;           (* channel of capacity 500 *)
  res : list response;          (* channel of capacity 500 *)
  sent : list response          (* what [sender] wrote *)
}.

Definition chan_cap : Z := 500.

(** What the peer of the connection sees. *)
Definition output (c : client) : string :=
  concat_all ((fun r => rkey r ++ "," ++ rvalue r ++ newline)%string <$> sent c).

(** Where [dispatch] is: before one of its two iterations, or in it with the
    clients still to visit; an iteration holds the mutex of the list. *)
Inductive dispatch_pc :=
| DStart
| DScan (rest : list nat) (rs : list response)
| DStartReply (rs : list response)
| DReply (rest : list nat) (rs : list response).

Record kvs := mkKvs {
  kvstore : gmap string string;
  items : list nat;             (* the concurrent list: connections, in order *)
  mutex : bool;                 (* held? *)
  conns : gmap nat client;      (* every connection ever accepted *)
  dpc : dispatch_pc;
  log : list (nat * request)    (* executed requests, for the proofs *)
}.

(** [clist.New]: the list, and the mutex, a channel of capacity 1 that is held when
    full. *)
Definition clist_New : list nat * bool := ([], false).

Definition New : kvs := mkKvs ∅ clist_New.1 clist_New.2 ∅ DStart [].

(** ** kv.go *)

Definition set (store : gmap string string) (k v : string) : gmap string string := <[k := v]> store.
Definition get (store : gmap string string) (k : string) : string := default EmptyString (store !! k).

(** Executing a request, and its response if it has one. *)
Definition execute (store : gmap string string) (r : request) : gmap string string * list response :=
  let rs := if String.eqb (command r) "get" then [mkResponse (key r) (get store (key r))] else [] in
  let store := if String.eqb (command r) "set" then set store (key r) (value r) else store in
  (store, rs).

(** ** clist.go: each operation takes the mutex *)

Definition PushBack (s : kvs) (v : nat) : option (list nat) :=
  if mutex s then None else Some (items s ++ [v]).

Definition Len (s : kvs) : option Z :=
  if mutex s then None else Some (Z.of_nat (length (items s))).

Fixpoint remove_first (v : nat) (q : list nat) : list nat :=
  match q with
  | [] => []
  | x :: q => if decide (x = v) then q else x :: remove_first v q
  end.

Definition Remove (s : kvs) (v : nat) : option (list nat) :=
  if mutex s then None else Some (remove_first v (items s)).

Definition Iter (s : kvs) : option (list nat) := if mutex s then None else Some (items s).

Definition Count (s : kvs) : option Z := Len s.

(** ** The goroutines *)

Definition put_conn (s : kvs) (i : nat) (c : client) : kvs :=
  mkKvs (kvstore s) (items s) (mutex s) (<[i := c]> (conns s)) (dpc s) (log s).
Definition set_items (s : kvs) (q : list nat) : kvs :=
  mkKvs (kvstore s) q (mutex s) (conns s) (dpc s) (log s).
Definition set_dpc (s : kvs) (p : dispatch_pc) (held : bool) : kvs :=
  mkKvs (kvstore s) (items s) held (conns s) p (log s).

(** A connection is accepted; connections are numbered in their order. *)
Definition listen (s : kvs) (stream : string) : option kvs :=
  let i := size (conns s) in
  q ← PushBack s i;
  Some (set_items (put_conn s i (mkClient stream stream RLoop [] [] [])) q).

Definition sender (s : kvs) (i : nat) : option kvs :=
  c ← conns s !! i;
  match res c with
  | r :: q => Some (put_conn s i (mkClient (full c) (input c) (rpc c) (req c) q (sent c ++ [r])))
  | [] => None
  end.

Definition receiver (s : kvs) (i : nat) : option kvs :=
  c ← conns s !! i;
  match rpc c with
  | RLoop =>
      match read_request (input c) with
      | ReadRequest r rest => Some (put_conn s i (mkClient (full c) rest (RPush r) (req c) (res c) (sent c)))
      | ReadSkip rest => Some (put_conn s i (mkClient (full c) rest RLoop (req c) (res c) (sent c)))
      | ReadEnd => Some (put_conn s i (mkClient (full c) (input c) RLeave (req c) (res c) (sent c)))
      end
  | RPush r =>
      q ← send chan_cap (req c) r;
      Some (put_conn s i (mkClient (full c) (input c) RLoop q (res c) (sent c)))
  | RLeave =>
      q ← Remove s i;
      Some (set_items (put_conn s i (mkClient (full c) (input c) RGone (req c) (res c) (sent c))) q)
  | RGone => None
  end.

(** [select { case c.res <- r: default: break }] for each response: one that does
    not fit is dropped. *)
Fixpoint offer (q : list response) (rs : list response) : list response :=
  match rs with
  | [] => q
  | r :: rs => offer (default q (send chan_cap q r)) rs
  end.

Definition dispatch (s : kvs) : option kvs :=
  match dpc s with
  | DStart => q ← Iter s; Some (set_dpc s (DScan q []) true)
  | DScan (i :: rest) rs =>
      match conns s !! i with
      | Some c =>
          match req c with
          | r :: q =>
              let '(store, rs') := execute (kvstore s) r in
              Some (mkKvs store (items s) (mutex s)
                (<[i := mkClient (full c) (input c) (rpc c) q (res c) (sent c)]> (conns s))
                (DScan rest (rs ++ rs')) (log s ++ [(i, r)]))
          | [] => Some (set_dpc s (DScan rest rs) true)
          end
      | None => None
      end
  | DScan [] rs =>
      Some (set_dpc s (match rs with [] => DStart | _ => DStartReply rs end) false)
  | DStartReply rs => q ← Iter s; Some (set_dpc s (DReply q rs) true)
  | DReply (i :: rest) rs =>
      match conns s !! i with
      | Some c =>
          Some (mkKvs (kvstore s) (items s) (mutex s)
            (<[i := mkClient (full c) (input c) (rpc c) (req c) (offer (res c) rs) (sent c)]> (conns s))
            (DReply rest rs) (log s))
      | None => None
      end
  | DReply [] rs => Some (set_dpc s DStart false)
  end.

Inductive event :=
| KAccept (stream : string)
| KReceive (i : nat)
| KSend (i : nat)
| KDispatch.

Definition step (s : kvs) (ev : event) : option kvs :=
  match ev with
  | KAccept stream => listen s stream
  | KReceive i => receiver s i
  | KSend i => sender s i
  | KDispatch => dispatch s
  end.

(** ** Start and Close

    A server is started once.  [KAcceptFails] is an error of [Accept], which ends
    [listen], and which a closed listener always gives; the other goroutines go on. *)

Inductive listener := LNone | LOpen | LClosed.

#[export] Instance listener_eq_dec : EqDecision listener.
Proof. solve_decision. Defined.

Record keyValueServer := mkServer {
  ln : listener;
  accepting : bool;             (* has [listen] not returned? *)
  data : kvs
}.

Definition New_server : keyValueServer := mkServer LNone false New.

Definition createDB (s : kvs) : kvs := mkKvs ∅ (items s) (mutex s) (conns s) (dpc s) (log s).

(** [ok]: can the port be listened on?  If not, [Start] returns the error. *)
Definition Start (v : keyValueServer) (ok : bool) : option keyValueServer :=
  match ln v with
  | LNone => Some (if ok then mkServer LOpen true (createDB (data v)) else v)
  | _ => None
  end.

(** Closing a server that was not started is a nil dereference. *)
Definition Close (v : keyValueServer) : option keyValueServer :=
  match ln v with
  | LNone => None
  | _ => Some (mkServer LClosed (accepting v) (data v))
  end.

Inductive server_event := KStart (ok : bool) | KClose | KAcceptFails | KMove (ev : event).

Definition is_accept (ev : event) : bool := match ev with KAccept _ => true | _ => false end.

Definition server_step (v : keyValueServer) (ev : server_event) : option keyValueServer :=
  match ev with
  | KStart ok => Start v ok
  | KClose => Close v
  | KAcceptFails => if accepting v then Some (mkServer (ln v) false (data v)) else None
  | KMove ev =>
      if bool_decide (ln v = LNone) || (is_accept ev && negb (accepting v && bool_decide (ln v = LOpen))) then None
      else s ← step (data v) ev; Some (mkServer (ln v) (accepting v) s)
  end.

(** ** Reading requests *)

Lemma ReadBytes_length d s buf rest :
  ReadBytes d s = Some (buf, rest) -> (String.length rest < String.length s)%nat.
Proof.
  revert buf. induction s as [|c s IH]; intros buf; simpl; [done|]. case_match; [intros [= _ ->]; lia|].
  destruct (ReadBytes d s) as [[b r]|]; [|done]. intros [= _ ->]. specialize (IH _ eq_refl). lia.
Qed.

Lemma read_request_length s :
  match read_request s with
  | ReadRequest _ rest | ReadSkip rest => (String.length rest < String.length s)%nat
  | ReadEnd => True
  end.
Proof.
  unfold read_request.
  repeat (case_match; try done; repeat match goal with
    | H : ReadBytes _ _ = Some _ |- _ => apply ReadBytes_length in H
    | H : ReadRequest _ _ = ReadRequest _ _ |- _ => injection H as ? ?; subst
    | H : ReadSkip _ = ReadSkip _ |- _ => injection H as ?; subst end); lia.
Qed.

Lemma requests_fuel_enough n m s :
  (String.length s <= n)%nat -> (String.length s <= m)%nat -> requests_fuel n s = requests_fuel m s.
Proof.
  revert m s. induction n as [|n IH]; intros m s Hn Hm.
  { destruct s; [by destruct m|simpl in Hn; lia]. }
  destruct m as [|m]; [destruct s; [done|simpl in Hm; lia]|]. cbn [requests_fuel].
  pose proof (read_request_length s) as H. destruct (read_request s) as [r rest|rest|]; [|..|done].
  - f_equal. apply IH; lia.
  - apply IH; lia.
Qed.

(** The requests of a connection, one turn of the loop at a time. *)
Lemma requests_eq s :
  requests s = match read_request s with
               | ReadRequest r rest => r :: requests rest
               | ReadSkip rest => requests rest
               | ReadEnd => []
               end.
Proof.
  unfold requests at 1. pose proof (read_request_length s) as H.
  destruct s as [|c s]; [done|]. cbn [String.length requests_fuel].
  cbn [String.length] in H. destruct (read_request (String c s)) as [r rest|rest|]; [|..|done].
  - f_equal. apply requests_fuel_enough; lia.
  - apply requests_fuel_enough; lia.
Qed.

Lemma ReadBytes_app d buf rest :
  all_chars (fun c => negb (Ascii.eqb c d)) buf = true ->
  ReadBytes d (buf ++ String d rest) = Some (buf, rest).
Proof.
  induction buf as [|c buf IH]; cbn [all_chars String.append ReadBytes]; [by rewrite Ascii.eqb_refl|].
  intros [Hc%negb_true_iff Hb]%andb_prop. by rewrite Hc, IH.
Qed.

(** What a client of the server writes. *)
Definition render (r : request) : string :=
  if String.eqb (command r) "get" then ("get," ++ key r ++ newline)%string
  else ("set," ++ key r ++ "," ++ value r ++ newline)%string.

Definition request_ok (r : request) : bool :=
  (String.eqb (command r) "get" && String.eqb (value r) EmptyString &&
     all_chars (fun c => negb (Ascii.eqb c nl)) (key r)) ||
  (String.eqb (command r) "set" && all_chars (fun c => negb (Ascii.eqb c comma)) (key r) &&
     all_chars (fun c => negb (Ascii.eqb c nl)) (value r)).

Lemma read_request_render r rest :
  request_ok r = true -> read_request (render r ++ rest) = ReadRequest r rest.
Proof.
  destruct r as [cmd k v]. unfold request_ok, render. cbn [command key value].
  intros [[[Hc Hv]%andb_prop Hk]%andb_prop|[[Hc Hk]%andb_prop Hv]%andb_prop]%orb_prop;
    apply String.eqb_eq in Hc as ->; simpl String.eqb; cbv iota.
  - apply String.eqb_eq in Hv as ->. unfold read_request.
    change (("get," ++ k ++ newline) ++ rest)%string with ("get" ++ String comma ((k ++ newline) ++ rest))%string.
    rewrite ReadBytes_app by done. simpl String.eqb. cbv iota. rewrite string_app_assoc.
    change (newline ++ rest)%string with (String nl rest). by rewrite ReadBytes_app.
  - unfold read_request.
    change (("set," ++ k ++ "," ++ v ++ newline) ++ rest)%string
      with ("set" ++ String comma ((k ++ String comma (v ++ newline)) ++ rest))%string.
    rewrite ReadBytes_app by done. simpl String.eqb. cbv iota. rewrite string_app_assoc.
    change (String comma (v ++ newline) ++ rest)%string with (String comma ((v ++ newline) ++ rest)).
    rewrite ReadBytes_app, string_app_assoc by done.
    change (newline ++ rest)%string with (String nl rest). by rewrite ReadBytes_app.
Qed.

(** C31: the text protocol round trip: the server reads from a connection exactly
    the requests the client wrote to it, in order, when keys and values are free of
    the delimiters that end them. *)
Theorem kv_requests_roundtrip rs :
  forallb request_ok rs = true -> requests (concat_all (render <$> rs)) = rs.
Proof.
  induction rs as [|r rs IH]; [done|]. intros [Hr Hrs]%andb_prop. rewrite fmap_cons.
  cbn [concat_all]. rewrite requests_eq, read_request_render by done. by rewrite IH.
Qed.

(** ** The invariant *)

(** The store and the responses after a list of requests. *)
Definition replay_one (st : gmap string string * list response) (e : nat * request)
    : gmap string string * list response :=
  let '(store, rs) := execute st.1 e.2 in (store, st.2 ++ rs).

Definition replay (l : list (nat * request)) : gmap string string * list response :=
  foldl replay_one (∅, []) l.

(** The executed requests of a connection. *)
Definition executed (i : nat) (l : list (nat * request)) : list request :=
  (base.filter (fun e => e.1 = i) l).*2.

Definition pending (c : client) : list request :=
  match rpc c with RPush r => [r] | _ => [] end.

(** The responses [dispatch] holds. *)
Definition in_hand (p : dispatch_pc) : list response :=
  match p with DStart => [] | DScan _ rs | DStartReply rs | DReply _ rs => rs end.

(** Has connection [i] been offered the responses in hand? *)
Definition replied (p : dispatch_pc) (i : nat) : Prop :=
  match p with DReply rest _ => i ∉ rest | _ => False end.

Definition iterating (p : dispatch_pc) : option (list nat) :=
  match p with DScan rest _ | DReply rest _ => Some rest | _ => None end.

Record client_ok (s : kvs) (base : list response) (i : nat) (c : client) : Prop := {
  co_order : requests (full c) = executed i (log s) ++ req c ++ pending c ++ requests (input c);
  co_seen : sent c ++ res c `sublist_of` base ++ in_hand (dpc s);
  co_seen_base : ~ replied (dpc s) i -> sent c ++ res c `sublist_of` base;
  co_item : i ∈ items s <-> rpc c <> RGone
}.

Record kv_inv (s : kvs) (base : list response) : Prop := {
  ki_store : kvstore s = (replay (log s)).1;
  ki_base : (replay (log s)).2 = base ++ in_hand (dpc s);
  ki_client : forall i c, conns s !! i = Some c -> client_ok s base i c;
  ki_dom : forall i, is_Some (conns s !! i) <-> (i < size (conns s))%nat;
  ki_items : NoDup (items s);
  ki_live : forall i, i ∈ items s -> is_Some (conns s !! i);
  ki_log : forall i r, (i, r) ∈ log s -> is_Some (conns s !! i);
  ki_mutex : mutex s = bool_decide (is_Some (iterating (dpc s)));
  ki_rest : forall rest, iterating (dpc s) = Some rest -> NoDup rest /\ forall i, i ∈ rest -> i ∈ items s
}.

Lemma executed_app i l1 l2 : executed i (l1 ++ l2) = executed i l1 ++ executed i l2.
Proof. unfold executed. by rewrite filter_app, fmap_app. Qed.

Lemma executed_one i j r : executed i [(j, r)] = if decide (j = i) then [r] else [].
Proof. unfold executed. rewrite filter_cons, filter_nil. simpl. by case_decide. Qed.

Lemma replay_snoc l e :
  replay (l ++ [e]) = ((execute (replay l).1 e.2).1, (replay l).2 ++ (execute (replay l).1 e.2).2).
Proof. unfold replay. by rewrite foldl_app. Qed.

Lemma dom_insert_same {A} (m : gmap nat A) i x y :
  m !! i = Some x -> (forall j, is_Some (m !! j) <-> (j < size m)%nat) ->
  forall j, is_Some (<[i := y]> m !! j) <-> (j < size (<[i := y]> m))%nat.
Proof.
  intros Hi H j. rewrite map_size_insert_Some by (by eexists). rewrite <- H.
  rewrite lookup_insert_is_Some'. split; [intros [<-|?]; [by eexists|done]|auto].
Qed.

(** A goroutine of connection [i] moves: the list, the dispatcher and the log stay. *)
Lemma conn_move_inv s base i c c' :
  kv_inv s base -> conns s !! i = Some c -> client_ok s base i c' ->
  kv_inv (put_conn s i c') base.
Proof.
  intros [H1 H2 H3 H4 H5 H6 H7 H8 H9] Hi Hc. constructor; simpl; try done.
  - intros j cj [[<- <-]|[Hne Hj]]%lookup_insert_Some.
    + by destruct Hc.
    + by destruct (H3 _ _ Hj).
  - by eapply dom_insert_same.
  - intros j Hj. rewrite lookup_insert_is_Some'. auto.
  - intros j r Hj. rewrite lookup_insert_is_Some'. right. by eapply H7.
Qed.

Lemma sender_inv s base i s' : kv_inv s base -> sender s i = Some s' -> kv_inv s' base.
Proof.
  intros Hv. unfold sender. destruct (conns s !! i) as [c|] eqn:Hi; simpl; [|done].
  destruct (res c) as [|r q] eqn:Er; [done|]. intros [= <-]. eapply conn_move_inv; [done..|].
  destruct (ki_client _ _ Hv _ _ Hi) as [C1 C2 C3 C4]. rewrite Er in *.
  constructor; simpl; try done; by rewrite <- app_assoc.
Qed.

Lemma remove_first_elem i q : NoDup q -> forall j, j ∈ remove_first i q <-> j ∈ q /\ j <> i.
Proof.
  induction 1 as [|x q Hx Hq IH]; intros j; simpl; [split; [by intros ?%not_elem_of_nil|by intros [? _]]|].
  case_decide as E.
  - subst x. rewrite elem_of_cons. split; [intros Hj; split; [by right|by intros ->]|].
    intros [[?|?] ?]; done.
  - rewrite !elem_of_cons, IH. split; [intros [->|[? ?]]; auto|]. intros [[?|?] ?]; auto.
Qed.

Lemma remove_first_NoDup i q : NoDup q -> NoDup (remove_first i q).
Proof.
  intros H. induction H as [|x q Hx Hq IH]; simpl; [constructor|]. case_decide; [done|].
  constructor; [|done]. rewrite remove_first_elem by done. by intros [? _].
Qed.

(** Nothing iterates while the mutex is free. *)
Lemma free_iterating s base : kv_inv s base -> mutex s = false -> iterating (dpc s) = None.
Proof.
  intros Hv Hm. rewrite (ki_mutex _ _ Hv) in Hm. apply bool_decide_eq_false in Hm.
  by apply eq_None_not_Some.
Qed.

Lemma kv_receiver_inv s base i s' : kv_inv s base -> receiver s i = Some s' -> kv_inv s' base.
Proof.
  intros Hv. unfold receiver. destruct (conns s !! i) as [c|] eqn:Hi; simpl; [|done].
  destruct (ki_client _ _ Hv _ _ Hi) as [C1 C2 C3 C4].
  destruct (rpc c) as [|r| |] eqn:Hpc; [..|done]; unfold pending in C1; rewrite Hpc in C1.
  - pose proof (requests_eq (input c)) as Hreq.
    destruct (read_request (input c)) as [r rest|rest|] eqn:Er; intros [= <-];
      (eapply conn_move_inv; [done..|]); rewrite Hreq in C1;
      (constructor; simpl; [|done|done|by rewrite C4]); by rewrite ?Hreq.
  - destruct (send _ _ _) as [q|] eqn:Eq; simpl; [|done]. apply send_Some in Eq as [_ ->].
    intros [= <-]. eapply conn_move_inv; [done..|]. constructor; simpl; [|done|done|by rewrite C4].
    by rewrite <- app_assoc.
  - unfold Remove. destruct (mutex s) eqn:Em; [done|]. intros [= <-].
    pose proof (free_iterating _ _ Hv Em) as Hit.
    destruct Hv as [H1 H2 H3 H4 H5 H6 H7 H8 H9].
    constructor; simpl; try done.
    + intros j cj [[<- <-]|[Hne Hj]]%lookup_insert_Some.
      * constructor; simpl; [done|done|done|].
        rewrite remove_first_elem by done. split; [by intros [_ ?]|done].
      * destruct (H3 _ _ Hj) as [D1 D2 D3 D4]. constructor; simpl; try done.
        rewrite remove_first_elem by done. rewrite <- D4. split; [by intros [? _]|auto].
    + by eapply dom_insert_same.
    + by apply remove_first_NoDup.
    + intros j [Hj _]%remove_first_elem; [|done]. rewrite lookup_insert_is_Some'. auto.
    + intros j r Hj. rewrite lookup_insert_is_Some'. right. by eapply H7.
    + intros rest. by rewrite Hit.
Qed.

Lemma listen_inv s base stream s' : kv_inv s base -> listen s stream = Some s' -> kv_inv s' base.
Proof.
  intros Hv. unfold listen, PushBack. destruct (mutex s) eqn:Em; [done|]. intros [= <-].
  pose proof (free_iterating _ _ Hv Em) as Hit. destruct Hv as [H1 H2 H3 H4 H5 H6 H7 H8 H9].
  set (i := size (conns s)). assert (conns s !! i = None) as Hnew.
  { apply eq_None_not_Some. intros H%H4. unfold i in H. lia. }
  assert (i ∉ items s) as Hni by (intros [x Hx]%H6; congruence).
  constructor; simpl; try done.
  - intros j cj [[<- <-]|[Hne Hj]]%lookup_insert_Some.
    + constructor; simpl; try apply sublist_nil_l.
      * assert (executed i (log s) = []) as ->; [|done]. unfold executed.
        destruct (base.filter (fun e => e.1 = i) (log s)) as [|[j r] q] eqn:E; [done|]. exfalso.
        assert ((j, r) ∈ base.filter (fun e => e.1 = i) (log s)) as [E1 E2]%list_elem_of_filter
          by (rewrite E; by left). simpl in E1. subst j. apply H7 in E2 as [x Hx]. congruence.
      * intros _. apply sublist_nil_l.
      * split; [done|]. intros _. apply elem_of_app. right. by left.
    + destruct (H3 _ _ Hj) as [D1 D2 D3 D4]. constructor; simpl; try done.
      rewrite elem_of_app, list_elem_of_singleton, <- D4. split; [intros [?|?]; [done|congruence]|auto].
  - intros j. rewrite map_size_insert_None by done. fold i. rewrite lookup_insert_is_Some', H4. fold i.
    lia.
  - apply NoDup_app. split_and!; [done| |apply NoDup_singleton].
    by intros x Hx ->%list_elem_of_singleton.
  - intros j [Hj|Hj%list_elem_of_singleton]%elem_of_app; rewrite lookup_insert_is_Some'; auto.
  - intros j r Hj. rewrite lookup_insert_is_Some'. right. by eapply H7.
  - intros rest. by rewrite Hit.
Qed.

Lemma offer_sublist q rs : exists q', offer q rs = q ++ q' /\ q' `sublist_of` rs.
Proof.
  revert q. induction rs as [|r rs IH]; intros q; simpl; [exists []; by rewrite app_nil_r|].
  destruct (send chan_cap q r) as [q1|] eqn:E; simpl.
  - apply send_Some in E as [_ ->]. destruct (IH (q ++ [r])) as (q' & -> & Hs).
    exists (r :: q'). split; [by rewrite <- app_assoc|]. by apply sublist_skip.
  - destruct (IH q) as (q' & -> & Hs). exists q'. split; [done|]. by apply sublist_cons.
Qed.

(** A move of the dispatcher that only changes where it is. *)
Lemma dpc_move_inv s base base' p held :
  kv_inv s base -> base' ++ in_hand p = base ++ in_hand (dpc s) ->
  base `prefix_of` base' ->
  (forall i c, conns s !! i = Some c -> ~ replied p i -> sent c ++ res c `sublist_of` base') ->
  held = bool_decide (is_Some (iterating p)) ->
  (forall rest, iterating p = Some rest -> NoDup rest /\ forall i, i ∈ rest -> i ∈ items s) ->
  kv_inv (set_dpc s p held) base'.
Proof.
  intros [H1 H2 H3 H4 H5 H6 H7 H8 H9] Hbase Hpre Hseen Hheld Hrest.
  constructor; simpl; try done.
  - by rewrite H2.
  - intros i c Hi. destruct (H3 _ _ Hi) as [C1 C2 C3 C4]. constructor; simpl; try done.
    + by rewrite Hbase.
    + by apply Hseen.
Qed.

(** Executing the request of the visited client. *)
Lemma scan_inv s base i rest rs c r q :
  kv_inv s base -> dpc s = DScan (i :: rest) rs -> conns s !! i = Some c -> req c = r :: q ->
  kv_inv (mkKvs (execute (kvstore s) r).1 (items s) (mutex s)
    (<[i := mkClient (full c) (input c) (rpc c) q (res c) (sent c)]> (conns s))
    (DScan rest (rs ++ (execute (kvstore s) r).2)) (log s ++ [(i, r)])) base.
Proof.
  intros [H1 H2 H3 H4 H5 H6 H7 H8 H9] Hp Hi Hr. rewrite Hp in *. simpl in *.
  constructor; simpl; try done.
  - by rewrite replay_snoc, H1.
  - rewrite replay_snoc, H2. simpl. by rewrite <- H1, app_assoc.
  - intros j cj [[<- <-]|[Hne Hj]]%lookup_insert_Some.
    + destruct (H3 _ _ Hi) as [C1 C2 C3 C4]. rewrite Hp in *. simpl in *.
      constructor; simpl; try done.
      * rewrite executed_app, executed_one, decide_True, <- app_assoc by done. by rewrite C1, Hr.
      * rewrite app_assoc. by apply sublist_inserts_r.
    + destruct (H3 _ _ Hj) as [C1 C2 C3 C4]. rewrite Hp in *. simpl in *.
      constructor; simpl; try done.
      * rewrite executed_app, executed_one, decide_False, app_nil_r by done. done.
      * rewrite app_assoc. by apply sublist_inserts_r.
  - by eapply dom_insert_same.
  - intros j Hj. rewrite lookup_insert_is_Some'. auto.
  - intros j x [Hj|Hj%list_elem_of_singleton]%elem_of_app; rewrite lookup_insert_is_Some'.
    + right. by eapply H7.
    + left. congruence.
  - intros rest' [= <-]. destruct (H9 _ eq_refl) as [Hnd Hin]. inversion Hnd; subst.
    split; [done|]. intros j Hj. apply Hin. by right.
Qed.

(** Offering the responses to the visited client. *)
Lemma reply_inv s base i rest rs c :
  kv_inv s base -> dpc s = DReply (i :: rest) rs -> conns s !! i = Some c ->
  kv_inv (mkKvs (kvstore s) (items s) (mutex s)
    (<[i := mkClient (full c) (input c) (rpc c) (req c) (offer (res c) rs) (sent c)]> (conns s))
    (DReply rest rs) (log s)) base.
Proof.
  intros [H1 H2 H3 H4 H5 H6 H7 H8 H9] Hp Hi. rewrite Hp in *. simpl in *.
  destruct (H9 _ eq_refl) as [Hnd Hin]. inversion Hnd as [|? ? Hir Hnd']; subst.
  constructor; simpl; try done.
  - intros j cj [[<- <-]|[Hne Hj]]%lookup_insert_Some.
    + destruct (H3 _ _ Hi) as [C1 C2 C3 C4]. rewrite Hp in *. simpl in *.
      constructor; simpl; try done.
      destruct (offer_sublist (res c) rs) as (q' & -> & Hs). rewrite app_assoc.
      apply sublist_app; [|done]. apply C3. intros Hx. apply Hx. by left.
    + destruct (H3 _ _ Hj) as [C1 C2 C3 C4]. rewrite Hp in *. simpl in *.
      constructor; simpl; try done. intros Hx. apply C3. intros Hy. apply Hx.
      intros Hz. apply Hy. by right.
  - by eapply dom_insert_same.
  - intros j Hj. rewrite lookup_insert_is_Some'. auto.
  - intros j x Hj. rewrite lookup_insert_is_Some'. right. by eapply H7.
  - intros rest' [= <-]. split; [done|]. intros j Hj. apply Hin. by right.
Qed.

Lemma dispatch_inv s base s' :
  kv_inv s base -> dispatch s = Some s' -> exists base', kv_inv s' base' /\ base `prefix_of` base'.
Proof.
  intros Hv. unfold dispatch.
  assert (forall i c, conns s !! i = Some c -> sent c ++ res c `sublist_of` base ++ in_hand (dpc s)) as Hall
    by (intros i c Hi; apply (ki_client _ _ Hv _ _ Hi)).
  assert (forall i c, conns s !! i = Some c -> ~ replied (dpc s) i -> sent c ++ res c `sublist_of` base)
    as Hbase by (intros i c Hi; apply (ki_client _ _ Hv _ _ Hi)).
  destruct (dpc s) as [|rest rs|rs|rest rs] eqn:Hp.
  - unfold Iter. destruct (mutex s) eqn:Em; [done|]. intros [= <-]. exists base. split; [|done].
    apply (dpc_move_inv s base); rewrite ?Hp; try done.
    intros rest [= <-]. split; [apply Hv|done].
  - destruct rest as [|i rest].
    + intros [= <-]. exists base. split; [|done].
      destruct rs as [|r rs]; apply (dpc_move_inv s base); rewrite ?Hp; try done.
    + destruct (conns s !! i) as [c|] eqn:Hi; [|done]. destruct (req c) as [|r q] eqn:Er.
      * intros [= <-]. exists base. split; [|done].
        destruct (ki_rest _ _ Hv (i :: rest)) as [Hnd Hin]; [by rewrite Hp|].
        apply (dpc_move_inv s base); rewrite ?Hp; try done.
        intros rest' [= <-]. inversion Hnd; subst. split; [done|]. intros j Hj. apply Hin. by right.
      * pose proof (scan_inv s base i rest rs c r q Hv Hp Hi Er) as Hs.
        destruct (execute (kvstore s) r) as [store rs']. intros [= <-]. by exists base.
  - unfold Iter. destruct (mutex s) eqn:Em; [done|]. intros [= <-]. exists base. split; [|done].
    apply (dpc_move_inv s base); rewrite ?Hp; try done.
    + intros i c Hi _. apply (Hbase i c Hi). by intros [].
    + intros rest [= <-]. split; [apply Hv|done].
  - destruct rest as [|i rest].
    + intros [= <-]. exists (base ++ rs). split; [|by apply prefix_app_r].
      apply (dpc_move_inv s base); rewrite ?Hp; try done.
      * simpl. by rewrite app_nil_r.
      * by apply prefix_app_r.
      * intros i c Hi _. by apply (Hall i).
    + destruct (conns s !! i) as [c|] eqn:Hi; [|done]. intros [= <-]. exists base.
      split; [|done]. by apply reply_inv.
Qed.

Lemma kv_reachable s : reachable step New s -> exists base, kv_inv s base.
Proof.
  intros H. apply (reachable_inv step (fun s => exists base, kv_inv s base)) with New; [..|done].
  - exists []. constructor; try done; simpl.
    + intros i. rewrite map_size_empty, lookup_empty. split; [by intros [? ?]|lia].
    + constructor.
    + by intros i ?%not_elem_of_nil.
    + by intros i r ?%not_elem_of_nil.
  - intros s1 s2 ev [base Hv] E. destruct ev as [stream|i|i|].
    + exists base. by eapply listen_inv.
    + exists base. by eapply kv_receiver_inv.
    + exists base. by eapply sender_inv.
    + destruct (dispatch_inv _ _ _ Hv E) as (base' & Hv' & _). by exists base'.
Qed.
(** What a started server does, its goroutines do. *)
Lemma server_data v : reachable server_step New_server v -> reachable step New (data v).
Proof.
  intros H. assert ((ln v = LNone -> data v = New) /\ reachable step New (data v)) as [_ Hr]; [|done].
  apply (reachable_inv server_step (fun v => (ln v = LNone -> data v = New) /\ reachable step New (data v))
    New_server); [by split; [|constructor]| |done].
  clear. intros v v' ev [H0 Hr] Hstep. destruct ev as [ok| | |ev]; simpl in Hstep.
  - unfold Start in Hstep. destruct (ln v) eqn:El; try done. injection Hstep as <-. destruct ok; [|by rewrite El].
    simpl. rewrite H0 by done. split; [done|constructor].
  - unfold Close in Hstep. destruct (ln v); try done; by injection Hstep as <-.
  - destruct (accepting v); [|done]. by injection Hstep as <-.
  - destruct (bool_decide _ || _) eqn:E; [done|]. apply orb_false_elim in E as [E%bool_decide_eq_false _].
    destruct (step (data v) ev) as [s|] eqn:Es; [|done]. injection Hstep as <-. simpl.
    split; [done|by eapply reachable_step].
Qed.

(** The connection [i] has left the list; [l] are its executed requests. *)
Definition gone (i : nat) (l : list request) (s : kvs) : Prop :=
  executed i (log s) = l /\ exists c, conns s !! i = Some c /\ rpc c = RGone.

Lemma gone_step s base i l ev s' :
  kv_inv s base -> gone i l s -> step s ev = Some s' -> gone i l s'.
Proof.
  intros Hv [Hl (c & Hc & Hpc)] Hstep.
  assert (i ∉ items s) as Hni.
  { intros Hin. by apply (co_item _ _ _ _ (ki_client _ _ Hv _ _ Hc)) in Hin. }
  assert (forall j cj store its mu p lg, (j = i -> rpc cj = RGone) -> executed i lg = l ->
    gone i l (mkKvs store its mu (<[j := cj]> (conns s)) p lg)) as Hput.
  { intros j cj store its mu p lg Hj Hlg. split; [done|]. simpl. destruct (decide (j = i)) as [->|Hne].
    - exists cj. rewrite lookup_insert_eq. auto.
    - exists c. by rewrite lookup_insert_ne. }
  destruct ev as [stream|j|j|]; cbn [step] in Hstep.
  - unfold listen, PushBack in Hstep. destruct (mutex s); [done|]. injection Hstep as <-.
    apply Hput; [|done]. intros <-. exfalso.
    assert (is_Some (conns s !! size (conns s))) as H%(ki_dom _ _ Hv) by eauto. lia.
  - unfold receiver in Hstep. destruct (decide (j = i)) as [->|Hne].
    { rewrite Hc in Hstep. simpl in Hstep. by rewrite Hpc in Hstep. }
    destruct (conns s !! j) as [cj|]; simpl in Hstep; [|done]. unfold Remove in Hstep.
    repeat (case_match; simplify_eq/=; try done);
      try (destruct (send _ _ _); simplify_eq/=); by apply Hput.
  - unfold sender in Hstep. destruct (conns s !! j) as [cj|] eqn:Hj; simpl in Hstep; [|done].
    destruct (res cj); [done|]. injection Hstep as <-. apply Hput; [|done]. intros ->. simpl. congruence.
  - unfold dispatch, Iter in Hstep. destruct (dpc s) as [|[|j rest] rs|rs|[|j rest] rs] eqn:Ed.
    + destruct (mutex s); [done|]. injection Hstep as <-. split; [done|by exists c].
    + injection Hstep as <-. split; [done|by exists c].
    + assert (j ∈ items s) as Hj by (apply (ki_rest _ _ Hv (j :: rest)); [by rewrite Ed|by left]).
      assert (j <> i) as Hne by (by intros ->).
      destruct (conns s !! j) as [cj|]; [|done]. destruct (req cj) as [|r q].
      * injection Hstep as <-. split; [done|by exists c].
      * destruct (execute _ _) as [store rs']. injection Hstep as <-. apply Hput; [done|].
        by rewrite executed_app, executed_one, decide_False, app_nil_r.
    + destruct (mutex s); [done|]. injection Hstep as <-. split; [done|by exists c].
    + injection Hstep as <-. split; [done|by exists c].
    + assert (j ∈ items s) as Hj by (apply (ki_rest _ _ Hv (j :: rest)); [by rewrite Ed|by left]).
      destruct (conns s !! j) as [cj|]; [|done]. injection Hstep as <-. apply Hput; [by intros ->|done].
Qed.

Lemma gone_run evs i l : forall v v',
  reachable server_step New_server v -> gone i l (data v) ->
  exec server_step v evs = Some v' -> gone i l (data v').
Proof.
  induction evs as [|ev evs IH]; intros v v' Hr Hg; cbn [exec]; [by intros [= <-]|].
  destruct (server_step v ev) as [v1|] eqn:E; [|done]. apply IH; [by eapply reachable_step|].
  destruct (kv_reachable _ (server_data _ Hr)) as [base Hv].
  destruct ev as [ok| | |ev]; simpl in E.
  - unfold Start in E. destruct (ln v); try done. injection E as <-. by destruct ok.
  - unfold Close in E. destruct (ln v); try done; by injection E as <-.
  - destruct (accepting v); [|done]. by injection E as <-.
  - destruct (_ || _); [done|]. destruct (step (data v) ev) as [s|] eqn:Es; [|done]. injection E as <-.
    by eapply gone_step.
Qed.


(** The value a sequence of requests leaves for a key: that of its last [set]. *)
Definition last_set (k : string) (l : list (nat * request)) : string :=
  default EmptyString
    (value <$> last (base.filter (fun r => command r = "set" /\ key r = k) l.*2)).

Lemma last_set_snoc k l e :
  last_set k (l ++ [e]) =
    if decide (command e.2 = "set" /\ key e.2 = k) then value e.2 else last_set k l.
Proof.
  unfold last_set. rewrite fmap_app, filter_app. cbn [fmap list_fmap]. rewrite filter_cons, filter_nil.
  case_decide; [by rewrite last_snoc|by rewrite app_nil_r].
Qed.

Lemma replay_get k l : get (replay l).1 k = last_set k l.
Proof.
  induction l as [|e l IH] using rev_ind; [done|]. rewrite replay_snoc, last_set_snoc.
  unfold execute, set. cbn [fst]. destruct (String.eqb_spec (command e.2) "set") as [E|E].
  - case_decide as D.
    + destruct D as [_ <-]. unfold get. by rewrite lookup_insert_eq.
    + unfold get. rewrite lookup_insert_ne by (intros F; by apply D). exact IH.
  - rewrite decide_False by (by intros [? _]). exact IH.
Qed.

(** C29: a read returns the last write.  When the dispatcher visits a client whose
    channel holds a [get], the one response it adds carries the value of the last
    [set] of that key executed before, by any connection, and the empty value when
    there is none; a [set] adds no response, and leaves its value to be read. *)
Theorem kv_read_last_write s i rest rs c r q s' :
  reachable step New s -> dpc s = DScan (i :: rest) rs -> conns s !! i = Some c ->
  req c = r :: q -> step s KDispatch = Some s' ->
  in_hand (dpc s') = rs ++ (if String.eqb (command r) "get"
                            then [mkResponse (key r) (last_set (key r) (log s))] else []) /\
  forall k, get (kvstore s') k =
    if decide (command r = "set" /\ key r = k) then value r else last_set k (log s).
Proof.
  intros H Hp Hi Hr. destruct (kv_reachable s H) as [base Hv]. simpl. unfold dispatch.
  rewrite Hp, Hi, Hr. intros [= <-]. cbn [dpc in_hand kvstore]. rewrite (ki_store _ _ Hv). split.
  - destruct (String.eqb (command r) "get"); [by rewrite replay_get|done].
  - intros k. pose proof (last_set_snoc k (log s) (i, r)) as E. cbn [snd] in E.
    by rewrite <- E, <- replay_get, replay_snoc.
Qed.

(** C30: the broadcast is ordered.  What is written to any connection, with what
    waits in its channel, are responses of the one sequence of responses, in its
    order, each at most once (a full channel drops some). *)
Theorem kv_broadcast_order s i c :
  reachable step New s -> conns s !! i = Some c ->
  sent c ++ res c `sublist_of` (replay (log s)).2.
Proof.
  intros H Hi. destruct (kv_reachable s H) as [base Hv]. rewrite (ki_base _ _ Hv).
  apply (ki_client _ _ Hv _ _ Hi).
Qed.

(** [Count] counts the connections.  When the mutex of the list is free, the
    list holds each connection whose receiver has not returned, exactly once, and
    [Count] is their number. *)
Theorem kv_count s :
  reachable step New s -> mutex s = false ->
  NoDup (items s) /\ (forall i, i ∈ items s <-> exists c, conns s !! i = Some c /\ rpc c <> RGone) /\
  Count s = Some (Z.of_nat (length (items s))).
Proof.
  intros H Hm. destruct (kv_reachable s H) as [base Hv]. split_and!.
  - apply Hv.
  - intros i. split.
    + intros Hi. destruct (ki_live _ _ Hv _ Hi) as [c Hc]. exists c. split; [done|].
      by apply (ki_client _ _ Hv _ _ Hc).
    + intros (c & Hc & Hpc). by apply (ki_client _ _ Hv _ _ Hc).
  - unfold Count, Len. by rewrite Hm.
Qed.

(** ** Witnesses *)

Lemma kv_requests_roundtrip_witness :
  let rs := [mkRequest "set" "k" "v"; mkRequest "get" "k" EmptyString] in
  requests (concat_all (render <$> rs)) = rs.
Proof. apply (kv_requests_roundtrip [mkRequest "set" "k" "v"; mkRequest "get" "k" EmptyString]). vm_refl. Defined.

Definition demo_stream : string := ("set,k,v" ++ newline ++ "get,k" ++ newline)%string.

(** Two connections; the first one sets and gets, and both see the answer. *)
Definition demo_run : list event :=
  [KAccept demo_stream; KAccept EmptyString; KReceive 0; KReceive 0; KReceive 0; KReceive 0;
   KDispatch; KDispatch; KDispatch; KDispatch; KDispatch; KDispatch; KDispatch; KDispatch;
   KDispatch; KDispatch; KDispatch; KDispatch; KSend 0; KSend 1].

(** The port is taken at first; the server is closed in the middle of its work. *)
Definition demo_life : list server_event :=
  [KStart false; KStart true] ++ (KMove <$> take 5 demo_run) ++ [KClose; KAcceptFails] ++ (KMove <$> drop 5 demo_run).


(** A client sets a key and closes its connection before the dispatcher comes by: the
    request was queued, and is never executed. *)
Definition demo_lost : list event :=
  [KAccept ("set,k,v" ++ newline); KReceive 0; KReceive 0; KReceive 0; KReceive 0; KDispatch; KDispatch].

Example set_is_lost :
  let s := run step New demo_lost in
  runs step New demo_lost = true /\ items s = [] /\ kvstore s = ∅ /\
  (req <$> conns s !! 0%nat) = Some [mkRequest "set" "k" "v"].
Proof. split_and!; vm_refl. Qed.

(** Connection 0 has set [k] to [v]; the dispatcher visits it again and finds the
    [get]. *)
Definition demo_get : list event := take 11 demo_run.

Lemma kv_read_last_write_witness :
  in_hand (dpc (run step New (demo_get ++ [KDispatch]))) = [mkResponse "k" "v"].
Proof.
  set (s := run step New demo_get) in *. set (s' := run step New (demo_get ++ [KDispatch])).
  assert (reachable step New s) as Hr
    by (exact (exec_reachable step demo_get New _ (exec_run step New demo_get ltac:(vm_refl)))).
  pose proof (kv_read_last_write s 0 [1%nat] [] (default (mkClient EmptyString EmptyString RLoop [] [] []) (conns s !! 0%nat))
    (mkRequest "get" "k" EmptyString) [] s' Hr ltac:(vm_refl) ltac:(vm_refl) ltac:(vm_refl) ltac:(vm_refl)) as [H _].
  rewrite H. vm_refl.
Defined.

Lemma kv_broadcast_order_witness :
  exists c, conns (run step New demo_run) !! 1%nat = Some c /\ output c = ("k,v" ++ newline)%string /\
    sent c ++ res c `sublist_of` (replay (log (run step New demo_run))).2.
Proof.
  destruct (conns (run step New demo_run) !! 1%nat) as [c|] eqn:E; [|vm_compute in E; discriminate E].
  exists c. split; [reflexivity|]. split.
  - vm_compute in E. injection E as <-. reflexivity.
  - exact (kv_broadcast_order _ 1 c
      (exec_reachable step demo_run New _ (exec_run step New demo_run ltac:(vm_refl))) E).
Defined.

Lemma kv_count_witness : Count (run step New demo_run) = Some 2.
Proof.
  pose proof (kv_count (run step New demo_run)
    (exec_reachable step demo_run New _ (exec_run step New demo_run ltac:(vm_refl))) ltac:(vm_refl))
    as (_ & _ & H).
  rewrite H. vm_refl.
Defined.
