(* ===== verification/BitcoinHash.v ===== *)
(** The hash of a message and a nonce (src/project-2/src/example.com/bitcoin/hash.go
    and message.go).

    SHA-256 is that of the standard library, written out from its definition on
    lists of bytes; the examples at the end are its test vectors. *)
From Stdlib Require Import Ascii.
From S2P Require Import Prelude GoText.

(** ** SHA-256 *)

Definition rotr (n x : Z) : Z := Z.lor (Z.shiftr x n) (uint32 (Z.shiftl x (32 - n))).
Definition xor3 (x y z : Z) : Z := Z.lxor (Z.lxor x y) z.

Definition Sigma0 (x : Z) : Z := xor3 (rotr 2 x) (rotr 13 x) (rotr 22 x).
Definition Sigma1 (x : Z) : Z := xor3 (rotr 6 x) (rotr 11 x) (rotr 25 x).
Definition sigma0 (x : Z) : Z := xor3 (rotr 7 x) (rotr 18 x) (Z.shiftr x 3).
Definition sigma1 (x : Z) : Z := xor3 (rotr 17 x) (rotr 19 x) (Z.shiftr x 10).
Definition Ch (x y z : Z) : Z := Z.lxor (Z.land x y) (Z.land (Z.lxor x 4294967295) z).
Definition Maj (x y z : Z) : Z := xor3 (Z.land x y) (Z.land x z) (Z.land y z).

Definition round_constants : list Z :=
  [1116352408; 1899447441; 3049323471; 3921009573; 961987163; 1508970993; 2453635748; 2870763221;
   3624381080; 310598401; 607225278; 1426881987; 1925078388; 2162078206; 2614888103; 3248222580;
   3835390401; 4022224774; 264347078; 604807628; 770255983; 1249150122; 1555081692; 1996064986;
   2554220882; 2821834349; 2952996808; 3210313671; 3336571891; 3584528711; 113926993; 338241895;
   666307205; 773529912; 1294757372; 1396182291; 1695183700; 1986661051; 2177026350; 2456956037;
   2730485921; 2820302411; 3259730800; 3345764771; 3516065817; 3600352804; 4094571909; 275423344;
   430227734; 506948616; 659060556; 883997877; 958139571; 1322822218; 1537002063; 1747873779;
   1955562222; 2024104815; 2227730452; 2361852424; 2428436474; 2756734187; 3204031479; 3329325298].

Definition initial_hash : list Z :=
  [1779033703; 3144134277; 1013904242; 2773480762; 1359893119; 2600822924; 528734635; 1541459225].

(** Big-endian words. *)
Definition be (bs : list Z) : Z := foldl (fun w b => w * 256 + b) 0 bs.

Fixpoint words (n : nat) (bs : list Z) : list Z :=
  match n with
  | O => []
  | S n => be (take 4 bs) :: words n (drop 4 bs)
  end.

Fixpoint bytes_be (n : nat) (x : Z) : list Z :=
  match n with
  | O => []
  | S n => bytes_be n (x / 256) ++ [x mod 256]
  end.

(** The message, a one bit, zeros, and the length in bits, to full blocks. *)
Definition pad (bs : list Z) : list Z :=
  let n := Z.of_nat (length bs) in
  bs ++ [128] ++ replicate (Z.to_nat ((55 - n) mod 64)) 0 ++ bytes_be 8 (8 * n).

(** The message schedule, newest word first. *)
Fixpoint schedule (n : nat) (ws : list Z) : list Z :=
  match n with
  | O => ws
  | S n =>
      let w i := nth i ws 0 in
      schedule n (uint32 (sigma1 (w 1%nat) + w 6%nat + sigma0 (w 14%nat) + w 15%nat) :: ws)
  end.

Record hash_state := mkHS { ha : Z; hb : Z; hc : Z; hd : Z; he : Z; hf : Z; hg : Z; hh : Z }.

Definition compress_round (s : hash_state) (kw : Z * Z) : hash_state :=
  let t1 := hh s + Sigma1 (he s) + Ch (he s) (hf s) (hg s) + kw.1 + kw.2 in
  let t2 := Sigma0 (ha s) + Maj (ha s) (hb s) (hc s) in
  mkHS (uint32 (t1 + t2)) (ha s) (hb s) (hc s) (uint32 (hd s + t1)) (he s) (hf s) (hg s).

Definition state_of (h : list Z) : hash_state :=
  let w i := nth i h 0 in
  mkHS (w 0%nat) (w 1%nat) (w 2%nat) (w 3%nat) (w 4%nat) (w 5%nat) (w 6%nat) (w 7%nat).

Definition list_of (s : hash_state) : list Z :=
  [ha s; hb s; hc s; hd s; he s; hf s; hg s; hh s].

Definition compress (h : list Z) (block : list Z) : list Z :=
  let ws := rev (schedule 48 (rev (words 16 block))) in
  let s := foldl compress_round (state_of h) (zip round_constants ws) in
  zip_with (fun a b => uint32 (a + b)) h (list_of s).

Fixpoint blocks (n : nat) (bs : list Z) : list (list Z) :=
  match n with
  | O => []
  | S n => take 64 bs :: blocks n (drop 64 bs)
  end.

Definition sha256 (bs : list Z) : list Z :=
  let p := pad bs in
  concat (bytes_be 4 <$> foldl compress initial_hash (blocks (length p / 64) p)).

(** ** hash.go *)

Fixpoint byte_values (s : string) : list Z :=
  match s with
  | EmptyString => []
  | String a s => Z.of_nat (nat_of_ascii a) :: byte_values s
  end.

Definition Hash (msg : string) (nonce : Z) : Z :=
  be (take 8 (sha256 (byte_values (msg ++ " " ++ Itoa nonce)))).

(** ** message.go *)

Inductive MsgType := Join | Request | Result.

#[export] Instance MsgType_eq_dec : EqDecision MsgType.
Proof. solve_decision. Defined.

Record Message := mkMessage {
  Type_ : MsgType;
  Data : string;
  Lower : Z;
  Upper : Z;
  HashVal : Z;
  Nonce : Z
}.

Definition NewRequest (data : string) (lower upper : Z) : Message :=
  mkMessage Request data lower upper 0 0.
Definition NewResult (hash nonce : Z) : Message := mkMessage Result EmptyString 0 0 hash nonce.
Definition NewJoin : Message := mkMessage Join EmptyString 0 0 0 0.

Definition Message_String (m : Message) : string :=
  match Type_ m with
  | Request => ("[Request " ++ Data m ++ " " ++ Itoa (Lower m) ++ " " ++ Itoa (Upper m) ++ "]")%string
  | Result => ("[Result " ++ Itoa (HashVal m) ++ " " ++ Itoa (Nonce m) ++ "]")%string
  | Join => "[Join]"%string
  end.

(** ** The hash is a [uint64] *)

Lemma be_app bs cs : be (bs ++ cs) = be bs * 256 ^ Z.of_nat (length cs) + be cs.
Proof.
  unfold be. revert bs. induction cs as [|c cs IH] using rev_ind; intros bs.
  { rewrite app_nil_r. simpl. lia. }
  rewrite app_assoc, (foldl_app _ (bs ++ cs)), IH, (foldl_app _ cs), length_app. simpl.
  rewrite Nat2Z.inj_add, Z.pow_add_r by lia. lia.
Qed.

Lemma be_range bs : Forall (fun b => 0 <= b < 256) bs -> 0 <= be bs < 256 ^ Z.of_nat (length bs).
Proof.
  induction bs as [|b bs IH] using rev_ind; [intros _; unfold be; simpl; lia|].
  intros [H1 H2]%Forall_app. apply (proj1 (Forall_singleton _ b)) in H2. cbv beta in H2. specialize (IH H1).
  rewrite be_app, length_app.
  change (length [b]) with 1%nat. rewrite Nat2Z.inj_add, Z.pow_add_r by lia.
  change (256 ^ Z.of_nat 1) with 256. replace (be [b]) with b by (unfold be; simpl; lia). lia.
Qed.

Lemma bytes_be_range n x : Forall (fun b => 0 <= b < 256) (bytes_be n x).
Proof.
  revert x. induction n as [|n IH]; intros x; simpl; [constructor|].
  apply Forall_app. split; [apply IH|]. apply Forall_singleton, Z.mod_pos_bound. lia.
Qed.

Lemma sha256_bytes bs : Forall (fun b => 0 <= b < 256) (sha256 bs).
Proof.
  unfold sha256. apply Forall_concat, Forall_fmap, Forall_forall. intros x _. apply bytes_be_range.
Qed.

Lemma Hash_range msg nonce : uint64_ok (Hash msg nonce).
Proof.
  unfold Hash, uint64_ok. set (bs := take 8 _).
  assert (Forall (fun b => 0 <= b < 256) bs) as H%be_range by (apply Forall_take, sha256_bytes).
  assert (length bs <= 8)%nat by (unfold bs; rewrite length_take; lia).
  assert (256 ^ Z.of_nat (length bs) <= 256 ^ 8) by (apply Z.pow_le_mono_r; lia). lia.
Qed.

(** ** Test vectors *)

Example sha256_empty : be (sha256 []) =
  0xe3b0c44298fc1c149afbf4c8996fb92427ae41e4649b934ca495991b7852b855.
Proof. vm_refl. Qed.

Example sha256_abc : be (sha256 (byte_values "abc")) =
  0xba7816bf8f01cfea414140de5dae2223b00361a396177a9cb410ff61f20015ad.
Proof. vm_refl. Qed.

Example sha256_two_blocks :
  be (sha256 (byte_values "abcdbcdecdefdefgefghfghighijhijkijkljklmklmnlmnomnopnopq")) =
  0x248d6a61d20638b8e5c026930c3e6039a33ce45964ff2167f6ecedd419db06c1.
Proof. vm_refl. Qed.
