(* ===== verification/BitcoinMiner.v ===== *)
(** The miner of the Bitcoin program (src/project-2/src/example.com/bitcoin/miner).

    A request is cut into [w] ranges, one goroutine searches each range, and the
    main loop collects their results in the order they arrive. *)
From S2P Require Import Prelude GoText BitcoinHash.

(** The pair [minHash], [minNonce] after another hash. *)
Definition better (acc : Z * Z) (hash nonce : Z) : Z * Z :=
  if (acc.1 =? 0) || (hash <? acc.1) then (hash, nonce) else acc.

(** The loop of a goroutine; [None] is a loop longer than the fuel. *)
Fixpoint search (fuel : nat) (msg : string) (nonce upper : Z) (acc : Z * Z) : option (Z * Z) :=
  match fuel with
  | O => None
  | S fuel =>
      if nonce <=? upper
      then search fuel msg (uint64 (nonce + 1)) upper (better acc (Hash msg nonce) nonce)
      else Some acc
  end.

(** The goroutine: [rc <- result{minNonce, minHash}]. *)
Definition goroutine (fuel : nat) (msg : string) (range : Z * Z) : option (Z * Z) :=
  search fuel msg range.1 range.2 (0, 0).

(** The main loop over the results. *)
Definition collect (rs : list (Z * Z)) : Z * Z :=
  foldl (fun acc r => better acc r.1 r.2) (0, 0) rs.

(** The ranges of the goroutines of a request, or the panic of the division. *)
Inductive split_result := SplitPanic | Ranges (rs : list (Z * Z)).

Section Miner.
(** [int(math.Floor(math.Log(float64(n))))] *)
Context (floorLog : Z -> Z).

Definition ranges (m : Message) : split_result :=
  let n := uint64 (Upper m - Lower m) in
  let w := floorLog n in
  if uint64 w =? 0 then SplitPanic
  else
    let s := n / uint64 w in
    Ranges ((fun i => (uint64 (Lower m + i * s), uint64 (Lower m + (i + 1) * s))) <$> seqZ 0 w).

(** The answer to a request, when the results arrive in the order [arrived]. *)
Definition answer (arrived : list (Z * Z)) : Message :=
  let r := collect arrived in NewResult r.1 r.2.
End Miner.

#[local] Arguments Hash : simpl never.

(** ** The least hash of a set of nonces *)

(** [r] is the least hash over the nonces of [dom] and one of its nonces. *)
Definition least (msg : string) (dom : Z -> Prop) (r : Z * Z) : Prop :=
  dom r.2 /\ r.1 = Hash msg r.2 /\ forall k, dom k -> r.1 <= Hash msg k.

Lemma least_ext msg (d1 d2 : Z -> Prop) r :
  (forall k, d1 k <-> d2 k) -> least msg d1 r -> least msg d2 r.
Proof. intros H (H1 & H2 & H3). split_and!; [by apply H|done|]. intros k Hk. by apply H3, H. Qed.

(** The loop keeps the least hash, as long as no hash is zero. *)
Lemma better_least msg (d : Z -> Prop) acc r (e : Z -> Prop) :
  (forall k, d k -> Hash msg k <> 0) -> least msg d acc -> least msg e r ->
  least msg (fun k => d k \/ e k) (better acc r.1 r.2).
Proof.
  intros Hnz (A1 & A2 & A3) (R1 & R2 & R3). unfold better.
  assert ((acc.1 =? 0) = false) as -> by (apply Z.eqb_neq; rewrite A2; by apply Hnz).
  simpl. destruct (Z.ltb_spec r.1 acc.1); split_and!; simpl; try tauto; intros k [Hk|Hk];
    (apply A3 in Hk || apply R3 in Hk); lia.
Qed.

Lemma search_least msg lower upper acc nonce fuel :
  0 <= lower < nonce -> nonce <= upper + 1 -> upper < 2 ^ 64 - 1 ->
  (upper + 1 - nonce < Z.of_nat fuel) ->
  (forall k, lower <= k <= upper -> Hash msg k <> 0) ->
  least msg (fun k => lower <= k < nonce) acc ->
  exists r, search fuel msg nonce upper acc = Some r /\ least msg (fun k => lower <= k <= upper) r.
Proof.
  revert acc nonce. induction fuel as [|fuel IH]; intros acc nonce Hl Hn Hu Hf Hnz Hacc; [lia|].
  simpl. destruct (Z.leb_spec nonce upper) as [Hle|Hgt].
  - rewrite uint64_id by (unfold uint64_ok; lia). apply IH; try lia; [done|].
    eapply least_ext; [|apply (better_least msg (fun k => lower <= k < nonce) acc
      (Hash msg nonce, nonce) (fun k => k = nonce))].
    + intros k. simpl. lia.
    + intros k Hk. apply Hnz. lia.
    + done.
    + split_and!; simpl; [done|done|]. intros k ->. lia.
  - exists acc. split; [done|]. eapply least_ext; [|exact Hacc]. intros k. simpl. lia.
Qed.

(** A goroutine finds the least hash of its range. *)
Lemma goroutine_least msg lower upper fuel :
  0 <= lower <= upper -> upper < 2 ^ 64 - 1 -> upper + 1 - lower < Z.of_nat fuel ->
  (forall k, lower <= k <= upper -> Hash msg k <> 0) ->
  exists r, goroutine fuel msg (lower, upper) = Some r /\ least msg (fun k => lower <= k <= upper) r.
Proof.
  intros Hl Hu Hf Hnz. unfold goroutine. destruct fuel as [|fuel]; [lia|]. simpl.
  rewrite (proj2 (Z.leb_le lower upper)) by lia. rewrite uint64_id by (unfold uint64_ok; lia).
  apply search_least; [lia..|done|]. unfold better. simpl.
  unfold least. split_and!; simpl; [lia|lia|done|]. intros k Hk.
  by replace k with lower by lia.
Qed.

(** Collecting keeps one of the results with the least hash. *)
Lemma collect_min rs :
  (forall r, r ∈ rs -> r.1 <> 0) -> rs <> [] ->
  collect rs ∈ rs /\ forall r, r ∈ rs -> (collect rs).1 <= r.1.
Proof.
  unfold collect. induction rs as [|r rs IH] using rev_ind; intros Hnz Hne; [done|].
  rewrite foldl_snoc. destruct rs as [|r0 rs].
  - simpl. unfold better. simpl. rewrite <- (surjective_pairing r). split; [by left|].
    by intros x ->%list_elem_of_singleton.
  - destruct IH as [H1 H2]; [intros x Hx; apply Hnz, elem_of_app; by left|done|].
    set (acc := foldl _ _ (r0 :: rs)) in *. unfold better.
    assert ((acc.1 =? 0) = false) as -> by (apply Z.eqb_neq, Hnz, elem_of_app; by left).
    cbn [orb]. rewrite <- (surjective_pairing r).
    destruct (Z.ltb_spec r.1 acc.1); (split; [apply elem_of_app; try (by left); right; by left|]);
      intros x [Hx| ->%list_elem_of_singleton]%elem_of_app; try lia; specialize (H2 _ Hx); lia.
Qed.

(** The union of the ranges of the goroutines. *)
Lemma ranges_cover lo s w k :
  0 < w -> 0 < s ->
  lo <= k <= lo + w * s <-> exists i, 0 <= i < w /\ lo + i * s <= k <= lo + (i + 1) * s.
Proof.
  intros Hw Hs. split.
  - intros Hk. exists (Z.min (w - 1) ((k - lo) / s)).
    pose proof (Z.div_mod (k - lo) s). pose proof (Z.mod_pos_bound (k - lo) s).
    pose proof (Z.div_pos (k - lo) s). nia.
  - intros (i & Hi & Hk). nia.
Qed.

Section Request.
Context (msg : string) (lo s w : Z) (fuel : nat).
Context (Hlo : 0 <= lo) (Hs : 0 < s) (Hw : 0 < w) (Htop : lo + w * s < 2 ^ 64 - 1).
Context (Hfuel : s + 1 < Z.of_nat fuel).
Context (Hnz : forall k, lo <= k <= lo + w * s -> Hash msg k <> 0).

Definition range (i : Z) : Z * Z := (lo + i * s, lo + (i + 1) * s).
Definition found (r rg : Z * Z) : Prop := least msg (fun k => rg.1 <= k <= rg.2) r.

Lemma range_in i k : 0 <= i < w -> (range i).1 <= k <= (range i).2 -> lo <= k <= lo + w * s.
Proof using Hs. clear -Hs. unfold range. simpl. intros Hi Hk. nia. Qed.

Lemma goroutines_end idxs :
  (forall i, i ∈ idxs -> 0 <= i < w) ->
  exists results, mapM (goroutine fuel msg) (range <$> idxs) = Some results /\
    Forall2 found results (range <$> idxs).
Proof using All.
  intros Hidx. induction idxs as [|i idxs IH]; [by exists []|].
  destruct IH as (results & Hm & Hall); [intros j Hj; apply Hidx; by right|].
  assert (0 <= i < w) as Hi by (apply Hidx; by left).
  destruct (goroutine_least msg (lo + i * s) (lo + (i + 1) * s) fuel) as (r & Hr & Hl);
    [nia|nia|nia|intros k Hk; by apply Hnz, (range_in i)|].
  exists (r :: results). rewrite fmap_cons. cbn [mapM].
  rewrite (Hr : goroutine fuel msg (range i) = Some r). cbn [mbind option_bind].
  rewrite Hm. split; [done|]. by constructor.
Qed.

(** Whatever the order of arrival, collecting gives the least hash. *)
Lemma collect_arrived results arrived :
  Forall2 found results (range <$> seqZ 0 w) -> arrived ≡ₚ results ->
  found (collect arrived) (lo, lo + w * s).
Proof using All.
  intros Hall Hperm.
  assert (forall r, r ∈ arrived -> exists i, 0 <= i < w /\ found r (range i)) as Hof.
  { intros r Hr. rewrite Hperm in Hr. apply list_elem_of_lookup in Hr as [j Hj].
    destruct (Forall2_lookup_l _ _ _ _ _ Hall Hj) as (rg & Hrg & Hl).
    apply list_elem_of_lookup_2, list_elem_of_fmap in Hrg as (i & -> & Hi%elem_of_seqZ).
    exists i. split; [lia|done]. }
  destruct (collect_min arrived) as [Hc Hmin].
  { intros r (i & Hi & Hl1 & -> & _)%Hof. by apply Hnz, (range_in i). }
  { intros ->. apply Permutation_nil_l in Hperm. subst results. apply Forall2_length in Hall.
    rewrite length_fmap, length_seqZ in Hall. simpl in Hall. lia. }
  destruct (Hof _ Hc) as (i & Hi & Hk & Hh & _). split_and!; [by apply (range_in i)..|done|].
  intros k' (j & Hj & Hk')%ranges_cover; [|lia..].
  assert (range j ∈ range <$> seqZ 0 w) as [n Hn]%list_elem_of_lookup
    by (apply list_elem_of_fmap; exists j; split; [done|apply elem_of_seqZ; lia]).
  destruct (Forall2_lookup_r _ _ _ _ _ Hall Hn) as (r & Hr & _ & _ & Hl).
  specialize (Hl k' Hk'). assert ((collect arrived).1 <= r.1); [|lia]. apply Hmin. rewrite Hperm.
  by eapply list_elem_of_lookup_2.
Qed.
End Request.

(** The cut of a request, when its width is in range. *)
Lemma ranges_eq floorLog m :
  let n := Upper m - Lower m in
  let w := floorLog n in
  0 <= Lower m -> Lower m < Upper m < 2 ^ 64 - 1 -> 0 < w <= n ->
  ranges floorLog m = Ranges (range (Lower m) (n / w) <$> seqZ 0 w) /\
  0 < n / w /\ n / w <= n /\ n = w * (n / w) + n mod w /\ 0 <= n mod w < w.
Proof.
  intros n w Hlo Hup Hw.
  assert (n = w * (n / w) + n mod w /\ 0 <= n mod w < w) as [Hdiv Hmod]
    by (split; [apply Z.div_mod; lia|apply Z.mod_pos_bound; lia]).
  assert (0 < n / w) as Hs by (apply Z.div_str_pos; lia).
  assert (n / w <= n) by (apply Z.div_le_upper_bound; nia). split_and!; try lia.
  unfold ranges. rewrite (uint64_id (Upper m - Lower m)) by (unfold uint64_ok; lia). fold n. fold w.
  rewrite (uint64_id w) by (unfold uint64_ok; lia). rewrite (proj2 (Z.eqb_neq w 0)) by lia.
  f_equal. apply list_fmap_ext. intros _ i Hi%list_elem_of_lookup_2%elem_of_seqZ.
  unfold range. f_equal; apply uint64_id; unfold uint64_ok; nia.
Qed.

(** C36: the answer of a miner.  A request of [n = Upper - Lower] is cut into
    [w = floor(log n)] ranges, of which neighbours share an end.  When no hash is
    zero, every goroutine ends, and in whatever order their results arrive the
    answer is the least hash over the nonces from [Lower] to
    [Lower + w * (n / w)], with a nonce that has it.  The last [n mod w] nonces of
    the request are not tried. *)
Theorem miner_answer floorLog m fuel :
  0 <= Lower m -> Lower m < Upper m < 2 ^ 64 - 1 ->
  let n := Upper m - Lower m in
  let w := floorLog n in
  let last := Lower m + w * (n / w) in
  0 < w <= n -> n + 1 < Z.of_nat fuel ->
  (forall k, Lower m <= k <= last -> Hash (Data m) k <> 0) ->
  last = Upper m - n mod w /\
  exists rs results, ranges floorLog m = Ranges rs /\ Z.of_nat (length rs) = w /\
    mapM (goroutine fuel (Data m)) rs = Some results /\
    forall arrived, arrived ≡ₚ results -> exists k,
      answer arrived = NewResult (Hash (Data m) k) k /\ Lower m <= k <= last /\
      forall k', Lower m <= k' <= last -> Hash (Data m) k <= Hash (Data m) k'.
Proof.
  intros Hlo Hup n w last Hw Hfuel Hnz.
  destruct (ranges_eq floorLog m Hlo Hup Hw) as (Hranges & Hs & Hle & Hdiv & Hmod).
  fold n w in Hranges, Hs, Hle, Hdiv, Hmod. split; [lia|].
  destruct (goroutines_end (Data m) (Lower m) (n / w) w fuel Hlo Hs ltac:(lia) ltac:(lia) ltac:(lia) Hnz (seqZ 0 w))
    as (results & Hm & Hall); [intros i Hi%elem_of_seqZ; lia|].
  exists (range (Lower m) (n / w) <$> seqZ 0 w), results. split_and!; [done| |done|].
  - rewrite length_fmap, length_seqZ. lia.
  - intros arrived Hperm.
    destruct (collect_arrived (Data m) (Lower m) (n / w) w fuel Hlo Hs ltac:(lia) ltac:(lia) ltac:(lia) Hnz results arrived Hall Hperm)
      as (Hk & Hh & Hl).
    exists (collect arrived).2. unfold answer. rewrite <- Hh. split; [done|]. split; [exact Hk|exact Hl].
Qed.

(** Where the miner fails.  A request of width 1 or 2 stops the process with a
    division by zero ([log] of the width is below 1); one of width 0 is answered
    with hash 0 and nonce 0 whatever the message; and a goroutine whose range ends
    at the last [uint64] never ends. *)
Theorem miner_failures floorLog m fuel msg nonce acc :
  floorLog 1 = 0 -> floorLog 2 = 0 -> - 2 ^ 63 <= floorLog 0 < 0 ->
  uint64_ok (Lower m) -> uint64_ok nonce ->
  (uint64 (Upper m - Lower m) = 1 \/ uint64 (Upper m - Lower m) = 2 ->
     ranges floorLog m = SplitPanic) /\
  (Upper m = Lower m -> ranges floorLog m = Ranges [] /\ answer [] = NewResult 0 0) /\
  search fuel msg nonce (2 ^ 64 - 1) acc = None.
Proof.
  intros H1 H2 H0 Hm Hn. unfold ranges. split_and!.
  - intros [E|E]; rewrite E; [by rewrite H1|by rewrite H2].
  - intros ->. rewrite Z.sub_diag. change (uint64 0) with 0.
    assert (uint64 (floorLog 0) = floorLog 0 + 2 ^ 64) as E.
    { unfold uint64. symmetry. apply (Z.mod_unique _ _ (-1)); lia. }
    rewrite (proj2 (Z.eqb_neq _ 0)) by lia. split; [|done]. by rewrite seqZ_nil by lia.
  - clear -Hn. revert nonce acc Hn. induction fuel as [|fuel IH]; intros nonce acc Hn; [done|].
    cbn [search]. unfold uint64_ok in Hn. rewrite (proj2 (Z.leb_le nonce _)) by lia.
    apply IH, uint64_range.
Qed.

(** ** The answers a miner may give

    [r] is the pair a miner answers the request [m] with, for some order of arrival. *)
Definition mined (floorLog : Z -> Z) (m : Message) (r : Z * Z) : Prop :=
  exists fuel rs results arrived,
    ranges floorLog m = Ranges rs /\ mapM (goroutine fuel (Data m)) rs = Some results /\
    arrived ≡ₚ results /\ r = collect arrived.

Lemma search_more fuel k msg : forall nonce upper acc r,
  search fuel msg nonce upper acc = Some r -> search (fuel + k) msg nonce upper acc = Some r.
Proof.
  induction fuel as [|fuel IH]; intros nonce upper acc r; [done|]. simpl. case_match; [apply IH|done].
Qed.

(** The fuel does not matter. *)
Lemma goroutine_det f1 f2 msg rg r1 r2 :
  goroutine f1 msg rg = Some r1 -> goroutine f2 msg rg = Some r2 -> r1 = r2.
Proof.
  unfold goroutine. intros H1%(search_more _ f2) H2%(search_more _ f1).
  rewrite (Nat.add_comm f2) in H2. congruence.
Qed.

Lemma goroutines_det f1 f2 msg rs : forall l1 l2,
  mapM (goroutine f1 msg) rs = Some l1 -> mapM (goroutine f2 msg) rs = Some l2 -> l1 = l2.
Proof.
  induction rs as [|rg rs IH]; intros l1 l2; simpl; [by intros [= <-] [= <-]|].
  destruct (goroutine f1 msg rg) as [x1|] eqn:E1, (goroutine f2 msg rg) as [x2|] eqn:E2; simpl; try done.
  destruct (mapM (goroutine f1 msg) rs) as [k1|], (mapM (goroutine f2 msg) rs) as [k2|]; simpl; try done.
  intros [= <-] [= <-]. f_equal; [by eapply goroutine_det|by apply IH].
Qed.

Lemma mined_least floorLog m r :
  let n := Upper m - Lower m in
  let w := floorLog n in
  let last := Lower m + w * (n / w) in
  0 <= Lower m -> Lower m < Upper m < 2 ^ 64 - 1 -> 0 < w <= n ->
  (forall k, Lower m <= k <= last -> Hash (Data m) k <> 0) ->
  mined floorLog m r -> found (Data m) r (Lower m, last).
Proof.
  intros n w last Hlo Hup Hw Hnz (fuel & rs & results & arrived & Hr & Hres & Harr & ->).
  destruct (ranges_eq floorLog m Hlo Hup Hw) as (Hranges & Hs & Hle & Hdiv & Hmod).
  fold n w in Hranges, Hs, Hle, Hdiv, Hmod. rewrite Hranges in Hr. injection Hr as <-.
  destruct (goroutines_end (Data m) (Lower m) (n / w) w (Z.to_nat (n / w + 2)) Hlo Hs ltac:(lia)
    ltac:(lia) ltac:(lia) Hnz (seqZ 0 w)) as (results' & Hm & Hall); [intros i Hi%elem_of_seqZ; lia|].
  pose proof (goroutines_det _ _ _ _ _ _ Hres Hm) as ->.
  apply (collect_arrived (Data m) (Lower m) (n / w) w (Z.to_nat (n / w + 2)) Hlo Hs ltac:(lia)
    ltac:(lia) ltac:(lia) Hnz results' arrived Hall Harr).
Qed.

(** Answers are [uint64]s. *)
Definition pair_ok (r : Z * Z) : Prop := uint64_ok r.1 /\ uint64_ok r.2.

Lemma pair_better acc h n : pair_ok acc -> uint64_ok h -> uint64_ok n -> pair_ok (better acc h n).
Proof. unfold better. intros. by case_match. Qed.

Lemma search_pair fuel msg : forall nonce upper acc r,
  uint64_ok nonce -> pair_ok acc -> search fuel msg nonce upper acc = Some r -> pair_ok r.
Proof.
  induction fuel as [|fuel IH]; intros nonce upper acc r Hn Hacc; [done|]. simpl.
  case_match; [|by intros [= <-]]. apply IH; [apply uint64_range|].
  apply pair_better; [done|apply Hash_range|done].
Qed.

Lemma collect_pair rs : Forall pair_ok rs -> pair_ok (collect rs).
Proof.
  unfold collect. assert (pair_ok (0, 0)) as H0 by (split; simpl; unfold uint64_ok; lia).
  revert H0. generalize (0, 0). induction rs as [|r rs IH]; intros acc Hacc; [done|].
  intros Hall. inversion Hall as [|? ? [? ?] ?]; subst. simpl. apply IH; [|done]. by apply pair_better.
Qed.

Lemma mined_pair floorLog m r : mined floorLog m r -> pair_ok r.
Proof.
  intros (fuel & rs & results & arrived & Hr & Hres & Harr & ->). apply collect_pair.
  rewrite Harr. unfold ranges in Hr. case_match; [done|]. injection Hr as <-.
  apply mapM_Some_1 in Hres. apply Forall_forall. intros x [k Hk]%list_elem_of_lookup.
  destruct (Forall2_lookup_r _ _ _ _ _ Hres Hk) as (rg & Hrg & Hx).
  apply list_elem_of_lookup_2, list_elem_of_fmap in Hrg as (i & -> & _).
  unfold goroutine in Hx. eapply search_pair; [| |exact Hx]; simpl; [apply uint64_range|].
  split; simpl; unfold uint64_ok; lia.
Qed.

(** ** Witnesses *)

(** The floor of the natural logarithm, for small arguments: the number of powers
    of e that are not greater. *)
Definition floor_ln (n : Z) : Z :=
  if n =? 0 then - 2 ^ 63
  else Z.of_nat (length (base.filter (fun t => t <= n) [3; 8; 21; 55; 149; 404; 1097; 2981; 8104])).

Lemma miner_answer_witness :
  let m := NewRequest "bitcoin" 0 9 in
  exists rs results k, ranges floor_ln m = Ranges rs /\
    mapM (goroutine 20 "bitcoin") rs = Some results /\
    answer results = NewResult (Hash "bitcoin" k) k /\ 0 <= k <= 8.
Proof.
  intros m.
  assert (forall k, 0 <= k <= 8 -> Hash "bitcoin" k <> 0) as Hnz.
  { intros k Hk. assert (k = 0 \/ k = 1 \/ k = 2 \/ k = 3 \/ k = 4 \/ k = 5 \/ k = 6 \/ k = 7 \/ k = 8)
      as H by lia. destruct_or! H; subst k; vm_compute; discriminate. }
  destruct (miner_answer floor_ln m 20 ltac:(vm_compute; discriminate) ltac:(split; vm_compute; reflexivity)
    ltac:(split; vm_compute; (reflexivity || discriminate)) ltac:(vm_compute; reflexivity) Hnz)
    as (_ & rs & results & Hr & _ & Hm & Ha).
  destruct (Ha results ltac:(reflexivity)) as (k & Hk & Hrange & _).
  exists rs, results, k. split; [exact Hr|]. split; [exact Hm|]. split; [exact Hk|exact Hrange].
Defined.

Lemma miner_failures_witness :
  ranges floor_ln (NewRequest "bitcoin" 0 1) = SplitPanic /\
  search 10 "bitcoin" (2 ^ 64 - 2) (2 ^ 64 - 1) (0, 0) = None.
Proof.
  destruct (miner_failures floor_ln (NewRequest "bitcoin" 0 1) 10 "bitcoin" (2 ^ 64 - 2) (0, 0))
    as (H1 & _ & H3); [reflexivity|reflexivity|split; vm_compute; (reflexivity || discriminate)|
      split; vm_compute; (reflexivity || discriminate)|split; vm_compute; (reflexivity || discriminate)|].
  split; [apply H1; left; reflexivity|exact H3].
Defined.
