(* ===== verification/BitcoinCodec.v ===== *)
(** The text of the Bitcoin messages (src/project-2/src/example.com/bitcoin:
    json.Marshal and json.Unmarshal of the struct of message.go).

    The encoder follows encoding/json byte by byte; the decoder reads the layout the
    encoder writes, and a text of another layout is an error.  The programs ignore
    that error, and go on with the message whose fields are all zero. *)
From Stdlib Require Import Ascii.
From S2P Require Import Prelude GoText Utf8 Json LspIO BitcoinHash.

Definition type_number (t : MsgType) : Z :=
  match t with Join => 0 | Request => 1 | Result => 2 end.

Definition type_of (n : Z) : option MsgType :=
  if n =? 0 then Some Join else if n =? 1 then Some Request else if n =? 2 then Some Result else None.

Definition Marshal (m : Message) : string :=
  ("{" ++ literal "Type" ++ ":" ++ Itoa (type_number (Type_ m)) ++ "," ++
   literal "Data" ++ ":" ++ String dquote (quoted (Data m) ++ one dquote) ++ "," ++
   literal "Lower" ++ ":" ++ Itoa (Lower m) ++ "," ++ literal "Upper" ++ ":" ++ Itoa (Upper m) ++ "," ++
   literal "Hash" ++ ":" ++ Itoa (HashVal m) ++ "," ++ literal "Nonce" ++ ":" ++ Itoa (Nonce m) ++ "}")%string.

Definition brace : ascii := "}"%char.

(** A member of the struct: its name, a [uint64], and the delimiter after it. *)
Definition unumber (sep : ascii) (name s : string) : option (Z * string) :=
  s ← strip (literal name ++ ":") s;
  '(t, s) ← cut_at sep s;
  z ← parse_int t;
  if String.eqb (Itoa z) t && bool_decide (uint64_ok z) then Some (z, s) else None.

Definition Unmarshal (s : string) : option Message :=
  s ← strip "{" s;
  '(ty, s) ← unumber comma "Type" s;
  ty ← type_of ty;
  s ← strip (literal "Data" ++ ":" ++ one dquote) s;
  '(data, s) ← unquote (String.length s) s;
  s ← strip "," s;
  '(lower, s) ← unumber comma "Lower" s;
  '(upper, s) ← unumber comma "Upper" s;
  '(hash, s) ← unumber comma "Hash" s;
  '(nonce, s) ← unumber brace "Nonce" s;
  if String.eqb s EmptyString then Some (mkMessage ty data lower upper hash nonce) else None.

(** [var m bitcoin.Message; json.Unmarshal(b, &m)] *)
Definition received (s : string) : Message :=
  default (mkMessage Join EmptyString 0 0 0 0) (Unmarshal s).

(** ** Round trip *)

Definition message_ok (m : Message) : Prop :=
  utf8_ok (Data m) = true /\ uint64_ok (Lower m) /\ uint64_ok (Upper m) /\
  uint64_ok (HashVal m) /\ uint64_ok (Nonce m).

Lemma type_of_number t : type_of (type_number t) = Some t.
Proof. by destruct t. Qed.

Lemma unumber_app sep name z s :
  uint64_ok z -> int_char sep = false ->
  unumber sep name (literal name ++ ":" ++ Itoa z ++ String sep s) = Some (z, s).
Proof.
  intros Hz Hsep. unfold unumber. rewrite <- string_app_assoc, strip_app. cbn [mbind option_bind].
  rewrite cut_at_app.
  - cbn [mbind option_bind]. rewrite parse_int_Itoa. cbn [mbind option_bind].
    by rewrite String.eqb_refl, bool_decide_eq_true_2.
  - apply (all_chars_impl int_char); [|apply Itoa_chars]. intros c. by apply int_char_not.
Qed.

Lemma data_app q s :
  strip (literal "Data" ++ ":" ++ one dquote)
    (literal "Data" ++ ":" ++ String dquote (q ++ one dquote) ++ s) = Some (q ++ String dquote s)%string.
Proof.
  replace (literal "Data" ++ ":" ++ String dquote (q ++ one dquote) ++ s)%string
    with ((literal "Data" ++ ":" ++ one dquote) ++ (q ++ String dquote s))%string; [apply strip_app|].
  unfold one. repeat (rewrite !string_app_assoc; cbn [String.append]). reflexivity.
Qed.

Lemma message_roundtrip m : message_ok m -> Unmarshal (Marshal m) = Some m.
Proof.
  intros (Hd & H1 & H2 & H3 & H4). unfold Unmarshal, Marshal. rewrite strip_app. cbn [mbind option_bind].
  assert (forall s, ("," ++ s)%string = String comma s) as Hcomma by done.
  rewrite !Hcomma, unumber_app by (done || (unfold uint64_ok; destruct (Type_ m); simpl; lia)).
  cbn [mbind option_bind]. rewrite type_of_number. cbn [mbind option_bind].
  rewrite data_app. cbn [mbind option_bind]. rewrite unquote_field. cbn [mbind option_bind].
  match goal with |- context [strip _ (String comma ?s)] =>
    change (strip "," (String comma s)) with (Some s) end.
  cbn [mbind option_bind].
  do 3 (rewrite unumber_app by done; cbn [mbind option_bind]).
  change "}"%string with (String brace EmptyString). rewrite unumber_app by done. cbn [mbind option_bind].
  rewrite sanitize_ok by done. by destruct m.
Qed.

#[export] Instance message_codec : Codec Message := {|
  codec_ok := message_ok;
  encode := Marshal;
  decode_text := Unmarshal;
  decode_encode := message_roundtrip
|}.

Example marshal_request : Marshal (NewRequest "a<b" 0 9999) =
  concat_all ["{"; literal "Type"; ":1,"; literal "Data"; ":"; literal "a\u003cb"; ",";
    literal "Lower"; ":0,"; literal "Upper"; ":9999,"; literal "Hash"; ":0,"; literal "Nonce"; ":0}"]%string.
Proof. vm_refl. Qed.
