(* ===== verification/BitcoinServer.v ===== *)
(** The scheduler of the Bitcoin server (src/project-2/src/example.com/bitcoin/server).

    [schedule] is one goroutine that selects among the channels filled by
    [receive] and its own [trigger]; each case is a step.  The schedule hands the
    messages to it in any order, so the order of the channels is not used.
    [written] is what went to [lspServer.Write]; [parts] and [reports] record, for
    each client, the ranges its request was cut into and the results counted for
    it, in their order. *)
From S2P Require Import Prelude GoText BitcoinHash BitcoinMiner.

Record task := mkTask { lost : bool; minHash : Z; minNonce : Z; tminers : Z }.
Record request := mkRequest { rid : Z; rlower : Z; rupper : Z; rdata : string }.
Record result := mkResult { sid : Z; snonce : Z; shash : Z }.
Record miner := mkMiner { clientID : Z; mdata : string; mlower : Z; mupper : Z }.

Record server := mkServer {
  trigger : Z;                        (* values in the channel, of capacity 1024, or 1025 *)
  freeMiners : list Z;
  miners : gmap Z miner;
  pendingRequests : list request;
  tasks : gmap Z task;
  written : list (Z * Message);       (* history *)
  parts : gmap Z (list (Z * Z));      (* history *)
  reports : gmap Z (list ((Z * Z) * (Z * Z)))  (* history: range, hash and nonce *)
}.

Definition startServer : server := mkServer 0 [] ∅ [] ∅ [] ∅ ∅.

(** The cases of the select of [schedule], with what they receive. *)
Inductive event :=
| SRequest (r : request)
| STrigger (write_ok : bool)      (* does [lspServer.Write] succeed, when it is called? *)
| SJoin (id : Z)
| SResult (r : result)
| SError (e : Z).

(** [receive]: what a message from [lspServer.Read] becomes; [None] is the error of a
    lost connection. *)
Definition receive (id : Z) (m : option Message) : event :=
  match m with
  | None => SError id
  | Some m =>
      match Type_ m with
      | Join => SJoin id
      | Request => SRequest (mkRequest id (Lower m) (Upper m) (Data m))
      | Result => SResult (mkResult id (Nonce m) (HashVal m))
      end
  end.

Inductive outcome := Panic | Next (s : server).

(** ** Fields *)

(** [trigger <- struct{}{}].  When the channel is full, [trigger] becomes 1025: the
    goroutine waits with its value. *)
Definition fire (s : server) : server :=
  mkServer (trigger s + 1) (freeMiners s) (miners s) (pendingRequests s) (tasks s)
    (written s) (parts s) (reports s).
Definition set_pending (s : server) q :=
  mkServer (trigger s) (freeMiners s) (miners s) q (tasks s) (written s) (parts s) (reports s).
Definition set_tasks (s : server) ts :=
  mkServer (trigger s) (freeMiners s) (miners s) (pendingRequests s) ts (written s) (parts s) (reports s).
Definition set_miners (s : server) free ms :=
  mkServer (trigger s) free ms (pendingRequests s) (tasks s) (written s) (parts s) (reports s).
Definition write (s : server) id m :=
  mkServer (trigger s) (freeMiners s) (miners s) (pendingRequests s) (tasks s)
    (written s ++ [(id, m)]) (parts s) (reports s).
Definition set_parts (s : server) id ps :=
  mkServer (trigger s) (freeMiners s) (miners s) (pendingRequests s) (tasks s) (written s)
    (<[id := ps]> (parts s)) (reports s).
Definition add_report (s : server) id x :=
  mkServer (trigger s) (freeMiners s) (miners s) (pendingRequests s) (tasks s) (written s)
    (parts s) (<[id := reports s !!! id ++ [x]]> (reports s)).

(** ** The cases *)

Section Schedule.
(** [int(math.Floor(math.Log10(float64(n))))] and
    [uint64(math.Ceil(float64(a) / float64(b)))] *)
Context (floorLog10 : Z -> Z) (ceilDiv : Z -> Z -> Z).

Definition stride_of (upper : Z) (free : nat) : Z :=
  let stride := if 10000 <? upper then floorLog10 upper else 1 in
  if (0 <? Z.of_nat free) && (stride <? Z.of_nat free) then Z.of_nat free else stride.

Definition chunk (r : request) (step i : Z) : request :=
  mkRequest (rid r) (uint64 (i * step)) (Z.min (rupper r) (uint64 ((i + 1) * step))) (rdata r).

Definition chunks (r : request) (free : nat) : list request :=
  let stride := stride_of (rupper r) free in
  chunk r (ceilDiv (rupper r) stride) <$> seqZ 0 stride.

Definition on_request (s : server) (r : request) : option outcome :=
  let cs := chunks r (length (freeMiners s)) in
  let s := set_tasks s (<[rid r := mkTask false 0 0 (stride_of (rupper r) (length (freeMiners s)))]> (tasks s)) in
  let s := set_pending s (pendingRequests s ++ cs) in
  let s := set_parts s (rid r) ((fun c => (rlower c, rupper c)) <$> cs) in
  Some (Next (fire s)).

Definition on_trigger (s : server) (write_ok : bool) : option outcome :=
  if trigger s <=? 0 then None
  else
    let s := mkServer (trigger s - 1) (freeMiners s) (miners s) (pendingRequests s) (tasks s)
               (written s) (parts s) (reports s) in
    match freeMiners s, pendingRequests s with
    | mid :: free, r :: pending =>
        match tasks s !! rid r with
        | None => Some Panic
        | Some t =>
            if lost t then Some (Next (set_pending s pending))
            else if write_ok then
              let s := write s mid (NewRequest (rdata r) (rlower r) (rupper r)) in
              let s := set_pending s pending in
              Some (Next (set_miners s free
                (<[mid := mkMiner (rid r) (rdata r) (rlower r) (rupper r)]> (miners s))))
            else Some (Next s)
        end
    | _, _ => Some (Next s)
    end.

Definition on_join (s : server) (id : Z) : option outcome :=
  Some (Next (fire (set_miners s (id :: freeMiners s) (<[id := mkMiner 0 EmptyString 0 0]> (miners s))))).

Definition on_result (s : server) (r : result) : option outcome :=
  match miners s !! sid r with
  | None => Some (Next s)
  | Some mn =>
      if clientID mn =? 0 then Some (Next s)
      else
        match tasks s !! clientID mn with
        | None => Some Panic
        | Some t =>
            let best := better (minHash t, minNonce t) (shash r) (snonce r) in
            let t := mkTask (lost t) best.1 best.2 (int64 (tminers t - 1)) in
            let s := add_report s (clientID mn) ((mlower mn, mupper mn), (shash r, snonce r)) in
            let s :=
              if tminers t =? 0 then
                let s := if lost t then s
                         else write s (clientID mn) (NewResult (minHash t) (minNonce t)) in
                set_tasks s (delete (clientID mn) (tasks s))
              else set_tasks s (<[clientID mn := t]> (tasks s)) in
            Some (Next (fire (set_miners s (freeMiners s ++ [sid r])
                  (<[sid r := mkMiner 0 (mdata mn) (mlower mn) (mupper mn)]> (miners s)))))
        end
  end.

(** [for me := ...; me = me.Next()]: the element after a removed one is [nil]. *)
Fixpoint remove_dead (ms : gmap Z miner) (free : list Z) : list Z :=
  match free with
  | [] => []
  | id :: free => if bool_decide (is_Some (ms !! id)) then id :: remove_dead ms free else free
  end.

Definition on_error (s : server) (e : Z) : option outcome :=
  match miners s !! e with
  | Some mn =>
      let forget := Some (Next (set_miners s (remove_dead (delete e (miners s)) (freeMiners s))
                                  (delete e (miners s)))) in
      if clientID mn =? 0 then forget
      else
        match tasks s !! clientID mn with
        | None => Some Panic
        | Some t =>
            if lost t then forget
            else
              let s := set_pending s (mkRequest (clientID mn) (mlower mn) (mupper mn) (mdata mn)
                                        :: pendingRequests s) in
              Some (Next (fire (set_miners s (freeMiners s) (delete e (miners s)))))
        end
  | None =>
      match tasks s !! e with
      | Some t => Some (Next (set_tasks s (<[e := mkTask true (minHash t) (minNonce t) (tminers t)]> (tasks s))))
      | None => Some (Next s)
      end
  end.

(** [None]: the case is not ready. *)
Definition select_case (s : server) (ev : event) : option outcome :=
  match ev with
  | SRequest r => on_request s r
  | STrigger ok => on_trigger s ok
  | SJoin id => on_join s id
  | SResult r => on_result s r
  | SError e => on_error s e
  end.

(** A turn of the loop.  A goroutine that waits at [trigger] waits for ever: nobody else
    reads the channel. *)
Definition schedule (s : server) (ev : event) : option outcome :=
  if 1024 <? trigger s then None else select_case s ev.

Definition next (s : server) (ev : event) : option server :=
  match schedule s ev with
  | Some (Next s') => Some s'
  | _ => None
  end.
End Schedule.

(** The identifiers of the clients that requested and of the miners that joined. *)
Definition request_id (ev : event) : option Z :=
  match ev with SRequest r => Some (rid r) | _ => None end.
Definition join_id (ev : event) : option Z := match ev with SJoin id => Some id | _ => None end.

Definition requested (evs : list event) : list Z := omap request_id evs.
Definition joined (evs : list event) : list Z := omap join_id evs.

(** What the programs that talk to the server do: each client requests once, each
    miner joins once.  (The identifiers of the LSP server are fresh, and start
    above 0.) *)
Definition well_behaved (evs : list event) : Prop :=
  NoDup (requested evs) /\ NoDup (joined evs) /\ 0 ∉ requested evs.

(** ** Ranges that are still to be reported *)

Definition pend_range (c : Z) (r : request) : option (Z * Z) :=
  if decide (rid r = c) then Some (rlower r, rupper r) else None.
Definition busy_range (c : Z) (mn : miner) : option (Z * Z) :=
  if decide (clientID mn = c) then Some (mlower mn, mupper mn) else None.

Definition pend (c : Z) (q : list request) : list (Z * Z) := omap (pend_range c) q.
Definition busy (c : Z) (ms : gmap Z miner) : list (Z * Z) :=
  omap (fun p => busy_range c p.2) (map_to_list ms).

(** The ranges of client [c] that wait or that a miner has. *)
Definition outstanding (c : Z) (s : server) : list (Z * Z) :=
  pend c (pendingRequests s) ++ busy c (miners s).

Lemma pend_cons c r q : pend c (r :: q) = option_list (pend_range c r) ++ pend c q.
Proof. unfold pend. simpl. by destruct (pend_range c r). Qed.

Lemma pend_app c q1 q2 : pend c (q1 ++ q2) = pend c q1 ++ pend c q2.
Proof. apply omap_app. Qed.

Lemma omap_cons_list {A B} (f : A -> option B) x l : omap f (x :: l) = option_list (f x) ++ omap f l.
Proof. simpl. by destruct (f x). Qed.

Lemma busy_insert c ms i mn :
  busy c (<[i := mn]> ms) ≡ₚ option_list (busy_range c mn) ++ busy c (delete i ms).
Proof.
  unfold busy. rewrite <- (insert_delete_eq ms i mn).
  rewrite map_to_list_insert by apply lookup_delete_eq. by rewrite omap_cons_list.
Qed.

Lemma busy_delete c ms i mn :
  ms !! i = Some mn -> busy c ms ≡ₚ option_list (busy_range c mn) ++ busy c (delete i ms).
Proof. intros H. rewrite <- busy_insert. by rewrite insert_id. Qed.

Lemma busy_range_ne c mn : clientID mn <> c -> busy_range c mn = None.
Proof. intros H. unfold busy_range. by rewrite decide_False. Qed.

Lemma busy_range_eq mn : busy_range (clientID mn) mn = Some (mlower mn, mupper mn).
Proof. unfold busy_range. by rewrite decide_True. Qed.

Lemma pend_range_ne c r : rid r <> c -> pend_range c r = None.
Proof. intros H. unfold pend_range. by rewrite decide_False. Qed.

Lemma pend_range_eq r : pend_range (rid r) r = Some (rlower r, rupper r).
Proof. unfold pend_range. by rewrite decide_True. Qed.

Lemma pend_same c q : (forall r, r ∈ q -> rid r = c) -> pend c q = (fun r => (rlower r, rupper r)) <$> q.
Proof.
  induction q as [|r q IH]; intros H; [done|]. rewrite pend_cons, fmap_cons, IH.
  - rewrite <- (H r) by (by left). by rewrite pend_range_eq.
  - intros x Hx. apply H. by right.
Qed.

Lemma pend_none c q : (forall r, r ∈ q -> rid r <> c) -> pend c q = [].
Proof.
  induction q as [|r q IH]; intros H; [done|]. rewrite pend_cons, IH.
  - rewrite pend_range_ne; [done|]. apply H. by left.
  - intros x Hx. apply H. by right.
Qed.

(** The answers that went to client [c]. *)
Definition answer_to (c : Z) (p : Z * Message) : option Message :=
  if decide (p.1 = c /\ Type_ p.2 = Result) then Some p.2 else None.
Definition answers (c : Z) (s : server) : list Message := omap (answer_to c) (written s).

(** ** The invariant of one client

    [t] is its task, [rs] the results counted, [ps] the ranges of the request,
    [out] the outstanding ranges, [ans] the answers given. *)
Definition client_ok (t : option task) (rs : list ((Z * Z) * (Z * Z))) (ps out : list (Z * Z))
    (ans : list Message) : Prop :=
  match t with
  | Some t =>
      ans = [] /\ (minHash t, minNonce t) = collect rs.*2 /\
      tminers t = Z.of_nat (length ps) - Z.of_nat (length rs) /\
      Z.of_nat (length ps) < 2 ^ 62 /\
      exists gone, ps ≡ₚ rs.*1 ++ out ++ gone /\ (lost t = false -> gone = [])
  | None =>
      out = [] /\ (ans = [] \/ ans = [answer rs.*2] /\ ps ≡ₚ rs.*1)
  end.

Lemma client_ok_perm t rs ps out out' ans :
  out ≡ₚ out' -> client_ok t rs ps out ans -> client_ok t rs ps out' ans.
Proof.
  intros Hp. destruct t as [t|]; simpl.
  - intros (H1 & H2 & H3 & H4 & gone & H5 & H6). split_and!; try done. exists gone. by rewrite <- Hp.
  - intros [-> H]. by apply Permutation_nil_l in Hp.
Qed.

Lemma collect_snoc rs r : collect (rs ++ [r]) = better (collect rs) r.1 r.2.
Proof. unfold collect. by rewrite foldl_snoc. Qed.

(** A result for a range that was outstanding is counted. *)
Lemma client_ok_report t rs ps x out r :
  client_ok (Some t) rs ps (x :: out) [] ->
  let best := better (minHash t, minNonce t) r.1 r.2 in
  let t' := mkTask (lost t) best.1 best.2 (int64 (tminers t - 1)) in
  let rs' := rs ++ [(x, r)] in
  if tminers t' =? 0
  then client_ok None rs' ps out (if lost t then [] else [NewResult (minHash t') (minNonce t')])
  else client_ok (Some t') rs' ps out [].
Proof.
  intros (_ & Hbest & Hcnt & Hlen & gone & Hperm & Hgone) best t' rs'.
  assert (length ps = length rs + S (length out + length gone))%nat as Hl
    by (rewrite (Permutation_length Hperm), !length_app, length_fmap; simpl; lia).
  assert (ps ≡ₚ rs'.*1 ++ out ++ gone) as Hp
    by (unfold rs'; rewrite fmap_app, Hperm; simpl; solve_Permutation).
  assert ((minHash t', minNonce t') = collect rs'.*2) as Hb.
  { unfold rs'. rewrite fmap_app. change ([(x, r)].*2) with [r]. rewrite collect_snoc, <- Hbest. simpl. unfold t', best. simpl.
    by destruct (better _ _ _). }
  assert (tminers t' = tminers t - 1) as Ht by (apply int64_id; unfold int64_ok; lia).
  destruct (Z.eqb_spec (tminers t') 0) as [E|E].
  - assert (out = [] /\ gone = []) as [-> ->] by (destruct out, gone; simpl in *; lia || done).
    split; [done|]. destruct (lost t); [by left|right]. split; [|by rewrite Hp, app_nil_r].
    unfold answer. rewrite <- Hb. done.
  - split_and!; [done|done| |done|by exists gone].
    rewrite Ht, Hcnt. unfold rs'. rewrite length_app. simpl. lia.
Qed.

(** The outstanding range [x] of a lost client is dropped. *)
Lemma client_ok_drop t rs ps x out ans :
  lost t = true -> client_ok (Some t) rs ps (x :: out) ans -> client_ok (Some t) rs ps out ans.
Proof.
  intros Hl (H1 & H2 & H3 & H4 & gone & H5 & _). split_and!; try done. exists (x :: gone).
  split; [|congruence]. rewrite H5. simpl. solve_Permutation.
Qed.

Lemma client_ok_lost t rs ps out ans :
  client_ok (Some t) rs ps out ans ->
  client_ok (Some (mkTask true (minHash t) (minNonce t) (tminers t))) rs ps out ans.
Proof.
  intros (H1 & H2 & H3 & H4 & gone & H5 & _). split_and!; try done. by exists gone.
Qed.

(** A new request, cut into [ps]. *)
Lemma client_ok_new ps n :
  Z.of_nat (length ps) = n -> n < 2 ^ 62 -> client_ok (Some (mkTask false 0 0 n)) [] ps ps [].
Proof.
  intros H Hn. split_and!; simpl; try done; [lia|lia|]. exists []. by rewrite app_nil_r.
Qed.

(** ** The invariant *)

Record inv (evs : list event) (s : server) : Prop := {
  iv_client : forall c, c <> 0 ->
    client_ok (tasks s !! c) (reports s !!! c) (parts s !!! c) (outstanding c s) (answers c s);
  iv_fresh : forall c, c ∉ requested evs ->
    tasks s !! c = None /\ reports s !!! c = [] /\ parts s !!! c = [] /\ answers c s = [];
  iv_pend : forall r, r ∈ pendingRequests s -> rid r ∈ requested evs;
  iv_miner : forall m mn, miners s !! m = Some mn -> m ∈ joined evs;
  iv_free : forall m, m ∈ freeMiners s <-> exists mn, miners s !! m = Some mn /\ clientID mn = 0;
  iv_nodup : NoDup (freeMiners s)
}.

Lemma requested_snoc evs ev : requested (evs ++ [ev]) = requested evs ++ option_list (request_id ev).
Proof. unfold requested. rewrite omap_app. simpl. by destruct (request_id ev). Qed.

Lemma joined_snoc evs ev : joined (evs ++ [ev]) = joined evs ++ option_list (join_id ev).
Proof. unfold joined. rewrite omap_app. simpl. by destruct (join_id ev). Qed.

Lemma well_behaved_prefix evs ev : well_behaved (evs ++ [ev]) -> well_behaved evs.
Proof.
  unfold well_behaved. rewrite requested_snoc, joined_snoc, !NoDup_app, elem_of_app. tauto.
Qed.

Section Invariant.
Context (evs : list event) (s : server) (Hinv : inv evs s) (Hz : 0 ∉ requested evs).

(** Work in progress has a task. *)
Lemma outstanding_task c x out :
  c <> 0 -> outstanding c s ≡ₚ x :: out ->
  exists t, tasks s !! c = Some t /\ answers c s = [] /\
    client_ok (Some t) (reports s !!! c) (parts s !!! c) (x :: out) [].
Proof using Hinv.
  intros Hc Hp. pose proof (client_ok_perm _ _ _ _ _ _ Hp (iv_client _ _ Hinv c Hc)) as H.
  destruct (tasks s !! c) as [t|]; [|by destruct H as [? _]]. exists t. split; [done|].
  destruct H as [Ha H]. split; [done|]. by split.
Qed.

Lemma pending_task r q :
  pendingRequests s = r :: q -> exists t, tasks s !! rid r = Some t /\ answers (rid r) s = [] /\
    client_ok (Some t) (reports s !!! rid r) (parts s !!! rid r)
      ((rlower r, rupper r) :: pend (rid r) q ++ busy (rid r) (miners s)) [].
Proof using Hinv Hz.
  intros Hq. apply outstanding_task.
  - intros E. apply Hz. rewrite <- E. apply (iv_pend _ _ Hinv). rewrite Hq. by left.
  - unfold outstanding. by rewrite Hq, pend_cons, pend_range_eq.
Qed.

Lemma busy_task m mn :
  miners s !! m = Some mn -> clientID mn <> 0 ->
  exists t, tasks s !! clientID mn = Some t /\ answers (clientID mn) s = [] /\
    client_ok (Some t) (reports s !!! clientID mn) (parts s !!! clientID mn)
      ((mlower mn, mupper mn) :: pend (clientID mn) (pendingRequests s) ++
         busy (clientID mn) (delete m (miners s))) [].
Proof using Hinv.
  intros Hm Hc. apply outstanding_task; [done|]. unfold outstanding.
  rewrite (busy_delete _ _ _ _ Hm), busy_range_eq. simpl. solve_Permutation.
Qed.

(** No case panics. *)
Lemma schedule_no_panic floorLog10 ceilDiv ev : schedule floorLog10 ceilDiv s ev <> Some Panic.
Proof using Hinv Hz.
  unfold schedule. destruct (1024 <? trigger s); [done|].
  destruct ev as [r|ok|id|r|e]; simpl.
  - done.
  - unfold on_trigger. simpl. case_match; [done|]. destruct (freeMiners s) as [|m free]; [done|].
    destruct (pendingRequests s) as [|r q] eqn:Eq; [done|].
    destruct (pending_task r q Eq) as (t & -> & _). destruct (lost t); [done|]. by destruct ok.
  - done.
  - unfold on_result. destruct (miners s !! sid r) as [mn|] eqn:Em; [|done].
    destruct (Z.eqb_spec (clientID mn) 0) as [|Hc]; [done|].
    by destruct (busy_task _ _ Em Hc) as (t & -> & _).
  - unfold on_error. destruct (miners s !! e) as [mn|] eqn:Em; [|by destruct (tasks s !! e)].
    destruct (Z.eqb_spec (clientID mn) 0) as [|Hc]; [done|].
    destruct (busy_task _ _ Em Hc) as (t & -> & _). by destruct (lost t).
Qed.

(** *** Joining *)

Lemma join_inv id s' :
  id ∉ joined evs -> on_join s id = Some (Next s') -> inv (evs ++ [SJoin id]) s'.
Proof using Hinv.
  intros Hid. unfold on_join, fire. simpl. intros [= <-].
  destruct Hinv as [H1 H2 H3 H4 H5 H6].
  assert (miners s !! id = None) as Hnone by (apply eq_None_not_Some; by intros [mn Hm%H4]).
  constructor; rewrite ?requested_snoc, ?joined_snoc; simpl; rewrite ?app_nil_r; try done.
  - intros c Hc. eapply client_ok_perm; [|by apply H1]. unfold outstanding. simpl.
    rewrite busy_insert, busy_range_ne by (simpl; congruence). simpl.
    by rewrite delete_id by done.
  - intros m mn [[<- _]|[_ Hm%H4]]%lookup_insert_Some; apply elem_of_app; [right; by left|by left].
  - intros m. rewrite elem_of_cons, H5. split.
    + intros [->|(mn & Hm & Hc)]; [eexists; by rewrite lookup_insert_eq|].
      exists mn. by rewrite lookup_insert_ne by congruence.
    + intros (mn & [[<- _]|[_ Hm]]%lookup_insert_Some & Hc); [by left|right; by exists mn].
  - constructor; [|done]. rewrite H5. intros (mn & Hm & _). congruence.
Qed.

(** *** Requests *)

Lemma chunks_pend floorLog10 ceilDiv r n c :
  pend c (chunks floorLog10 ceilDiv r n) =
    if decide (c = rid r) then (fun x => (rlower x, rupper x)) <$> chunks floorLog10 ceilDiv r n else [].
Proof using.
  assert (forall x, x ∈ chunks floorLog10 ceilDiv r n -> rid x = rid r) as H
    by (intros x (i & -> & _)%list_elem_of_fmap; done).
  case_decide as E; [subst; by apply pend_same|].
  apply pend_none. intros x Hx. rewrite (H x Hx). congruence.
Qed.

Lemma request_inv floorLog10 ceilDiv r s' :
  (forall n, 10000 < n -> 0 < floorLog10 n < 2 ^ 62) ->
  Z.of_nat (length (freeMiners s)) < 2 ^ 62 -> rid r ∉ requested evs ->
  on_request floorLog10 ceilDiv s r = Some (Next s') -> inv (evs ++ [SRequest r]) s'.
Proof using Hinv.
  intros Hlog Hfree Hid. unfold on_request, fire. simpl. intros [= <-].
  destruct Hinv as [H1 H2 H3 H4 H5 H6].
  assert (0 < stride_of floorLog10 (rupper r) (length (freeMiners s)) < 2 ^ 62) as Hstride.
  { unfold stride_of. cbv zeta. destruct (_ && _) eqn:E; [apply andb_prop in E as [E _]; lia|].
    destruct (Z.ltb_spec 10000 (rupper r)); [by apply Hlog|lia]. }
  assert (pend (rid r) (pendingRequests s) = []) as Hpend.
  { apply pend_none. intros x Hx E. apply Hid. rewrite <- E. by apply H3. }
  destruct (H2 _ Hid) as (F1 & F2 & F3 & F4).
  constructor; rewrite ?requested_snoc, ?joined_snoc; simpl; rewrite ?app_nil_r; try done.
  - intros c Hc. unfold outstanding, answers. simpl. rewrite pend_app, chunks_pend.
    destruct (decide (c = rid r)) as [->|Hne].
    + rewrite lookup_insert_eq, lookup_total_insert_eq, F2. unfold answers in F4. rewrite F4.
      pose proof (H1 _ Hc) as Hout. rewrite F1 in Hout. destruct Hout as [Hout _].
      unfold outstanding in Hout. apply app_eq_nil in Hout as [_ ->]. rewrite Hpend, app_nil_r. cbn [app].
      apply client_ok_new; [|lia]. unfold chunks. rewrite !length_fmap, length_seqZ. lia.
    + rewrite lookup_insert_ne, lookup_total_insert_ne by congruence. rewrite app_nil_r. by apply H1.
  - intros c. rewrite elem_of_app, list_elem_of_singleton. intros Hc.
    assert (rid r <> c) by (intros <-; apply Hc; by right).
    rewrite lookup_insert_ne, lookup_total_insert_ne by done. apply H2. tauto.
  - intros x [Hx%H3|(i & -> & _)%list_elem_of_fmap]%elem_of_app; apply elem_of_app; [by left|].
    right. by left.
Qed.

(** *** Assigning *)

Lemma answers_request c m r :
  answers c (write s m (NewRequest (rdata r) (rlower r) (rupper r))) = answers c s.
Proof using.
  unfold answers, write. cbn [written]. rewrite omap_app. cbn [omap list_omap].
  unfold answer_to at 2. rewrite decide_False by (by intros [_ ?]). apply app_nil_r.
Qed.

(** The first free miner gets the first request. *)
Lemma assign_inv ev m free r q tr :
  request_id ev = None -> join_id ev = None ->
  freeMiners s = m :: free -> pendingRequests s = r :: q ->
  inv (evs ++ [ev]) (mkServer tr free (<[m := mkMiner (rid r) (rdata r) (rlower r) (rupper r)]> (miners s))
    q (tasks s) (written s ++ [(m, NewRequest (rdata r) (rlower r) (rupper r))]) (parts s) (reports s)).
Proof using Hinv Hz.
  intros Er Ej Ef Eq. pose proof (fun c => answers_request c m r) as Hans.
  destruct Hinv as [H1 H2 H3 H4 H5 H6]. rewrite Ef in H5, H6. rewrite Eq in H3.
  destruct (proj1 (H5 m)) as (mn & Hm & Hmn); [by left|]. inversion H6 as [|? ? Hnm Hnd]; subst.
  assert (rid r <> 0) as Hr0 by (intros E; apply Hz; rewrite <- E; apply H3; by left).
  constructor; rewrite ?requested_snoc, ?joined_snoc, ?Er, ?Ej; simpl; rewrite ?app_nil_r; try done.
  - intros c Hc. specialize (Hans c). unfold answers in Hans. simpl in Hans.
    unfold answers. simpl. rewrite Hans. eapply client_ok_perm; [|by apply H1].
    unfold outstanding. simpl. rewrite Eq, pend_cons, busy_insert, (busy_delete c _ _ _ Hm).
    rewrite (busy_range_ne c mn) by congruence.
    change (busy_range c _) with (pend_range c r). simpl. solve_Permutation.
  - intros c Hc. specialize (Hans c). unfold answers in Hans |- *. simpl in Hans |- *.
    rewrite Hans. by apply H2.
  - intros x Hx. apply H3. by right.
  - intros x y [[<- _]|[_ Hx%H4]]%lookup_insert_Some; [by eapply H4|done].
  - intros x. destruct (decide (x = m)) as [->|Hne].
    + rewrite lookup_insert_eq. split; [done|]. intros (? & [= <-] & ?). done.
    + rewrite lookup_insert_ne by done. rewrite <- H5, elem_of_cons. tauto.
Qed.

Lemma same_inv ev tr :
  request_id ev = None -> join_id ev = None ->
  inv (evs ++ [ev]) (mkServer tr (freeMiners s) (miners s)
    (pendingRequests s) (tasks s) (written s) (parts s) (reports s)).
Proof using Hinv.
  intros Er Ej. destruct Hinv as [H1 H2 H3 H4 H5 H6].
  constructor; rewrite ?requested_snoc, ?joined_snoc, ?Er, ?Ej; simpl; by rewrite ?app_nil_r.
Qed.

Lemma idle_inv ev : request_id ev = None -> join_id ev = None -> inv (evs ++ [ev]) s.
Proof using Hinv. intros Er Ej. pose proof (same_inv ev (trigger s) Er Ej). by destruct s. Qed.

Lemma trigger_inv ok s' :
  on_trigger s ok = Some (Next s') -> inv (evs ++ [STrigger ok]) s'.
Proof using Hinv Hz.
  unfold on_trigger. simpl. case_match; [done|].
  pose proof (fun tr => same_inv (STrigger ok) tr eq_refl eq_refl) as Hsame.
  destruct (freeMiners s) as [|m free] eqn:Ef; [intros [= <-]; apply Hsame|].
  destruct (pendingRequests s) as [|r q] eqn:Eq; [intros [= <-]; apply Hsame|].
  destruct (pending_task r q Eq) as (t & Ht & Hans & Hok). rewrite Ht.
  destruct (lost t) eqn:El; [|destruct ok; intros [= <-]; [by apply assign_inv|apply Hsame]].
  intros [= <-]. destruct Hinv as [H1 H2 H3 H4 H5 H6].
  constructor; rewrite ?requested_snoc, ?joined_snoc; simpl; rewrite ?app_nil_r, <- ?Ef; try done.
  - intros c Hc. destruct (decide (c = rid r)) as [->|Hne].
    + unfold answers in *. simpl. rewrite Ht, Hans. by eapply client_ok_drop.
    + eapply client_ok_perm; [|by apply H1]. unfold outstanding. simpl.
      by rewrite Eq, pend_cons, pend_range_ne by congruence.
  - intros x Hx. apply H3. rewrite Eq. by right.
Qed.

(** *** Results *)

(** Freeing miner [m] of client [k], whose data become [t], [rs] and [ans]. *)
Lemma free_inv ev tr m mn t rs ws :
  request_id ev = None -> join_id ev = None ->
  miners s !! m = Some mn -> clientID mn <> 0 ->
  (forall c, c <> clientID mn -> omap (answer_to c) ws = answers c s) ->
  client_ok t rs (parts s !!! clientID mn)
    (pend (clientID mn) (pendingRequests s) ++ busy (clientID mn) (delete m (miners s)))
    (omap (answer_to (clientID mn)) ws) ->
  clientID mn ∈ requested evs ->
  inv (evs ++ [ev]) (mkServer tr (freeMiners s ++ [m])
    (<[m := mkMiner 0 (mdata mn) (mlower mn) (mupper mn)]> (miners s)) (pendingRequests s)
    (match t with Some t => <[clientID mn := t]> (tasks s) | None => delete (clientID mn) (tasks s) end)
    ws (parts s) (<[clientID mn := rs]> (reports s))).
Proof using Hinv.
  intros Er Ej Hm Hk Hans Hok Hreq. set (k := clientID mn) in *.
  assert (forall c, c <> k -> match t with Some t => <[k := t]> (tasks s) | None => delete k (tasks s) end !! c
    = tasks s !! c) as Hne by (intros c Hc; destruct t; [by rewrite lookup_insert_ne|by rewrite lookup_delete_ne]).
  assert (match t with Some t => <[k := t]> (tasks s) | None => delete k (tasks s) end !! k = t) as Heq
    by (destruct t; [apply lookup_insert_eq|apply lookup_delete_eq]).
  destruct Hinv as [H1 H2 H3 H4 H5 H6].
  constructor; rewrite ?requested_snoc, ?joined_snoc, ?Er, ?Ej; simpl; rewrite ?app_nil_r; try done.
  - intros c Hc. unfold answers, outstanding. cbn [pendingRequests miners written].
    apply (client_ok_perm _ _ _ (pend c (pendingRequests s) ++ busy c (delete m (miners s))));
      [rewrite busy_insert, busy_range_ne by (simpl; congruence); done|].
    destruct (decide (c = k)) as [->|Hck].
    + by rewrite Heq, lookup_total_insert_eq.
    + rewrite Hne, lookup_total_insert_ne, Hans by congruence. eapply client_ok_perm; [|by apply H1].
      unfold outstanding. by rewrite (busy_delete c _ _ _ Hm), busy_range_ne by (fold k; congruence).
  - intros c Hc. assert (c <> k) by (intros ->; done).
    unfold answers. simpl. rewrite Hne, lookup_total_insert_ne, Hans by congruence. by apply H2.
  - intros x y [[<- _]|[_ Hx%H4]]%lookup_insert_Some; [by eapply H4|done].
  - intros x. rewrite elem_of_app, list_elem_of_singleton, H5. destruct (decide (x = m)) as [->|Hxm].
    + rewrite lookup_insert_eq. split; [by eexists|by right].
    + rewrite lookup_insert_ne by done. split; [by intros [?|?]|by left].
  - apply NoDup_app. split_and!; [done| |apply NoDup_singleton].
    intros x Hx ->%list_elem_of_singleton. apply H5 in Hx as (mn' & Hm' & Hc'). apply Hk. unfold k. congruence.
Qed.

Lemma busy_requested m mn : miners s !! m = Some mn -> clientID mn <> 0 -> clientID mn ∈ requested evs.
Proof using Hinv.
  intros Hm Hc. destruct (busy_task m mn Hm Hc) as (t & Ht & _).
  destruct (decide (clientID mn ∈ requested evs)) as [|Hn]; [done|].
  apply (iv_fresh _ _ Hinv) in Hn as [Hn _]. congruence.
Qed.

Lemma answer_other c k m : c <> k -> answer_to c (k, m) = None.
Proof using. intros H. unfold answer_to. rewrite decide_False; [done|]. simpl. intros [? _]. congruence. Qed.

Lemma answer_same k h n : answer_to k (k, NewResult h n) = Some (NewResult h n).
Proof using. unfold answer_to. by rewrite decide_True. Qed.

Lemma result_inv r s' : on_result s r = Some (Next s') -> inv (evs ++ [SResult r]) s'.
Proof using Hinv.
  unfold on_result. destruct (miners s !! sid r) as [mn|] eqn:Hm; [|intros [= <-]; by apply idle_inv].
  destruct (Z.eqb_spec (clientID mn) 0) as [|Hk]; [intros [= <-]; by apply idle_inv|].
  destruct (busy_task _ _ Hm Hk) as (t & Ht & Ha & Hok). rewrite Ht.
  pose proof (client_ok_report _ _ _ _ _ (shash r, snonce r) Hok) as Hnew. simpl in Hnew.
  pose proof (busy_requested _ _ Hm Hk) as Hreq.
  unfold fire. cbn [tminers minHash minNonce lost].
  destruct (int64 (tminers t - 1) =? 0); [destruct (lost t)|]; simpl; intros [= <-].
  - apply (free_inv (SResult r) _ _ mn None); try done. unfold answers in Ha. by rewrite Ha.
  - apply (free_inv (SResult r) _ _ mn None); try done.
    + intros c Hc. unfold answers. rewrite omap_app. simpl. rewrite answer_other by done. apply app_nil_r.
    + unfold answers in Ha. rewrite omap_app, Ha. cbn [omap list_omap]. by rewrite answer_same.
  - apply (free_inv (SResult r) _ _ mn (Some _)); try done. unfold answers in Ha. by rewrite Ha.
Qed.

(** *** Errors *)

Lemma remove_dead_elem e ms free :
  NoDup free -> (forall m, m ∈ free -> m <> e -> is_Some (ms !! m)) -> ms !! e = None ->
  NoDup (remove_dead ms free) /\ forall m, m ∈ remove_dead ms free <-> m ∈ free /\ m <> e.
Proof using.
  intros Hnd Hlive He. induction Hnd as [|x free Hx Hnd IH]; simpl.
  { split; [constructor|]. intros m. split; [by intros ?%not_elem_of_nil|by intros [? _]]. }
  case_bool_decide as Hs.
  - destruct IH as [I1 I2]; [intros m Hm; apply Hlive; by right|]. split.
    + constructor; [|done]. rewrite I2. by intros [? _].
    + intros m. rewrite !elem_of_cons, I2. split; [|tauto]. intros [->|?]; [|tauto].
      split; [by left|]. intros ->. rewrite He in Hs. by destruct Hs.
  - assert (x = e) as -> by (destruct (decide (x = e)); [done|exfalso; apply Hs, Hlive; [by left|done]]).
    split; [done|]. intros m. rewrite elem_of_cons. split; [|tauto].
    intros Hm. split; [by right|]. intros ->. done.
Qed.

(** A miner is forgotten: it was free, or its client is lost. *)
Lemma forget_inv ev e mn :
  request_id ev = None -> join_id ev = None -> miners s !! e = Some mn ->
  (clientID mn <> 0 -> exists t, tasks s !! clientID mn = Some t /\ lost t = true) ->
  inv (evs ++ [ev]) (set_miners s (remove_dead (delete e (miners s)) (freeMiners s)) (delete e (miners s))).
Proof using Hinv.
  intros Er Ej He Hl. destruct Hinv as [H1 H2 H3 H4 H5 H6].
  destruct (remove_dead_elem e (delete e (miners s)) (freeMiners s)) as [D1 D2];
    [done| |apply lookup_delete_eq|].
  { intros m (mn' & Hm & _)%H5 Hne. rewrite lookup_delete_ne by congruence. by eexists. }
  constructor; rewrite ?requested_snoc, ?joined_snoc, ?Er, ?Ej; simpl; rewrite ?app_nil_r; try done.
  - intros c Hc. specialize (H1 c Hc). unfold answers, outstanding. simpl.
    destruct (decide (clientID mn = c)) as [<-|Hne].
    + destruct (Hl Hc) as (t & Ht & Hlost). rewrite Ht in *.
      eapply (client_ok_drop _ _ _ (mlower mn, mupper mn)); [done|]. eapply client_ok_perm; [|exact H1].
      unfold outstanding. rewrite (busy_delete _ _ _ _ He), busy_range_eq. simpl. solve_Permutation.
    + eapply client_ok_perm; [|exact H1]. unfold outstanding.
      by rewrite (busy_delete _ _ _ _ He), busy_range_ne by done.
  - intros m x [_ Hm]%lookup_delete_Some. by eapply H4.
  - intros m. rewrite D2, H5. split.
    + intros [(x & Hx & Hc) Hne]. exists x. by rewrite lookup_delete_ne by congruence.
    + intros (x & [Hne Hx]%lookup_delete_Some & Hc). split; [by exists x|congruence].
Qed.

Lemma error_inv e s' : on_error s e = Some (Next s') -> inv (evs ++ [SError e]) s'.
Proof using Hinv Hz.
  unfold on_error. destruct (miners s !! e) as [mn|] eqn:Hm.
  - destruct (Z.eqb_spec (clientID mn) 0) as [|Hk]; [intros [= <-]; by eapply forget_inv|].
    destruct (busy_task _ _ Hm Hk) as (t & Ht & Ha & Hok). rewrite Ht.
    destruct (lost t) eqn:El; [intros [= <-]; eapply forget_inv; eauto|].
    unfold fire. simpl. intros [= <-].
    pose proof (busy_requested _ _ Hm Hk) as Hreq. destruct Hinv as [H1 H2 H3 H4 H5 H6].
    constructor; rewrite ?requested_snoc, ?joined_snoc; simpl; rewrite ?app_nil_r; try done.
    + intros c Hc. eapply client_ok_perm; [|by apply H1]. unfold outstanding.
      cbn [pendingRequests miners]. rewrite pend_cons, (busy_delete c _ _ _ Hm).
      change (pend_range c _) with (busy_range c mn). solve_Permutation.
    + intros r [->|Hr]%elem_of_cons; [done|by apply H3].
    + intros m x [_ Hx]%lookup_delete_Some. by eapply H4.
    + intros m. rewrite H5. split.
      * intros (x & Hx & Hc). exists x. rewrite lookup_delete_ne by congruence. done.
      * intros (x & [Hne Hx]%lookup_delete_Some & Hc). by exists x.
  - destruct (tasks s !! e) as [t|] eqn:Ht; intros [= <-]; [|by apply idle_inv].
    destruct Hinv as [H1 H2 H3 H4 H5 H6].
    constructor; rewrite ?requested_snoc, ?joined_snoc; simpl; rewrite ?app_nil_r; try done.
    + intros c Hc. destruct (decide (c = e)) as [->|Hne].
      * rewrite lookup_insert_eq. apply client_ok_lost. rewrite <- Ht. by apply H1.
      * rewrite lookup_insert_ne by congruence. by apply H1.
    + intros c Hc. destruct (H2 c Hc) as (F1 & F). rewrite lookup_insert_ne by congruence. by split.
Qed.
End Invariant.

(** ** Runs *)

Section Runs.
Context (floorLog10 : Z -> Z) (ceilDiv : Z -> Z -> Z).
Context (Hlog : forall n, 10000 < n -> 0 < floorLog10 n < 2 ^ 62).

#[local] Abbreviation next := (next floorLog10 ceilDiv).

Lemma free_length evs s : inv evs s -> (length (freeMiners s) <= length evs)%nat.
Proof using.
  intros [_ _ _ H4 H5 H6]. transitivity (length (joined evs)).
  - apply submseteq_length, NoDup_submseteq; [done|]. intros m (mn & Hm & _)%H5. by eapply H4.
  - unfold joined. clear. induction evs as [|ev evs IH]; [done|].
    rewrite omap_cons_list, length_app. destruct (join_id ev); unfold option_list; simpl; lia.
Qed.

Lemma next_inv evs s ev s' :
  inv evs s -> well_behaved (evs ++ [ev]) -> Z.of_nat (length evs) < 2 ^ 62 ->
  next s ev = Some s' -> inv (evs ++ [ev]) s'.
Proof using Hlog.
  intros Hinv Hwb Hlen. pose proof (well_behaved_prefix _ _ Hwb) as (_ & _ & Hz).
  destruct Hwb as (Hreq & Hjoin & _). rewrite requested_snoc in Hreq. rewrite joined_snoc in Hjoin.
  apply NoDup_app in Hreq as (_ & Hreq & _), Hjoin as (_ & Hjoin & _).
  pose proof (free_length _ _ Hinv).
  unfold BitcoinServer.next. destruct (schedule _ _ s ev) as [[|s1]|] eqn:E; try done. intros [= <-].
  unfold schedule in E. destruct (1024 <? trigger s); [done|].
  destruct ev as [r|ok|id|r|e]; simpl in E.
  - eapply (request_inv evs s Hinv); [exact Hlog|lia| |exact E]. intros Hin. apply (Hreq _ Hin). by left.
  - by eapply trigger_inv.
  - eapply join_inv; [done| |done]. intros Hin. apply (Hjoin _ Hin). by left.
  - by eapply result_inv.
  - by eapply error_inv.
Qed.

Lemma start_inv : inv [] startServer.
Proof using.
  constructor; simpl; try done.
  - intros c _. split; [|by left]. done.
  - by intros r ?%not_elem_of_nil.
  - intros m. split; [by intros ?%not_elem_of_nil|by intros (mn & ? & _)].
  - constructor.
Qed.

Lemma exec_next_inv evs s :
  exec next startServer evs = Some s -> well_behaved evs -> Z.of_nat (length evs) < 2 ^ 62 -> inv evs s.
Proof using Hlog.
  revert s. induction evs as [|ev evs IH] using rev_ind; intros s.
  { intros [= <-] _ _. apply start_inv. }
  rewrite exec_app, length_app. simpl. intros H Hwb Hlen.
  destruct (exec next startServer evs) as [s1|] eqn:E; [|done]. simpl in H.
  destruct (next s1 ev) as [s2|] eqn:E2; [|done]. injection H as <-.
  eapply next_inv; [|done|lia|done]. apply IH; [done|by eapply well_behaved_prefix|lia].
Qed.

(** C34: the scheduler loses no work and never panics.  In every state it reaches
    with clients that request once and miners that join once, whatever miners and
    clients are lost and in whatever order the messages come: no case
    dereferences a missing task, and for every client that is not lost the ranges
    of its request are, each once, those whose result was counted, those that
    wait, and those a miner has; the task counts the last two kinds and holds the
    least hash counted. *)
Theorem scheduler_accounts evs s :
  exec next startServer evs = Some s -> well_behaved evs -> Z.of_nat (length evs) < 2 ^ 62 ->
  (forall ev, schedule floorLog10 ceilDiv s ev <> Some Panic) /\
  forall c t, tasks s !! c = Some t -> lost t = false ->
    parts s !!! c ≡ₚ (reports s !!! c).*1 ++ outstanding c s /\
    tminers t = Z.of_nat (length (outstanding c s)) /\
    (minHash t, minNonce t) = collect (reports s !!! c).*2.
Proof using Hlog.
  intros Hrun Hwb Hlen. pose proof (exec_next_inv _ _ Hrun Hwb Hlen) as Hinv.
  destruct Hwb as (_ & _ & Hz). split; [intros ev; by apply (schedule_no_panic evs)|].
  intros c t Ht Hl. assert (c <> 0) as Hc.
  { intros ->. apply (iv_fresh _ _ Hinv) in Hz as [? _]. congruence. }
  pose proof (iv_client _ _ Hinv c Hc) as H. rewrite Ht in H.
  destruct H as (_ & Hbest & Hcnt & _ & gone & Hp & Hg). rewrite (Hg Hl), app_nil_r in Hp.
  split_and!; [done| |done]. rewrite Hcnt, Hp, length_app, length_fmap. lia.
Qed.

(** An answer that was written. *)
Lemma answer_counted evs s c m :
  exec next startServer evs = Some s -> well_behaved evs -> Z.of_nat (length evs) < 2 ^ 62 ->
  (c, m) ∈ written s -> Type_ m = Result ->
  m = answer (reports s !!! c).*2 /\ parts s !!! c ≡ₚ (reports s !!! c).*1 /\
  outstanding c s = [] /\ answers c s = [m].
Proof using Hlog.
  intros Hrun Hwb Hlen Hm Ht. pose proof (exec_next_inv _ _ Hrun Hwb Hlen) as Hinv.
  destruct Hwb as (_ & _ & Hz).
  assert (m ∈ answers c s) as Ha.
  { apply list_elem_of_omap. exists (c, m). split; [done|]. unfold answer_to. by rewrite decide_True. }
  assert (c <> 0) as Hc.
  { intros ->. apply (iv_fresh _ _ Hinv) in Hz as (_ & _ & _ & E). rewrite E in Ha.
    by apply not_elem_of_nil in Ha. }
  pose proof (iv_client _ _ Hinv c Hc) as H. destruct (tasks s !! c) as [t|].
  { destruct H as [E _]. rewrite E in Ha. by apply not_elem_of_nil in Ha. }
  destruct H as [Ho [E|[E Hp]]]; rewrite E in Ha; [by apply not_elem_of_nil in Ha|].
  apply list_elem_of_singleton in Ha as ->. done.
Qed.
(** C35: the answer to a client.  A client gets at most one answer, when nothing of
    its request is outstanding; the answer is the least of the results counted,
    and these are one for each range of the request. *)
Theorem scheduler_answers evs s c m :
  exec next startServer evs = Some s -> well_behaved evs -> Z.of_nat (length evs) < 2 ^ 62 ->
  (c, m) ∈ written s -> Type_ m = Result ->
  m = answer (reports s !!! c).*2 /\ parts s !!! c ≡ₚ (reports s !!! c).*1 /\
  outstanding c s = [] /\ answers c s = [m].
Proof using Hlog. apply answer_counted. Qed.
End Runs.

(** C37: the ranges of a request.  Below 2^53, where the division of floats is
    exact enough, they cover every nonce from 0 to [upper], whatever lower end
    was asked for, and stay within [upper]; neighbours share an end.  But a
    request with fewer nonces than ranges gets ranges whose lower end is above
    the upper one. *)
Theorem chunks_cover floorLog10 ceilDiv r free :
  (forall n, 10000 < n -> 0 < floorLog10 n) ->
  (forall a b, 0 <= a < 2 ^ 53 -> 0 < b -> ceilDiv a b = (a + b - 1) / b) ->
  0 <= rupper r < 2 ^ 53 ->
  let stride := stride_of floorLog10 (rupper r) free in
  let cs := chunks floorLog10 ceilDiv r free in
  stride < 2 ^ 10 ->
  (forall k, 0 <= k <= rupper r -> exists c, c ∈ cs /\ rlower c <= k <= rupper c) /\
  (forall c, c ∈ cs -> 0 <= rlower c /\ rupper c <= rupper r) /\
  (forall i, 0 < rupper r < i -> i < stride -> exists c, c ∈ cs /\ rlower c = i /\ rupper c = rupper r).
Proof.
  intros Hlog Hceil Hup stride cs Hst.
  assert (0 < stride) as Hpos.
  { unfold stride, stride_of. cbv zeta. destruct (_ && _) eqn:E; [apply andb_prop in E as [E _]; lia|].
    destruct (Z.ltb_spec 10000 (rupper r)); [by apply Hlog|lia]. }
  set (step := ceilDiv (rupper r) stride).
  assert (step = (rupper r + stride - 1) / stride) as Hstep by (apply Hceil; lia).
  pose proof (Z.div_mod (rupper r + stride - 1) stride ltac:(lia)) as Hdm.
  pose proof (Z.mod_pos_bound (rupper r + stride - 1) stride Hpos) as Hmod. rewrite <- Hstep in Hdm.
  assert (0 <= step <= rupper r) as Hs by nia.
  assert (forall i, 0 <= i <= stride -> uint64 (i * step) = i * step) as Hid
    by (intros i Hi; apply uint64_id; unfold uint64_ok; nia).
  assert (forall i, 0 <= i < stride -> chunk r step i ∈ cs) as Hin
    by (intros i Hi; apply list_elem_of_fmap; exists i; split; [done|apply elem_of_seqZ; lia]).
  split_and!.
  - intros k Hk. destruct (decide (step = 0)) as [E|E].
    { exists (chunk r step 0). split; [apply Hin; lia|]. simpl. rewrite !Hid by lia. nia. }
    exists (chunk r step (Z.min (k / step) (stride - 1))).
    pose proof (Z.div_mod k step E). pose proof (Z.mod_pos_bound k step ltac:(lia)).
    pose proof (Z.div_pos k step ltac:(lia) ltac:(lia)).
    split; [apply Hin; lia|]. simpl. rewrite !Hid by lia. nia.
  - intros c (i & -> & Hi%elem_of_seqZ)%list_elem_of_fmap. simpl. split; [apply uint64_range|lia].
  - intros i Hi Hlt. assert (step = 1) as E by nia. exists (chunk r step i).
    split; [apply Hin; lia|]. simpl. rewrite !Hid by lia. rewrite E. lia.
Qed.

(** *** Stalling *)

(** No request, no join and no loss of a connection. *)
Definition passive (ev : event) : bool :=
  match ev with STrigger _ | SResult _ => true | _ => false end.

(** One miner; the client that waits first is lost, and the next one is never
    served. *)
Definition demo_stall : list event :=
  [SJoin 73; STrigger true; SRequest (mkRequest 75 0 99 "a"); STrigger true;
   SRequest (mkRequest 76 0 99 "b"); STrigger true; SRequest (mkRequest 77 0 99 "c"); STrigger true;
   SError 76; SResult (mkResult 73 10 500); STrigger true].

Lemma demo_stall_ok : well_behaved demo_stall.
Proof.
  unfold well_behaved. split_and!.
  - apply (bool_decide_eq_true_1 (NoDup (requested demo_stall))). vm_refl.
  - apply NoDup_singleton.
  - apply (bool_decide_eq_true_1 (0 ∉ requested demo_stall)). vm_refl.
Qed.

Section Stall.
Context (floorLog10 : Z -> Z) (ceilDiv : Z -> Z -> Z).

#[local] Abbreviation next := (next floorLog10 ceilDiv).

(** Nothing changes the state but a new request, a new miner or a lost connection. *)
Definition stuck (s : server) : Prop :=
  forall evs s', forallb passive evs = true -> exec next s evs = Some s' -> s' = s.

Lemma idle_stuck s :
  trigger s = 0 -> (forall m mn, miners s !! m = Some mn -> clientID mn = 0) -> stuck s.
Proof.
  intros Ht Hidle evs s'. induction evs as [|ev evs IH]; [by intros _ [= <-]|].
  cbn [forallb exec]. intros [Hp Hps]%andb_prop. unfold BitcoinServer.next, schedule. rewrite Ht.
  destruct ev as [r|ok|id|r|e]; try done; cbn [select_case].
  - unfold on_trigger. by rewrite Ht.
  - unfold on_result. destruct (miners s !! sid r) as [mn|] eqn:E; [rewrite (Hidle _ _ E)|]; by apply IH.
Qed.

Lemma demo_stalled :
  exists s, exec next startServer demo_stall = Some s /\ trigger s = 0 /\ freeMiners s = [73] /\
    map_Forall (fun _ mn => clientID mn = 0) (miners s) /\ (rid <$> pendingRequests s) = [77] /\
    exists t, tasks s !! 77 = Some t /\ lost t = false.
Proof.
  exists (run next startServer demo_stall). split; [apply exec_run; vm_refl|].
  split; [vm_refl|]. split; [vm_refl|].
  split; [apply (bool_decide_eq_true_1 (map_Forall (fun _ mn => clientID mn = 0)
    (miners (run next startServer demo_stall)))); vm_refl|]. split; [vm_refl|].
  eexists. split; vm_refl.
Qed.

(** C38: the scheduler can stall.  A range is handed out only when a value comes from
    [trigger], and a value is spent also on a range of a lost client, which is dropped.
    So when the last value is spent that way while no miner is at work, the ranges
    behind stay where they are, with free miners beside them, until a new connection or
    a loss: whatever else happens the state does not change.  And it does come to that:
    one miner and three clients that behave well, one of which is lost, reach such a
    state, in which the range of a client that is not lost waits for ever. *)
Theorem scheduler_stalls :
  (forall s r pending t ok, trigger s = 1 -> freeMiners s <> [] ->
     (forall m mn, miners s !! m = Some mn -> clientID mn = 0) ->
     pendingRequests s = r :: pending -> tasks s !! rid r = Some t -> lost t = true ->
     exists s1, next s (STrigger ok) = Some s1 /\ pendingRequests s1 = pending /\
       freeMiners s1 = freeMiners s /\ tasks s1 = tasks s /\ stuck s1) /\
  (exists evs s c t, well_behaved evs /\ exec next startServer evs = Some s /\
     freeMiners s <> [] /\ (rid <$> pendingRequests s) = [c] /\ tasks s !! c = Some t /\ lost t = false /\
     stuck s).
Proof.
  split.
  - intros s r pending t ok Ht Hfree Hidle Hp Htask Hl.
    destruct (freeMiners s) as [|m free] eqn:Ef; [done|].
    eexists. unfold BitcoinServer.next, schedule. rewrite Ht. cbn [select_case]. unfold on_trigger.
    cbn [trigger freeMiners miners pendingRequests tasks]. rewrite Ht, Ef, Hp.
    change (1 <=? 0) with false. cbv beta iota zeta. cbn [tasks]. rewrite Htask, Hl. split; [reflexivity|]. split_and!; try done.
    by apply idle_stuck.
  - destruct demo_stalled as (s & Hrun & Ht & Hf & Hm & Hp & (t & Htask & Hl)).
    exists demo_stall, s, 77, t. split_and!; [exact demo_stall_ok|exact Hrun| |exact Hp|exact Htask|exact Hl|].
    + by rewrite Hf.
    + apply idle_stuck; [exact Ht|exact Hm].
Qed.

(** A goroutine that has sent 1025 values without taking one waits for ever: 1025 miners
    that join before the first trigger is served do it. *)
Example trigger_deadlock :
  let s := run next startServer (SJoin <$> seqZ 73 1025) in
  runs next startServer (SJoin <$> seqZ 73 1025) = true /\ forall ev, schedule floorLog10 ceilDiv s ev = None.
Proof.
  intros s. assert (trigger s = 1025) as Ht by vm_refl. split; [vm_refl|].
  intros ev. unfold schedule. by rewrite Ht.
Qed.
End Stall.

(** ** Witnesses *)

(** The floor of the decimal logarithm, for small arguments. *)
Definition floor_log10 (n : Z) : Z := if n <? 100000 then 4 else 5.
Definition ceil_div (a b : Z) : Z := (a + b - 1) / b.

Lemma floor_log10_range n : 10000 < n -> 0 < floor_log10 n < 2 ^ 62.
Proof. intros _. unfold floor_log10. case_match; lia. Qed.

(** Two miners join, a client requests; one miner is lost at work and its range
    goes to the other one. *)
Definition demo_events : list event :=
  [SJoin 73; SJoin 74; SRequest (mkRequest 75 0 99 "m"); STrigger true; STrigger true;
   SError 73; SResult (mkResult 74 10 500); STrigger true; STrigger true; SResult (mkResult 74 60 300)].

Lemma demo_events_ok : well_behaved demo_events.
Proof.
  unfold well_behaved. change (requested demo_events) with [75]. change (joined demo_events) with [73; 74].
  split_and!; [apply NoDup_singleton| |].
  - apply NoDup_cons. split; [by intros ?%list_elem_of_singleton|apply NoDup_singleton].
  - by intros ?%list_elem_of_singleton.
Qed.

#[local] Abbreviation demo_state := (run (next floor_log10 ceil_div) startServer demo_events).

Lemma scheduler_accounts_witness :
  let s := run (next floor_log10 ceil_div) startServer (take 6 demo_events) in
  parts s !!! 75 = [(0, 50); (50, 99)] /\ parts s !!! 75 ≡ₚ (reports s !!! 75).*1 ++ outstanding 75 s /\
  schedule floor_log10 ceil_div s (SResult (mkResult 74 10 500)) <> Some Panic.
Proof.
  intros s. assert (exec (next floor_log10 ceil_div) startServer (take 6 demo_events) = Some s) as Hrun
    by exact (exec_run (next floor_log10 ceil_div) startServer (take 6 demo_events) ltac:(vm_refl)).
  destruct (scheduler_accounts floor_log10 ceil_div floor_log10_range (take 6 demo_events) s Hrun
    demo_events_ok ltac:(vm_refl)) as [Hnp Hacc].
  split; [vm_refl|]. split; [|apply Hnp].
  destruct (tasks s !! 75) as [t|] eqn:Et; [|vm_compute in Et; discriminate Et].
  refine (proj1 (Hacc 75 t Et _)). vm_compute in Et. injection Et as <-. reflexivity.
Defined.

Lemma scheduler_answers_witness :
  NewResult 300 60 = answer (reports demo_state !!! 75).*2 /\
  parts demo_state !!! 75 ≡ₚ (reports demo_state !!! 75).*1.
Proof.
  assert ((75, NewResult 300 60) ∈ written demo_state) as Hin.
  { change (written demo_state) with ([(74, NewRequest "m" 0 50); (73, NewRequest "m" 50 99);
      (74, NewRequest "m" 50 99)] ++ [(75, NewResult 300 60)]). apply elem_of_app. right. by left. }
  destruct (scheduler_answers floor_log10 ceil_div floor_log10_range demo_events demo_state 75
    (NewResult 300 60) (exec_run (next floor_log10 ceil_div) startServer demo_events ltac:(vm_refl))
    demo_events_ok ltac:(vm_refl) Hin eq_refl) as (H1 & H2 & _).
  split; [exact H1|exact H2].
Defined.

Lemma chunks_cover_witness :
  exists c, c ∈ chunks floor_log10 ceil_div (mkRequest 75 0 99 "m") 2 /\ rlower c <= 70 <= rupper c.
Proof.
  refine (proj1 (chunks_cover floor_log10 ceil_div (mkRequest 75 0 99 "m") 2 _ _ _ _) 70 _);
    [intros n Hn; apply floor_log10_range; exact Hn|intros a b _ _; reflexivity|simpl; lia|vm_refl|simpl; lia].
Defined.
