(* ===== verification/BitcoinPairing.v ===== *)
(** The scheduler of the Bitcoin server and its miners: which result belongs to which
    request.

    A miner answers its requests in their order, so its next result belongs to the
    first request it has not answered.  [pairing] says that the scheduler's table is
    right about that: a busy miner has exactly one unanswered request, the one in
    the table.  So every result counted for a range was mined for that range and
    for the data of its client. *)
From S2P Require Import Prelude GoText BitcoinHash BitcoinMiner BitcoinCodec BitcoinServer Utf8 Json.

(** Names the state that [fire] gives in the hypothesis [E]. *)
#[local] Ltac fired E s2 Ef :=
  match type of E with context [fire ?x] => remember (fire x) as s2 eqn:Ef in E; symmetry in Ef end;
  simpl in E.

(** The requests written to [i], and the results of [i] taken by the scheduler. *)
Definition asked_of (i : Z) (p : Z * Message) : option Message :=
  if decide (p.1 = i /\ Type_ p.2 = Request) then Some p.2 else None.
Definition asked (i : Z) (s : server) : list Message := omap (asked_of i) (written s).

Definition result_of (i : Z) (ev : event) : option (Z * Z) :=
  match ev with
  | SResult r => if decide (sid r = i) then Some (shash r, snonce r) else None
  | _ => None
  end.
Definition results (i : Z) (hist : list event) : list (Z * Z) := omap (result_of i) hist.

(** The request of client [c]. *)
Definition wants (hist : list event) (c : Z) (data : string) : Prop :=
  exists r, SRequest r ∈ hist /\ rid r = c /\ rdata r = data.

Definition request_ok (r : request) : Prop :=
  utf8_ok (rdata r) = true /\ uint64_ok (rlower r) /\ uint64_ok (rupper r).

(** What the programs that talk to the server send it. *)
Definition event_ok (ev : event) : Prop :=
  match ev with
  | SRequest r => request_ok r
  | SResult r => uint64_ok (shash r) /\ uint64_ok (snonce r)
  | _ => True
  end.

Section Pairing.
Context (floorLog10 : Z -> Z) (ceilDiv : Z -> Z -> Z).
(** The message is a request, and the pair an answer to it. *)
Context (mined : Message -> Z * Z -> Prop).

(** The result that arrives is the answer to the first unanswered request. *)
Definition truthful (hist : list event) (s : server) (ev : event) : Prop :=
  forall r, ev = SResult r -> exists m,
    asked (sid r) s !! length (results (sid r) hist) = Some m /\ mined m (shash r, snonce r).

Definition assigned (mn : miner) : Message := NewRequest (mdata mn) (mlower mn) (mupper mn).

(** The place of a miner: idle, or at the request in the table. *)
Definition miner_at (n : nat) (ms : list Message) (mn : miner) : Prop :=
  if decide (clientID mn = 0) then length ms = n
  else length ms = S n /\ ms !! n = Some (assigned mn).

Record pairing (hist : list event) (s : server) : Prop := {
  pg_miner : forall i mn, miners s !! i = Some mn -> miner_at (length (results i hist)) (asked i s) mn;
  pg_le : forall i, (length (results i hist) <= length (asked i s))%nat;
  pg_new : forall i, i ∉ joined hist -> asked i s = [];
  pg_pending : forall r, r ∈ pendingRequests s -> wants hist (rid r) (rdata r);
  pg_busy : forall i mn, miners s !! i = Some mn -> clientID mn <> 0 -> wants hist (clientID mn) (mdata mn);
  pg_reports : forall c rg r, (rg, r) ∈ reports s !!! c ->
    exists data, wants hist c data /\ mined (NewRequest data rg.1 rg.2) r;
  pg_parts : forall c, c ∈ requested hist -> exists r n,
    SRequest r ∈ hist /\ rid r = c /\
    parts s !!! c = (fun p => (rlower p, rupper p)) <$> chunks floorLog10 ceilDiv r n
}.

Lemma results_snoc i hist ev : results i (hist ++ [ev]) = results i hist ++ option_list (result_of i ev).
Proof. unfold results. rewrite omap_app. simpl. by destruct (result_of i ev). Qed.

Lemma asked_write i j m s :
  asked i (write s j m) = asked i s ++ (if decide (j = i /\ Type_ m = Request) then [m] else []).
Proof. unfold asked, write. simpl. rewrite omap_app. simpl. unfold asked_of. simpl. by case_decide. Qed.

Lemma wants_snoc hist ev c d : wants hist c d -> wants (hist ++ [ev]) c d.
Proof. intros (r & Hr & H). exists r. split; [|done]. apply elem_of_app. by left. Qed.

Section Step.
Context (hist : list event) (s : server) (Hinv : inv hist s) (Hp : pairing hist s).
Context (ev : event) (Ht : truthful hist s ev).

(** A step that is no result, and leaves what was written and the table alone. *)
Lemma pairing_frame s' :
  (forall i, result_of i ev = None) ->
  (forall i, asked i s' = asked i s) ->
  (forall i mn, miners s' !! i = Some mn ->
     miners s !! i = Some mn \/ (clientID mn = 0 /\ i ∉ joined hist)) ->
  (forall r, r ∈ pendingRequests s' -> wants (hist ++ [ev]) (rid r) (rdata r)) ->
  reports s' = reports s ->
  (forall c, c ∈ requested (hist ++ [ev]) -> exists r n,
    SRequest r ∈ hist ++ [ev] /\ rid r = c /\
    parts s' !!! c = (fun p => (rlower p, rupper p)) <$> chunks floorLog10 ceilDiv r n) ->
  pairing (hist ++ [ev]) s'.
Proof using Hp.
  intros Er Ea Em Eq Erep Eparts. destruct Hp as [H1 H2 H3 H4 H5 H6 H7].
  assert (forall i, results i (hist ++ [ev]) = results i hist) as Eres
    by (intros i; by rewrite results_snoc, Er, app_nil_r).
  assert (forall i, i ∉ joined (hist ++ [ev]) -> i ∉ joined hist) as Hj
    by (intros i; rewrite joined_snoc, not_elem_of_app; tauto).
  split; auto.
  - intros i mn Hmn. rewrite Eres, Ea. destruct (Em i mn Hmn) as [Hold|[Hz Hnew]]; [by apply H1|].
    pose proof (H2 i) as Hl. unfold miner_at. rewrite decide_True by done.
    rewrite (H3 i Hnew) in *. simpl in *. lia.
  - intros i. by rewrite Eres, Ea.
  - intros i Hi. rewrite Ea. auto.
  - intros i mn Hmn Hne. destruct (Em i mn Hmn) as [Hold|[Hz _]]; [|done].
    by apply wants_snoc, (H5 i mn).
  - intros c rg r. rewrite Erep. intros (d & Hd & Hm)%H6. exists d. split; [by apply wants_snoc|done].
Qed.

(** The parts of requests made before. *)
Lemma parts_frame s' :
  request_id ev = None -> parts s' = parts s ->
  forall c, c ∈ requested (hist ++ [ev]) -> exists r n,
    SRequest r ∈ hist ++ [ev] /\ rid r = c /\
    parts s' !!! c = (fun p => (rlower p, rupper p)) <$> chunks floorLog10 ceilDiv r n.
Proof using Hp.
  intros Hr -> c. rewrite requested_snoc, Hr, app_nil_r. intros (r & n & Hin & H)%(pg_parts _ _ Hp).
  exists r, n. split; [|done]. apply elem_of_app. by left.
Qed.

Lemma fire_eq s1 s2 : fire s1 = s2 ->
  written s2 = written s1 /\ miners s2 = miners s1 /\ pendingRequests s2 = pendingRequests s1 /\
  reports s2 = reports s1 /\ parts s2 = parts s1.
Proof using. by intros <-. Qed.

Lemma asked_same i s1 s2 : written s2 = written s1 -> asked i s2 = asked i s1.
Proof using. unfold asked. by intros ->. Qed.
End Step.

Section Cases.
Context (hist : list event) (s : server) (Hinv : inv hist s) (Hp : pairing hist s).
Context (Hz : 0 ∉ requested hist).

Lemma request_pairing r s' :
  rid r ∉ requested hist ->
  on_request floorLog10 ceilDiv s r = Some (Next s') -> pairing (hist ++ [SRequest r]) s'.
Proof using Hp.
  intros Hnew. unfold on_request. remember (fire _) as s1 eqn:E. symmetry in E. simpl. intros [= <-].
  apply fire_eq in E as (E1 & E2 & E3 & E4 & E5). simpl in *.
  apply (pairing_frame hist s); [done|done|intros i; by apply asked_same|..].
  - intros i mn. rewrite E2. by left.
  - intros q. rewrite E3. intros [Hq|Hq]%elem_of_app.
    + by apply wants_snoc, (pg_pending _ _ Hp).
    + apply list_elem_of_fmap in Hq as (k & -> & _). exists r. split; [|done]. apply elem_of_app. right. by left.
  - done.
  - intros c. rewrite requested_snoc, E5. simpl. intros [Hc|Hc]%elem_of_app.
    + rewrite lookup_total_insert_ne by congruence.
      destruct (pg_parts _ _ Hp c Hc) as (r' & n & Hin & H). exists r', n. split; [|done].
      apply elem_of_app. by left.
    + apply list_elem_of_singleton in Hc as ->. rewrite lookup_total_insert_eq.
      eexists r, _. split_and!; [|done|done]. apply elem_of_app. right. by left.
Qed.

Lemma join_pairing i s' :
  i ∉ joined hist -> on_join s i = Some (Next s') -> pairing (hist ++ [SJoin i]) s'.
Proof using Hp.
  intros Hnew. unfold on_join. remember (fire _) as s1 eqn:E. symmetry in E. simpl. intros [= <-].
  apply fire_eq in E as (E1 & E2 & E3 & E4 & E5). simpl in *.
  apply (pairing_frame hist s); [done|done|intros j; by apply asked_same|..].
  - intros j mn. rewrite E2. intros [[<- <-]|[_ H]]%lookup_insert_Some; [by right|by left].
  - intros q. rewrite E3. intros Hq. by apply wants_snoc, (pg_pending _ _ Hp).
  - done.
  - by apply (parts_frame hist s).
Qed.

(** The front range goes to the front miner. *)
Lemma assign_pairing m free r q tr ev :
  freeMiners s = m :: free -> pendingRequests s = r :: q -> ev = STrigger true ->
  pairing (hist ++ [ev])
    (set_miners (set_pending (write (mkServer tr (freeMiners s) (miners s) (pendingRequests s) (tasks s)
        (written s) (parts s) (reports s)) m (NewRequest (rdata r) (rlower r) (rupper r))) q) free
      (<[m := mkMiner (rid r) (rdata r) (rlower r) (rupper r)]> (miners s))).
Proof using Hp Hinv Hz.
  intros Hf Hq ->. destruct Hp as [H1 H2 H3 H4 H5 H6 H7].
  destruct (proj1 (iv_free _ _ Hinv m)) as (mn & Hmn & Hidle); [rewrite Hf; by left|].
  pose proof (H1 m mn Hmn) as Hm. unfold miner_at in Hm. rewrite decide_True in Hm by done.
  set (req := NewRequest _ _ _). set (s' := set_miners _ _ _).
  assert (forall i, asked i s' = asked i s ++ (if decide (m = i) then [req] else [])) as Ea.
  { intros i. transitivity (asked i (write s m req)); [done|]. rewrite asked_write.
    destruct (decide (m = i)); [by rewrite decide_True|]. by rewrite decide_False by tauto. }
  assert (forall i, results i (hist ++ [STrigger true]) = results i hist) as Eres
    by (intros i; rewrite results_snoc; apply app_nil_r).
  assert (wants hist (rid r) (rdata r)) as Hw by (apply H4; rewrite Hq; by left).
  split; intros.
  - simpl in H. rewrite Eres, Ea. apply lookup_insert_Some in H as [[<- <-]|[Hne Hi]].
    + rewrite decide_True by done. unfold miner_at. simpl. unfold assigned. simpl.
      rewrite length_app, <- Hm. case_decide as H0.
      * exfalso. apply Hz. rewrite <- H0. apply (iv_pend _ _ Hinv). rewrite Hq. by left.
      * split; [simpl; lia|]. by rewrite lookup_app_r, Nat.sub_diag by lia.
    + rewrite decide_False by done. rewrite app_nil_r. by apply H1.
  - rewrite Eres, Ea, length_app. specialize (H2 i). lia.
  - rewrite Ea. rewrite joined_snoc in H. simpl in H. rewrite app_nil_r in H.
    rewrite decide_False; [by rewrite H3|]. intros <-. apply H. by eapply iv_miner.
  - apply wants_snoc, H4. rewrite Hq. by right.
  - simpl in H. apply lookup_insert_Some in H as [[<- <-]|[Hne Hi]]; [by apply wants_snoc|].
    apply wants_snoc. by eapply H5.
  - destruct (H6 _ _ _ H) as (d & Hd & Hmd). exists d. split; [by apply wants_snoc|done].
  - rewrite requested_snoc in H. simpl in H. rewrite app_nil_r in H.
    destruct (H7 c H) as (r' & n & Hin & H'). exists r', n. split; [|done]. apply elem_of_app. by left.
Qed.

Lemma trigger_pairing ok s' :
  on_trigger s ok = Some (Next s') -> pairing (hist ++ [STrigger ok]) s'.
Proof using Hp Hinv Hz.
  assert (forall s1, written s1 = written s -> miners s1 = miners s -> reports s1 = reports s ->
    parts s1 = parts s -> (forall r, r ∈ pendingRequests s1 -> r ∈ pendingRequests s) ->
    pairing (hist ++ [STrigger ok]) s1) as Hsame.
  { intros s1 E1 E2 E3 E4 E5. apply (pairing_frame hist s); try done.
    - intros i. by apply asked_same.
    - intros i mn. rewrite E2. by left.
    - intros r Hr. by apply wants_snoc, (pg_pending _ _ Hp), E5.
    - by apply (parts_frame hist s). }
  unfold on_trigger. destruct (trigger s <=? 0); [done|]. simpl.
  destruct (freeMiners s) as [|m free] eqn:Ef; [intros [= <-]; by apply Hsame|].
  destruct (pendingRequests s) as [|r q] eqn:Eq; [intros [= <-]; apply Hsame; by rewrite ?Eq|].
  destruct (tasks s !! rid r) as [t|]; [|done].
  destruct (lost t). { intros [= <-]. apply Hsame; try done. intros x Hx. simpl in Hx. by right. }
  destruct ok; intros [= <-].
  - pose proof (assign_pairing m free r q (trigger s - 1) (STrigger true) Ef Eq eq_refl) as H.
    by rewrite Ef, Eq in H.
  - apply Hsame; try done.
Qed.

(** The result of a busy miner is for the range in the table. *)
Lemma result_pairing r s' :
  truthful hist s (SResult r) -> on_result s r = Some (Next s') -> pairing (hist ++ [SResult r]) s'.
Proof using Hp.
  intros Ht. destruct (Ht r eq_refl) as (m & Hm & Hmined).
  pose proof (lookup_lt_Some _ _ _ Hm) as Hlt. destruct Hp as [H1 H2 H3 H4 H5 H6 H7].
  assert (forall i, results i (hist ++ [SResult r]) =
    results i hist ++ (if decide (sid r = i) then [(shash r, snonce r)] else [])) as Eres.
  { intros i. rewrite results_snoc. simpl. by case_decide. }
  assert (forall i, (length (results i (hist ++ [SResult r])) <= length (asked i s))%nat) as Hle.
  { intros i. rewrite Eres, length_app. specialize (H2 i). case_decide; subst; simpl; lia. }
  assert (forall i, i ∉ joined (hist ++ [SResult r]) -> i ∉ joined hist) as Hj
    by (intros i; rewrite joined_snoc, not_elem_of_app; tauto).
  assert (forall s1, parts s1 = parts s -> forall c, c ∈ requested (hist ++ [SResult r]) -> exists q n,
    SRequest q ∈ hist ++ [SResult r] /\ rid q = c /\
    parts s1 !!! c = (fun p => (rlower p, rupper p)) <$> chunks floorLog10 ceilDiv q n) as Hparts
    by (intros s1 Es1; apply (parts_frame hist s); done).
  unfold on_result. destruct (miners s !! sid r) as [mn|] eqn:Emn.
  2: { intros [= <-]. split; auto.
    - intros i mn Hmn. rewrite Eres, decide_False, app_nil_r by congruence. by apply H1.
    - intros q Hq. by apply wants_snoc, H4.
    - intros i mn Hmn Hne. by apply wants_snoc, (H5 i mn).
    - intros c rg x (d & Hd & Hmd)%H6. exists d. split; [by apply wants_snoc|done]. }
  pose proof (H1 _ _ Emn) as Hat. unfold miner_at in Hat.
  destruct (Z.eqb_spec (clientID mn) 0) as [Hidle|Hbusy].
  { rewrite decide_True in Hat by done. lia. }
  rewrite decide_False in Hat by done. destruct Hat as [Hlen Hlast].
  assert (m = assigned mn) as -> by congruence.
  destruct (tasks s !! clientID mn) as [t|]; [|done].
  set (best := better _ _ _). set (t' := mkTask _ _ _ _).
  set (s1 := add_report s (clientID mn) _).
  set (s2 := if tminers t' =? 0 then _ else _).
  assert (miners s2 = miners s /\ pendingRequests s2 = pendingRequests s /\ reports s2 = reports s1 /\
    parts s2 = parts s /\ (forall i, asked i s2 = asked i s)) as (E1 & E2 & E3 & E4 & E5).
  { unfold s2. destruct (_ =? 0); [destruct (lost t')|]; split_and!; try done.
    intros i. transitivity (asked i (write s (clientID mn) (NewResult (minHash t') (minNonce t')))); [done|].
    rewrite asked_write, decide_False by (by intros [_ ?]). by rewrite app_nil_r. }
  remember (fire _) as s3 eqn:E. symmetry in E. simpl. intros [= <-].
  apply fire_eq in E as (F1 & F2 & F3 & F4 & F5). simpl in F1, F2, F3, F4, F5.
  assert (forall i, asked i s3 = asked i s) as Ea
    by (intros i; rewrite <- E5; by apply asked_same).
  split.
  - intros i mn'. rewrite F2, E1, Ea, Eres. intros [[<- <-]|[Hne Hi]]%lookup_insert_Some.
    + unfold miner_at. simpl. rewrite decide_True by done. rewrite length_app. simpl. lia.
    + rewrite decide_False, app_nil_r by done. by apply H1.
  - intros i. by rewrite Ea.
  - intros i Hi. rewrite Ea. auto.
  - intros q. rewrite F3, E2. intros Hq. by apply wants_snoc, H4.
  - intros i mn'. rewrite F2, E1. intros [[<- <-]|[Hne Hi]]%lookup_insert_Some Hnz; [done|].
    by apply wants_snoc, (H5 i mn').
  - intros c rg x. rewrite F4, E3. unfold s1, add_report. simpl.
    destruct (decide (c = clientID mn)) as [->|Hne].
    + rewrite lookup_total_insert_eq. intros [Hx|Hx]%elem_of_app.
      * destruct (H6 _ _ _ Hx) as (d & Hd & Hmd). exists d. split; [by apply wants_snoc|done].
      * apply list_elem_of_singleton in Hx as [= -> ->]. exists (mdata mn).
        split; [by apply wants_snoc, (H5 (sid r) mn)|done].
    + rewrite lookup_total_insert_ne by done. intros (d & Hd & Hmd)%H6. exists d.
      split; [by apply wants_snoc|done].
  - apply Hparts. by rewrite F5.
Qed.

Lemma error_pairing e s' : on_error s e = Some (Next s') -> pairing (hist ++ [SError e]) s'.
Proof using Hp.
  assert (forall s1, written s1 = written s -> (forall i mn, miners s1 !! i = Some mn -> miners s !! i = Some mn) ->
    reports s1 = reports s -> parts s1 = parts s ->
    (forall r, r ∈ pendingRequests s1 -> wants hist (rid r) (rdata r)) ->
    pairing (hist ++ [SError e]) s1) as Hsame.
  { intros s1 E1 E2 E3 E4 E5. apply (pairing_frame hist s); try done.
    - intros i. by apply asked_same.
    - intros i mn. left. by apply E2.
    - intros r Hr. by apply wants_snoc, E5.
    - by apply (parts_frame hist s). }
  assert (forall i mn, delete e (miners s) !! i = Some mn -> miners s !! i = Some mn) as Hdel
    by (intros i mn [_ ?]%lookup_delete_Some; done).
  unfold on_error. destruct (miners s !! e) as [mn|] eqn:Emn.
  - assert (pairing (hist ++ [SError e])
      (set_miners s (remove_dead (delete e (miners s)) (freeMiners s)) (delete e (miners s)))) as Hforget
      by (apply Hsame; try done; apply Hp).
    destruct (Z.eqb_spec (clientID mn) 0) as [|Hbusy]; [by intros [= <-]|].
    destruct (tasks s !! clientID mn) as [t|]; [|done]. destruct (lost t); [by intros [= <-]|].
    remember (fire _) as s1 eqn:E. symmetry in E. simpl. intros [= <-].
    apply fire_eq in E as (E1 & E2 & E3 & E4 & E5). simpl in *. apply Hsame; try done.
    + intros i mn'. rewrite E2. apply Hdel.
    + intros r. rewrite E3. intros [->|Hr]%elem_of_cons; [|by apply Hp]. simpl.
      by apply (pg_busy _ _ Hp e).
  - destruct (tasks s !! e) as [t|]; intros [= <-]; apply Hsame; try done; apply Hp.
Qed.

Lemma next_pairing ev s' :
  well_behaved (hist ++ [ev]) -> truthful hist s ev ->
  next floorLog10 ceilDiv s ev = Some s' -> pairing (hist ++ [ev]) s'.
Proof using Hp Hinv Hz.
  intros (Hreq & Hjoin & _) Ht. rewrite requested_snoc in Hreq. rewrite joined_snoc in Hjoin.
  apply NoDup_app in Hreq as (_ & Hreq & _), Hjoin as (_ & Hjoin & _).
  unfold next. destruct (schedule _ _ s ev) as [[|s1]|] eqn:E; try done. intros [= <-].
  unfold schedule in E. destruct (1024 <? trigger s); [done|].
  destruct ev as [r|ok|id|r|e]; simpl in E.
  - apply request_pairing; [|done]. intros Hin. apply (Hreq _ Hin). by left.
  - by apply trigger_pairing.
  - apply join_pairing; [|done]. intros Hin. apply (Hjoin _ Hin). by left.
  - by apply result_pairing.
  - by apply error_pairing.
Qed.
End Cases.

Lemma start_pairing : pairing [] startServer.
Proof. split; try done; [by intros r ?%not_elem_of_nil|by intros c rg r ?%not_elem_of_nil|by intros c ?%not_elem_of_nil]. Qed.
End Pairing.

(** ** What the scheduler writes *)

Record valid (s : server) : Prop := {
  vd_pending : forall r, r ∈ pendingRequests s -> request_ok r;
  vd_busy : forall i mn, miners s !! i = Some mn -> clientID mn <> 0 -> message_ok (assigned mn);
  vd_tasks : forall c t, tasks s !! c = Some t -> uint64_ok (minHash t) /\ uint64_ok (minNonce t);
  vd_written : forall p, p ∈ written s -> message_ok p.2
}.

Lemma uint64_zero : uint64_ok 0.
Proof. unfold uint64_ok. lia. Qed.

#[local] Hint Resolve uint64_zero : go.

Lemma request_message_ok r : request_ok r -> message_ok (NewRequest (rdata r) (rlower r) (rupper r)).
Proof. intros (? & ? & ?). split_and!; simpl; auto with go. Qed.

Lemma result_message_ok h n : uint64_ok h -> uint64_ok n -> message_ok (NewResult h n).
Proof. intros. split_and!; simpl; auto with go. Qed.

Section Writes.
Context (floorLog10 : Z -> Z) (ceilDiv : Z -> Z -> Z).

Lemma chunks_ok r free c : request_ok r -> c ∈ chunks floorLog10 ceilDiv r free -> request_ok c.
Proof.
  intros (Hd & _ & Hu) (i & -> & _)%list_elem_of_fmap. split_and!; simpl; [done|apply uint64_range|].
  match goal with |- uint64_ok (Z.min _ (uint64 ?x)) => pose proof (uint64_range x) end.
  unfold uint64_ok in *. lia.
Qed.

Lemma valid_fire s1 s2 : fire s1 = s2 -> valid s1 -> valid s2.
Proof. intros <- [? ? ? ?]. by split. Qed.

(** The scheduler takes over fields it was sent. *)
Section Valid.
Context (s : server) (Hs : valid s).

Lemma request_valid r s' :
  request_ok r -> on_request floorLog10 ceilDiv s r = Some (Next s') -> valid s'.
Proof using Hs.
  intros Hr. unfold on_request. remember (fire _) as s2 eqn:Ef. symmetry in Ef. simpl. intros [= <-].
  destruct Hs as [H1 H2 H3 H4]. apply (valid_fire _ _ Ef). split; simpl; try done.
  - intros q [Hq|Hq]%elem_of_app; [by apply H1|]. by eapply chunks_ok.
  - intros c t [[_ <-]|[_ Ht]]%lookup_insert_Some; [simpl; auto with go|by apply (H3 c)].
Qed.

Lemma trigger_valid ok s' : on_trigger s ok = Some (Next s') -> valid s'.
Proof using Hs.
  destruct Hs as [H1 H2 H3 H4]. unfold on_trigger. destruct (_ <=? 0); [done|]. simpl.
  destruct (freeMiners s) as [|m free]; [by intros [= <-]; split|].
  destruct (pendingRequests s) as [|r q] eqn:Eq; [intros [= <-]; split; simpl; by rewrite ?Eq|].
  assert (request_ok r) as Hr by (apply H1; by left).
  assert (forall x, x ∈ q -> request_ok x) as Hq by (intros x Hx; apply H1; by right).
  destruct (tasks s !! rid r) as [t|]; [|done].
  destruct (lost t); [by intros [= <-]; split|]. destruct ok; intros [= <-]; [|by split; simpl; rewrite ?Eq].
  split; simpl; try done.
  - intros i mn [[_ <-]|[_ Hi]]%lookup_insert_Some; [|by apply (H2 i)]. intros _. by apply request_message_ok.
  - intros p [Hp|Hp]%elem_of_app; [by apply H4|]. apply list_elem_of_singleton in Hp as ->.
    by apply request_message_ok.
Qed.

Lemma join_valid i s' : on_join s i = Some (Next s') -> valid s'.
Proof using Hs.
  unfold on_join. remember (fire _) as s2 eqn:Ef. symmetry in Ef. simpl. intros [= <-].
  destruct Hs as [H1 H2 H3 H4]. apply (valid_fire _ _ Ef). split; simpl; try done.
  intros j mn [[_ <-]|[_ Hi]]%lookup_insert_Some; [done|by apply (H2 j)].
Qed.

Lemma result_valid r s' :
  uint64_ok (shash r) /\ uint64_ok (snonce r) -> on_result s r = Some (Next s') -> valid s'.
Proof using Hs.
  intros Hr. destruct Hs as [H1 H2 H3 H4]. unfold on_result.
  destruct (miners s !! sid r) as [mn|]; [|by intros [= <-]].
  destruct (clientID mn =? 0); [by intros [= <-]|].
  destruct (tasks s !! clientID mn) as [t|] eqn:Et; [|done].
  destruct Hr as [Hr1 Hr2].
  destruct (pair_better (minHash t, minNonce t) (shash r) (snonce r) (H3 _ _ Et) Hr1 Hr2) as [Hb1 Hb2].
  set (t' := mkTask _ _ _ _). set (s1 := if tminers t' =? 0 then _ else _).
  remember (fire _) as s2 eqn:Ef. symmetry in Ef. simpl. intros [= <-]. apply (valid_fire _ _ Ef).
  assert (miners s1 = miners s /\ pendingRequests s1 = pendingRequests s) as [E1 E2]
    by (unfold s1; destruct (_ =? 0); [destruct (lost t')|]; done).
  split; simpl; rewrite ?E1, ?E2; try done.
  - intros i mn' [[_ <-]|[_ Hi]]%lookup_insert_Some; [done|by apply (H2 i)].
  - intros c t2. unfold s1. destruct (_ =? 0); [destruct (lost t'); simpl; intros [_ Ht]%lookup_delete_Some; by apply (H3 c)|].
    simpl. intros [[_ <-]|[_ Ht]]%lookup_insert_Some; [done|by apply (H3 c)].
  - intros p. unfold s1. destruct (_ =? 0); [destruct (lost t')|]; try by apply H4.
    simpl. intros [Hp|Hp]%elem_of_app; [by apply H4|]. apply list_elem_of_singleton in Hp as ->.
    by apply result_message_ok.
Qed.

Lemma error_valid e s' : on_error s e = Some (Next s') -> valid s'.
Proof using Hs.
  destruct Hs as [H1 H2 H3 H4]. unfold on_error. destruct (miners s !! e) as [mn|] eqn:Emn.
  - assert (forall i mn', delete e (miners s) !! i = Some mn' -> clientID mn' <> 0 -> message_ok (assigned mn'))
      as Hdel by (intros i mn' [_ Hi]%lookup_delete_Some; by apply (H2 i)).
    destruct (Z.eqb_spec (clientID mn) 0) as [|Hbusy]; [by intros [= <-]; split|].
    destruct (tasks s !! clientID mn) as [t|]; [|done].
    destruct (lost t); [by intros [= <-]; split|].
    remember (fire _) as s2 eqn:Ef. symmetry in Ef. simpl. intros [= <-].
    apply (valid_fire _ _ Ef). split; simpl; try done.
    intros q [->|Hq]%elem_of_cons; [|by apply H1].
    destruct (H2 _ _ Emn Hbusy) as (? & ? & ? & _). by split_and!.
  - destruct (tasks s !! e) as [t|] eqn:Et; intros [= <-]; [|done]. split; simpl; try done.
    simpl. intros c t' [[_ <-]|[_ Ht]]%lookup_insert_Some; [exact (H3 _ _ Et)|by apply (H3 c)].
Qed.
End Valid.

Lemma next_valid s ev s' :
  event_ok ev -> valid s -> next floorLog10 ceilDiv s ev = Some s' -> valid s'.
Proof.
  intros Hev Hs. unfold next. destruct (schedule _ _ s ev) as [[|s1]|] eqn:E; try done. intros [= <-].
  unfold schedule in E. destruct (1024 <? trigger s); [done|].
  destruct ev; eauto using request_valid, trigger_valid, join_valid, result_valid, error_valid.
Qed.

(** Nothing that was written is taken back. *)
Lemma next_prefix s ev s' : next floorLog10 ceilDiv s ev = Some s' -> written s `prefix_of` written s'.
Proof.
  unfold next. destruct (schedule _ _ s ev) as [[|s1]|] eqn:E; try done. intros [= <-].
  unfold schedule in E. destruct (1024 <? trigger s); [done|].
  assert (forall s1 s2, fire s1 = s2 -> written s2 = written s1) as Hfire by by intros x y <-.
  destruct ev as [r|ok|id|r|e]; simpl in E.
  - unfold on_request in E. fired E s2 Ef. injection E as <-.
    by rewrite (Hfire _ _ Ef).
  - unfold on_trigger in E. destruct (_ <=? 0); [done|]. simpl in E.
    destruct (freeMiners s) as [|m free]; [by injection E as <-|].
    destruct (pendingRequests s) as [|r q]; [by injection E as <-|].
    destruct (tasks s !! rid r) as [t|]; [|done]. destruct (lost t); [by injection E as <-|].
    destruct ok; injection E as <-; [|done]. simpl. by apply prefix_app_r.
  - unfold on_join in E. fired E s2 Ef. injection E as <-.
    by rewrite (Hfire _ _ Ef).
  - unfold on_result in E. destruct (miners s !! sid r) as [mn|]; [|by injection E as <-].
    destruct (clientID mn =? 0); [by injection E as <-|]. destruct (tasks s !! clientID mn); [|done].
    fired E s2 Ef. injection E as <-. rewrite (Hfire _ _ Ef).
    cbn [written set_miners]. set (t' := mkTask _ _ _ _).
    destruct (tminers t' =? 0); [destruct (lost t')|]; simpl; try done. by apply prefix_app_r.
  - unfold on_error in E. destruct (miners s !! e) as [mn|].
    + destruct (clientID mn =? 0); [by injection E as <-|].
      destruct (tasks s !! clientID mn) as [t|]; [|done]. destruct (lost t); [by injection E as <-|].
      fired E s2 Ef. injection E as <-. by rewrite (Hfire _ _ Ef).
    + by destruct (tasks s !! e); injection E as <-.
Qed.

(** At most one message a step, a request to a miner or an answer to a client. *)
Lemma next_written hist s ev s' :
  inv hist s -> 0 ∉ requested hist -> next floorLog10 ceilDiv s ev = Some s' ->
  written s' = written s \/
  exists i m, written s' = written s ++ [(i, m)] /\
    (Type_ m = Request /\ i ∈ joined hist \/ Type_ m = Result /\ i ∈ requested hist).
Proof.
  intros Hinv Hz. unfold next. destruct (schedule _ _ s ev) as [[|s1]|] eqn:E; try done. intros [= <-].
  unfold schedule in E. destruct (1024 <? trigger s); [done|].
  destruct ev as [r|ok|id|r|e]; simpl in E.
  - left. unfold on_request in E. fired E s2 Ef.
    injection E as <-. by apply fire_eq in Ef as (-> & _).
  - unfold on_trigger in E. destruct (_ <=? 0); [done|]. simpl in E.
    destruct (freeMiners s) as [|m free] eqn:Efree; [injection E as <-; by left|].
    destruct (pendingRequests s) as [|r q]; [injection E as <-; by left|].
    destruct (tasks s !! rid r) as [t|]; [|done].
    destruct (lost t); [injection E as <-; by left|]. destruct ok; injection E as <-; [|by left].
    right. eexists m, _. split; [done|]. left. split; [done|].
    destruct (proj1 (iv_free _ _ Hinv m)) as (mn & Hmn & _); [rewrite Efree; by left|].
    by eapply iv_miner.
  - left. unfold on_join in E. fired E s2 Ef.
    injection E as <-. by apply fire_eq in Ef as (-> & _).
  - unfold on_result in E. destruct (miners s !! sid r) as [mn|] eqn:Emn; [|injection E as <-; by left].
    destruct (Z.eqb_spec (clientID mn) 0) as [|Hbusy]; [injection E as <-; by left|].
    destruct (tasks s !! clientID mn) as [t|]; [|done].
    fired E s2 Ef. injection E as <-.
    apply fire_eq in Ef as (-> & _). cbn [written set_miners].
    case_match; simpl; [|by left]. case_match; simpl; [by left|]. right. eexists _, _. split; [done|].
    right. split; [done|]. by eapply busy_requested.
  - left. unfold on_error in E. destruct (miners s !! e) as [mn|].
    + destruct (clientID mn =? 0); [by injection E as <-|].
      destruct (tasks s !! clientID mn) as [t|]; [|done]. destruct (lost t); [by injection E as <-|].
      fired E s2 Ef. injection E as <-.
      by apply fire_eq in Ef as (-> & _).
    + by destruct (tasks s !! e); injection E as <-.
Qed.
End Writes.
