(* ===== verification/BitcoinSystem.v ===== *)
(** The Bitcoin programs together (src/project-2/src/example.com/bitcoin: server,
    miner and client), on any transport, and on the LSP library.

    [receive] and [schedule] are two goroutines of the server, with four channels
    between them; each miner and each client is one loop, at its own address.  Each
    event of [bitcoin_app] is one move of one of them.  [hist] is the sequence of
    events [schedule] has taken, a history variable. *)
From S2P Require Import Prelude GoText Utf8 Json BitcoinHash BitcoinMiner BitcoinCodec BitcoinServer BitcoinPairing Transport.

(** ** The server *)

Record server_app := mkServerApp {
  sched : server;
  rpc : option event;             (* what [receive] is about to send on a channel *)
  ch_requests : list request;     (* each channel has capacity 1024 *)
  ch_joins : list Z;
  ch_results : list result;
  ch_errors : list Z;
  hist : list event
}.

Definition chan_cap : Z := 1024.

Definition server_start : server_app := mkServerApp startServer None [] [] [] [] [].

(** [receive]: a return of [lspServer.Read]. *)
Definition receive_step (v : server_app) (act : action) : option server_app :=
  match rpc v, act with
  | None, ServerRead i b =>
      Some (mkServerApp (sched v) (Some (receive i (Some (received b)))) (ch_requests v) (ch_joins v)
              (ch_results v) (ch_errors v) (hist v))
  | None, ServerLost i =>
      Some (mkServerApp (sched v) (Some (receive i None)) (ch_requests v) (ch_joins v)
              (ch_results v) (ch_errors v) (hist v))
  | _, _ => None
  end.

(** [receive]: the send on a channel. *)
Definition push_step (v : server_app) : option server_app :=
  match rpc v with
  | Some (SRequest r) =>
      q ← send chan_cap (ch_requests v) r;
      Some (mkServerApp (sched v) None q (ch_joins v) (ch_results v) (ch_errors v) (hist v))
  | Some (SJoin i) =>
      q ← send chan_cap (ch_joins v) i;
      Some (mkServerApp (sched v) None (ch_requests v) q (ch_results v) (ch_errors v) (hist v))
  | Some (SResult r) =>
      q ← send chan_cap (ch_results v) r;
      Some (mkServerApp (sched v) None (ch_requests v) (ch_joins v) q (ch_errors v) (hist v))
  | Some (SError i) =>
      q ← send chan_cap (ch_errors v) i;
      Some (mkServerApp (sched v) None (ch_requests v) (ch_joins v) (ch_results v) q (hist v))
  | _ => None
  end.

(** The case [schedule] takes, and what it receives.  The [Write] of the library never
    returns an error. *)
Inductive choice := CRequest | CTrigger | CJoin | CResult | CError.

Definition take_event (v : server_app) (c : choice) : option (event * server_app) :=
  match c with
  | CTrigger => Some (STrigger true, v)
  | CRequest => match ch_requests v with
                | r :: q => Some (SRequest r, mkServerApp (sched v) (rpc v) q (ch_joins v) (ch_results v) (ch_errors v) (hist v))
                | [] => None
                end
  | CJoin => match ch_joins v with
             | i :: q => Some (SJoin i, mkServerApp (sched v) (rpc v) (ch_requests v) q (ch_results v) (ch_errors v) (hist v))
             | [] => None
             end
  | CResult => match ch_results v with
               | r :: q => Some (SResult r, mkServerApp (sched v) (rpc v) (ch_requests v) (ch_joins v) q (ch_errors v) (hist v))
               | [] => None
               end
  | CError => match ch_errors v with
              | i :: q => Some (SError i, mkServerApp (sched v) (rpc v) (ch_requests v) (ch_joins v) (ch_results v) q (hist v))
              | [] => None
              end
  end.

Section Programs.
Context (floorLog10 : Z -> Z) (ceilDiv : Z -> Z -> Z) (floorLog : Z -> Z).

(** One turn of [schedule], with what it gives to [lspServer.Write]. *)
Definition schedule_step (v : server_app) (c : choice) : option (server_app * list (Z * Message)) :=
  '(ev, v) ← take_event v c;
  s ← next floorLog10 ceilDiv (sched v) ev;
  Some (mkServerApp s (rpc v) (ch_requests v) (ch_joins v) (ch_results v) (ch_errors v) (hist v ++ [ev]),
        drop (length (written (sched v))) (written s)).

(** ** The miners *)

Inductive miner_pc :=
| MJoin                    (* [sendJoinRequest] *)
| MRead                    (* at [Read] *)
| MMine (m : Message)      (* searching *)
| MReply (r : Z * Z)       (* about to write hash and nonce *)
| MReturned
| MPanic.                  (* division by zero *)

Definition miner_step (p : miner_pc) (act : action) : option miner_pc :=
  match p, act with
  | MJoin, ClientWrite _ b => if String.eqb b (Marshal NewJoin) then Some MRead else None
  | MRead, ClientRead _ b =>
      let m := received b in
      Some (if bool_decide (Type_ m = Request) then MMine m else MRead)
  | MRead, ClientLost _ => Some MReturned
  | MReply r, ClientWrite _ b =>
      if String.eqb b (Marshal (NewResult r.1 r.2)) then Some MRead else None
  | MReturned, ClientClose _ => Some MReturned
  | _, _ => None
  end.

(** The search: the results of the goroutines arrive in the order [arrived]. *)
Definition mine_step (p : miner_pc) (fuel : nat) (arrived : list (Z * Z)) : option miner_pc :=
  match p with
  | MMine m =>
      match ranges floorLog m with
      | SplitPanic => Some MPanic
      | Ranges rs =>
          results ← mapM (goroutine fuel (Data m)) rs;
          if bool_decide (arrived ≡ₚ results) then Some (MReply (collect arrived)) else None
      end
  | _ => None
  end.

(** ** The clients *)

(** [main] and the goroutine that reads.  [CGot] and [CLost]: the goroutine is at its send
    on [recv] or [errc], which nobody has taken; [CDisconnected reading]: [main] has printed,
    and the goroutine may still be at [Read]. *)
Inductive client_pc :=
| CAsk | CWait | CGot (m : Message) | CLost | CDone (m : Message) | CDisconnected (reading : bool).

(** [message] and [maxNonce] are the arguments of the program. *)
Definition client_step (message : string) (maxNonce : Z) (p : client_pc) (act : action) : option client_pc :=
  match p, act with
  | CAsk, ClientWrite _ b => if String.eqb b (Marshal (NewRequest message 0 maxNonce)) then Some CWait else None
  | CWait, ClientRead _ b => Some (CGot (received b))
  | CWait, ClientLost _ => Some CLost
  | CDisconnected true, (ClientRead _ _ | ClientLost _) => Some (CDisconnected false)
  | CDone m, ClientClose _ => Some (CDone m)
  | CDisconnected reading, ClientClose _ => Some (CDisconnected reading)
  | _, _ => None
  end.

(** [select], and the line it prints: [case <-tout], or what the goroutine sends. *)
Definition select_step (p : client_pc) (tout : bool) : option client_pc :=
  match p, tout with
  | CWait, true => Some (CDisconnected true)
  | (CGot _ | CLost), true => Some (CDisconnected false)
  | CGot m, false => Some (CDone m)
  | CLost, false => Some (CDisconnected false)
  | _, _ => None
  end.

(** ** All of them *)

(** What runs at an address, with its arguments. *)
Inductive role := RMiner | RClient (message : string) (maxNonce : Z).
Context (roles : string -> role).

Record programs := mkPrograms {
  srv_app : server_app;
  miner_pcs : gmap string miner_pc;
  client_pcs : gmap string client_pc
}.

Definition miner_at_addr (e : programs) (a : string) : miner_pc := default MJoin (miner_pcs e !! a).
Definition client_at_addr (e : programs) (a : string) : client_pc := default CAsk (client_pcs e !! a).

Inductive move :=
| MNone                                            (* the network alone *)
| MPush                                            (* [receive] *)
| MSchedule (c : choice)                           (* [schedule] *)
| MSearch (a : string) (fuel : nat) (arrived : list (Z * Z))
| MSelect (a : string) (tout : bool).

Definition put_server (e : programs) (r : option server_app) : option programs :=
  v ← r; Some (mkPrograms v (miner_pcs e) (client_pcs e)).
Definition put_miner (e : programs) (a : string) (r : option miner_pc) : option programs :=
  p ← r; Some (mkPrograms (srv_app e) (<[a := p]> (miner_pcs e)) (client_pcs e)).
Definition put_client (e : programs) (a : string) (r : option client_pc) : option programs :=
  p ← r; Some (mkPrograms (srv_app e) (miner_pcs e) (<[a := p]> (client_pcs e))).

Definition end_app (e : programs) (a : string) (act : action) : option programs :=
  match roles a with
  | RMiner => put_miner e a (miner_step (miner_at_addr e a) act)
  | RClient message maxNonce => put_client e a (client_step message maxNonce (client_at_addr e a) act)
  end.

Definition bitcoin_app (e : programs) (x : move) (act : action) : option programs :=
  match act with
  | ServerRead _ _ | ServerLost _ => put_server e (receive_step (srv_app e) act)
  | ServerWrite i b =>
      match x with
      | MSchedule c =>
          '(v, out) ← schedule_step (srv_app e) c;
          match out with
          | [(j, m)] => if (j =? i) && String.eqb b (Marshal m) then put_server e (Some v) else None
          | _ => None
          end
      | _ => None
      end
  | ServerClose => None
  | ClientRead a _ | ClientLost a | ClientWrite a _ | ClientClose a => end_app e a act
  | Silent =>
      match x with
      | MNone => Some e
      | MPush => put_server e (push_step (srv_app e))
      | MSchedule c =>
          '(v, out) ← schedule_step (srv_app e) c;
          match out with [] => put_server e (Some v) | _ => None end
      | MSearch a fuel arrived =>
          match roles a with
          | RMiner => put_miner e a (mine_step (miner_at_addr e a) fuel arrived)
          | _ => None
          end
      | MSelect a tout =>
          match roles a with
          | RClient _ _ => put_client e a (select_step (client_at_addr e a) tout)
          | _ => None
          end
      end
  end.

Definition programs_start : programs := mkPrograms server_start ∅ ∅.
End Programs.

(** ** What each program has seen *)

Definition request_of (i : Z) (ev : event) : option request :=
  match ev with SRequest r => if decide (rid r = i) then Some r else None | _ => None end.
Definition join_of (i : Z) (ev : event) : option Z :=
  match ev with SJoin j => if decide (j = i) then Some j else None | _ => None end.

(** What connection [i] sent, as events. *)
Definition recv_events (tr : list action) (i : Z) : list event :=
  (fun b => receive i (Some (received b))) <$> up_got tr i.

(** The messages written to [i]. *)
Definition to_conn (i : Z) (p : Z * Message) : option Message := if decide (p.1 = i) then Some p.2 else None.
Definition sent_to (i : Z) (s : server) : list Message := omap (to_conn i) (written s).

(** The requests a miner has read, in their order. *)
Definition is_request (m : Message) : option Message :=
  if decide (Type_ m = Request) then Some m else None.
Definition asks (tr : list action) (a : string) : list Message := omap is_request (received <$> down_got tr a).

Definition reply (r : Z * Z) : Message := NewResult r.1 r.2.

Section Invariant.
Context (floorLog10 : Z -> Z) (ceilDiv : Z -> Z -> Z) (floorLog : Z -> Z) (roles : string -> role).

(** Each channel holds what [receive] took and [schedule] did not. *)
Record server_ok (tr : list action) (v : server_app) : Prop := {
  sv_requests : forall i, omap (request_of i) (recv_events tr i) =
    omap (request_of i) (hist v ++ (SRequest <$> ch_requests v) ++ option_list (rpc v));
  sv_joins : forall i, omap (join_of i) (recv_events tr i) =
    omap (join_of i) (hist v ++ (SJoin <$> ch_joins v) ++ option_list (rpc v));
  sv_results : forall i, omap (result_of i) (recv_events tr i) =
    omap (result_of i) (hist v ++ (SResult <$> ch_results v) ++ option_list (rpc v));
  sv_run : exec (next floorLog10 ceilDiv) startServer (hist v) = Some (sched v);
  sv_down : forall i, down_sent tr i = Marshal <$> sent_to i (sched v)
}.

(** The answers of a miner, one for each request up to the one in work. *)
Definition miner_ok (tr : list action) (a : string) (p : miner_pc) : Prop :=
  exists answers : list (Z * Z),
    up_sent tr a = match p with MJoin => [] | _ => Marshal NewJoin :: ((fun r => Marshal (reply r)) <$> answers) end /\
    (forall k r, answers !! k = Some r -> exists m, asks tr a !! k = Some m /\ mined floorLog m r) /\
    match p with
    | MJoin => answers = [] /\ asks tr a = []
    | MMine m => asks tr a !! length answers = Some m /\ length (asks tr a) = S (length answers)
    | MReply r => exists m, asks tr a !! length answers = Some m /\ mined floorLog m r /\
        length (asks tr a) = S (length answers)
    | MRead | MReturned => length (asks tr a) = length answers
    | MPanic => True
    end.

Definition client_seen (tr : list action) (a : string) (message : string) (maxNonce : Z) (p : client_pc) : Prop :=
  up_sent tr a = match p with CAsk => [] | _ => [Marshal (NewRequest message 0 maxNonce)] end /\
  forall m, p = CGot m \/ p = CDone m -> exists b, b ∈ down_got tr a /\ m = received b.

Definition end_ok (tr : list action) (e : programs) (a : string) : Prop :=
  match roles a with
  | RMiner => miner_ok tr a (miner_at_addr e a)
  | RClient message maxNonce => client_seen tr a message maxNonce (client_at_addr e a)
  end.

Record local_inv (tr : list action) (e : programs) : Prop := {
  li_server : server_ok tr (srv_app e);
  li_end : forall a, end_ok tr e a
}.

Lemma local_start : local_inv [] programs_start.
Proof. split; [by split|]. intros a. unfold end_ok. case_match; [exists []; by split_and!|split; [done|by intros m [[=]|[=]]]]. Qed.

(** Only the streams of the program count. *)
Lemma server_ok_frame tr tr' v :
  (forall i, up_got tr' i = up_got tr i) -> (forall i, down_sent tr' i = down_sent tr i) ->
  server_ok tr v -> server_ok tr' v.
Proof. intros E1 E2 [H1 H2 H3 H4 H5]. split; intros; unfold recv_events; rewrite ?E1, ?E2; auto. Qed.

Lemma end_ok_frame tr tr' e e' a :
  up_sent tr' a = up_sent tr a -> down_got tr' a = down_got tr a ->
  miner_at_addr e' a = miner_at_addr e a -> client_at_addr e' a = client_at_addr e a ->
  end_ok tr e a -> end_ok tr' e' a.
Proof. intros E1 E2 E3 E4. unfold end_ok, miner_ok, client_seen, asks. by rewrite E1, E2, E3, E4. Qed.

Lemma miner_at_put e a p b : miner_at_addr (mkPrograms (srv_app e) (<[a := p]> (miner_pcs e)) (client_pcs e)) b =
  if decide (a = b) then p else miner_at_addr e b.
Proof. unfold miner_at_addr. simpl. case_decide; subst; [by rewrite lookup_insert_eq|by rewrite lookup_insert_ne]. Qed.

Lemma client_at_put e a p b : client_at_addr (mkPrograms (srv_app e) (miner_pcs e) (<[a := p]> (client_pcs e))) b =
  if decide (a = b) then p else client_at_addr e b.
Proof. unfold client_at_addr. simpl. case_decide; subst; [by rewrite lookup_insert_eq|by rewrite lookup_insert_ne]. Qed.

(** *** The server *)

#[local] Ltac picks :=
  repeat match goal with
  | |- context [omap _ (_ ++ _)] => rewrite omap_app
  | |- context [_ <$> (_ ++ _)] => rewrite fmap_app
  end; rewrite <- ?app_assoc; simpl; rewrite ?app_nil_r; simpl.

Lemma recv_events_snoc tr x i : recv_events (tr ++ [x]) i = recv_events tr i ++
  match x with ServerRead j b => if decide (j = i) then [receive i (Some (received b))] else [] | _ => [] end.
Proof.
  unfold recv_events. rewrite up_got_snoc, fmap_app. f_equal. destruct x; try done. simpl. by case_decide.
Qed.

Lemma receive_ok tr v act v' :
  server_ok tr v -> receive_step v act = Some v' -> (forall i, server_write i act = None) ->
  server_ok (tr ++ [act]) v'.
Proof.
  intros [H1 H2 H3 H4 H5] Hstep Hw. unfold receive_step in Hstep. destruct (rpc v) eqn:Er; [done|].
  assert (forall i, down_sent (tr ++ [act]) i = Marshal <$> sent_to i (sched v)) as Hd
    by (intros i; by rewrite down_sent_snoc, Hw, app_nil_r).
  destruct act as [j b|j| | | | | | |]; try done; injection Hstep as <-; split; simpl; try done.
  - intros i. rewrite recv_events_snoc, omap_app, H1, !omap_app, <- !app_assoc. f_equal. f_equal. simpl.
    unfold receive. case_decide; destruct (Type_ (received b)); simpl; repeat case_decide; done || congruence.
  - intros i. rewrite recv_events_snoc, omap_app, H2, !omap_app, <- !app_assoc. f_equal. f_equal. simpl.
    unfold receive. case_decide; destruct (Type_ (received b)); simpl; repeat case_decide; done || congruence.
  - intros i. rewrite recv_events_snoc, omap_app, H3, !omap_app, <- !app_assoc. f_equal. f_equal. simpl.
    unfold receive. case_decide; destruct (Type_ (received b)); simpl; repeat case_decide; done || congruence.
  - intros i. rewrite recv_events_snoc, app_nil_r, H1. by picks.
  - intros i. rewrite recv_events_snoc, app_nil_r, H2. by picks.
  - intros i. rewrite recv_events_snoc, app_nil_r, H3. by picks.
Qed.

Lemma push_ok tr v v' : server_ok tr v -> push_step v = Some v' -> server_ok tr v'.
Proof.
  intros [H1 H2 H3 H4 H5]. unfold push_step. destruct (rpc v) as [ev|] eqn:Er; [|done].
  destruct ev as [r| |j|r|j]; try done; destruct (send _ _ _) as [q|] eqn:E; simpl; try done;
    apply send_Some in E as [_ ->]; intros [= <-]; split; try done; intros i; simpl;
    rewrite ?H1, ?H2, ?H3, ?Er; by picks.
Qed.

Lemma take_event_ok v c ev v' : take_event v c = Some (ev, v') ->
  sched v' = sched v /\ hist v' = hist v /\ rpc v' = rpc v /\
  (forall i, omap (request_of i) (SRequest <$> ch_requests v) =
     option_list (request_of i ev) ++ omap (request_of i) (SRequest <$> ch_requests v')) /\
  (forall i, omap (join_of i) (SJoin <$> ch_joins v) =
     option_list (join_of i ev) ++ omap (join_of i) (SJoin <$> ch_joins v')) /\
  (forall i, omap (result_of i) (SResult <$> ch_results v) =
     option_list (result_of i ev) ++ omap (result_of i) (SResult <$> ch_results v')).
Proof.
  unfold take_event. destruct c; repeat case_match; try done; intros [= <- <-]; split_and!; try done;
    simpl; intros i; repeat case_match; done.
Qed.

(** A turn of [schedule] that writes [out]. *)
Lemma schedule_ok tr v c v' out act :
  server_ok tr v -> schedule_step floorLog10 ceilDiv v c = Some (v', out) ->
  (forall i, server_read i act = None) ->
  written (sched v') = written (sched v) ++ out ->
  (forall i, option_list (server_write i act) = Marshal <$> omap (to_conn i) out) ->
  server_ok (tr ++ [act]) v'.
Proof.
  intros [H1 H2 H3 H4 H5] Hstep Hr Hwr Hw. unfold schedule_step in Hstep.
  destruct (take_event v c) as [[ev v1]|] eqn:Et; simpl in Hstep; [|done].
  destruct (take_event_ok _ _ _ _ Et) as (E1 & E2 & E3 & E4 & E5 & E6). rewrite E1 in Hstep.
  destruct (next _ _ _ ev) as [s'|] eqn:En; simpl in Hstep; [|done]. injection Hstep as <- _. simpl in *.
  assert (forall i, recv_events (tr ++ [act]) i = recv_events tr i) as Er
    by (intros i; unfold recv_events; by rewrite up_got_snoc, Hr, app_nil_r).
  split; simpl; intros.
  - rewrite Er, H1, E2, E3. rewrite !omap_app, E4, <- !app_assoc. done.
  - rewrite Er, H2, E2, E3. rewrite !omap_app, E5, <- !app_assoc. done.
  - rewrite Er, H3, E2, E3. rewrite !omap_app, E6, <- !app_assoc. done.
  - rewrite E2, exec_app, H4. simpl. by rewrite En.
  - rewrite down_sent_snoc, H5, Hw. unfold sent_to. by rewrite Hwr, omap_app, fmap_app.
Qed.

Lemma schedule_out v c v' out :
  schedule_step floorLog10 ceilDiv v c = Some (v', out) -> written (sched v') = written (sched v) ++ out.
Proof.
  unfold schedule_step. destruct (take_event v c) as [[ev v1]|] eqn:Et; simpl; [|done].
  destruct (take_event_ok _ _ _ _ Et) as (E1 & _). rewrite E1.
  destruct (next _ _ _ ev) as [s'|] eqn:En; simpl; [|done]. intros [= <- <-]. simpl.
  destruct (next_prefix _ _ _ _ _ En) as [l ->]. by rewrite drop_app_length.
Qed.

(** *** The miners and the clients *)

Lemma asks_snoc tr x a : asks (tr ++ [x]) a = asks tr a ++
  match x with
  | ClientRead b d => if decide (b = a) then option_list (is_request (received d)) else []
  | _ => []
  end.
Proof.
  unfold asks. rewrite down_got_snoc, fmap_app, omap_app. f_equal. destruct x; try done.
  simpl. case_decide; [|done]. simpl. by destruct (is_request _).
Qed.

Lemma miner_step_ok tr a p act p' :
  (match act with ClientRead b _ | ClientLost b | ClientWrite b _ | ClientClose b => b = a | _ => True end) ->
  miner_ok tr a p -> miner_step p act = Some p' -> miner_ok (tr ++ [act]) a p'.
Proof.
  intros Ha (answers & Hup & Hans & Hpc) Hstep. unfold miner_step in Hstep.
  destruct p as [| |m|r| |], act as [i b|i|i b| |c b|c|c b|c|]; try done; subst.
  - (* the request to join *)
    destruct (String.eqb_spec b (Marshal NewJoin)) as [->|]; [|done]. injection Hstep as <-.
    destruct Hpc as [-> Hasks]. exists []. unfold miner_ok. rewrite asks_snoc, up_sent_snoc, app_nil_r, Hup.
    simpl. rewrite decide_True by done. by rewrite Hasks.
  - (* a message *)
    injection Hstep as <-. exists answers. rewrite asks_snoc, up_sent_snoc, app_nil_r, Hup.
    rewrite decide_True by done. unfold is_request.
    assert (forall k r l, answers !! k = Some r -> exists m, (asks tr a ++ l) !! k = Some m /\ mined floorLog m r)
      as Hmono by (intros k r l (m & Hm & ?)%Hans; exists m; by rewrite (lookup_app_l_Some _ _ _ _ Hm)).
    case_bool_decide as Ht.
    + rewrite decide_True by done. simpl. split_and!; [done|intros k r; apply Hmono| |].
      * rewrite <- Hpc. by rewrite lookup_app_r, Nat.sub_diag.
      * rewrite length_app. simpl. lia.
    + rewrite decide_False by done. simpl. rewrite app_nil_r. by split_and!.
  - injection Hstep as <-. exists answers. by rewrite asks_snoc, up_sent_snoc, !app_nil_r.
  - (* an answer *)
    destruct (String.eqb_spec b (Marshal (NewResult r.1 r.2))) as [->|]; [|done]. injection Hstep as <-.
    destruct Hpc as (m & Hm & Hmined & Hlen). exists (answers ++ [r]).
    rewrite asks_snoc, up_sent_snoc, app_nil_r, Hup, fmap_app. simpl. rewrite decide_True by done.
    split_and!; [done| |rewrite length_app; simpl; lia].
    intros k x [Hx|[Hk Hx]]%lookup_app_Some; [by apply Hans|].
    apply list_lookup_singleton_Some in Hx as [Hk0 <-]. exists m.
    by replace k with (length answers) by lia.
  - injection Hstep as <-. exists answers. by rewrite asks_snoc, up_sent_snoc, !app_nil_r.
Qed.

Lemma mine_step_ok tr a p fuel arrived p' :
  miner_ok tr a p -> mine_step floorLog p fuel arrived = Some p' -> miner_ok tr a p'.
Proof.
  intros (answers & Hup & Hans & Hpc). unfold mine_step. destruct p as [| |m|r| |]; try done.
  destruct (ranges floorLog m) as [|rs] eqn:Er; [intros [= <-]; by exists answers|].
  destruct (mapM _ rs) as [results|] eqn:Em; simpl; [|done].
  case_bool_decide as Hp; [|done]. intros [= <-]. exists answers. destruct Hpc as [Hm Hlen].
  split_and!; [done|done|]. exists m. split_and!; [done| |done].
  by exists fuel, rs, results, arrived.
Qed.

Lemma client_step_ok tr a message maxNonce p act p' :
  (match act with ClientRead b _ | ClientLost b | ClientWrite b _ | ClientClose b => b = a | _ => True end) ->
  client_seen tr a message maxNonce p -> client_step message maxNonce p act = Some p' ->
  client_seen (tr ++ [act]) a message maxNonce p'.
Proof.
  intros Ha [Hup Hgot]. unfold client_step.
  destruct p as [| |m| |m|[]], act as [i b|i|i b| |c b|c|c b|c|]; try done; subst.
  1: { destruct (String.eqb_spec b (Marshal (NewRequest message 0 maxNonce))) as [->|]; [|done].
       intros [= <-]. split; [|by intros m [[=]|[=]]]. rewrite up_sent_snoc, Hup. simpl. by rewrite decide_True. }
  all: intros [= <-]; split; [by rewrite up_sent_snoc, Hup|]; intros m' [[=]|[=]]; subst.
  - exists b. split; [|done]. rewrite down_got_snoc. apply elem_of_app. right. simpl.
    rewrite decide_True by done. by left.
  - destruct (Hgot m' (or_intror eq_refl)) as (b & Hb & ->). exists b. split; [|done].
    rewrite down_got_snoc. apply elem_of_app. by left.
Qed.

Lemma select_step_ok tr a message maxNonce p tout p' :
  client_seen tr a message maxNonce p -> select_step p tout = Some p' ->
  client_seen tr a message maxNonce p'.
Proof.
  intros [Hup Hgot]. unfold select_step.
  destruct p as [| |m| |m|], tout; try done; intros [= <-]; (split; [done|]); intros m' [[=]|[=]]; subst.
  apply Hgot. by left.
Qed.

(** *** All of them *)

Lemma local_inv_server tr tr' e v :
  (forall a, up_sent tr' a = up_sent tr a) -> (forall a, down_got tr' a = down_got tr a) ->
  server_ok tr' v -> local_inv tr e -> local_inv tr' (mkPrograms v (miner_pcs e) (client_pcs e)).
Proof. intros E1 E2 Hv [_ He]. split; [done|]. intros a. by apply (end_ok_frame tr _ e). Qed.

Lemma local_inv_end tr tr' e e' a :
  (forall i, up_got tr' i = up_got tr i) -> (forall i, down_sent tr' i = down_sent tr i) ->
  (forall b, b <> a -> up_sent tr' b = up_sent tr b /\ down_got tr' b = down_got tr b /\
     miner_at_addr e' b = miner_at_addr e b /\ client_at_addr e' b = client_at_addr e b) ->
  srv_app e' = srv_app e -> end_ok tr' e' a -> local_inv tr e -> local_inv tr' e'.
Proof.
  intros E1 E2 E3 E4 Ha [Hv He]. split; [rewrite E4; by apply (server_ok_frame tr)|].
  intros b. destruct (decide (b = a)) as [->|Hne]; [done|].
  destruct (E3 b Hne) as (? & ? & ? & ?). by apply (end_ok_frame tr _ e).
Qed.

Lemma put_miner_other e a p b : b <> a ->
  let e' := mkPrograms (srv_app e) (<[a := p]> (miner_pcs e)) (client_pcs e) in
  miner_at_addr e' b = miner_at_addr e b /\ client_at_addr e' b = client_at_addr e b.
Proof. intros Hne. simpl. by rewrite miner_at_put, decide_False. Qed.

Lemma put_client_other e a p b : b <> a ->
  let e' := mkPrograms (srv_app e) (miner_pcs e) (<[a := p]> (client_pcs e)) in
  miner_at_addr e' b = miner_at_addr e b /\ client_at_addr e' b = client_at_addr e b.
Proof. intros Hne. simpl. by rewrite client_at_put, decide_False. Qed.

(** A call of the library by the program at [a]. *)
Lemma end_app_local tr e a act e' :
  (forall i, server_read i act = None) -> (forall i, server_write i act = None) ->
  (forall b, b <> a -> client_write b act = None /\ client_read b act = None) ->
  (match act with ClientRead b _ | ClientLost b | ClientWrite b _ | ClientClose b => b = a | _ => True end) ->
  local_inv tr e -> end_app roles e a act = Some e' -> local_inv (tr ++ [act]) e'.
Proof.
  intros X1 X2 X3 Ha Hi. pose proof (li_end _ _ Hi a) as He. unfold end_app, end_ok in *.
  assert (forall e', srv_app e' = srv_app e -> end_ok (tr ++ [act]) e' a ->
    (forall b, b <> a -> miner_at_addr e' b = miner_at_addr e b /\ client_at_addr e' b = client_at_addr e b) ->
    local_inv (tr ++ [act]) e') as H.
  { intros e1 Es He1 Ho. apply (local_inv_end tr _ e _ a); try done.
    - intros i. by rewrite up_got_snoc, X1, app_nil_r.
    - intros i. by rewrite down_sent_snoc, X2, app_nil_r.
    - intros b Hb. rewrite up_sent_snoc, down_got_snoc. destruct (X3 b Hb) as [-> ->].
      destruct (Ho b Hb). by rewrite !app_nil_r. }
  destruct (roles a) as [|message maxNonce] eqn:Er.
  - unfold put_miner. destruct (miner_step _ act) as [p|] eqn:E; simpl; [|done]. intros [= <-].
    apply H; [done| |by apply put_miner_other]. unfold end_ok. rewrite Er, miner_at_put, decide_True by done.
    by eapply miner_step_ok.
  - unfold put_client. destruct (client_step _ _ _ act) as [p|] eqn:E; simpl; [|done]. intros [= <-].
    apply H; [done| |by apply put_client_other]. unfold end_ok. rewrite Er, client_at_put, decide_True by done.
    by eapply client_step_ok.
Qed.

#[local] Abbreviation app := (bitcoin_app floorLog10 ceilDiv floorLog roles).

Lemma local_silent tr e x e' : local_inv tr e -> app e x Silent = Some e' -> local_inv tr e'.
Proof.
  intros Hi. destruct x as [| |c|a fuel arrived|a tout]; simpl; [by intros [= <-]|..].
  - unfold put_server. destruct (push_step _) as [v|] eqn:E; simpl; [|done]. intros [= <-].
    apply (local_inv_server tr); try done. eapply push_ok; [apply Hi|done].
  - destruct (schedule_step _ _ _ c) as [[v out]|] eqn:E; simpl; [|done].
    destruct out; [|done]. intros [= <-]. apply (local_inv_server tr); try done.
    pose proof (schedule_ok tr (srv_app e) c v [] Silent (li_server _ _ Hi) E) as H.
    apply (server_ok_frame (tr ++ [Silent])); [intros i; by autorewrite with streams; rewrite app_nil_r..|].
    apply H; try done. by eapply schedule_out.
  - pose proof (li_end _ _ Hi a) as He. unfold end_ok in He. destruct (roles a) eqn:Er; [|done].
    unfold put_miner. destruct (mine_step _ _ _ _) as [p|] eqn:E; simpl; [|done]. intros [= <-].
    apply (local_inv_end tr _ e _ a); try done; [intros b Hb; by destruct (put_miner_other e a p b Hb)|].
    unfold end_ok. rewrite Er, miner_at_put, decide_True by done. by eapply mine_step_ok.
  - pose proof (li_end _ _ Hi a) as He. unfold end_ok in He. destruct (roles a) eqn:Er; [done|].
    unfold put_client. destruct (select_step _ _) as [p|] eqn:E; simpl; [|done]. intros [= <-].
    apply (local_inv_end tr _ e _ a); try done; [intros b Hb; by destruct (put_client_other e a p b Hb)|].
    unfold end_ok. rewrite Er, client_at_put, decide_True by done. by eapply select_step_ok.
Qed.

Lemma local_inv_snoc_silent tr e : local_inv tr e -> local_inv (tr ++ [Silent]) e.
Proof.
  intros [Hv He]. split.
  - apply (server_ok_frame tr); try done; intros i; autorewrite with streams; by rewrite app_nil_r.
  - intros a. apply (end_ok_frame tr _ e); try done; autorewrite with streams; by rewrite app_nil_r.
Qed.

Lemma local_step tr e x act e' : local_inv tr e -> app e x act = Some e' -> local_inv (tr ++ [act]) e'.
Proof.
  intros Hi Happ. pose proof (li_server _ _ Hi) as Hv.
  assert (forall v, server_ok (tr ++ [act]) v -> (forall a, client_write a act = None) ->
    (forall a, client_read a act = None) ->
    local_inv (tr ++ [act]) (mkPrograms v (miner_pcs e) (client_pcs e))) as Hserver.
  { intros v Hv' X1 X2. apply (local_inv_server tr); try done; intros a; autorewrite with streams;
      by rewrite ?X1, ?X2, app_nil_r. }
  destruct act as [i b|i|i b| |a b|a|a b|a|]; cbn [bitcoin_app] in Happ; try done.
  - unfold put_server in Happ. destruct (receive_step _ _) as [v|] eqn:E; simpl in Happ; [|done].
    injection Happ as <-. apply Hserver; try done. by eapply receive_ok.
  - unfold put_server in Happ. destruct (receive_step _ _) as [v|] eqn:E; simpl in Happ; [|done].
    injection Happ as <-. apply Hserver; try done. by eapply receive_ok.
  - destruct x as [| |c|a fuel arrived|a tout]; try done.
    destruct (schedule_step _ _ _ c) as [[v out]|] eqn:E; simpl in Happ; [|done].
    destruct out as [|[j m] [|]]; try done. destruct (_ && _) eqn:Eq; [|done].
    apply andb_prop in Eq as [->%Z.eqb_eq ->%String.eqb_eq]. injection Happ as <-.
    apply Hserver; try done. eapply schedule_ok; [done|done|done|by eapply schedule_out|].
    intros k. simpl. unfold to_conn. simpl. by case_decide.
  - apply (end_app_local tr e a); try done. intros c Hc. simpl. by rewrite decide_False.
  - by apply (end_app_local tr e a).
  - apply (end_app_local tr e a); try done. intros c Hc. simpl. by rewrite decide_False.
  - by apply (end_app_local tr e a).
  - apply local_inv_snoc_silent. by eapply local_silent.
Qed.
End Invariant.
