(* ===== verification/BitcoinEnd.v ===== *)
(** The Bitcoin programs end to end: what a client is told was mined for its message.

    The proofs use the transport through its interface only; [bitcoin_answer]
    instantiates it with the LSP library. *)
From S2P Require Import Prelude GoText Utf8 Json BitcoinHash BitcoinMiner BitcoinCodec BitcoinServer BitcoinPairing Transport BitcoinSystem LspTransport.

(** ** Counting *)

Lemma NoDup_count {A} `{EqDecision A} (l : list A) :
  (forall x, (length (base.filter (fun y => y = x) l) <= 1)%nat) -> NoDup l.
Proof.
  induction l as [|x l IH]; intros H; constructor.
  - intros Hx. specialize (H x). rewrite filter_cons_True in H by done. simpl in H.
    assert (x ∈ base.filter (fun y => y = x) l) as Hf by (by apply list_elem_of_filter).
    destruct (base.filter _ l); [by apply not_elem_of_nil in Hf|simpl in H; lia].
  - apply IH. intros y. specialize (H y). rewrite filter_cons in H. case_decide; simpl in H; lia.
Qed.

Lemma requested_count i evs :
  length (base.filter (fun j => j = i) (requested evs)) = length (omap (request_of i) evs).
Proof.
  unfold requested. induction evs as [|ev evs IH]; [done|]. destruct ev; simpl; try done.
  rewrite filter_cons. case_decide; simpl; auto.
Qed.

Lemma joined_count i evs :
  length (base.filter (fun j => j = i) (joined evs)) = length (omap (join_of i) evs).
Proof.
  unfold joined. induction evs as [|ev evs IH]; [done|]. destruct ev; simpl; try done.
  rewrite filter_cons. case_decide; simpl; auto.
Qed.

Lemma omap_prefix {A B} (f : A -> option B) l1 l2 : l1 `prefix_of` l2 -> omap f l1 `prefix_of` omap f l2.
Proof. intros [k ->]. rewrite omap_app. by apply prefix_app_r. Qed.

Lemma prefix_fmap {A B} (f : A -> B) l1 l2 : l1 `prefix_of` l2 -> f <$> l1 `prefix_of` f <$> l2.
Proof. intros [k ->]. rewrite fmap_app. by apply prefix_app_r. Qed.

Lemma received_Marshal m : message_ok m -> received (Marshal m) = m.
Proof. intros H. unfold received. by rewrite message_roundtrip. Qed.

Section Global.
Context {St Ev : Type} `{Transport St Ev}.
Context (floorLog10 : Z -> Z) (ceilDiv : Z -> Z -> Z) (floorLog : Z -> Z) (roles : string -> role).
Context (Hlog : forall n, 10000 < n -> 0 < floorLog10 n < 2 ^ 62).
Context (Hroles : forall a message maxNonce, roles a = RClient message maxNonce ->
  utf8_ok message = true /\ uint64_ok maxNonce).

#[local] Abbreviation app := (bitcoin_app floorLog10 ceilDiv floorLog roles).
#[local] Abbreviation mined := (mined floorLog).
#[local] Abbreviation local_inv := (local_inv floorLog10 ceilDiv floorLog roles).

(** ** What a connection may send *)

(** The laws of the transport in one state. *)
Record lawful (s : St) (tr : list action) : Prop := {
  lw_fifo : forall a i, t_conn s a i ->
    up_got tr i `prefix_of` up_sent tr a /\ down_got tr a `prefix_of` down_sent tr i;
  lw_id : forall a i, t_conn s a i -> 0 < i;
  lw_up : forall i, up_got tr i <> [] -> exists a, t_conn s a i;
  lw_down : forall a, down_got tr a <> [] -> exists i, t_conn s a i;
  lw_unique : forall a b i, t_conn s a i -> t_conn s b i -> a = b
}.

Lemma lawful_run es s tr :
  Z.of_nat (length es) < 2 ^ 62 -> exec (observe t_step t_act) (t_init, []) es = Some (s, tr) ->
  replying tr -> lawful s tr.
Proof.
  intros Hlen Hex Hrep. split.
  - by eapply t_fifo.
  - intros a i Hc. by destruct (t_conn_id _ _ _ _ _ Hlen Hex Hc).
  - intros i. by eapply t_up_conn.
  - intros a. by eapply t_down_conn.
  - intros a b i Ha Hb. destruct (t_conn_id _ _ _ _ _ Hlen Hex Ha) as (_ & _ & Hu). symmetry. auto.
Qed.

Definition result_event (i : Z) (r : Z * Z) : event := SResult (mkResult i r.2 r.1).

Section State.
Context (s : St) (tr : list action) (e : programs) (Hl : lawful s tr) (Hi : local_inv tr e).

Lemma miner_events a i p :
  t_conn s a i -> roles a = RMiner -> miner_ok floorLog tr a p ->
  exists answers, recv_events tr i `prefix_of` SJoin i :: (result_event i <$> answers) /\
    Forall pair_ok answers /\
    forall k r, answers !! k = Some r -> exists m, asks tr a !! k = Some m /\ mined m r.
Proof using Hl.
  intros Hc Hr (answers & Hup & Hans & _). exists answers.
  assert (Forall pair_ok answers) as Hok.
  { apply Forall_lookup. intros k r (m & _ & Hm)%Hans. by eapply mined_pair. }
  split_and!; [|done|done]. destruct (lw_fifo _ _ Hl _ _ Hc) as [Hpre _].
  unfold recv_events. rewrite Hup in Hpre.
  assert (forall l, Forall pair_ok l ->
    (fun b => receive i (Some (received b))) <$> (Marshal NewJoin :: ((fun r => Marshal (reply r)) <$> l)) =
    SJoin i :: (result_event i <$> l)) as Hev.
  { intros l Hlok. rewrite fmap_cons, received_Marshal by (split_and!; simpl; try done; apply uint64_zero).
    simpl. f_equal. rewrite <- list_fmap_compose. apply list_fmap_ext. intros k r Hr'.
    apply list_elem_of_lookup_2 in Hr'. rewrite Forall_forall in Hlok. destruct (Hlok _ Hr').
    simpl. unfold reply. rewrite received_Marshal by (by apply result_message_ok). done. }
  destruct p; [apply prefix_nil_inv in Hpre as ->; apply prefix_nil|..];
    rewrite <- (Hev answers Hok); by apply prefix_fmap.
Qed.

Lemma client_events a i message maxNonce p :
  t_conn s a i -> roles a = RClient message maxNonce -> client_seen tr a message maxNonce p ->
  recv_events tr i `prefix_of` [SRequest (mkRequest i 0 maxNonce message)].
Proof using Hl Hroles.
  intros Hc Hr [Hup _]. destruct (Hroles _ _ _ Hr) as [Hu Hn].
  destruct (lw_fifo _ _ Hl _ _ Hc) as [Hpre _]. rewrite Hup in Hpre. unfold recv_events.
  assert (received (Marshal (NewRequest message 0 maxNonce)) = NewRequest message 0 maxNonce) as Hm
    by (apply received_Marshal; split_and!; simpl; done || apply uint64_zero).
  assert ([SRequest (mkRequest i 0 maxNonce message)] =
    (fun b => receive i (Some (received b))) <$> [Marshal (NewRequest message 0 maxNonce)]) as ->
    by (simpl; by rewrite Hm).
  destruct p; [apply prefix_nil_inv in Hpre as ->; apply prefix_nil|..]; by apply prefix_fmap.
Qed.

(** The events of a connection are those of one program. *)
Lemma conn_events i : recv_events tr i = [] \/
  (exists a message maxNonce, t_conn s a i /\ roles a = RClient message maxNonce /\
     recv_events tr i `prefix_of` [SRequest (mkRequest i 0 maxNonce message)]) \/
  (exists a answers, t_conn s a i /\ roles a = RMiner /\
     recv_events tr i `prefix_of` SJoin i :: (result_event i <$> answers) /\ Forall pair_ok answers /\
     forall k r, answers !! k = Some r -> exists m, asks tr a !! k = Some m /\ mined m r).
Proof using Hl Hi Hroles.
  destruct (decide (up_got tr i = [])) as [E|Hne]; [left; unfold recv_events; by rewrite E|right].
  destruct (lw_up _ _ Hl i Hne) as [a Hc]. pose proof (li_end _ _ _ _ _ _ Hi a) as He. unfold end_ok in He.
  destruct (roles a) as [|message maxNonce] eqn:Er.
  - right. destruct (miner_events _ _ _ Hc Er He) as (answers & ? & ? & ?). eauto 10.
  - left. exists a, message, maxNonce. split_and!; try done. by eapply client_events.
Qed.

Lemma omap_none {A B} (f : A -> option B) l : (forall x, x ∈ l -> f x = None) -> omap f l = [].
Proof using.
  induction l as [|x l IH]; intros Hx; [done|]. simpl. rewrite Hx by (by left). apply IH.
  intros y Hy. apply Hx. by right.
Qed.

(** Each client requests once, each miner joins once. *)
Lemma conn_requests i r : r ∈ omap (request_of i) (recv_events tr i) ->
  omap (request_of i) (recv_events tr i) = [r] /\ exists a message maxNonce,
    t_conn s a i /\ roles a = RClient message maxNonce /\ r = mkRequest i 0 maxNonce message.
Proof using Hl Hi Hroles.
  destruct (conn_events i) as [->|[(a & message & maxNonce & Hc & Hr & Hp)|(a & answers & Hc & Hr & Hp & _)]];
    [by intros ?%not_elem_of_nil|..].
  - apply (omap_prefix (request_of i)) in Hp. simpl in Hp. rewrite decide_True in Hp by done.
    destruct (omap _ _) as [|x [|y l]] eqn:E; [by intros ?%not_elem_of_nil| |].
    + apply prefix_cons_inv_1 in Hp as ->. intros ->%list_elem_of_singleton. eauto 10.
    + apply prefix_length in Hp. simpl in Hp. lia.
  - apply (omap_prefix (request_of i)) in Hp. simpl in Hp. rewrite (omap_none _ (_ <$> _)) in Hp.
    + apply prefix_nil_inv in Hp as ->. by intros ?%not_elem_of_nil.
    + by intros x (r' & -> & _)%list_elem_of_fmap.
Qed.

Lemma conn_joins i j : j ∈ omap (join_of i) (recv_events tr i) ->
  omap (join_of i) (recv_events tr i) = [j] /\ exists a, t_conn s a i /\ roles a = RMiner.
Proof using Hl Hi Hroles.
  destruct (conn_events i) as [->|[(a & message & maxNonce & Hc & Hr & Hp)|(a & answers & Hc & Hr & Hp & _)]];
    [by intros ?%not_elem_of_nil|..].
  - apply (omap_prefix (join_of i)) in Hp. simpl in Hp. apply prefix_nil_inv in Hp as ->.
    by intros ?%not_elem_of_nil.
  - apply (omap_prefix (join_of i)) in Hp. simpl in Hp. rewrite decide_True in Hp by done.
    rewrite (omap_none _ (_ <$> _)) in Hp by (by intros x (r' & -> & _)%list_elem_of_fmap).
    destruct (omap _ _) as [|x [|y l]] eqn:E; [by intros ?%not_elem_of_nil| |].
    + apply prefix_cons_inv_1 in Hp as ->. intros ->%list_elem_of_singleton. eauto 10.
    + apply prefix_length in Hp. simpl in Hp. lia.
Qed.

(** The [k]-th result of a connection answers the [k]-th request its miner has read. *)
Lemma conn_results i k r : omap (result_of i) (recv_events tr i) !! k = Some r ->
  pair_ok r /\ exists a m, t_conn s a i /\ asks tr a !! k = Some m /\ mined m r.
Proof using Hl Hi Hroles.
  destruct (conn_events i) as [->|[(a & message & maxNonce & Hc & Hr & Hp)|(a & answers & Hc & Hr & Hp & Hok & Hans)]];
    [done|..].
  - apply (omap_prefix (result_of i)) in Hp. simpl in Hp. apply prefix_nil_inv in Hp as ->. done.
  - apply (omap_prefix (result_of i)) in Hp. rewrite omap_cons_list in Hp.
    change (option_list (result_of i (SJoin i))) with (@nil (Z * Z)) in Hp.
    assert (omap (result_of i) (result_event i <$> answers) = answers) as E.
    { clear. induction answers as [|x l IH]; [done|]. rewrite fmap_cons, omap_cons_list, IH.
      simpl. rewrite decide_True by done. by destruct x. }
    rewrite E in Hp. simpl in Hp. intros Hk. pose proof (prefix_lookup_Some _ _ _ _ Hk Hp) as Hk'.
    rewrite Forall_lookup in Hok. destruct (Hans _ _ Hk') as (m & ? & ?). eauto 10.
Qed.

(** The requests a miner has read are those written to its connection. *)
Lemma asks_asked a i :
  t_conn s a i -> (forall p, p ∈ written (sched (srv_app e)) -> message_ok p.2) ->
  asks tr a `prefix_of` asked i (sched (srv_app e)).
Proof using Hl Hi.
  intros Hc Hok. destruct (lw_fifo _ _ Hl _ _ Hc) as [_ Hdown].
  rewrite (sv_down _ _ _ _ (li_server _ _ _ _ _ _ Hi)) in Hdown.
  apply (prefix_fmap received), (omap_prefix is_request) in Hdown.
  assert (omap is_request (received <$> (Marshal <$> sent_to i (sched (srv_app e)))) =
    asked i (sched (srv_app e))) as <-; [|done].
  unfold sent_to, asked. clear -Hok. induction (written _) as [|p l IH]; [done|].
  assert (message_ok p.2) as Hp by (apply Hok; by left).
  assert (forall p, p ∈ l -> message_ok p.2) as Hl' by (intros x Hx; apply Hok; by right).
  rewrite (omap_cons_list (asked_of i)), (omap_cons_list (to_conn i)), !fmap_app, omap_app, (IH Hl').
  f_equal. unfold to_conn, asked_of. destruct (decide (p.1 = i)) as [Hpi|Hpi]; simpl.
  - rewrite received_Marshal by done. unfold is_request.
    destruct (decide (Type_ p.2 = Request)); [by rewrite decide_True|by rewrite decide_False by tauto].
  - by rewrite decide_False by tauto.
Qed.

(** ** The scheduler among the others *)

Lemma hist_prefix :
  (forall i, omap (request_of i) (hist (srv_app e)) `prefix_of` omap (request_of i) (recv_events tr i)) /\
  (forall i, omap (join_of i) (hist (srv_app e)) `prefix_of` omap (join_of i) (recv_events tr i)).
Proof using Hi.
  destruct (li_server _ _ _ _ _ _ Hi) as [H1 H2 _ _ _].
  split; intros i; rewrite ?H1, ?H2, omap_app; by apply prefix_app_r.
Qed.

Lemma requested_in i : i ∈ requested (hist (srv_app e)) ->
  exists r, r ∈ omap (request_of i) (hist (srv_app e)).
Proof using.
  unfold requested. intros (ev & Hev & Hid)%list_elem_of_omap. destruct ev as [r| | | |]; try done.
  injection Hid as Hid. exists r. apply list_elem_of_omap. exists (SRequest r). split; [done|].
  simpl. by rewrite decide_True.
Qed.

Lemma joined_in i : i ∈ joined (hist (srv_app e)) -> i ∈ omap (join_of i) (hist (srv_app e)).
Proof using.
  unfold joined. intros (ev & Hev & Hid)%list_elem_of_omap. destruct ev as [| |j| |]; try done.
  injection Hid as ->. apply list_elem_of_omap. exists (SJoin i). split; [done|].
  simpl. by rewrite decide_True.
Qed.

Lemma prefix_in {A} (x : A) l1 l2 : x ∈ l1 -> l1 `prefix_of` l2 -> x ∈ l2.
Proof using. intros Hx [k ->]. apply elem_of_app. by left. Qed.

Lemma requested_conn i : i ∈ requested (hist (srv_app e)) -> exists a message maxNonce,
  t_conn s a i /\ roles a = RClient message maxNonce.
Proof using Hl Hi Hroles.
  intros (r & Hr)%requested_in. eapply prefix_in in Hr; [|apply (proj1 hist_prefix)].
  destruct (conn_requests i r Hr) as (_ & a & message & maxNonce & Hc & Hro & _). eauto.
Qed.

Lemma joined_conn i : i ∈ joined (hist (srv_app e)) -> exists a, t_conn s a i /\ roles a = RMiner.
Proof using Hl Hi Hroles.
  intros Hj%joined_in. eapply prefix_in in Hj; [|apply (proj2 hist_prefix)].
  by destruct (conn_joins i _ Hj) as (_ & ?).
Qed.

Lemma wb : well_behaved (hist (srv_app e)).
Proof using Hl Hi Hroles.
  destruct hist_prefix as [Hreq Hjoin]. split_and!.
  - apply NoDup_count. intros i. rewrite requested_count. etrans; [apply prefix_length, Hreq|].
    destruct (omap (request_of i) (recv_events tr i)) as [|r l] eqn:E; [simpl; lia|].
    destruct (conn_requests i r) as [E' _]; [rewrite E; by left|]. rewrite E in E'. by rewrite E'.
  - apply NoDup_count. intros i. rewrite joined_count. etrans; [apply prefix_length, Hjoin|].
    destruct (omap (join_of i) (recv_events tr i)) as [|r l] eqn:E; [simpl; lia|].
    destruct (conn_joins i r) as [E' _]; [rewrite E; by left|]. rewrite E in E'. by rewrite E'.
  - intros (a & ? & ? & Hc & _)%requested_conn. by apply (lw_id _ _ Hl) in Hc.
Qed.

(** The event [schedule] is about to take. *)
Lemma taken_requests c ev v' r :
  take_event (srv_app e) c = Some (ev, v') -> ev = SRequest r -> request_ok r.
Proof using Hl Hi Hroles.
  intros Ht ->. destruct (take_event_ok _ _ _ _ Ht) as (_ & _ & _ & E & _ & _).
  pose proof (sv_requests _ _ _ _ (li_server _ _ _ _ _ _ Hi) (rid r)) as Hq.
  rewrite !omap_app, (E (rid r)) in Hq. simpl in Hq. rewrite decide_True in Hq by done.
  destruct (conn_requests (rid r) r) as (_ & a & message & maxNonce & _ & Hr & ->).
  { rewrite Hq. apply elem_of_app. right. by left. }
  destruct (Hroles _ _ _ Hr). split_and!; simpl; try done.
Qed.

Lemma taken_result c ev v' r :
  take_event (srv_app e) c = Some (ev, v') -> ev = SResult r ->
  pair_ok (shash r, snonce r) /\ exists a m, t_conn s a (sid r) /\
    asks tr a !! length (results (sid r) (hist (srv_app e))) = Some m /\ mined m (shash r, snonce r).
Proof using Hl Hi Hroles.
  intros Ht ->. destruct (take_event_ok _ _ _ _ Ht) as (_ & _ & _ & _ & _ & E).
  pose proof (sv_results _ _ _ _ (li_server _ _ _ _ _ _ Hi) (sid r)) as Hq.
  rewrite !omap_app, (E (sid r)) in Hq. simpl in Hq. rewrite decide_True in Hq by done.
  destruct (conn_results (sid r) (length (results (sid r) (hist (srv_app e)))) (shash r, snonce r))
    as [Hok H']; [|done].
  rewrite Hq. rewrite lookup_app_r by done. by rewrite Nat.sub_diag.
Qed.

Lemma taken_ok c ev v' :
  take_event (srv_app e) c = Some (ev, v') -> event_ok ev.
Proof using Hl Hi Hroles.
  intros Ht. destruct ev as [r| | |r|]; try done; [by eapply taken_requests|].
  by destruct (taken_result _ _ _ r Ht eq_refl) as [[? ?] _].
Qed.

Lemma taken_truthful c ev v' :
  (forall p, p ∈ written (sched (srv_app e)) -> message_ok p.2) ->
  take_event (srv_app e) c = Some (ev, v') ->
  truthful mined (hist (srv_app e)) (sched (srv_app e)) ev.
Proof using Hl Hi Hroles.
  intros Hok Ht r ->. destruct (taken_result _ _ _ r Ht eq_refl) as (_ & a & m & Hc & Hm & Hmined).
  exists m. split; [|done]. eapply prefix_lookup_Some; [exact Hm|]. by apply asks_asked.
Qed.
End State.

(** ** The invariant of all *)

Record global_inv (n : nat) (c : composed St programs) : Prop := {
  gi_local : local_inv (seen c) (apps c);
  gi_replying : replying (seen c);
  gi_pairing : pairing floorLog10 ceilDiv mined (hist (srv_app (apps c))) (sched (srv_app (apps c)));
  gi_valid : valid (sched (srv_app (apps c)));
  gi_len : (length (hist (srv_app (apps c))) <= n)%nat
}.

(** Moves of the others leave the scheduler alone. *)
Lemma app_cases e x act e' : app e x act = Some e' ->
  (sched (srv_app e') = sched (srv_app e) /\ hist (srv_app e') = hist (srv_app e) /\
   forall i, server_write i act = None) \/
  exists c v out, schedule_step floorLog10 ceilDiv (srv_app e) c = Some (v, out) /\ srv_app e' = v /\
    forall i d, act = ServerWrite i d -> exists m, out = [(i, m)].
Proof using.
  assert (forall a act, end_app roles e a act = Some e' -> srv_app e' = srv_app e) as Hend.
  { intros a act'. unfold end_app, put_miner, put_client.
    destruct (roles a); [destruct (miner_step _ _)|destruct (client_step _ _ _ _)]; simpl; try done; by intros [= <-]. }
  destruct act as [i b|i|i b| |a b|a|a b|a|]; cbn [bitcoin_app]; try done.
  - unfold put_server, receive_step. destruct (rpc _); simpl; [done|]. intros [= <-]. by left.
  - unfold put_server, receive_step. destruct (rpc _); simpl; [done|]. intros [= <-]. by left.
  - destruct x as [| |c| |]; try done. destruct (schedule_step _ _ _ c) as [[v out]|] eqn:E; simpl; [|done].
    destruct out as [|[j m] [|]]; try done. destruct (_ && _) eqn:Eq; [|done]. intros [= <-]. right.
    exists c, v, [(j, m)]. split_and!; [done|done|]. intros ? ? [= <- <-].
    apply andb_prop in Eq as [->%Z.eqb_eq _]. by exists m.
  - intros E%Hend. left. by rewrite E.
  - intros E%Hend. left. by rewrite E.
  - intros E%Hend. left. by rewrite E.
  - intros E%Hend. left. by rewrite E.
  - destruct x as [| |c|a fuel arrived|a].
    + intros [= <-]. by left.
    + unfold put_server. destruct (push_step _) as [v|] eqn:E; simpl; [|done]. intros [= <-]. left.
      unfold push_step in E. destruct (rpc _) as [[]|]; try done; destruct (send _ _ _); simpl in E; try done;
        by injection E as <-.
    + destruct (schedule_step _ _ _ c) as [[v out]|] eqn:E; simpl; [|done].
      destruct out; [|done]. intros [= <-]. right. by exists c, v, [].
    + destruct (roles a); [|done]. unfold put_miner. destruct (mine_step _ _ _ _); simpl; [|done].
      intros [= <-]. by left.
    + destruct (roles a); [done|]. unfold put_client. destruct (select_step _ _); simpl; [|done].
      intros [= <-]. by left.
Qed.

Lemma local_compose c x oe c' :
  local_inv (seen c) (apps c) -> compose app c (x, oe) = Some c' -> local_inv (seen c') (apps c').
Proof using.
  intros Hi Hstep. destruct (compose_seen _ _ _ _ _ Hstep) as (act & Happ & [(_ & -> & ->)|(ev & _ & _ & ->)]).
  - by eapply local_silent.
  - by eapply local_step.
Qed.

(** The scheduler writes only to connections that were read from. *)
Lemma written_conn tr e i :
  local_inv tr e -> i ∈ joined (hist (srv_app e)) \/ i ∈ requested (hist (srv_app e)) -> up_got tr i <> [].
Proof using.
  intros Hi [Hj|Hj] E; (destruct (hist_prefix tr e Hi) as [H1 H2]).
  - apply joined_in in Hj. eapply prefix_in in Hj; [|apply H2]. unfold recv_events in Hj.
    rewrite E in Hj. by apply not_elem_of_nil in Hj.
  - apply requested_in in Hj as (r & Hr). eapply prefix_in in Hr; [|apply H1]. unfold recv_events in Hr.
    rewrite E in Hr. by apply not_elem_of_nil in Hr.
Qed.

(** The written messages after a turn of [schedule]. *)
Lemma schedule_global n c ch v out :
  global_inv n c -> Z.of_nat n < 2 ^ 62 -> lawful (net c) (seen c) ->
  schedule_step floorLog10 ceilDiv (srv_app (apps c)) ch = Some (v, out) ->
  (well_behaved (hist v) -> pairing floorLog10 ceilDiv mined (hist v) (sched v)) /\
  valid (sched v) /\ (length (hist v) <= S n)%nat /\
  forall i m, out = [(i, m)] -> up_got (seen c) i <> [].
Proof using Hlog Hroles.
  intros [Hi Hrep Hpair Hval Hlen] Hn Hl Hstep.
  pose proof (schedule_out _ _ _ _ _ _ Hstep) as Hwr. unfold schedule_step in Hstep.
  destruct (take_event _ ch) as [[ev v1]|] eqn:Et; simpl in Hstep; [|done].
  destruct (take_event_ok _ _ _ _ Et) as (E1 & E2 & _). rewrite E1 in Hstep.
  destruct (next _ _ _ ev) as [s'|] eqn:En; simpl in Hstep; [|done]. injection Hstep as <- _.
  simpl in *. rewrite E2.
  pose proof (wb _ _ _ Hl Hi) as Hwb. pose proof Hwb as (_ & _ & Hz).
  assert (inv (hist (srv_app (apps c))) (sched (srv_app (apps c)))) as Hinv.
  { eapply exec_next_inv; [exact Hlog|apply (li_server _ _ _ _ _ _ Hi)|done|lia]. }
  split_and!.
  - intros Hwb'. eapply next_pairing; try done. eapply taken_truthful; try done. apply Hval.
  - eapply next_valid; [|done|done]. by eapply taken_ok.
  - rewrite length_app. simpl. lia.
  - intros i m ->. eapply (written_conn _ _ i Hi).
    destruct (next_written _ _ _ _ _ _ Hinv Hz En) as [E|(j & m' & E & Ht)].
    + rewrite E in Hwr. apply (f_equal length) in Hwr. rewrite length_app in Hwr. simpl in Hwr. lia.
    + rewrite E in Hwr. apply app_inv_head in Hwr. injection Hwr as -> ->. tauto.
Qed.

Lemma global_step n c x oe c' :
  global_inv n c -> Z.of_nat n < 2 ^ 62 -> lawful (net c) (seen c) ->
  compose app c (x, oe) = Some c' -> (replying (seen c') -> lawful (net c') (seen c')) ->
  global_inv (S n) c'.
Proof using Hlog Hroles.
  intros Hg Hn Hl Hstep Hl'. pose proof (local_compose _ _ _ _ (gi_local _ _ Hg) Hstep) as Hloc.
  destruct (compose_seen _ _ _ _ _ Hstep) as (act & Happ & Hseen).
  assert ((forall i d, act = ServerWrite i d -> up_got (seen c) i <> []) -> replying (seen c')) as Hrep.
  { intros Hw. destruct Hseen as [(_ & _ & ->)|(ev & _ & _ & ->)]; [apply Hg|].
    apply replying_snoc. split; [apply Hg|done]. }
  destruct (app_cases _ _ _ _ Happ) as [(E1 & E2 & E3)|(ch & v & out & Hsch & Ev' & Hout)].
  - split; rewrite ?E1, ?E2; try done; try apply Hg.
    + apply Hrep. intros i d ->. specialize (E3 i). simpl in E3. by rewrite decide_True in E3.
    + etrans; [apply Hg|lia].
  - destruct (schedule_global _ _ _ _ _ Hg Hn Hl Hsch) as (Hp & Hv & Hlen & Hw).
    assert (replying (seen c')) as Hr.
    { apply Hrep. intros i d Ha. destruct (Hout i d Ha) as [m ->]. by eapply Hw. }
    split; try done; rewrite Ev'; [|done..]. apply Hp. rewrite <- Ev'. by eapply wb; [apply Hl'|].
Qed.

Lemma global_start : global_inv 0 (composed_init programs_start).
Proof using.
  split; simpl; [apply local_start|apply replying_nil|apply start_pairing| |lia].
  split; simpl; try done; [by intros r ?%not_elem_of_nil|by intros p ?%not_elem_of_nil].
Qed.

Lemma global_run evs c :
  Z.of_nat (length evs) < 2 ^ 62 -> exec (compose app) (composed_init programs_start) evs = Some c ->
  global_inv (length evs) c /\ lawful (net c) (seen c).
Proof using Hlog Hroles.
  revert c. induction evs as [|[x oe] evs IH] using rev_ind; intros c Hlen Hrun.
  - injection Hrun as <-. split; [apply global_start|].
    apply (lawful_run []); [done|done|apply replying_nil].
  - rewrite length_app in *. simpl in *. pose proof Hrun as Hrun'.
    rewrite exec_app in Hrun. destruct (exec _ _ evs) as [c1|] eqn:E; simpl in Hrun; [|done].
    destruct (compose app c1 (x, oe)) as [c2|] eqn:E2; [|done]. injection Hrun as <-.
    destruct (IH c1) as [Hg Hl]; [lia|done|].
    destruct (composed_run _ _ _ _ Hrun') as (es & Hes & Hex). rewrite length_app in Hes. simpl in Hes.
    assert (replying (seen c2) -> lawful (net c2) (seen c2)) as Hl2
      by (intros Hrep; apply (lawful_run es); [lia|done|done]).
    rewrite Nat.add_1_r. assert (global_inv (S (length evs)) c2) as Hg2
      by (eapply global_step; try done; lia).
    split; [done|]. apply Hl2, Hg2.
Qed.

(** ** The answer of a client *)

(** The answer a client reads was written to its connection, by [schedule]. *)
Lemma done_written n c a message maxNonce m :
  global_inv n c -> lawful (net c) (seen c) ->
  roles a = RClient message maxNonce -> client_at_addr (apps c) a = CDone m ->
  exists i, t_conn (net c) a i /\ (i, m) ∈ written (sched (srv_app (apps c))).
Proof using.
  intros Hg Hl Hr Hdone. pose proof (gi_local _ _ Hg) as Hi.
  pose proof (li_end _ _ _ _ _ _ Hi a) as He. unfold end_ok in He. rewrite Hr, Hdone in He.
  destruct He as [_ Hgot]. destruct (Hgot m (or_intror eq_refl)) as (b & Hb & ->).
  destruct (lw_down _ _ Hl a) as [i Hc]; [intros E; rewrite E in Hb; by apply not_elem_of_nil in Hb|].
  exists i. split; [done|]. destruct (lw_fifo _ _ Hl _ _ Hc) as [_ Hdown].
  eapply prefix_in in Hb; [|exact Hdown].
  rewrite (sv_down _ _ _ _ (li_server _ _ _ _ _ _ Hi)) in Hb.
  apply list_elem_of_fmap in Hb as (m & -> & Hm). apply list_elem_of_omap in Hm as ([j m'] & Hj & Hto).
  unfold to_conn in Hto. simpl in Hto. case_decide; [|done]. injection Hto as ->. subst j.
  rewrite received_Marshal by (by apply (vd_written _ (gi_valid _ _ Hg) (i, m))). done.
Qed.

(** Messages to a client are answers. *)
Lemma written_kind tr e evs s i m :
  local_inv tr e -> exec (next floorLog10 ceilDiv) startServer evs = Some s ->
  well_behaved evs -> Z.of_nat (length evs) < 2 ^ 62 -> (i, m) ∈ written s ->
  Type_ m = Request /\ i ∈ joined evs \/ Type_ m = Result /\ i ∈ requested evs.
Proof using Hlog.
  intros _. revert s. induction evs as [|ev evs IH] using rev_ind; intros s.
  { intros [= <-] _ _ Hm. by apply not_elem_of_nil in Hm. }
  rewrite exec_app, length_app. simpl. intros Hrun Hwb Hlen Hm.
  destruct (exec _ _ evs) as [s1|] eqn:E; simpl in Hrun; [|done].
  destruct (next _ _ s1 ev) as [s2|] eqn:E2; [|done]. injection Hrun as <-.
  pose proof (well_behaved_prefix _ _ Hwb) as Hwb1. pose proof Hwb1 as (_ & _ & Hz).
  assert (inv evs s1) as Hinv by (eapply exec_next_inv; [exact Hlog|done|done|lia]).
  assert (Type_ m = Request /\ i ∈ joined evs \/ Type_ m = Result /\ i ∈ requested evs) as Ho.
  { destruct (next_written _ _ _ _ _ _ Hinv Hz E2) as [Ew|(j & m' & Ew & Ht)]; rewrite Ew in Hm.
    - apply (IH s1); [done|done|lia|done].
    - apply elem_of_app in Hm as [Hm|Hm]; [apply (IH s1); [done|done|lia|done]|].
      apply list_elem_of_singleton in Hm. by injection Hm as -> ->. }
  rewrite joined_snoc, requested_snoc, !elem_of_app. tauto.
Qed.

(** What a client is told was mined for its message, range by range. *)
Lemma client_told evs c a message maxNonce m :
  Z.of_nat (length evs) < 2 ^ 62 -> exec (compose app) (composed_init programs_start) evs = Some c ->
  roles a = RClient message maxNonce -> client_at_addr (apps c) a = CDone m ->
  exists i free pairs,
    pairs.*1 ≡ₚ (fun p => (rlower p, rupper p)) <$>
      chunks floorLog10 ceilDiv (mkRequest i 0 maxNonce message) free /\
    m = answer pairs.*2 /\
    forall rg r, (rg, r) ∈ pairs -> mined (NewRequest message rg.1 rg.2) r.
Proof using Hlog Hroles.
  intros Hlen Hrun Hr Hdone. destruct (global_run _ _ Hlen Hrun) as [Hg Hl].
  pose proof (gi_local _ _ Hg) as Hi. pose proof (li_server _ _ _ _ _ _ Hi) as Hsv.
  pose proof (wb _ _ _ Hl Hi) as Hwb. pose proof (gi_len _ _ Hg) as Hhist.
  set (v := srv_app (apps c)) in *.
  assert (Z.of_nat (length (hist v)) < 2 ^ 62) as Hh by lia.
  destruct (done_written _ _ _ _ _ _ Hg Hl Hr Hdone) as (i & Hc & Hm).
  destruct (written_kind _ _ _ _ _ _ Hi (sv_run _ _ _ _ Hsv) Hwb Hh Hm) as [[_ Hj]|[Ht Hq]].
  { destruct (joined_conn _ _ _ Hl Hi i Hj) as (b & Hb & Hrb).
    pose proof (lw_unique _ _ Hl _ _ _ Hc Hb) as ->. congruence. }
  destruct (answer_counted _ _ Hlog _ _ _ _ (sv_run _ _ _ _ Hsv) Hwb Hh Hm Ht) as (-> & Hparts & _ & _).
  destruct (pg_parts _ _ _ _ _ (gi_pairing _ _ Hg) i Hq) as (r & free & Hin & Hid & Hpr).
  assert (forall r, SRequest r ∈ hist v -> rid r = i -> r = mkRequest i 0 maxNonce message) as Honly.
  { intros x Hx Hxi. assert (x ∈ omap (request_of i) (hist v)) as Hx'.
    { apply list_elem_of_omap. exists (SRequest x). split; [done|]. simpl. by rewrite decide_True. }
    eapply prefix_in in Hx'; [|apply (proj1 (hist_prefix _ _ Hi))].
    destruct (conn_requests _ _ _ Hl Hi i x Hx') as (_ & b & msg & n & Hb & Hrb & ->).
    pose proof (lw_unique _ _ Hl _ _ _ Hc Hb) as ->. rewrite Hr in Hrb. by injection Hrb as <- <-. }
  exists i, free, (reports (sched v) !!! i). split_and!; [|done|].
  - rewrite <- (Honly r Hin Hid), <- Hpr. by symmetry.
  - intros rg x Hx. destruct (pg_reports _ _ _ _ _ (gi_pairing _ _ Hg) i rg x Hx) as (d & (q & Hq' & Hqi & Hqd) & Hmn).
    rewrite (Honly q Hq' Hqi) in Hqd. simpl in Hqd. by subst d.
Qed.

(** ** The least hash *)

(** A range the miner can search, and the nonces it tries. *)
Definition searchable (rg : Z * Z) : Prop :=
  0 <= rg.1 < rg.2 /\ rg.2 < 2 ^ 64 - 1 /\ 0 < floorLog (rg.2 - rg.1) <= rg.2 - rg.1.
Definition last_tried (rg : Z * Z) : Z :=
  rg.1 + floorLog (rg.2 - rg.1) * ((rg.2 - rg.1) / floorLog (rg.2 - rg.1)).
Definition tried (parts : list (Z * Z)) (k : Z) : Prop :=
  exists rg, rg ∈ parts /\ rg.1 <= k <= last_tried rg.

Lemma answer_least message (pairs : list ((Z * Z) * (Z * Z))) :
  pairs <> [] -> (forall rg, rg ∈ pairs.*1 -> searchable rg) ->
  (forall k, tried pairs.*1 k -> Hash message k <> 0) ->
  (forall rg r, (rg, r) ∈ pairs -> mined (NewRequest message rg.1 rg.2) r) ->
  exists k, answer pairs.*2 = NewResult (Hash message k) k /\ tried pairs.*1 k /\
    forall k', tried pairs.*1 k' -> Hash message k <= Hash message k'.
Proof using.
  intros Hne Hs Hnz Hm.
  assert (forall rg r, (rg, r) ∈ pairs -> rg ∈ pairs.*1 /\ found message r (rg.1, last_tried rg)) as Hf.
  { intros rg r Hin. assert (rg ∈ pairs.*1) as Hrg by (apply list_elem_of_fmap; by exists (rg, r)).
    destruct (Hs rg Hrg) as (? & ? & ?). split; [done|].
    apply (mined_least floorLog (NewRequest message rg.1 rg.2) r); simpl; try lia; [|by apply Hm].
    intros k Hk. apply Hnz. by exists rg. }
  destruct (collect_min pairs.*2) as [Hin Hmin].
  { intros r ([rg r'] & -> & Hin)%list_elem_of_fmap. destruct (Hf _ _ Hin) as (Hrg & Hk & Hh & _).
    simpl in *. rewrite Hh. apply Hnz. by exists rg. }
  { by destruct pairs. }
  apply list_elem_of_fmap in Hin as ([rg r] & Er & Hin). simpl in Er.
  destruct (Hf _ _ Hin) as (Hrg & Hk & Hh & _). simpl in Hk. exists r.2. unfold answer. rewrite Er, <- Hh.
  split_and!; [done|by exists rg|]. intros k' (rg' & Hrg' & Hk').
  apply list_elem_of_fmap in Hrg' as ([rg2 r2] & -> & Hin2). destruct (Hf _ _ Hin2) as (_ & _ & _ & Hl2).
  specialize (Hl2 k' Hk'). assert ((collect pairs.*2).1 <= r2.1) as H2.
  { apply Hmin. apply list_elem_of_fmap. by exists (rg2, r2). }
  rewrite Er in H2. simpl in *. lia.
Qed.

Lemma chunks_nonempty r free : chunks floorLog10 ceilDiv r free <> [].
Proof using Hlog.
  assert (0 < stride_of floorLog10 (rupper r) free) as Hpos.
  { unfold stride_of. destruct (_ && _) eqn:E; [apply andb_prop in E as [E _]; lia|].
    destruct (Z.ltb_spec 10000 (rupper r)); [by apply Hlog|lia]. }
  unfold chunks. rewrite seqZ_cons by lia. done.
Qed.
End Global.

(** ** Over the LSP library *)

Section OnLsp.
Context (p : LspMessage.Params).
Context (floorLog10 : Z -> Z) (ceilDiv : Z -> Z -> Z) (floorLog : Z -> Z) (roles : string -> role).

Definition bitcoin_step : composed LspSystem.sys programs -> move * option LspSystem.event ->
    option (composed LspSystem.sys programs) :=
  @compose _ _ _ _ (lsp_transport p) (bitcoin_app floorLog10 ceilDiv floorLog roles).
Definition bitcoin_start : composed LspSystem.sys programs :=
  @composed_init _ _ _ (lsp_transport p) programs_start.

(** The Bitcoin system end to end.  Clients, miners and the server run over the LSP
    library and an adversarial network; any number of miners and clients come, are
    lost and are served.  When a client prints a result, the result is collected
    from one answer for each range its request was cut into, and each of these
    answers was mined for that range and for the client's message.  So when the
    miners can search every range and no hash is zero, the client prints the least
    hash of all the nonces tried, with a nonce that has it. *)
Theorem bitcoin_answer evs c a message maxNonce m :
  (forall n, 10000 < n -> 0 < floorLog10 n < 2 ^ 62) ->
  (forall a message maxNonce, roles a = RClient message maxNonce ->
     utf8_ok message = true /\ uint64_ok maxNonce) ->
  Z.of_nat (length evs) < 2 ^ 62 -> exec bitcoin_step bitcoin_start evs = Some c ->
  roles a = RClient message maxNonce -> client_at_addr (apps c) a = CDone m ->
  exists parts pairs free i,
    parts = (fun r => (rlower r, rupper r)) <$> chunks floorLog10 ceilDiv (mkRequest i 0 maxNonce message) free /\
    pairs.*1 ≡ₚ parts /\ m = answer pairs.*2 /\
    (forall rg r, (rg, r) ∈ pairs -> mined floorLog (NewRequest message rg.1 rg.2) r) /\
    ((forall rg, rg ∈ parts -> searchable floorLog rg) ->
     (forall k, tried floorLog parts k -> Hash message k <> 0) ->
     exists k, m = NewResult (Hash message k) k /\ tried floorLog parts k /\
       forall k', tried floorLog parts k' -> Hash message k <= Hash message k').
Proof.
  intros Hlog Hroles Hlen Hrun Hr Hdone.
  destruct (client_told _ _ _ _ Hlog Hroles _ _ _ _ _ _ Hlen Hrun Hr Hdone) as (i & free & pairs & Hp & -> & Hm).
  eexists _, pairs, free, i. split_and!; [done|done|done|done|]. intros Hs Hnz.
  assert (forall k, tried floorLog pairs.*1 k <-> tried floorLog
    ((fun r => (rlower r, rupper r)) <$> chunks floorLog10 ceilDiv (mkRequest i 0 maxNonce message) free) k)
    as Ht by (intros k; unfold tried; by setoid_rewrite Hp).
  destruct (answer_least floorLog message pairs) as (k & Hk & Htk & Hmin).
  - intros ->. symmetry in Hp. apply Permutation_nil_r, fmap_nil_inv in Hp.
    by apply (chunks_nonempty _ _ Hlog) in Hp.
  - intros rg Hrg. apply Hs. by rewrite <- Hp.
  - intros k Hk. by apply Hnz, Ht.
  - done.
  - exists k. split_and!; [done|by apply Ht|]. intros k' Hk'. by apply Hmin, Ht.
Qed.
End OnLsp.

(** ** Witness: one miner, one client, the nonces from 0 to 9 *)

Definition demo_roles (a : string) : role := if String.eqb a "c1" then RClient "bitcoin" 9 else RMiner.

Definition net_events (evs : list LspSystem.event) : list (move * option LspSystem.event) :=
  (fun ev => (MNone, Some ev)) <$> evs.

(** A client or a miner connects. *)
Definition demo_connection (a : string) (k j : nat) : list LspSystem.event :=
  [LspSystem.ENewClient a LspMessage.NewParams; LspSystem.SReceive k None;
   LspSystem.SHandle LspServer.CasePacket; LspSystem.EReceive a j None;
   LspSystem.EHandler a LspClient.CaseIncoming].

(** What the program at [a] wrote travels, as packet [k], to [Read] of the server. *)
Definition demo_up (a : string) (i : Z) (b : string) (k : nat) : list LspSystem.event :=
  [LspSystem.EWrite a b; LspSystem.EHandler a LspClient.CaseDefault; LspSystem.SReceive k None;
   LspSystem.SHandle LspServer.CasePacket; LspSystem.SHandle LspServer.CasePacket;
   LspSystem.SClient i LspServer.CaseIncoming; LspSystem.SClient i LspServer.CaseDefault;
   LspSystem.SClient i LspServer.CaseDefault; LspSystem.SRead].

(** What the server wrote to [i] travels, as packet [k], to [Read] of the program at [a]. *)
Definition demo_down (a : string) (i : Z) (k : nat) : list LspSystem.event :=
  [LspSystem.SHandle LspServer.CaseOutgoing; LspSystem.SHandle LspServer.CaseOutgoing;
   LspSystem.SClient i LspServer.CaseDefault; LspSystem.EReceive a k None;
   LspSystem.EHandler a LspClient.CaseIncoming; LspSystem.EHandler a LspClient.CaseDefault;
   LspSystem.EHandler a LspClient.CaseDefault; LspSystem.ERead a].

Definition demo_results : list (Z * Z) :=
  default [] (mapM (goroutine 20 "bitcoin") [(0, 4); (4, 8)]).
Definition demo_answer : Message := answer demo_results.

Definition demo_bitcoin : list (move * option LspSystem.event) :=
  net_events (demo_connection "m1" 0 0 ++ demo_up "m1" 73 (Marshal NewJoin) 1) ++
  [(MPush, None); (MSchedule CJoin, None)] ++
  net_events (demo_connection "c1" 2 2 ++ demo_up "c1" 74 (Marshal (NewRequest "bitcoin" 0 9)) 3) ++
  [(MPush, None); (MSchedule CRequest, None);
   (MSchedule CTrigger, Some (LspSystem.SWrite 73 (Marshal (NewRequest "bitcoin" 0 9))))] ++
  net_events (demo_down "m1" 73 4) ++
  [(MSearch "m1" 20 demo_results, None)] ++
  net_events ([LspSystem.EReceive "m1" 1 None; LspSystem.EHandler "m1" LspClient.CaseIncoming] ++
    demo_up "m1" 73 (Marshal demo_answer) 5) ++
  [(MPush, None); (MSchedule CResult, Some (LspSystem.SWrite 74 (Marshal demo_answer)))] ++
  net_events (demo_down "c1" 74 6) ++ [(MSelect "c1" false, None)].

(** The one range of this run can be searched. *)
Example demo_searchable : searchable floor_ln (0, 9) /\ last_tried floor_ln (0, 9) = 8.
Proof. repeat split; vm_compute; (reflexivity || discriminate). Qed.

Lemma demo_roles_ok a message maxNonce :
  demo_roles a = RClient message maxNonce -> utf8_ok message = true /\ uint64_ok maxNonce.
Proof.
  unfold demo_roles. case_match; [|done]. intros [= <- <-]. split; [vm_refl|].
  split; vm_compute; (reflexivity || discriminate).
Qed.

Lemma bitcoin_answer_witness :
  let c := run (bitcoin_step LspMessage.NewParams floor_log10 ceil_div floor_ln demo_roles)
             (bitcoin_start LspMessage.NewParams) demo_bitcoin in
  client_at_addr (apps c) "c1" = CDone demo_answer /\
  exists pairs, demo_answer = answer pairs.*2 /\
    forall rg r, (rg, r) ∈ pairs -> mined floor_ln (NewRequest "bitcoin" rg.1 rg.2) r.
Proof.
  set (c := run _ _ _). cbv zeta.
  assert (client_at_addr (apps c) "c1" = CDone demo_answer) as Hdone by vm_refl.
  split; [exact Hdone|].
  destruct (bitcoin_answer LspMessage.NewParams floor_log10 ceil_div floor_ln demo_roles demo_bitcoin c
    "c1" "bitcoin" 9 demo_answer floor_log10_range demo_roles_ok ltac:(vm_refl)
    (exec_run (bitcoin_step LspMessage.NewParams floor_log10 ceil_div floor_ln demo_roles)
       (bitcoin_start LspMessage.NewParams) demo_bitcoin ltac:(vm_refl)) eq_refl Hdone)
    as (parts & pairs & free & i & _ & _ & Hm & Hmined & _).
  exists pairs. split; [exact Hm|exact Hmined].
Defined.
