(* ===== verification/Interfaces.v ===== *)
(** The interfaces of the libraries as type classes, and what the implementations make of
    what the interfaces document (src/project-2/src/example.com/lsp: client_api.go and
    server_api.go; src/project-1/src/example.com/p1/interface.go).

    A method gives the list of its possible returns: none when it blocks, several when a
    [select] has several ready cases.  An error is its text.  [Close] of the LSP library
    is a request and a polling loop; [Close_poll] is one turn of the loop and says whether
    the method returns. *)
From S2P Require Import Prelude GoText KvServer LspMessage LspWindow LspClient LspServer LspSystem LspDelivery.

(** ** client_api.go *)

Class Client (C : Type) := {
  client_ConnID : C -> Z;
  client_Read : C -> list ((string + string) * C);
  client_Write : C -> string -> list (option string * C);
  client_Close : C -> C;
  client_Close_poll : C -> C * bool
}.

#[export] Instance lsp_client : Client LspClient.client := {|
  client_ConnID := LspClient.id;
  client_Read c :=
    option_list ((fun r => (inl r.1, r.2)) <$> LspClient.Read_data c) ++
    option_list ((fun r => (inr r.1, r.2)) <$> LspClient.Read_err c);
  client_Write c payload := option_list ((fun c => (None, c)) <$> LspClient.Write c payload);
  client_Close := LspClient.Close_begin;
  client_Close_poll := LspClient.Close_poll
|}.

(** ** server_api.go *)

Class Server (S : Type) := {
  server_Read : S -> list (Z * (string + string) * S);
  server_Write : S -> Z -> string -> list (option string * S);
  server_CloseConn : S -> Z -> list (option string * S);
  server_Close : S -> option S;
  server_Close_poll : S -> S * bool
}.

#[export] Instance lsp_server : Server LspServer.server := {|
  server_Read s :=
    option_list ((fun r => (r.1.1, inl r.1.2, r.2)) <$> LspServer.Read_data s) ++
    option_list ((fun r => (r.1.1, inr r.1.2, r.2)) <$> LspServer.Read_err s);
  server_Write s connID payload := option_list ((fun s => (None, s)) <$> LspServer.Write s connID payload);
  server_CloseConn s connID := option_list ((fun s => (None, s)) <$> LspServer.CloseConn s connID);
  server_Close := LspServer.Close_begin;
  server_Close_poll := LspServer.Close_poll
|}.

(** ** interface.go *)

(** [listens]: can the port be listened on?  [None] is a panic. *)
Class KeyValueServer (K : Type) := {
  kv_Start : K -> bool -> option K;
  kv_Count : K -> option Z;
  kv_Close : K -> option K
}.

#[export] Instance p1_server : KeyValueServer keyValueServer := {|
  kv_Start := KvServer.Start;
  kv_Count v := KvServer.Count (data v);
  kv_Close := KvServer.Close
|}.

(** ** What the interfaces ask *)

Section Contracts.
Context {C S : Type} `{Client C} `{Server S}.

(** "This method should NOT block", of [Write]. *)
Definition write_never_blocks (c : C) : Prop := forall payload, client_Write c payload <> [].

(** "should return a non-nil error if the connection with the server has been lost" *)
Definition write_fails (c : C) : Prop :=
  forall payload e c', (e, c') ∈ client_Write c payload -> is_Some e.

(** An error only when "no other messages are waiting to be returned". *)
Definition read_data_first (c : C) : Prop :=
  forall e c', (inr e, c') ∈ client_Read c -> forall d c'', (inl d, c'') ∉ client_Read c.

(** "returning a non-nil error if the specified connection ID does not exist" *)
Definition closeconn_fails (s : S) (connID : Z) : Prop :=
  forall e s', (e, s') ∈ server_CloseConn s connID -> is_Some e.
End Contracts.

(** ** What the implementations do *)

(** [Write] of a client blocks exactly when its queue is full, and never fails. *)
Lemma lsp_Write_spec (c : LspClient.client) payload :
  client_Write c payload =
    if Z.of_nat (length (tmsg (LspClient.win c))) <? 1000
    then [(None, LspClient.set_win c (set_tmsg (LspClient.win c)
            (tmsg (LspClient.win c) ++
             [NewData (LspClient.id c) (-1) (Z.of_nat (String.length payload)) payload])))]
    else [].
Proof. simpl. unfold LspClient.Write, send, LspClient.tmsg_cap. by case_match. Qed.

(** Data and the loss of the connection can both be ready, and [Read] may return either. *)
Lemma lsp_Read_either (c : LspClient.client) d q e l :
  LspClient.rmsg c = d :: q -> LspClient.err c = e :: l -> ~ read_data_first c.
Proof.
  intros E1 E2 H. apply (H e (LspClient.set_err c l)) with (d := d) (c'' := LspClient.set_rmsg c q);
    simpl; unfold LspClient.Read_data, LspClient.Read_err; rewrite E1, E2; simpl; set_solver.
Qed.

(** [CloseConn] of the server never fails. *)
Lemma lsp_CloseConn_ok (s : LspServer.server) connID :
  Z.of_nat (length (cls s)) < cls_cap -> ~ closeconn_fails s connID.
Proof.
  intros Hl H. destruct (H None (set_cls s (cls s ++ [connID]))) as [x Hx]; [|done].
  simpl. unfold CloseConn, push_cls, send. rewrite (proj2 (Z.ltb_lt _ _) Hl). simpl. by left.
Qed.

(** ** Writing after the connection is lost *)

(** The handler of the client at [a] has returned, and [n] messages are queued. *)
Definition stopped (n : nat) (a : string) (s : sys) : Prop :=
  exists c, ends s !! a = Some c /\ LspClient.pc c = LspClient.Returned /\
    (n <= length (tmsg (LspClient.win c)))%nat.

Lemma stopped_put n a s b c w r out :
  stopped n a s ->
  (forall c0, ends s !! b = Some c0 -> LspClient.pc c0 = LspClient.Returned ->
     LspClient.pc c = LspClient.Returned /\
     (length (tmsg (LspClient.win c0)) <= length (tmsg (LspClient.win c)))%nat) ->
  stopped n a (put_end s b c w r out).
Proof.
  intros (c0 & Hc0 & Hpc & Hn) H. destruct (decide (a = b)) as [->|Hne].
  - destruct (H _ Hc0 Hpc) as [? ?]. exists c. split_and!; [apply lookup_insert_eq|done|lia].
  - exists c0. split_and!; [|done..]. simpl. by rewrite lookup_insert_ne.
Qed.

Lemma stopped_move n a s b c r s' :
  stopped n a s -> ends s !! b = Some c ->
  (forall c' o, r = Some (c', o) -> LspClient.pc c = LspClient.Returned ->
     LspClient.pc c' = LspClient.Returned /\ LspClient.win c' = LspClient.win c) ->
  move_end s b r = Some s' -> stopped n a s'.
Proof.
  intros Hs Hb Hr. destruct r as [[c' o]|]; [|done]. intros [= <-]. apply stopped_put; [done|].
  intros c0 Hc0 Hpc. assert (c0 = c) as -> by congruence.
  destruct (Hr _ _ eq_refl Hpc) as [? ->]. done.
Qed.

Lemma stopped_end n a s b c ev s' :
  stopped n a s -> ends s !! b = Some c -> end_step s b c ev = Some s' -> stopped n a s'.
Proof.
  intros Hs Hb. destruct ev; cbn [end_step]; try done.
  - apply (stopped_move _ _ _ _ c); [done..|]. unfold LspClient.handler. intros c' o E Hpc. by rewrite Hpc in E.
  - destruct (to_cli s !! k) as [[d m]|]; [|done]. destruct (_ && _); [|done].
    apply (stopped_move _ _ _ _ c); [done..|]. unfold LspClient.receiver. intros c' o.
    destruct (LspClient.receiving c); [|done]. destruct (send _ _ _); [|done]. by intros [= <- _].
  - apply (stopped_move _ _ _ _ c); [done..|]. unfold LspClient.receiver. intros c' o.
    destruct (LspClient.receiving c); [|done]. case_match; by intros [= <- _].
  - destruct (established c); [|done]. unfold LspClient.Write.
    destruct (send _ _ _) as [q|] eqn:E; [|done]. intros [= <-]. apply stopped_put; [done|].
    intros c0 Hc0 Hpc. assert (c0 = c) as -> by congruence. split; [done|]. simpl.
    apply send_Some in E as [_ ->]. rewrite length_app. lia.
  - unfold LspClient.Read_data. destruct (LspClient.rmsg c); [done|]. intros [= <-].
    apply stopped_put; [done|]. intros c0 Hc0 Hpc. assert (c0 = c) as -> by congruence. done.
  - apply (stopped_move _ _ _ _ c); [done..|]. unfold LspClient.Read_err. intros c' o.
    destruct (LspClient.err c); [done|]. by intros [= <- _].
  - apply (stopped_move _ _ _ _ c); [done..|]. unfold LspClient.Close_begin. intros c' o.
    case_match; by intros [= <- _].
  - apply (stopped_move _ _ _ _ c); [done..|]. unfold LspClient.Close_poll. intros c' o [= <- _].
    repeat case_match; done.
Qed.

Lemma stopped_step n a s ev s' : stopped n a s -> step s ev = Some s' -> stopped n a s'.
Proof.
  intros Hs Hstep.
  assert (forall b, (c ← ends s !! b; end_step s b c ev) = Some s' -> stopped n a s') as Hend.
  { intros b. destruct (ends s !! b) as [c|] eqn:Hb; simpl; [|done]. by eapply stopped_end. }
  destruct ev; try exact (Hend _ Hstep).
  2-11: destruct Hs as (c & Hc & ?); exists c; split; [by rewrite (srv_step_ends _ _ _ Hstep)|done].
  cbn -[LspClient.NewClient] in Hstep. destruct (ends s !! a0) as [c|] eqn:Hb; [done|].
  destruct (LspClient.NewClient p) as [c out]. injection Hstep as <-. apply stopped_put; [done|].
  intros c0 Hc0. by rewrite Hb in Hc0.
Qed.

(** C25: writing to a lost connection.  client_api.go asks of [Write] not to block and to
    return an error when the connection is lost.  After the handler of a client has
    returned (the connection was given up, or closed), on every schedule, no write
    returns an error and nothing leaves the queue any more: the writes succeed until
    1000 messages are queued, and from then on each one blocks for ever. *)
Theorem write_after_loss s a c evs' s' c' :
  ends s !! a = Some c -> LspClient.pc c = LspClient.Returned ->
  exec step s evs' = Some s' -> ends s' !! a = Some c' ->
  LspClient.pc c' = LspClient.Returned /\
  (length (tmsg (LspClient.win c)) <= length (tmsg (LspClient.win c')))%nat /\
  (forall payload e c'', (e, c'') ∈ client_Write c' payload -> e = None) /\
  ((1000 <= length (tmsg (LspClient.win c)))%nat -> forall payload, client_Write c' payload = []).
Proof.
  intros Hc Hpc Hrun Hc'.
  assert (stopped (length (tmsg (LspClient.win c))) a s') as (c1 & Hc1 & Hpc1 & Hl).
  { assert (stopped (length (tmsg (LspClient.win c))) a s) as Hs by (by exists c).
    clear Hc' Hc. revert s s' Hs Hrun. induction evs' as [|ev evs' IH]; intros s s' Hs; simpl; [by intros [= <-]|].
    destruct (step s ev) as [s1|] eqn:E; [|done]. apply IH. by eapply stopped_step. }
  assert (c1 = c') as -> by congruence. split_and!; [done|done| |].
  - intros payload e c''. rewrite lsp_Write_spec. case_match; [|set_solver].
    intros E%list_elem_of_singleton. by injection E.
  - intros H payload. rewrite lsp_Write_spec. by rewrite (proj2 (Z.ltb_ge _ _)) by lia.
Qed.

(** ** Witness: a client that gives its server up, and goes on writing *)

Definition demo_given_up : list event :=
  demo_connect ++ replicate 5 (EHandler "c1" LspClient.CaseTimer).

Lemma write_after_loss_witness :
  let s := run step (init demo_params) demo_given_up in
  let s' := run step s [EWrite "c1" "lost"] in
  exists c', ends s' !! "c1"%string = Some c' /\ length (tmsg (LspClient.win c')) = 1%nat /\
    forall payload e c'', (e, c'') ∈ client_Write c' payload -> e = None.
Proof.
  intros s s'.
  destruct (ends s !! "c1"%string) as [c|] eqn:Ec; [|vm_compute in Ec; discriminate Ec].
  destruct (ends s' !! "c1"%string) as [c'|] eqn:Ec'; [|vm_compute in Ec'; discriminate Ec'].
  pose proof Ec as E. pose proof Ec' as E'. vm_compute in E, E'. injection E as E. injection E' as E'.
  exists c'. split; [reflexivity|]. split; [subst c'; vm_refl|].
  apply (write_after_loss s "c1" c [EWrite "c1" "lost"] s' c').
  - exact Ec.
  - subst c. vm_refl.
  - exact (exec_run step s [EWrite "c1" "lost"] ltac:(vm_refl)).
  - exact Ec'.
Defined.
