(* ===== verification/Programs.v ===== *)
(** The mains of the programs (src/project-2/src/example.com: crunner, srunner and
    bitcoin; src/project-1/src/example.com: srunner and crunner): from a command line to
    the service that runs, or to the lines printed before the program ends.

    Go's package [net], the opening of the log file and the texts of the errors of
    [strconv] are parameters.  [flag.Parse] has given the flags their values. *)
From Stdlib Require Import Ascii.
From S2P Require Import Prelude GoText Utf8 Json LspMessage LspIO LspNet LspClient LspServer LspSystem Transport LspTransport KvServer BitcoinHash BitcoinMiner BitcoinCodec BitcoinServer BitcoinSystem BitcoinEnd.

(** [strconv.ParseUint(s, 10, 64)]; [None] is its error. *)
Definition ParseUint (s : string) : option Z :=
  if negb (String.eqb s EmptyString) && all_chars is_digit s then
    z ← parse_int s; if bool_decide (uint64_ok z) then Some z else None
  else None.

Definition line (s : string) : string := (s ++ newline)%string.

(** A program prints [out], and then ends or runs [A]. *)
Record launch (A : Type) := mkLaunch { out : list string; service : option A }.
Arguments mkLaunch {A} _ _.
Arguments out {A} _.
Arguments service {A} _.

Section Programs.

Variable net_ResolveUDPAddr : string -> string -> NetAddr + string.
Variable net_ListenUDP : string -> option NetAddr -> Z + string.
Variable net_DialUDP : string -> option NetAddr -> option NetAddr -> Z + string.
Variable net_JoinHostPort : string -> string -> string.
Variable atoi_error : string -> string.

(** ** Starting the two ends of LSP *)

(** The result of a constructor: the process ended by [log.Fatal], an error, or the
    object. *)
Inductive started (A : Type) := Fatal (err : string) | Failed (err : string) | Started (x : A).
Arguments Fatal {A} _.
Arguments Failed {A} _.
Arguments Started {A} _.

(** [NewClient] up to its goroutines: the socket, the client and what it has written. *)
Definition NewClient_on (m : connections) (hostport : string) (params : LspMessage.Params)
    : started (Z * LspClient.client * list LspMessage.Message) * connections :=
  match ResolveUDPAddr net_ResolveUDPAddr "udp" hostport with
  | inr err => (Fatal err, m)
  | inl addr =>
      match DialUDP net_DialUDP m "udp" None (Some addr) with
      | (inr err, m) => (Fatal err, m)
      | (inl conn, m) =>
          let '(cli, written) := LspClient.NewClient params in (Started (conn, cli, written), m)
      end
  end.

Definition NewServer_on (m : connections) (port : Z) (params : LspMessage.Params)
    : started (Z * LspServer.server) * connections :=
  match ResolveUDPAddr net_ResolveUDPAddr "udp" ("localhost:" ++ Itoa port)%string with
  | inr err => (Failed err, m)
  | inl addr =>
      match ListenUDP net_ListenUDP m "udp" (Some addr) with
      | (inr err, m) => (Failed err, m)
      | (inl conn, m) => (Started (conn, LspServer.NewServer params), m)
      end
  end.

(** [lspnet.JoinHostPort] *)
Definition JoinHostPort (host port : string) : string := net_JoinHostPort host port.

(** ** crunner and srunner of project 2 *)

Record flags := mkFlags {
  port : Z;
  host : string;              (* crunner only *)
  readDrop : Z;
  writeDrop : Z;
  epochLimit : Z;
  epochMillis : Z;
  windowSize : Z;
  showLogs : bool
}.

Definition crunner_flags : flags :=
  mkFlags 9999 "localhost" 0 0 DefaultEpochLimit DefaultEpochMillis DefaultWindowSize false.

Definition srunner_flags : flags :=
  mkFlags 9999 EmptyString 0 0 DefaultEpochLimit DefaultEpochMillis DefaultWindowSize false.

(** The variables of lspnet: the percentages, [enableDebugLogs], [connectionMap]. *)
Record lspnet := mkLspnet { percents : staff; enableDebugLogs : Z; connectionMap : connections }.

Definition set_logs (f : flags) (n : lspnet) : Z :=
  if showLogs f then EnableDebugLogs true else enableDebugLogs n.

Definition flag_params (f : flags) : LspMessage.Params :=
  LspMessage.mkParams (epochLimit f) (epochMillis f) (windowSize f).

(** [main] of crunner; the process ends without a line on its output at [log.Fatal]. *)
Definition crunner_main (f : flags) (n : lspnet)
    : launch (Z * LspClient.client * list LspMessage.Message) * lspnet :=
  let st := SetClientWriteDropPercent (SetClientReadDropPercent (percents n) (readDrop f)) (writeDrop f) in
  let hostport := JoinHostPort (host f) (Itoa (port f)) in
  let first := line ("Connecting to server at '" ++ hostport ++ "'...") in
  let '(cli, m) := NewClient_on (connectionMap n) hostport (flag_params f) in
  (match cli with
   | Fatal err => mkLaunch [first] None
   | Failed err => mkLaunch [first; line ("Failed to connect to server at " ++ hostport ++ ": " ++ err)] None
   | Started c => mkLaunch [first] (Some c)
   end, mkLspnet st (set_logs f n) m).

(** [main] of srunner. *)
Definition srunner_main (f : flags) (n : lspnet) : launch (Z * LspServer.server) * lspnet :=
  let st := SetServerWriteDropPercent (SetServerReadDropPercent (percents n) (readDrop f)) (writeDrop f) in
  let first := line ("Starting server on port " ++ Itoa (port f) ++ "...") in
  let '(srv, m) := NewServer_on (connectionMap n) (port f) (flag_params f) in
  (match srv with
   | Fatal err => mkLaunch [first] None
   | Failed err =>
       mkLaunch [first; line ("Failed to start Server on port " ++ Itoa (port f) ++ ": " ++ err)] None
   | Started s => mkLaunch [first; line "Server waiting for clients..."] (Some s)
   end, mkLspnet st (set_logs f n) m).

(** ** The Bitcoin programs *)

Definition printResult (hash nonce : Z) : string := line ("Result " ++ Itoa hash ++ " " ++ Itoa nonce).
Definition printDisconnected : string := line "Disconnected".

(** [main] of the client before it connects: the server, the message and the largest
    nonce. *)
Definition client_args (args : list string) : launch (string * string * Z) :=
  match args with
  | [_; hostport; message; n] =>
      match ParseUint n with
      | None => mkLaunch [line (n ++ " is not a number.")] None
      | Some maxNonce => mkLaunch [] (Some (hostport, message, maxNonce))
      end
  | _ => mkLaunch ["Usage: ./" ++ default EmptyString (head args) ++ " <hostport> <message> <maxNonce>"]%string None
  end.

(** The connection, with what [main] prints when there is none. *)
Definition client_connect (m : connections) (hostport : string)
    : launch (Z * LspClient.client * list LspMessage.Message) * connections :=
  let '(cli, m) := NewClient_on m hostport LspMessage.NewParams in
  (match cli with
   | Fatal err => mkLaunch [] None
   | Failed err => mkLaunch [line ("Failed to connect to server: " ++ err)] None
   | Started c => mkLaunch [] (Some c)
   end, m).

(** What the client has printed when it is at [p]. *)
Definition client_printed (p : client_pc) : list string :=
  match p with
  | CDone m => [printResult (HashVal m) (Nonce m)]
  | CDisconnected _ => [printDisconnected]
  | CAsk | CWait | CGot _ | CLost => []
  end.

(** [joinWithServer] and the start of the miner's [main]; [log_opened]: could log.txt be
    opened? *)
Definition joinWithServer (m : connections) (hostport : string)
    : started (Z * LspClient.client * list LspMessage.Message) * connections :=
  NewClient_on m hostport LspMessage.NewParams.

Definition miner_main (log_opened : bool) (args : list string) (m : connections)
    : launch (Z * LspClient.client * list LspMessage.Message) * connections :=
  if log_opened then
    match args with
    | [_; hostport] =>
        let '(cli, m) := joinWithServer m hostport in
        (match cli with
         | Fatal err => mkLaunch [] None
         | Failed err => mkLaunch [line ("Failed to join with server: " ++ err)] None
         | Started c => mkLaunch [] (Some c)
         end, m)
    | _ => (mkLaunch ["Usage: ./" ++ default EmptyString (head args) ++ " <hostport>"]%string None, m)
    end
  else (mkLaunch [] None, m).

(** [startServer], and [main] of the server. *)
Definition start_server (m : connections) (port : Z) : started (Z * LspServer.server * server_app) * connections :=
  match NewServer_on m port LspMessage.NewParams with
  | (Started (conn, lspServer), m) => (Started (conn, lspServer, server_start), m)
  | (Failed err, m) => (Failed err, m)
  | (Fatal err, m) => (Fatal err, m)
  end.

Definition server_main (log_opened : bool) (args : list string) (m : connections)
    : launch (Z * LspServer.server * server_app) * connections :=
  if log_opened then
    match args with
    | [_; p] =>
        match Atoi p with
        | None => (mkLaunch [line ("Port must be a number: " ++ atoi_error p)] None, m)
        | Some port =>
            let '(srv, m) := start_server m port in
            (match srv with
             | Fatal err => mkLaunch [] None
             | Failed err => mkLaunch [line err] None
             | Started s => mkLaunch [line ("Server listening on port " ++ Itoa port)] (Some s)
             end, m)
        end
    | _ => (mkLaunch ["Usage: ./" ++ default EmptyString (head args) ++ " <port>"]%string None, m)
    end
  else (mkLaunch [] None, m).

(** ** The key/value programs of project 1 *)

Definition defaultPort : Z := 9999.

(** [New] never gives nil; [listen_error] is the error of listening on the port. *)
Definition kv_main (listen_error : option string) : launch keyValueServer :=
  let server := New_server in
  match KvServer.Start server (match listen_error with None => true | Some _ => false end), listen_error with
  | Some server, None =>
      mkLaunch [line ("Started KeyValueServer on port " ++ Itoa defaultPort ++ "...")] (Some server)
  | _, Some err => mkLaunch [line ("KeyValueServer could not be started: " ++ err)] None
  | None, None => mkLaunch [] None
  end.

Definition kv_crunner_main : launch unit := mkLaunch [line "Not implemented."] None.

(** ** What a command line starts *)

(** [NewClient] never returns an error: it ends the process instead. *)
Lemma NewClient_on_cases m hostport params r m' :
  NewClient_on m hostport params = (r, m') ->
  (exists err, r = Fatal err /\ m' = m) \/
  exists conn, r = Started (conn, (LspClient.NewClient params).1, (LspClient.NewClient params).2) /\
    m' = <[conn := false]> m.
Proof using Type.
  unfold NewClient_on, ResolveUDPAddr, DialUDP.
  destruct (net_ResolveUDPAddr _ _) as [addr|err]; [|intros [= <- <-]; left; by exists err].
  destruct (net_DialUDP _ _ _) as [conn|err]; [|intros [= <- <-]; left; by exists err].
  destruct (LspClient.NewClient params) as [cli out']. intros [= <- <-]. right. by exists conn.
Qed.

Lemma NewServer_on_cases m port params r m' :
  NewServer_on m port params = (r, m') ->
  (exists err, r = Failed err /\ m' = m) \/
  exists conn, r = Started (conn, srv (init params)) /\ m' = <[conn := true]> m.
Proof using Type.
  unfold NewServer_on, ResolveUDPAddr, ListenUDP.
  destruct (net_ResolveUDPAddr _ _) as [addr|err]; [|intros [= <- <-]; left; by exists err].
  destruct (net_ListenUDP _ _) as [conn|err]; [|intros [= <- <-]; left; by exists err].
  intros [= <- <-]. right. by exists conn.
Qed.

(** Whatever the flags, the percentages for dropping stay percentages, and a runner that
    goes on runs an end of the system of LspSystem.v with the parameters of its flags:
    the server of [init], or the client of the event [ENewClient]. *)
Lemma crunner_starts f n l n' :
  drops_ok (percents n) -> crunner_main f n = (l, n') ->
  drops_ok (percents n') /\ length (out l) = 1%nat /\
  forall conn c written, service l = Some (conn, c, written) ->
    (c, written) = LspClient.NewClient (flag_params f) /\
    readDropPercent (percents n') (connectionMap n') conn = clientReadDropPercent (percents n') /\
    writeDropPercent (percents n') (connectionMap n') conn = clientWriteDropPercent (percents n').
Proof using Type.
  intros Hn. unfold crunner_main. destruct (NewClient_on _ _ _) as [r m'] eqn:E.
  destruct (NewClient_on_cases _ _ _ _ _ E) as [(err & -> & ->)|(conn & -> & ->)]; intros [= <- <-];
    (split; [by apply drops_client_write, drops_client_read|]); (split; [done|]); [done|].
  intros conn' c written [= <- <- <-]. cbn [percents connectionMap]. unfold readDropPercent, writeDropPercent.
  by rewrite lookup_insert_eq.
Qed.

Lemma srunner_starts f n l n' :
  drops_ok (percents n) -> srunner_main f n = (l, n') ->
  drops_ok (percents n') /\
  (service l = None -> exists err, out l =
     [line ("Starting server on port " ++ Itoa (port f) ++ "...");
      line ("Failed to start Server on port " ++ Itoa (port f) ++ ": " ++ err)]) /\
  forall conn s, service l = Some (conn, s) ->
    s = srv (init (flag_params f)) /\
    readDropPercent (percents n') (connectionMap n') conn = serverReadDropPercent (percents n') /\
    writeDropPercent (percents n') (connectionMap n') conn = serverWriteDropPercent (percents n').
Proof using Type.
  intros Hn. unfold srunner_main. destruct (NewServer_on _ _ _) as [r m'] eqn:E.
  destruct (NewServer_on_cases _ _ _ _ _ E) as [(err & -> & ->)|(conn & -> & ->)]; intros [= <- <-];
    (split; [by apply drops_server_write, drops_server_read|]).
  - split; [by exists err|done].
  - split; [done|]. intros conn' s [= <- <-]. cbn [percents connectionMap].
    unfold readDropPercent, writeDropPercent. by rewrite lookup_insert_eq.
Qed.
End Programs.

Lemma ParseUint_range s z : ParseUint s = Some z -> uint64_ok z.
Proof.
  unfold ParseUint. destruct (_ && _); [|done]. destruct (parse_int s) as [x|]; simpl; [|done].
  case_bool_decide; [|done]. by intros [= <-].
Qed.

Lemma client_args_range args hostport message maxNonce :
  service (client_args args) = Some (hostport, message, maxNonce) -> uint64_ok maxNonce.
Proof.
  unfold client_args. destruct args as [|? [|? [|? [|n [|]]]]]; try done.
  destruct (ParseUint n) as [z|] eqn:E; [|done]. intros [= _ _ <-]. by eapply ParseUint_range.
Qed.

(** C3: the Bitcoin programs from the command line to the printed line.  The clients are
    those their command lines start, with a message that is text; clients, miners and
    the server run over the LSP library and an adversarial network, and any number of
    them come, are lost and are served.  A line that a client prints and that does not say that it was disconnected is
    the result collected from one answer for each range its request was cut into,
    each mined for that range and for the client's message.  So when the miners can
    search every range and no hash is zero, it is the least hash of all the nonces
    tried, with a nonce that has it. *)
Theorem bitcoin_command_line p floorLog10 ceilDiv floorLog roles evs c a message maxNonce text :
  (forall n, 10000 < n -> 0 < floorLog10 n < 2 ^ 62) ->
  (forall a message maxNonce, roles a = RClient message maxNonce -> utf8_ok message = true /\
     exists args hostport, service (client_args args) = Some (hostport, message, maxNonce)) ->
  Z.of_nat (length evs) < 2 ^ 62 ->
  exec (bitcoin_step p floorLog10 ceilDiv floorLog roles) (bitcoin_start p) evs = Some c ->
  roles a = RClient message maxNonce ->
  client_printed (client_at_addr (apps c) a) = [text] -> text <> printDisconnected ->
  exists parts pairs free i,
    parts = (fun r => (rlower r, rupper r)) <$> chunks floorLog10 ceilDiv (mkRequest i 0 maxNonce message) free /\
    pairs.*1 ≡ₚ parts /\
    text = printResult (HashVal (answer pairs.*2)) (Nonce (answer pairs.*2)) /\
    (forall rg r, (rg, r) ∈ pairs -> mined floorLog (NewRequest message rg.1 rg.2) r) /\
    ((forall rg, rg ∈ parts -> searchable floorLog rg) ->
     (forall k, tried floorLog parts k -> Hash message k <> 0) ->
     exists k, text = printResult (Hash message k) k /\ tried floorLog parts k /\
       forall k', tried floorLog parts k' -> Hash message k <= Hash message k').
Proof.
  intros Hlog Hroles Hlen Hrun Hr Hprint Htext.
  destruct (client_at_addr (apps c) a) as [| |m0| |m|reading] eqn:Hdone; try done; injection Hprint as <-; [|done].
  assert (forall a message maxNonce, roles a = RClient message maxNonce ->
    utf8_ok message = true /\ uint64_ok maxNonce) as Hroles'.
  { intros b msg n Hb. destruct (Hroles b msg n Hb) as (Hu & args & hostport & Hargs).
    split; [done|by eapply client_args_range]. }
  destruct (bitcoin_answer p floorLog10 ceilDiv floorLog roles evs c a message maxNonce m
    Hlog Hroles' Hlen Hrun Hr Hdone) as (parts & pairs & free & i & H1 & H2 & -> & H4 & H5).
  exists parts, pairs, free, i. split_and!; [done..|]. intros Hs Hnz.
  destruct (H5 Hs Hnz) as (k & Hk & Ht & Hmin). exists k. by rewrite Hk.
Qed.

(** ** Witness *)

Definition demo_command : list string := ["client"; "localhost:6060"; "bitcoin"; "9"].

Lemma bitcoin_command_line_witness :
  let c := run (bitcoin_step LspMessage.NewParams floor_log10 ceil_div floor_ln demo_roles)
             (bitcoin_start LspMessage.NewParams) demo_bitcoin in
  let text := printResult (HashVal demo_answer) (Nonce demo_answer) in
  client_printed (client_at_addr (apps c) "c1") = [text] /\
  exists pairs, text = printResult (HashVal (answer pairs.*2)) (Nonce (answer pairs.*2)) /\
    forall rg r, (rg, r) ∈ pairs -> mined floor_ln (NewRequest "bitcoin" rg.1 rg.2) r.
Proof.
  set (c := run _ _ _). cbv zeta.
  assert (client_printed (client_at_addr (apps c) "c1") =
    [printResult (HashVal demo_answer) (Nonce demo_answer)]) as Hdone by vm_refl.
  split; [exact Hdone|].
  destruct (bitcoin_command_line LspMessage.NewParams floor_log10 ceil_div floor_ln demo_roles demo_bitcoin c
    "c1" "bitcoin" 9 (printResult (HashVal demo_answer) (Nonce demo_answer)) floor_log10_range)
    as (parts & pairs & free & i & _ & _ & Ht & Hmined & _).
  - intros a message n. unfold demo_roles. destruct (String.eqb a "c1"); [|discriminate].
    intros E. injection E as <- <-. split; [vm_refl|]. exists demo_command, "localhost:6060"%string. vm_refl.
  - vm_refl.
  - exact (exec_run (bitcoin_step LspMessage.NewParams floor_log10 ceil_div floor_ln demo_roles)
       (bitcoin_start LspMessage.NewParams) demo_bitcoin ltac:(vm_refl)).
  - reflexivity.
  - exact Hdone.
  - vm_compute. discriminate.
  - exists pairs. split; [exact Ht|exact Hmined].
Defined.
